(* ===== verification/_CoqProject ===== *)
-Q . S2P
Prelude.v
Text.v
Types.v
Mpc.v
Envelope.v
Channel.v
Network.v
Policy.v
State.v
Exchange.v
MemHub.v
Hub.v
Control.v
Remote.v
Cosigner.v
Certs.v
Tls.v
Startup.v
Eth.v
Orchestrator.v
Api.v
Linear.v
Carbon.v
Lockstep.v
Ceremonies.v
Central.v
Relayed.v
OverRelay.v
Cli.v
Provision.v
Xtask.v
Bringup.v
Http.v
System.v
Lifetime.v
InProcess.v
EndToEnd.v
