(* ===== verification/Prelude.v ===== *)
(** * SOVRA: a verification development (root file)

    SOVRA is a t-of-n threshold-ECDSA custody service: an orchestrator
    ([sovra-api]) with a public HTTP API, n cosigner processes
    ([sovra-cosigner]) that each hold one key shard and enforce their own
    signing policy, and a relay over which the cosigners run the DKLs23
    protocol with signed and sealed envelopes.  This library models the Rust
    workspace under [src/crates/] as executable Rocq definitions and proves
    what makes it correct.  Each definition that models code carries a comment
    [src <crate>/<file>:<lines> <symbol>] naming the lines it translates.

    ** How the parts interact

    A request to [/v1/sign] runs like this.  [Api.sign_enter] decodes and
    validates the bytes ([Eth.decode_unsigned], [Eth.eth_validate]) and looks
    up the digest cache; under the operation lock [Remote.remote_sign] probes
    the cosigners, selects a quorum and posts the unsigned transaction to it.
    Every selected cosigner ([Cosigner.sign]) decodes the bytes again, puts
    the transaction to its own policy ([Policy.evaluate]), loads its shard
    ([State.load_shard]) and runs the protocol ([Carbon.sign_party]), whose
    rounds go through [Exchange.send_round] and [Exchange.recv_round] as
    sealed envelopes ([Envelope]) over the hub ([Hub], or [MemHub] within one
    process).  The answers are merged by [Remote.combine]; the API verifies
    the result against the active key ([Eth.eth_finalize]) before answering.

    ** The files

    - [Prelude]: results and the error-and-state monad with their notations,
      fixed-width words, byte arrays and big-endian integers, text messages,
      list and option lemmas, automation.
    - [Text]: the string functions of Rust's standard library the parsers use.
    - [Types] ([sovra-types]): identities, key shares, signature parts.
    - [Mpc] ([sovra-mpc]: [lib.rs], [types.rs], [runner.rs]): errors,
      ceremony instances, party contexts; the classes [Crypto] and
      [PartyRunner].
    - [Envelope], [Exchange], [MemHub], [Channel] ([sovra-mpc]:
      [envelope.rs], [exchange.rs], [memhub.rs]): the wire codec and its
      cryptography, one party's round driver, the in-memory relay.
    - [Hub], [Control], [Remote] ([sovra-ipc]: [hub.rs],
      [envelope_client.rs], [control.rs], [remote.rs]): the relay as a
      transition system, the bodies of the control plane, the orchestrator's
      view of the cosigners.
    - [State] ([sovra-state]): the shard store over a file system whose every
      primitive can fail, a write also half-way.
    - [Policy] ([sovra-policy]): the policy grammar and its evaluation.
    - [Network] ([sovra-network]): the [Network] trait as a class with its
      contract; [Eth] ([sovra-eth]) is its Ethereum instance, with the
      preparation, finalization and broadcast of transactions.
    - [Cosigner], [Startup] ([sovra-cosigner]): the handlers over the process
      state; startup from the configuration to serving, over the same disk:
      identity, roster, sealer, store, policy, TLS material.
    - [Api], [Orchestrator] ([sovra-api]): the public handlers as a transition
      system of concurrent tasks; recovery of the active key at startup.  [Linear] has
      the signer as a client sees it, one atomic step per request, and shows
      that [Api] implements it.
    - [Carbon], [InProcess] ([sovra-mpc-dkls23-carbon]): the DKLs23 adapter,
      the [PartyRunner] instance the cosigner runs with; the backend that runs
      every party in one process, over one store per party.
    - [Lockstep], [Ceremonies], [Central]: what the parties' runs amount to
      together.  [Lockstep] reads a ceremony as a tree of rounds and relates
      its asynchronous execution over [Exchange] to a synchronous one;
      [Ceremonies] shows that the runs of [Carbon] are such trees; [Central]
      has the ceremonies as one central execution of the library's phases.
    - [Relayed], [OverRelay]: the ceremonies run by clients of one [Hub]:
      what the hub has routed, holds and has written, and what that makes of
      the parties' runs.
    - [Certs] ([sovra-certs]): the certificate authority, leaves and CSR
      enrolment, on the same file system as [State]; [Tls] ([sovra-ipc],
      [tls.rs]): loading that material and the configurations built from it.
      [Startup] reads it; [Bringup] composes the seeding of certificates with
      the startup of the parties.
    - [Cli] ([sovra-cli]): the [certs] and [identity] verbs with what they
      print, and the endpoint of every other verb; [Xtask] ([xtask]): the
      launcher, over a log of the commands, requests and pauses it makes;
      [Provision]: that on a disk where nothing fails the routines creating
      key material never change a file that is there.
    - [Http] ([sovra-api] [run.rs], [sovra-observability] and the bits of
      [sovra-ipc] and [sovra-cosigner] that go with them): the public routes,
      the request id that threads the logs of all processes, the logging
      set-up, the receipt window of a broadcast.
    - [System]: the cosigner's router, and a fleet of such processes behind
      the orchestrator's client; [Lifetime]: one such process over requests,
      failing disks and restarts; [EndToEnd]: the public API over that fleet.

    ** What the theorems show

    - Safety of signing: no cosigner runs or contacts anything for a
      transaction its own policy refuses ([Cosigner.sign_requires_policy]);
      a returned signature recovers to the wallet key over the digest of the
      caller's own transaction ([Api.signature_verified],
      [Carbon.sign_party_sound], [Eth.finalize_exact]); a veto is final
      ([Remote.remote_veto_final]).
    - End to end: a signing request answered 200, under any interleaving, is
      for a digest that a quorum's own policies allowed
      ([EndToEnd.answered_by_quorum]); signatures come from a quorum's stored
      shares and a refusal reaches the caller with its reason
      ([System.fleet_sign_quorum], [System.fleet_veto_reason]); a generation
      is on every disk when the orchestrator hears of it, and survives its
      restart ([System.dkg_then_restart], [System.refresh_then_restart]);
      prepared bytes pass the orchestrator and any cosigner whose policy allows
      what was asked ([EndToEnd.prepare_then_sign]).
    - The key is never lost or replaced: through any requests, failures of
      its disk and restarts a cosigner keeps the generation it holds and comes
      up the same ([Lifetime.generation_for_life]), an active key never changes
      ([Api.operations_exclusive]), ceremonies keep the key they return
      ([Carbon.ceremonies_keep_key]), saves are crash-safe
      ([State.first_save_crash_safe], [State.resave_crash_safe]).
    - Concurrency: mailboxes are exclusive and FIFO in every reachable state
      of the hub ([Hub.hub_exclusive_fifo]); API operations are mutually
      exclusive, a digest is signed once, every request ends
      ([Api.sign_idempotent], [Api.every_request_ends]); the API is
      linearizable: under any interleaving it does what serving the requests
      one at a time does ([Linear.linearizable]).
    - The round protocol: what a round collects is a function of the traffic
      ([Exchange.recv_round_functional]), honest rounds complete under every
      interleaving ([Exchange.mesh_round_delivers]), forgeries abort them; a
      whole ceremony over authenticated channels returns what the synchronous
      one does, or times out when mail is lost ([Lockstep.async_refines_sync]),
      and at no point of any schedule is it stuck ([Lockstep.never_stuck]), nor
      over the relay, whatever the hub has done ([OverRelay.sign_over_relay]);
      the distributed key generation, refresh and signing return what the
      library's phases give when every message is handed to the party it is
      for ([Central.keygen_computes], [Central.refresh_computes],
      [Central.sign_computes]).
    - Codecs: each decoder inverts its encoder and accepts nothing else
      ([Envelope.wire_codec_exact], [Eth.unsigned_wire_exact]), and a
      signature binds the whole envelope.
    - Provisioning replaces a trust root only where it sees neither of its
      files and there is no leaf, which a failing look-up makes possible; it
      mints keys before certificates, lets no requester choose its own policy, and changes
      nothing when it is run again ([Certs.trust_root_never_replaced],
      [Certs.leaf_provisioned], [Certs.csr_policy_stamped],
      [Xtask.seed_certs_additive]); what it wrote is what the processes load
      and serve with, under one root, or nothing is
      ([Bringup.provisioned_parties_serve], [Tls.load_fail_closed]); enrolment from the command line ends with a
      certificate for the host's own key ([Cli.cli_enrolment]).
    - Bring-up: the identities collected by an operator or seeded by the
      launcher are a roster that every cosigner accepts
      ([Cli.collected_roster_accepted], [Xtask.up_pairs_the_parties]), the
      orchestrator is started only once every party answered, and the launcher
      always ends ([Xtask.launcher_ends]).
    - The in-process backend: a generation it reports is in every store, a
      signature is unanimous, no operation panics
      ([InProcess.generation_everywhere], [InProcess.inprocess_sign_unanimous],
      [InProcess.inprocess_never_panics]).
    - Policy and configuration are fail-closed
      ([Policy.evaluate_first_violation], [Policy.policy_grammar_fail_closed],
      [Orchestrator.start_has_quorum]); a cosigner starts exactly when all it
      needs is in order ([Startup.startup_consistent]).

    ** Modelling choices

    Machine integers are words with their width ([Prelude]), so wrapping and
    overflow are visible; byte arrays carry their length.  Handlers that run
    under [tokio] are atomic where the code holds a lock or never awaits, and
    are split at every access to shared memory where it does ([Api]).  A panic
    is an outcome of its own.  Fallible I/O draws its faults from a list in
    the state.  A log message has no effect and is left out, but for the
    request id it carries ([Http.one_request_id]).

    Third-party code is an interface with its documented laws: primitives and
    sealed boxes ([Mpc.Crypto]), alloy ([Eth.Alloy]), the DKLs23 library and
    k256 ([Carbon.Dkls]), JSON, TOML and hexadecimal codecs.  Each has a toy
    instance that satisfies its laws, on which the witnesses are evaluated.
    No law says that a signature or a hash is unforgeable: authenticity is
    always stated as "verifies under the sender's roster key".

    Loops are structural.  Two run on fuel.  For [Eth.poll_loop],
    [Http.broadcast_in_window] shows that any fuel above the number of polls
    in the timeout gives one and the same result; for [Xtask.poll],
    [Xtask.launcher_ends] shows that the fuel (one poll more than the timeout
    has half-seconds) is never used up, as soon as sleeping takes its time.
    [Lockstep.sync], a reference run and not a model of code, has the rounds
    of the ceremony as its fuel: three for the longest of them.  The retries of
    [Orchestrator.recover_with_retry] recurse on the code's own number of
    attempts.  Inbound traffic of a round is the finite list of what arrives
    before its deadline: when the list is exhausted the timeout fires, as in
    the code.

    ** Not modelled

    The parsing of command-line arguments (clap), the HTTP servers, the
    OpenAPI description and the inside of the HTTP, TLS and logging libraries:
    they configure libraries, print, or move bytes, and keep no state of their
    own.  The crates' test utilities and tests are left out. *)

From Stdlib Require Import NArith Lia String Ascii.
From stdpp Require Import base decidable countable list gmap strings.

#[export] Set Warnings "-clear-no-such-hyp".

(** ** Results: Rust's [Result<A, E>]. *)
Inductive result (E A : Type) : Type :=
  | Ok (a : A)
  | Err (e : E).
Arguments Ok {E A} a.
Arguments Err {E A} e.

#[export] Instance result_eq_dec {E A} `{EqDecision E, EqDecision A} : EqDecision (result E A).
Proof. solve_decision. Defined.

Declare Scope result_scope.
Delimit Scope result_scope with result.

(** Rust's [?]: the first error returns. *)
Definition rbind {E A B} (x : result E A) (f : A -> result E B) : result E B :=
  match x with Ok a => f a | Err e => Err e end.

(** [Result::map_err]. *)
Definition map_err {E F A} (f : E -> F) (x : result E A) : result F A :=
  match x with Ok a => Ok a | Err e => Err (f e) end.

(** [Result::map]. *)
Definition rmap {E A B} (f : A -> B) (x : result E A) : result E B :=
  match x with Ok a => Ok (f a) | Err e => Err e end.

(** [Option::ok_or]. *)
Definition ok_or {E A} (e : E) (x : option A) : result E A :=
  match x with Some a => Ok a | None => Err e end.

Definition is_ok {E A} (x : result E A) : bool :=
  match x with Ok _ => true | Err _ => false end.

Notation "'let?' x ':=' e 'in' k" := (rbind e (fun x => k))
  (at level 10, x pattern, e at level 100, k at level 200) : result_scope.
(** An early return: [if c { return Err(e) }]. *)
Notation "'fail?' c 'with' e 'in' k" := (if c then Err e else k)
  (at level 10, c at level 100, e at level 100, k at level 200) : result_scope.
#[global] Open Scope result_scope.

(** [iter().collect::<Result<Vec<_>, _>>()]: the first error wins. *)
Fixpoint collect {E A} (l : list (result E A)) : result E (list A) :=
  match l with
  | [] => Ok []
  | x :: l => let? a := x in let? r := collect l in Ok (a :: r)
  end.

Lemma rbind_Ok {E A B} (x : result E A) (f : A -> result E B) b :
  rbind x f = Ok b <-> exists a, x = Ok a /\ f a = Ok b.
Proof. destruct x; simpl; naive_solver. Qed.

Lemma rbind_Err {E A B} (x : result E A) (f : A -> result E B) e :
  rbind x f = Err e <-> x = Err e \/ exists a, x = Ok a /\ f a = Err e.
Proof. destruct x; simpl; naive_solver. Qed.

Lemma map_err_Ok {E F A} (f : E -> F) (x : result E A) a : map_err f x = Ok a <-> x = Ok a.
Proof. destruct x; simpl; naive_solver. Qed.

Lemma rmap_Ok {E A B} (f : A -> B) (x : result E A) b :
  rmap f x = Ok b <-> exists a, x = Ok a /\ b = f a.
Proof. destruct x; simpl; naive_solver. Qed.

Lemma ok_or_Ok {E A} (e : E) (x : option A) a : ok_or e x = Ok a <-> x = Some a.
Proof. destruct x; simpl; naive_solver. Qed.

Lemma collect_Ok {E A} (l : list (result E A)) r : collect l = Ok r <-> l = Ok <$> r.
Proof.
  revert r; induction l as [|x l IH]; intros [|a r]; simpl; try naive_solver.
  - rewrite rbind_Ok; setoid_rewrite rbind_Ok; naive_solver.
  - rewrite rbind_Ok; setoid_rewrite rbind_Ok. split.
    + intros (b & -> & c & Hc & [= -> ->]). apply IH in Hc as ->. done.
    + intros [= -> ->]. exists a; split; [done|]. exists r. rewrite (proj2 (IH r)); done.
Qed.

Lemma collect_Err {E A} (l : list (result E A)) e : collect l = Err e -> Err e ∈ l.
Proof.
  induction l as [|x l IH]; simpl; [done|].
  rewrite rbind_Err; intros [->|(a & -> & H)]; [left|right].
  apply rbind_Err in H as [?|(?&?&?)]; [auto|done].
Qed.

(** Peel every [?], map and guard off a successful (or failed) run. *)
Ltac inv_result :=
  repeat match goal with
  | H : Ok _ = Ok _ |- _ => injection H as H; subst
  | H : Err _ = Err _ |- _ => injection H as H; subst
  | H : Ok _ = Err _ |- _ => discriminate H
  | H : Err _ = Ok _ |- _ => discriminate H
  | H : rbind _ _ = Ok _ |- _ => apply rbind_Ok in H as (? & ? & ?)
  | H : map_err _ _ = Ok _ |- _ => apply map_err_Ok in H
  | H : rmap _ _ = Ok _ |- _ => apply rmap_Ok in H as (? & ? & ?)
  | H : ok_or _ _ = Ok _ |- _ => apply ok_or_Ok in H
  | H : (if ?c then Err _ else _) = Ok _ |- _ => destruct c eqn:?; [discriminate H|]
  end.

(** ** Stateful fallible code: explicit state passing with early returns. *)
Definition M (S E A : Type) : Type := S -> result E A * S.

Definition mpure {S E A} (a : A) : M S E A := fun st => (Ok a, st).
Definition mabort {S E A} (e : E) : M S E A := fun st => (Err e, st).
Definition mbnd {S E A B} (x : M S E A) (f : A -> M S E B) : M S E B :=
  fun st => match x st with
            | (Ok a, st') => f a st'
            | (Err e, st') => (Err e, st')
            end.
Definition mlift {S E A} (x : result E A) : M S E A := fun st => (x, st).
(** [.await.map_err(f)]. *)
Definition mmap_err {S E F A} (f : E -> F) (x : M S E A) : M S F A :=
  fun st => let (r, st') := x st in (map_err f r, st').

Notation "'let!' x ':=' e 'in' k" := (mbnd e (fun x => k))
  (at level 10, x pattern, e at level 100, k at level 200) : result_scope.

Lemma mbnd_Ok {S E A B} (x : M S E A) (f : A -> M S E B) st b st' :
  mbnd x f st = (Ok b, st') <-> exists a st1, x st = (Ok a, st1) /\ f a st1 = (Ok b, st').
Proof. unfold mbnd. destruct (x st) as [[]]; naive_solver. Qed.

Lemma mbnd_Err {S E A B} (x : M S E A) (f : A -> M S E B) st e st' :
  mbnd x f st = (Err e, st') <->
  x st = (Err e, st') \/ exists a st1, x st = (Ok a, st1) /\ f a st1 = (Err e, st').
Proof. unfold mbnd. destruct (x st) as [[]]; naive_solver. Qed.

(** ** Formatted messages: the value of a [format!], fragment by fragment. *)
Inductive frag : Type :=
  | Lit (s : string)      (* literal text of the format string *)
  | Num (n : N)           (* an unsigned integer, [{}] *)
  | Nums (l : list N)     (* a [Vec] of integers, [{:?}] *)
  | Hex (l : list N)      (* bytes displayed in hexadecimal *)
  | HttpStatus (n : N)    (* an HTTP status: the code and its reason phrase *)
  | Txt (s : string).     (* text produced by code outside the repository *)
Definition msg : Type := list frag.

(** [join(sep)]. *)
Fixpoint join_msgs (sep : string) (l : list msg) : msg :=
  match l with
  | [] => []
  | [m] => m
  | m :: l => (m ++ Lit sep :: join_msgs sep l)%list
  end.

#[export] Instance frag_eq_dec : EqDecision frag.
Proof. solve_decision. Defined.

(** ** Machine words: [word w] is a [w]-bit unsigned integer. *)
Record word (w : N) : Type := Word { wval : N; wval_ok : N.ltb wval (2 ^ w) = true }.
Arguments Word {w} _ _.
Arguments wval {w} _.
Arguments wval_ok {w} _.

(** Any proof of a boolean equation, in the form that computes to [eq_refl]. *)
Definition canon (b : bool) : b = true -> b = true :=
  match b with true => fun _ => eq_refl | false => fun H => H end.

Lemma wmod_ok w n : N.ltb (n mod 2 ^ w) (2 ^ w) = true.
Proof. apply N.ltb_lt, N.mod_lt, N.pow_nonzero; done. Qed.

(** Wrap-around: [n as uw]. *)
Definition wmod (w n : N) : word w := Word (n mod 2 ^ w) (canon _ (wmod_ok w n)).

Lemma word_eq {w} (a b : word w) : wval a = wval b -> a = b.
Proof.
  destruct a as [a Ha], b as [b Hb]; simpl; intros ->.
  f_equal. apply proof_irrel.
Qed.

Lemma word_lt {w} (a : word w) : (wval a < 2 ^ w)%N.
Proof. apply N.ltb_lt, wval_ok. Qed.

Lemma wval_wmod w n : wval (wmod w n) = (n mod 2 ^ w)%N.
Proof. done. Qed.

Lemma wmod_small w n : (n < 2 ^ w)%N -> wval (wmod w n) = n.
Proof. intros; simpl; by apply N.mod_small. Qed.

Lemma wmod_wval {w} (a : word w) : wmod w (wval a) = a.
Proof. apply word_eq. apply wmod_small, word_lt. Qed.

#[export] Instance word_eq_dec {w} : EqDecision (word w).
Proof.
  intros a b. destruct (decide (wval a = wval b)) as [H|H].
  - left. by apply word_eq.
  - right. congruence.
Defined.

#[export] Instance word_countable {w} : Countable (word w).
Proof. apply (inj_countable' wval (wmod w)). intros; apply wmod_wval. Defined.

Abbreviation u8 := (word 8).
Abbreviation u32 := (word 32).
Abbreviation u64 := (word 64).
Abbreviation u128 := (word 128).
Abbreviation U256 := (word 256).
Abbreviation bytes := (list (word 8)).

(** ** Byte arrays [[u8; n]] (and alloy's [FixedBytes<n>]). *)
Record array (n : nat) : Type := Array { arr : bytes; arr_ok : Nat.eqb (length arr) n = true }.
Arguments Array {n} _ _.
Arguments arr {n} _.
Arguments arr_ok {n} _.

Lemma array_eq {n} (a b : array n) : arr a = arr b -> a = b.
Proof.
  destruct a as [a Ha], b as [b Hb]; simpl; intros ->.
  f_equal. apply proof_irrel.
Qed.

Lemma array_len {n} (a : array n) : length (arr a) = n.
Proof. apply Nat.eqb_eq, arr_ok. Qed.

(** [<[u8; n]>::try_from(slice)]. *)
Definition to_array (n : nat) (l : bytes) : option (array n) :=
  match bool_dec (Nat.eqb (length l) n) true with
  | left H => Some (Array l (canon _ H))
  | right _ => None
  end.

Lemma to_array_Some n l (a : array n) : to_array n l = Some a <-> arr a = l.
Proof.
  unfold to_array. destruct (bool_dec _ _) as [H|H].
  - split; [intros [= <-]; done|]. intros <-. f_equal. by apply array_eq.
  - split; [done|]. intros <-. destruct H. apply arr_ok.
Qed.

Lemma to_array_None n l : to_array n l = None <-> length l <> n.
Proof.
  unfold to_array. destruct (bool_dec _ _) as [H|H].
  - split; [done|]. intros Hn; destruct Hn. by apply Nat.eqb_eq.
  - split; [|done]. intros _ <-. apply H. apply Nat.eqb_refl.
Qed.

Lemma to_array_arr {n} (a : array n) : to_array n (arr a) = Some a.
Proof. by apply to_array_Some. Qed.

Lemma to_array_is_Some n l : length l = n -> exists a, to_array n l = Some a /\ arr a = l.
Proof.
  intros H. destruct (to_array n l) as [a|] eqn:E.
  - exists a. split; [done|]. by apply to_array_Some in E.
  - by apply to_array_None in E.
Qed.

#[export] Instance array_eq_dec {n} : EqDecision (array n).
Proof.
  intros a b. destruct (decide (arr a = arr b)) as [H|H].
  - left. by apply array_eq.
  - right. congruence.
Defined.

#[export] Instance array_countable {n} : Countable (array n).
Proof. apply (inj_countable arr (to_array n)). intros; apply to_array_arr. Defined.

(** [[b; n]]: an array of one repeated byte ([B256::repeat_byte]). *)
Lemma repeat_ok (n : nat) (b : u8) : Nat.eqb (length (replicate n b)) n = true.
Proof. rewrite length_replicate. apply Nat.eqb_refl. Qed.
Definition array_repeat (n : nat) (b : u8) : array n := Array (replicate n b) (canon _ (repeat_ok n b)).

(** [slice.try_into().expect(..)] where the caller has sliced exactly [n]
    bytes, so the conversion cannot fail ([array_of_eq]). *)
Definition array_of (n : nat) (l : bytes) : array n :=
  default (array_repeat n (wmod 8 0)) (to_array n l).

Lemma array_of_eq {n} (a : array n) l : l = arr a -> array_of n l = a.
Proof. intros ->. unfold array_of. by rewrite to_array_arr. Qed.

Lemma arr_array_of n l : length l = n -> arr (array_of n l) = l.
Proof.
  intros H. unfold array_of. destruct (to_array_is_Some n l H) as (a & -> & Ha). done.
Qed.

Abbreviation B256 := (array 32).
Abbreviation Address := (array 20).

(** ** Byte-string literals: [b"..."]. *)
Definition u8_of_ascii (c : ascii) : u8 := wmod 8 (N_of_ascii c).
Fixpoint bstr (s : string) : bytes :=
  match s with
  | EmptyString => []
  | String c s => u8_of_ascii c :: bstr s
  end.

(** ** Big-endian integers. *)
Fixpoint le_bytes (k : nat) (n : N) : bytes :=
  match k with
  | O => []
  | S k => wmod 8 n :: le_bytes k (n / 2 ^ 8)
  end.
Fixpoint le_val (l : bytes) : N :=
  match l with
  | [] => 0
  | b :: l => (wval b + 2 ^ 8 * le_val l)%N
  end.
(** [to_be_bytes] / [from_be_bytes]. *)
Definition be_bytes (k : nat) (n : N) : bytes := reverse (le_bytes k n).
Definition be_val (l : bytes) : N := le_val (reverse l).

Lemma le_bytes_length k n : length (le_bytes k n) = k.
Proof. revert n; induction k; intros; simpl; auto. Qed.

Lemma le_val_bytes k n : le_val (le_bytes k n) = (n mod 2 ^ (8 * N.of_nat k))%N.
Proof.
  revert n; induction k as [|k IH]; intros n.
  - simpl. by rewrite N.mod_1_r.
  - cbn [le_bytes le_val]. rewrite IH, wval_wmod.
    replace (8 * N.of_nat (S k))%N with (8 + 8 * N.of_nat k)%N by lia.
    rewrite N.pow_add_r. rewrite N.Div0.mod_mul_r by (apply N.pow_nonzero; done). done.
Qed.

Lemma le_bytes_val l : le_bytes (length l) (le_val l) = l.
Proof.
  induction l as [|b l IH]; cbn [length le_bytes le_val]; [done|].
  f_equal.
  - apply word_eq. rewrite wval_wmod.
    rewrite N.mul_comm, N.Div0.mod_add. apply N.mod_small, word_lt.
  - rewrite N.mul_comm, N.div_add by done.
    rewrite (N.div_small (wval b)) by apply word_lt. by rewrite N.add_0_l.
Qed.

Lemma be_bytes_length k n : length (be_bytes k n) = k.
Proof. unfold be_bytes. by rewrite length_reverse, le_bytes_length. Qed.

Lemma be_val_bytes k n : be_val (be_bytes k n) = (n mod 2 ^ (8 * N.of_nat k))%N.
Proof. unfold be_val, be_bytes. by rewrite reverse_involutive, le_val_bytes. Qed.

Lemma be_bytes_val l : be_bytes (length l) (be_val l) = l.
Proof.
  unfold be_val, be_bytes. rewrite <- (length_reverse l), le_bytes_val.
  apply reverse_involutive.
Qed.

Lemma be_bytes_inj k a b :
  (a < 2 ^ (8 * N.of_nat k))%N -> (b < 2 ^ (8 * N.of_nat k))%N ->
  be_bytes k a = be_bytes k b -> a = b.
Proof.
  intros Ha Hb H. apply (f_equal be_val) in H. rewrite !be_val_bytes in H.
  by rewrite !N.mod_small in H.
Qed.

Lemma be_val_lt l : (be_val l < 2 ^ (8 * N.of_nat (length l)))%N.
Proof.
  rewrite <- (be_bytes_val l) at 1. rewrite be_val_bytes.
  apply N.mod_lt, N.pow_nonzero; done.
Qed.

(** ** Slices. *)
(** [slice.strip_prefix(p)]. *)
Fixpoint strip_pfx {A} `{EqDecision A} (p l : list A) : option (list A) :=
  match p, l with
  | [], _ => Some l
  | x :: p, y :: l => if decide (x = y) then strip_pfx p l else None
  | _ :: _, [] => None
  end.

Lemma strip_pfx_Some {A} `{EqDecision A} (p l r : list A) :
  strip_pfx p l = Some r <-> l = p ++ r.
Proof.
  revert l; induction p as [|x p IH]; intros [|y l]; simpl; try naive_solver.
  case_decide as H; simplify_eq/=; [rewrite IH|]; naive_solver.
Qed.

(** [slice.split_at(k)] (the callers check the length first). *)
Definition split_at {A} (k : nat) (l : list A) : list A * list A := (take k l, drop k l).

Lemma split_at_app {A} k (l1 l2 : list A) : length l1 = k -> split_at k (l1 ++ l2) = (l1, l2).
Proof. intros <-. unfold split_at. by rewrite take_app_length, drop_app_length. Qed.

(** [w.windows(2).all(|w| w[0] < w[1])]: strictly ascending. *)
Fixpoint ascending (l : list N) : bool :=
  match l with
  | x :: ((y :: _) as l') => N.ltb x y && ascending l'
  | _ => true
  end.

Lemma ascending_cons x l : ascending (x :: l) = true <-> Forall (N.lt x) l /\ ascending l = true.
Proof.
  revert x; induction l as [|y l IH]; intros x.
  - simpl. naive_solver.
  - change (ascending (x :: y :: l)) with (N.ltb x y && ascending (y :: l)).
    rewrite andb_true_iff, N.ltb_lt, Forall_cons. split.
    + intros [Hxy H]. split; [|done]. split; [done|].
      apply IH in H as [H _]. eapply Forall_impl; [done|]. intros z Hz; simpl in *; lia.
    + naive_solver.
Qed.

(** [l.contains(&x)]. *)
Definition contains {A} `{EqDecision A} (x : A) (l : list A) : bool := bool_decide (x ∈ l).

Lemma contains_true {A} `{EqDecision A} (x : A) l : contains x l = true <-> x ∈ l.
Proof. unfold contains. by rewrite bool_decide_eq_true. Qed.

Lemma contains_false {A} `{EqDecision A} (x : A) l : contains x l = false <-> x ∉ l.
Proof. unfold contains. by rewrite bool_decide_eq_false. Qed.

(** ** [BTreeMap<u8, V>]: an association list kept in strictly ascending key
    order, since the code iterates these maps. *)
Module BTree.
Section BTree.
Context {V : Type}.
Definition t : Type := list (u8 * V).

Fixpoint get (k : u8) (m : t) : option V :=
  match m with
  | [] => None
  | (k', v) :: m => if decide (k = k') then Some v else get k m
  end.

Definition contains_key (k : u8) (m : t) : bool := bool_decide (is_Some (get k m)).

(** Insertion replaces the value of an existing key. *)
Fixpoint insert (k : u8) (v : V) (m : t) : t :=
  match m with
  | [] => [(k, v)]
  | (k', v') :: m' =>
      if N.ltb (wval k) (wval k') then (k, v) :: m
      else if decide (k = k') then (k, v) :: m'
      else (k', v') :: insert k v m'
  end.

Definition keys (m : t) : list u8 := m.*1.

Definition wf (m : t) : bool := ascending (wval <$> keys m).

Lemma get_insert k v m k' :
  get k' (insert k v m) = if decide (k' = k) then Some v else get k' m.
Proof.
  induction m as [|[k0 v0] m IH]; simpl.
  - by repeat case_decide.
  - destruct (N.ltb _ _); simpl; [done|].
    repeat (case_decide; simplify_eq/=); auto; congruence.
Qed.

Lemma get_insert_eq k v m : get k (insert k v m) = Some v.
Proof. rewrite get_insert. by rewrite decide_True. Qed.

Lemma get_insert_ne k v m k' : k' <> k -> get k' (insert k v m) = get k' m.
Proof. intros. rewrite get_insert. by rewrite decide_False. Qed.

Lemma contains_key_true k m : contains_key k m = true <-> is_Some (get k m).
Proof. unfold contains_key. by rewrite bool_decide_eq_true. Qed.

Lemma contains_key_false k m : contains_key k m = false <-> get k m = None.
Proof. unfold contains_key. by rewrite bool_decide_eq_false, <- eq_None_not_Some. Qed.

Lemma get_elem_of k v m : get k m = Some v -> (k, v) ∈ m.
Proof.
  induction m as [|[k0 v0] m IH]; simpl; [done|].
  case_decide; simplify_eq/=; intros; simplify_eq/=; [left|right; auto].
Qed.

Lemma elem_of_keys k m : k ∈ keys m <-> is_Some (get k m).
Proof.
  induction m as [|[k0 v0] m IH]; simpl.
  - split; [by intros ?%not_elem_of_nil|intros [? ?]; done].
  - rewrite elem_of_cons. case_decide; simplify_eq/=; naive_solver.
Qed.

Lemma keys_insert k v m k' : k' ∈ keys (insert k v m) <-> k' = k \/ k' ∈ keys m.
Proof.
  rewrite !elem_of_keys, get_insert. case_decide; naive_solver.
Qed.

Lemma wf_insert k v m : wf m = true -> wf (insert k v m) = true.
Proof.
  unfold wf. induction m as [|[k0 v0] m IH]; simpl; [done|].
  change (ascending (wval k0 :: (wval <$> keys m)) = true -> 
          ascending (wval <$> keys (if N.ltb (wval k) (wval k0) then (k, v) :: (k0, v0) :: m
            else if decide (k = k0) then (k, v) :: m else (k0, v0) :: insert k v m)) = true).
  intros H. destruct (N.ltb (wval k) (wval k0)) eqn:Hlt; [|case_decide as Hk].
  - simpl. by rewrite Hlt.
  - by subst.
  - cbn [keys fmap list_fmap fst]. apply ascending_cons in H as [Hf Ha].
    apply ascending_cons. split; [|auto].
    apply Forall_fmap, Forall_forall. intros k1 Hk1. simpl.
    apply (keys_insert k v m k1) in Hk1 as [->|Hk1].
    + apply N.ltb_ge in Hlt. assert (wval k <> wval k0) by (by intros ?%word_eq).
      lia.
    + rewrite Forall_fmap, Forall_forall in Hf. by apply Hf.
Qed.

Lemma elem_of_get k v m : wf m = true -> (k, v) ∈ m -> get k m = Some v.
Proof.
  unfold wf. induction m as [|[k0 v0] m IH]; simpl; [by intros _ ?%not_elem_of_nil|].
  intros Hwf Hin. apply (ascending_cons (wval k0)) in Hwf as [Hf Ha].
  apply elem_of_cons in Hin as [?|Hin]; simplify_eq/=; [by rewrite decide_True|].
  rewrite decide_False; [auto|]. intros ->.
  rewrite Forall_fmap, Forall_forall in Hf.
  assert (k0 ∈ keys m) as Hk by (apply (list_elem_of_fmap_2 fst m (k0, v)); done).
  apply Hf in Hk. simpl in Hk. lia.
Qed.
Lemma get_keys_None k m : k ∉ keys m -> get k m = None.
Proof. rewrite elem_of_keys. by rewrite eq_None_not_Some. Qed.

Lemma wf_cons k v m : wf ((k, v) :: m) = true <-> Forall (fun k' => (wval k < wval k')%N) (keys m) /\ wf m = true.
Proof. unfold wf. cbn [keys fmap list_fmap fst]. by rewrite ascending_cons, Forall_fmap. Qed.

(** Two ordered maps with the same lookups are the same map. *)
Lemma wf_ext m m' : wf m = true -> wf m' = true -> (forall k, get k m = get k m') -> m = m'.
Proof.
  revert m'; induction m as [|[k v] m IH]; intros [|[k' v'] m'] Hm Hm' Heq; [done| | |].
  - specialize (Heq k'). simpl in Heq. by rewrite decide_True in Heq.
  - specialize (Heq k). simpl in Heq. by rewrite decide_True in Heq.
  - apply wf_cons in Hm as [Hlt Hm]. apply wf_cons in Hm' as [Hlt' Hm'].
    rewrite Forall_forall in Hlt, Hlt'. assert (k = k') as <-.
    { destruct (decide (k = k')) as [|Hne]; [done|]. exfalso.
      pose proof (Heq k) as H. pose proof (Heq k') as H'. simpl in H, H'.
      rewrite decide_True, decide_False in H by done. rewrite decide_False, decide_True in H' by congruence.
      assert (k ∈ keys m') as Hk%Hlt' by (apply elem_of_keys; by rewrite <- H).
      assert (k' ∈ keys m) as Hk'%Hlt by (apply elem_of_keys; by rewrite H'). lia. }
    pose proof (Heq k) as H. simpl in H. rewrite !decide_True in H by done. injection H as ->. f_equal.
    apply IH; [done..|]. intros q. specialize (Heq q). simpl in Heq. case_decide as Hq; [|done].
    subst q. rewrite !get_keys_None; [done|intros ?%Hlt'; lia|intros ?%Hlt; lia].
Qed.
End BTree.
Arguments t V : clear implicits.
End BTree.

Create HintDb sovra.
Create Rewrite HintDb sovra_len.
#[export] Hint Resolve word_lt array_len be_bytes_length : sovra.
#[export] Hint Rewrite @array_len be_bytes_length @length_app : sovra_len.

(** Solve a goal about the length of a concatenation of fixed-size parts. *)
Ltac solve_len := repeat (autorewrite with sovra_len; simpl); try lia.
