(* ===== verification/Text.v ===== *)
(** * Strings, as the Rust standard library cuts them

    A [str] is its UTF-8 bytes.  [split], [split_once], [trim] (over Unicode
    white space) and [u8::from_str], with the lemmas that let a parser built
    from them be run on what it is meant to read. *)

From S2P Require Import Prelude.
From Stdlib Require Import String Ascii NArith Lia.
From stdpp Require Import base decidable list strings.
Open Scope string_scope. Open Scope list_scope.

(** ** Splitting *)
Fixpoint has_char (c : ascii) (s : string) : bool :=
  match s with
  | EmptyString => false
  | String d s => bool_decide (d = c) || has_char c s
  end.

(** [s.split(c)]; [cur] is the part of the current piece already read. *)
Fixpoint split_on (c : ascii) (cur : string) (s : string) : list string :=
  match s with
  | EmptyString => [cur]
  | String d s =>
      if decide (d = c) then cur :: split_on c EmptyString s
      else split_on c (String.append cur (String d EmptyString)) s
  end.

(** [s.split_once(c)]. *)
Fixpoint split_once (c : ascii) (s : string) : option (string * string) :=
  match s with
  | EmptyString => None
  | String d s =>
      if decide (d = c) then Some (EmptyString, s)
      else match split_once c s with
           | Some (a, b) => Some (String d a, b)
           | None => None
           end
  end.

Lemma append_snoc a c s :
  String.append (String.append a (String c EmptyString)) s = String.append a (String c s).
Proof.
  induction a as [|x a IH]; [done|].
  change (String x (String.append (String.append a (String c EmptyString)) s)
          = String x (String.append a (String c s))). by rewrite IH.
Qed.

Lemma append_nil_r s : String.append s EmptyString = s.
Proof.
  induction s as [|x s IH]; [done|].
  change (String x (String.append s EmptyString) = String x s). by rewrite IH.
Qed.

Lemma split_on_none c cur s : has_char c s = false -> split_on c cur s = [String.append cur s].
Proof.
  revert cur. induction s as [|d s IH]; simpl; intros cur H; [by rewrite append_nil_r|].
  apply orb_false_iff in H as [Hd Hs]. apply bool_decide_eq_false in Hd.
  rewrite decide_False by done. rewrite IH by done. by rewrite append_snoc.
Qed.

Lemma split_on_app c cur a s :
  has_char c a = false ->
  split_on c cur (String.append a (String c s)) = String.append cur a :: split_on c EmptyString s.
Proof.
  revert cur. induction a as [|d a IH]; simpl; intros cur H.
  - by rewrite decide_True, append_nil_r by done.
  - apply orb_false_iff in H as [Hd Ha]. apply bool_decide_eq_false in Hd.
    rewrite decide_False by done. rewrite IH by done. by rewrite append_snoc.
Qed.

Lemma split_once_app c a s :
  has_char c a = false -> split_once c (String.append a (String c s)) = Some (a, s).
Proof.
  induction a as [|d a IH]; simpl; intros H.
  - by rewrite decide_True by done.
  - apply orb_false_iff in H as [Hd Ha]. apply bool_decide_eq_false in Hd.
    by rewrite decide_False, IH by done.
Qed.

Lemma has_char_app c a b : has_char c (String.append a b) = has_char c a || has_char c b.
Proof.
  induction a as [|d a IH]; [done|].
  change (bool_decide (d = c) || has_char c (String.append a b)
          = (bool_decide (d = c) || has_char c a) || has_char c b).
  by rewrite IH, orb_assoc.
Qed.

(** ** Trimming: [char::is_whitespace] is Unicode's [White_Space], here by
    its UTF-8 encodings. *)
Definition white_space : list (list ascii) :=
  List.map (List.map ascii_of_N)
  ([[9]; [10]; [11]; [12]; [13]; [32]; [194; 133]; [194; 160]; [225; 154; 128];
    [226; 128; 168]; [226; 128; 169]; [226; 128; 175]; [226; 129; 159]; [227; 128; 128]]
   ++ List.map (fun n => [226; 128; 128 + N.of_nat n]) (seq 0 11))%N.

(** The first of the patterns that [s] starts with is removed. *)
Fixpoint strip_any (ps : list (list ascii)) (s : list ascii) : option (list ascii) :=
  match ps with
  | [] => None
  | p :: ps => match strip_pfx p s with Some s' => Some s' | None => strip_any ps s end
  end.

(** Every pattern has at least one byte, so [length s] rounds are enough. *)
Fixpoint strip_all (fuel : nat) (ps : list (list ascii)) (s : list ascii) : list ascii :=
  match fuel with
  | O => s
  | S fuel => match strip_any ps s with Some s' => strip_all fuel ps s' | None => s end
  end.

Definition trim_start (s : list ascii) : list ascii := strip_all (length s) white_space s.
Definition trim_end (s : list ascii) : list ascii :=
  reverse (strip_all (length s) (reverse <$> white_space) (reverse s)).
(** [s.trim()]. *)
Definition trim (s : string) : string :=
  string_of_list_ascii (trim_end (trim_start (list_ascii_of_string s))).

(** No white space at either end. *)
Definition trimmed (s : list ascii) : Prop :=
  strip_any white_space s = None /\ strip_any (reverse <$> white_space) (reverse s) = None.

Lemma strip_all_None fuel ps s : strip_any ps s = None -> strip_all fuel ps s = s.
Proof. intros H. destruct fuel; simpl; [done|]. by rewrite H. Qed.

Lemma trim_trimmed s : trimmed (list_ascii_of_string s) -> trim s = s.
Proof.
  intros [Ha Hb]. unfold trim, trim_start, trim_end. rewrite (strip_all_None _ _ _ Ha).
  rewrite (strip_all_None _ _ _ Hb), reverse_involutive. apply string_of_list_ascii_of_string.
Qed.

Lemma list_ascii_app a b :
  list_ascii_of_string (String.append a b) = list_ascii_of_string a ++ list_ascii_of_string b.
Proof. induction a as [|c a IH]; [done|]. simpl. f_equal. exact IH. Qed.

Lemma strip_any_None ps s :
  strip_any ps s = None <-> forall p, p ∈ ps -> forall r, s <> p ++ r.
Proof.
  induction ps as [|q ps IH]; simpl.
  - split; [|done]. intros _ p H. by apply not_elem_of_nil in H.
  - destruct (strip_pfx q s) as [r|] eqn:E.
    + split; [done|]. intros H. apply strip_pfx_Some in E. by destruct (H q (list_elem_of_here _ _) r).
    + rewrite IH. split.
      * intros H p [->|Hp]%elem_of_cons r; [|by apply H].
        intros Hs%strip_pfx_Some. congruence.
      * intros H p Hp. apply H. by right.
Qed.

(** A character no pattern holds ends the search. *)
Lemma strip_any_barrier ps a c b :
  Forall (fun p => c ∉ p) ps -> strip_any ps a = None -> strip_any ps (a ++ c :: b) = None.
Proof.
  rewrite Forall_forall, !strip_any_None. intros Hc Ha p Hp r E.
  destruct (decide (length p <= length a)%nat) as [Hl|Hl].
  - apply (Ha p Hp (drop (length p) a)). apply (f_equal (take (length p))) in E.
    rewrite take_app_le, take_app_length in E by done.
    rewrite <- (take_drop (length p) a) at 1. by rewrite E.
  - apply (Hc p Hp). apply (f_equal (fun l => l !! length a)) in E.
    rewrite lookup_app_r, Nat.sub_diag in E by done. simpl in E.
    rewrite lookup_app_l in E by lia. by apply list_elem_of_lookup_2 with (length a).
Qed.

Definition no_space_has (c : ascii) : bool :=
  forallb (fun p => negb (existsb (Ascii.eqb c) p)) white_space.

Lemma no_space_has_spec c :
  no_space_has c = true ->
  Forall (fun p => c ∉ p) white_space /\ Forall (fun p => c ∉ p) (reverse <$> white_space).
Proof.
  intros H. assert (Forall (fun p => c ∉ p) white_space) as Ha.
  { apply Forall_forall. intros p Hp Hc. unfold no_space_has in H.
    rewrite forallb_forall in H. apply list_elem_of_In, H, negb_true_iff in Hp.
    apply not_true_iff_false in Hp. apply Hp, existsb_exists. exists c.
    split; [by apply list_elem_of_In|by apply Ascii.eqb_eq]. }
  split; [done|]. apply Forall_fmap. eapply Forall_impl; [exact Ha|].
  intros p. simpl. by rewrite elem_of_reverse.
Qed.

(** Text that ends without white space still does after a visible character. *)
Lemma trimmed_mid a c b :
  no_space_has c = true -> strip_any white_space a = None ->
  strip_any (reverse <$> white_space) (reverse b) = None -> trimmed (a ++ c :: b).
Proof.
  intros [H1 H2]%no_space_has_spec Ha Hb. split.
  - by apply strip_any_barrier.
  - rewrite reverse_app, reverse_cons, <- app_assoc.
    exact (strip_any_barrier _ (reverse b) c (reverse a) H2 Hb).
Qed.

(** ** [u8::from_str] *)
Inductive IntErrorKind : Type := EmptyInt | InvalidDigit | PosOverflow.

Definition to_digit (c : ascii) : option N :=
  let n := N_of_ascii c in if N.leb 48 n && N.leb n 57 then Some (n - 48)%N else None.

Fixpoint digits_u8 (acc : N) (s : string) : result IntErrorKind N :=
  match s with
  | EmptyString => Ok acc
  | String c s =>
      match to_digit c with
      | None => Err InvalidDigit
      | Some d =>
          if N.ltb 255 (acc * 10) then Err PosOverflow
          else if N.ltb 255 (acc * 10 + d) then Err PosOverflow
          else digits_u8 (acc * 10 + d) s
      end
  end.

Definition parse_u8 (s : string) : result IntErrorKind u8 :=
  match s with
  | EmptyString => Err EmptyInt
  | String c EmptyString =>
      if bool_decide (c = "+"%char) || bool_decide (c = "-"%char) then Err InvalidDigit
      else rmap (wmod 8) (digits_u8 0 s)
  | String c s' => rmap (wmod 8) (digits_u8 0 (if decide (c = "+"%char) then s' else s))
  end.

(** Its decimal form. *)
Definition digit (n : N) : ascii := ascii_of_N (48 + n).
Definition show_u8 (x : u8) : string :=
  let n := wval x in
  let ones := String (digit (n mod 10)) EmptyString in
  let tens := String (digit (n / 10 mod 10)) ones in
  if N.ltb n 10 then ones else if N.ltb n 100 then tens else String (digit (n / 100)) tens.

(** What each of the 256 values displays as. *)
Definition shows_well (x : u8) : bool :=
  match parse_u8 (show_u8 x) with Ok y => N.eqb (wval y) (wval x) | Err _ => false end
  && negb (has_char "="%char (show_u8 x)) && negb (has_char ","%char (show_u8 x))
  && match list_ascii_of_string (show_u8 x) with
     | [] => false
     | c :: l => no_space_has c && forallb no_space_has l
     end.

Lemma all_show_well : forallb (fun n => shows_well (wmod 8 (N.of_nat n))) (seq 0 256) = true.
Proof. vm_compute. reflexivity. Qed.

Lemma show_u8_well x : shows_well x = true.
Proof.
  pose proof all_show_well as H. rewrite forallb_forall in H.
  pose proof (word_lt x) as Hx. change (2 ^ 8)%N with 256%N in Hx.
  specialize (H (N.to_nat (wval x))). rewrite N2Nat.id, wmod_wval in H. apply H.
  apply in_seq. lia.
Qed.

Lemma show_u8_spec x :
  parse_u8 (show_u8 x) = Ok x /\ has_char "="%char (show_u8 x) = false /\
  has_char ","%char (show_u8 x) = false /\
  exists c l, list_ascii_of_string (show_u8 x) = c :: l /\
    Forall (fun c => no_space_has c = true) (c :: l).
Proof.
  pose proof (show_u8_well x) as H. unfold shows_well in H. rewrite !andb_true_iff in H.
  destruct H as [[[H1 H2%negb_true_iff] H3%negb_true_iff] H4]. split_and!; try done.
  - destruct (parse_u8 (show_u8 x)) as [y|]; [|done]. f_equal. apply word_eq. by apply N.eqb_eq.
  - destruct (list_ascii_of_string (show_u8 x)) as [|c l]; [done|]. exists c, l. split; [done|].
    apply andb_true_iff in H4 as [H4 H5]. constructor; [done|].
    apply Forall_forall. intros d Hd. rewrite forallb_forall in H5. apply H5. by apply list_elem_of_In.
Qed.

(** Text whose characters are all visible is trimmed. *)
Lemma visible_trimmed l : Forall (fun c => no_space_has c = true) l -> trimmed l.
Proof.
  intros H. destruct l as [|c l].
  - split; vm_compute; reflexivity.
  - destruct (exists_last (l := c :: l)) as (a & d & E); [done|]. rewrite E in *.
    assert (no_space_has d = true) as Hd by (apply Forall_app in H as [_ H]; by apply Forall_cons in H as [H _]).
    destruct (no_space_has_spec d Hd) as [H1 H2]. split.
    + rewrite <- E in *. apply Forall_cons in H as [Hc _].
      apply (strip_any_barrier white_space [] c l); [|vm_compute; reflexivity].
      by apply no_space_has_spec.
    + rewrite reverse_snoc. apply (strip_any_barrier _ [] d); [done|vm_compute; reflexivity].
Qed.

(** ** [String::from_utf8]: the well-formed byte sequences of the Unicode
    standard, table 3-7. *)
Definition in_range (lo hi : N) (b : u8) : bool := N.leb lo (wval b) && N.leb (wval b) hi.
Definition continuation (b : u8) : bool := in_range 128 191 b.

Fixpoint utf8_valid (l : bytes) : bool :=
  match l with
  | [] => true
  | a :: l =>
      if in_range 0 127 a then utf8_valid l else
      match l with
      | [] => false
      | b :: l =>
          if in_range 194 223 a then continuation b && utf8_valid l else
          match l with
          | [] => false
          | c :: l =>
              if in_range 224 239 a then
                in_range (if N.eqb (wval a) 224 then 160 else 128)
                        (if N.eqb (wval a) 237 then 159 else 191) b
                && continuation c && utf8_valid l
              else
              match l with
              | [] => false
              | d :: l =>
                  in_range 240 244 a
                  && in_range (if N.eqb (wval a) 240 then 144 else 128)
                             (if N.eqb (wval a) 244 then 143 else 191) b
                  && continuation c && continuation d && utf8_valid l
              end
          end
      end
  end.

Lemma utf8_valid_ascii l : forallb (in_range 0 127) l = true -> utf8_valid l = true.
Proof.
  induction l as [|a l IH]; [done|]. cbn [forallb utf8_valid].
  intros [-> Hl]%andb_true_iff. auto.
Qed.

(** [s.ends_with(suffix)]. *)
Definition ends_with (suffix s : string) : bool :=
  bool_decide (reverse (list_ascii_of_string suffix) `prefix_of` reverse (list_ascii_of_string s)).

Lemma ends_with_app a b : ends_with b (String.append a b) = true.
Proof.
  apply bool_decide_eq_true. rewrite list_ascii_app, reverse_app. by exists (reverse (list_ascii_of_string a)).
Qed.

(** [s.trim_end_matches(suffix)]: the suffix is removed as often as it is
    there. *)
Definition trim_end_matches (suffix s : string) : string :=
  let l := list_ascii_of_string s in
  string_of_list_ascii (reverse (strip_all (length l) [reverse (list_ascii_of_string suffix)] (reverse l))).

Lemma trim_end_matches_once suffix s :
  suffix <> EmptyString -> ends_with suffix s = false ->
  trim_end_matches suffix (String.append s suffix) = s.
Proof.
  intros Hne He. unfold trim_end_matches. rewrite list_ascii_app, reverse_app, length_app.
  set (r := reverse (list_ascii_of_string suffix)).
  assert (r <> []) as Hr.
  { unfold r. intros E. apply (f_equal length) in E. rewrite length_reverse in E. by destruct suffix. }
  assert (length (list_ascii_of_string suffix) <> 0)%nat as Hl by (by destruct suffix).
  destruct (length (list_ascii_of_string s) + length (list_ascii_of_string suffix))%nat as [|k] eqn:E; [lia|].
  cbn [strip_all strip_any]. rewrite (proj2 (strip_pfx_Some r (r ++ _) _) eq_refl).
  assert (strip_any [r] (reverse (list_ascii_of_string s)) = None) as Hnone.
  { cbn. destruct (strip_pfx r _) as [t|] eqn:Ht; [|done]. apply strip_pfx_Some in Ht.
    unfold ends_with in He. apply bool_decide_eq_false in He. destruct He. by exists t. }
  rewrite strip_all_None by done. by rewrite reverse_involutive, string_of_list_ascii_of_string.
Qed.

Example utf8_examples :
  utf8_valid (wmod 8 <$> [226; 130; 172]%N) = true /\      (* the euro sign *)
  utf8_valid (wmod 8 <$> [192; 175]%N) = false /\          (* an overlong slash *)
  utf8_valid (wmod 8 <$> [237; 160; 128]%N) = false /\     (* a surrogate *)
  utf8_valid (wmod 8 <$> [240; 159; 148; 145]%N) = true.
Proof. vm_compute. done. Qed.
