(* ===== verification/Types.v ===== *)
(** * Shared types ([crates/sovra-types])

    The chain-neutral identities and secrets every other component exchanges.
    [PubkeySec1] is well formed by construction: it can only be built by
    [from_slice], whose accepted inputs are characterised here.  The
    hexadecimal codec is alloy's ([alloy_primitives::hex]), so it is an
    interface with its round-trip law; [ToyHex] inhabits it. *)

From S2P Require Import Prelude.
From Stdlib Require Import String Ascii NArith Lia.
From stdpp Require Import base decidable countable list strings.
Open Scope string_scope.

(* src types/lib.rs:13-14 ACTIVE_SIGNER_ID *)
Definition ACTIVE_SIGNER_ID : string := "default".

(* src types/lib.rs:16-26 NetworkId *)
Inductive NetworkId : Set := Ethereum.

#[export] Instance NetworkId_eq_dec : EqDecision NetworkId.
Proof. solve_decision. Defined.

(** ** The alloy hexadecimal codec. *)
Class HexCodec : Type := {
  hex_encode : bytes -> string;             (* lowercase, no prefix *)
  hex_decode : string -> option bytes;      (* accepts an optional 0x *)
}.
(** [hex::decode] inverts [hex::encode], with or without the [0x] prefix. *)
Class HexLaws (H : HexCodec) : Prop := {
  hex_decode_0x : forall b, hex_decode ("0x" ++ hex_encode b) = Some b;
  hex_decode_plain : forall b, hex_decode (hex_encode b) = Some b;
}.

(** ** [PubkeySec1] *)
(* src types/lib.rs:52-52 PubkeySec1::from_slice *)
Definition prefix_ok (b : bytes) : bool :=
  match b with
  | b0 :: _ => N.eqb (wval b0) 2 || N.eqb (wval b0) 3
  | [] => false
  end.

(* src types/lib.rs:28-33 PubkeySec1 *)
Record PubkeySec1 : Type := MkPubkey {
  pk_bytes : array 33;
  pk_ok : prefix_ok (arr pk_bytes) = true;
}.

Lemma PubkeySec1_eq (a b : PubkeySec1) : pk_bytes a = pk_bytes b -> a = b.
Proof. destruct a, b; simpl; intros ->. f_equal. apply proof_irrel. Qed.

#[export] Instance PubkeySec1_eq_dec : EqDecision PubkeySec1.
Proof.
  intros a b. destruct (decide (pk_bytes a = pk_bytes b)) as [H|H].
  - left. by apply PubkeySec1_eq.
  - right. congruence.
Defined.

(** [InvalidPubkey(String)]. *)
(* src types/lib.rs:35-37 InvalidPubkey *)
Inductive InvalidPubkey : Type := InvalidPubkeyMsg (m : msg).

(** [bytes[0]] of a non-empty array. *)
Definition first_byte (b : bytes) : N := match b with b0 :: _ => wval b0 | [] => 0 end.

(* src types/lib.rs:48-59 PubkeySec1::from_slice *)
Definition from_slice (b : bytes) : result InvalidPubkey PubkeySec1 :=
  match to_array 33 b with
  | None =>
      Err (InvalidPubkeyMsg [Lit "expected 33 bytes, got "; Num (N.of_nat (length b))])
  | Some a =>
      match bool_dec (prefix_ok (arr a)) true with
      | left H => Ok (MkPubkey a (canon _ H))
      | right _ =>
          Err (InvalidPubkeyMsg
                 [Lit "expected 0x02/0x03 parity prefix, got "; Hex [first_byte b]])
      end
  end.

(* src types/lib.rs:61-63 PubkeySec1::as_bytes *)
Definition as_bytes (p : PubkeySec1) : array 33 := pk_bytes p.

Section Display.
Context `{HexCodec}.
(** [Display], which is also the serde form ([collect_str]). *)
(* src types/lib.rs:66-70 <PubkeySec1 as Display>::fmt *)
Definition pk_to_string (p : PubkeySec1) : string := "0x" ++ hex_encode (arr (pk_bytes p)).
(** [FromStr], which is also the serde parser. *)
(* src types/lib.rs:72-80 <PubkeySec1 as FromStr>::from_str *)
Definition pk_from_str (s : string) : result InvalidPubkey PubkeySec1 :=
  match hex_decode s with
  | None => Err (InvalidPubkeyMsg [Txt "hex"])
  | Some b => from_slice b
  end.
End Display.

(** The derived [Debug]s, of a key and of the reports on a key. *)
Definition dbg_pubkey (p : PubkeySec1) : msg := [Lit "PubkeySec1("; Nums (wval <$> arr (pk_bytes p)); Lit ")"].
Definition dbg_report (x : N * option PubkeySec1) : msg :=
  ([Lit "("; Num (fst x); Lit ", "]
   ++ match snd x with None => [Lit "None"] | Some p => [Lit "Some("] ++ dbg_pubkey p ++ [Lit ")"] end ++ [Lit ")"])%list.
Definition dbg_reports (l : list (N * option PubkeySec1)) : msg :=
  ([Lit "["] ++ join_msgs ", " (dbg_report <$> l) ++ [Lit "]"])%list.

(** ** Signatures, identifiers, shards *)
(* src types/lib.rs:96-102 EcdsaParts *)
Record EcdsaParts : Type := MkEcdsaParts { r : U256; s : U256; y_parity : bool }.

#[export] Instance EcdsaParts_eq_dec : EqDecision EcdsaParts.
Proof. solve_decision. Defined.

(* src types/lib.rs:104-116 SignerId *)
Definition SignerId : Type := string.
(* src types/lib.rs:124-142 KeyShare *)
Definition KeyShare : Type := bytes.
(* src types/lib.rs:144-151 SignerMetadata *)
Record SignerMetadata : Type := MkMeta { signer_id : SignerId; public_key : PubkeySec1 }.

#[export] Instance SignerMetadata_eq_dec : EqDecision SignerMetadata.
Proof. unfold SignerId. solve_decision. Defined.
#[export] Instance KeyShare_eq_dec : EqDecision KeyShare.
Proof. unfold KeyShare. apply _. Defined.

(** ** Properties *)

Lemma from_slice_spec b p :
  from_slice b = Ok p <-> arr (pk_bytes p) = b.
Proof.
  unfold from_slice. destruct (to_array 33 b) as [a|] eqn:Ha.
  - apply to_array_Some in Ha as <-. destruct (bool_dec _ _) as [H|H].
    + split; [intros [= <-]; done|]. intros E%array_eq. f_equal. by apply PubkeySec1_eq.
    + split; [done|]. intros E. destruct H. rewrite <- E. apply pk_ok.
  - split; [done|]. intros <-. apply to_array_None in Ha. destruct Ha. apply array_len.
Qed.

(** The exact set of slices [from_slice] accepts: 33 bytes whose first is
    0x02 or 0x03; what it accepts it keeps unchanged. *)
Lemma from_slice_accepts b :
  is_ok (from_slice b) = true <-> length b = 33%nat /\ prefix_ok b = true.
Proof.
  unfold from_slice. destruct (to_array 33 b) as [a|] eqn:Ha.
  - apply to_array_Some in Ha as <-. rewrite array_len.
    destruct (bool_dec _ _); simpl; naive_solver.
  - apply to_array_None in Ha. simpl. naive_solver.
Qed.

Lemma prefix_ok_cases b :
  prefix_ok b = true <-> exists x tl, b = x :: tl /\ (wval x = 2 \/ wval x = 3)%N.
Proof.
  destruct b as [|x tl]; simpl; [naive_solver|].
  rewrite orb_true_iff, !N.eqb_eq. naive_solver.
Qed.

Lemma is_ok_exists {E A} (x : result E A) : is_ok x = true <-> exists a, x = Ok a.
Proof. destruct x; naive_solver. Qed.

Lemma from_slice_bytes p : from_slice (arr (pk_bytes p)) = Ok p.
Proof. by apply from_slice_spec. Qed.

(** Parsing the displayed form of a key gives the key back. *)
Lemma pk_string_roundtrip `{HL : HexLaws} p : pk_from_str (pk_to_string p) = Ok p.
Proof. unfold pk_from_str, pk_to_string. rewrite hex_decode_0x. apply from_slice_bytes. Qed.

(** C35: the type of public keys is exact.  Every value of [PubkeySec1] is 33
    bytes starting with 0x02 or 0x03 (the record's field keeps it so), the
    constructor accepts exactly those slices and keeps them unchanged, naming
    the length or the prefix it refused otherwise; and the printed form
    determines the key and parses back to it, so no key is lost or confused on
    its way through JSON, a URL or the store. *)
Theorem pubkey_sec1_exact `{HL : HexLaws} :
  (forall p : PubkeySec1, length (arr (as_bytes p)) = 33%nat /\
     exists x tl, arr (as_bytes p) = x :: tl /\ (wval x = 2 \/ wval x = 3)%N) /\
  (forall b p, from_slice b = Ok p <-> arr (as_bytes p) = b) /\
  (forall b, length b = 33%nat ->
     (wval (default (wmod 8 0) (head b)) = 2 \/ wval (default (wmod 8 0) (head b)) = 3)%N ->
     exists p, from_slice b = Ok p) /\
  (forall b e, from_slice b = Err (InvalidPubkeyMsg e) ->
     length b <> 33%nat /\ e = [Lit "expected 33 bytes, got "; Num (N.of_nat (length b))] \/
     length b = 33%nat /\ prefix_ok b = false /\
       e = [Lit "expected 0x02/0x03 parity prefix, got "; Hex [first_byte b]]) /\
  (forall s p, pk_from_str s = Ok p <-> hex_decode s = Some (arr (as_bytes p))) /\
  (forall p, pk_from_str (pk_to_string p) = Ok p) /\
  (forall p q, pk_to_string p = pk_to_string q -> p = q).
Proof.
  split_and!.
  - intros [a Ha]. simpl. split; [apply array_len|]. by apply prefix_ok_cases.
  - apply from_slice_spec.
  - intros [|x b] Hl Hx; [done|]. apply is_ok_exists, from_slice_accepts. split; [done|].
    apply prefix_ok_cases. by exists x, b.
  - intros b e. unfold from_slice. destruct (to_array 33 b) as [a|] eqn:Ha.
    + apply to_array_Some in Ha as <-. destruct (bool_dec _ _) as [|Hp]; [done|]. intros [= <-]. right.
      split; [apply array_len|]. split; [by apply not_true_is_false|done].
    + intros [= <-]. left. by apply to_array_None in Ha.
  - intros s p. unfold pk_from_str. destruct (hex_decode s) as [b|]; [|done].
    rewrite from_slice_spec. unfold as_bytes. split; [by intros ->|by intros [= ->]].
  - apply pk_string_roundtrip.
  - intros p q Heq. enough (Ok (E := InvalidPubkey) p = Ok q) by congruence.
    by rewrite <- !pk_string_roundtrip, Heq.
Qed.

(** ** A concrete codec, to inhabit the interface. *)
Definition hex_digit (n : N) : ascii :=
  ascii_of_N (if N.ltb n 10 then n + 48 else n + 87).
Definition digit_val (c : ascii) : option N :=
  let n := N_of_ascii c in
  if N.leb 48 n && N.ltb n 58 then Some (n - 48)%N
  else if N.leb 97 n && N.ltb n 103 then Some (n - 87)%N
  else if N.leb 65 n && N.ltb n 71 then Some (n - 55)%N
  else None.

Fixpoint toy_hex_encode (b : bytes) : string :=
  match b with
  | [] => ""
  | x :: b => String (hex_digit (wval x / 16)) (String (hex_digit (wval x mod 16)) (toy_hex_encode b))
  end.
Fixpoint toy_hex_digits (s : string) : option bytes :=
  match s with
  | EmptyString => Some []
  | String c (String d s) =>
      match digit_val c, digit_val d, toy_hex_digits s with
      | Some h, Some l, Some b => Some (wmod 8 (16 * h + l) :: b)
      | _, _, _ => None
      end
  | String _ EmptyString => None
  end.
Definition toy_hex_decode (s : string) : option bytes :=
  match s with
  | String "0" (String "x" s') => toy_hex_digits s'
  | _ => toy_hex_digits s
  end.
#[export] Instance ToyHex : HexCodec := {| hex_encode := toy_hex_encode; hex_decode := toy_hex_decode |}.

Lemma digit_val_hex n : (n < 16)%N -> digit_val (hex_digit n) = Some n.
Proof.
  intros. destruct n as [|p]; [done|]. do 4 (try (destruct p as [p|p|]; [| |done])); lia.
Qed.

Lemma hex_digit_not_x n : (n < 16)%N -> hex_digit n <> "x"%char.
Proof.
  intros. destruct n as [|p]; [done|]. do 4 (try (destruct p as [p|p|]; [| |done])); lia.
Qed.

Lemma toy_hex_roundtrip b : toy_hex_digits (toy_hex_encode b) = Some b.
Proof.
  induction b as [|x b IH]; [done|]. cbn [toy_hex_encode toy_hex_digits].
  pose proof (word_lt x) as Hx. change (2 ^ 8)%N with 256%N in Hx.
  assert (wval x / 16 < 16)%N by (apply N.Div0.div_lt_upper_bound; lia).
  rewrite !digit_val_hex by (try done; apply N.mod_lt; done).
  rewrite IH. do 2 f_equal. apply word_eq. rewrite <- N.div_mod by done.
  by apply wmod_small.
Qed.

Lemma toy_hex_decode_plain c d s :
  d <> "x"%char -> toy_hex_decode (String c (String d s)) = toy_hex_digits (String c (String d s)).
Proof.
  intros Hd. destruct c as [[] [] [] [] [] [] [] []]; try reflexivity.
  destruct d as [[] [] [] [] [] [] [] []]; try reflexivity. by destruct Hd.
Qed.

#[export] Instance ToyHexLaws : HexLaws ToyHex.
Proof.
  constructor; intros b; [apply toy_hex_roundtrip|]. cbn [hex_decode hex_encode ToyHex].
  etransitivity; [|apply toy_hex_roundtrip]. destruct b as [|x b]; [done|]. cbn [toy_hex_encode].
  apply toy_hex_decode_plain, hex_digit_not_x, N.mod_lt. done.
Qed.

Lemma pubkey_sec1_exact_witness :
  exists p, pk_from_str ("0x" ++ hex_encode (wmod 8 2 :: replicate 32 (wmod 8 7))) = Ok p /\
            pk_from_str (pk_to_string p) = Ok p.
Proof.
  destruct (pubkey_sec1_exact (HL := ToyHexLaws)) as (_ & _ & H1 & _ & H2 & H3 & _).
  destruct (H1 (wmod 8 2 :: replicate 32 (wmod 8 7)) eq_refl (or_introl eq_refl)) as [p Hp].
  exists p. split; [|exact (H3 p)]. apply H2. rewrite hex_decode_0x.
  f_equal. symmetry. exact (proj1 (from_slice_spec _ p) Hp).
Defined.
