(* ===== verification/Mpc.v ===== *)
(** * The MPC seam ([crates/sovra-mpc]: [lib.rs], [types.rs], [runner.rs])

    Error type, ceremony instances, the per-party context, and the two
    interfaces the rest of the code is written against: the third-party
    cryptography ([Crypto], with the documented laws it is relied on for in
    [CryptoLaws]) and the per-party protocol runner ([PartyRunner]). *)

From S2P Require Import Prelude Types.
From Stdlib Require Import String NArith Lia.
From stdpp Require Import base decidable countable list strings.
Open Scope string_scope.

(** ** Third-party cryptography.
    ed25519-dalek, x25519-dalek, chacha20poly1305, sha2 and alloy's keccak256.
    Randomness (ephemeral secrets, nonces, instance ids) is an explicit
    argument of the operations that draw it. *)
Class Crypto : Type := {
  SigningKey : Type;
  VerifyingKey : Type;
  vk_eq_dec :: EqDecision VerifyingKey;
  verifying_key : SigningKey -> VerifyingKey;
  vk_bytes : VerifyingKey -> array 32;
  ed_sign : SigningKey -> bytes -> array 64;
  verify_strict : VerifyingKey -> bytes -> array 64 -> bool;
  sha512 : bytes -> array 64;
  keccak256 : bytes -> B256;
  to_montgomery : VerifyingKey -> array 32;
  to_scalar_bytes : SigningKey -> array 32;
  x25519_pub : array 32 -> array 32;
  x25519_dh : array 32 -> array 32 -> array 32;
  was_contributory : array 32 -> bool;
  aead_encrypt : array 32 -> array 24 -> bytes -> bytes -> option bytes;
  aead_decrypt : array 32 -> array 24 -> bytes -> bytes -> option bytes;
}.

(** The documented behaviour the code relies on. *)
Class CryptoLaws (C : Crypto) : Prop := {
  (* an honest ed25519 signature verifies under its own key *)
  ed_sign_verify : forall sk m, verify_strict (verifying_key sk) m (ed_sign sk m) = true;
  (* the ed25519 to x25519 map commutes with taking public keys *)
  montgomery_agrees : forall sk,
    x25519_pub (to_scalar_bytes sk) = to_montgomery (verifying_key sk);
  (* Diffie-Hellman *)
  x25519_comm : forall a b, x25519_dh a (x25519_pub b) = x25519_dh b (x25519_pub a);
  (* AEAD correctness *)
  aead_roundtrip : forall k n aad m c,
    aead_encrypt k n aad m = Some c -> aead_decrypt k n aad c = Some m;
}.

(** ** Errors *)
(* src mpc/types.rs:55-65 Veto *)
Record Veto : Type := MkVeto { veto_party : u8; reason : msg }.

#[export] Instance Veto_eq_dec : EqDecision Veto.
Proof. unfold msg. solve_decision. Defined.

(* src mpc/types.rs:67-83 MpcError *)
Inductive MpcError : Type :=
  | Dkg (m : msg)
  | Sign (m : msg)
  | Deserialize
  | Transport (m : msg)
  | PartyMismatch (m : msg)
  | EnvelopeAuth (m : msg)
  | Rejected (vetoes : list Veto).

#[export] Instance MpcError_eq_dec : EqDecision MpcError.
Proof. unfold msg. solve_decision. Defined.

(* src mpc/types.rs:67-83 <MpcError as Display>::fmt *)
Definition mpc_error_text (e : MpcError) : msg :=
  match e with
  | Dkg m => Lit "distributed key generation failed: "%string :: m
  | Sign m => Lit "distributed signing failed: "%string :: m
  | Deserialize => [Lit "could not deserialize a key share"%string]
  | Transport m => Lit "cosigner transport failed: "%string :: m
  | PartyMismatch m => Lit "cosigners disagreed: "%string :: m
  | EnvelopeAuth m => Lit "envelope authentication failed: "%string :: m
  | Rejected vetoes =>
      Lit "rejected by cosigner policy: "%string ::
      join_msgs "; " ((fun v => ([Lit "party "; Num (wval (veto_party v)); Lit ": "]%string ++ reason v)%list) <$> vetoes)
  end.

(** How a computation stops early: with an error it returns, or by a panic
    (an index out of bounds, a failed [expect]). *)
Inductive stop : Type :=
  | Fail (e : MpcError)
  | Panic (what : string).

(** A duration, in milliseconds. *)
Definition Duration : Type := N.

Section Seam.
Context {C : Crypto}.

(** The ceremony instance of digest [digest_index] of a multi-digest sign. *)
(* src mpc/types.rs:49-51 sub_instance *)
Definition sub_instance_preimage (instance : B256) (digest_index : u32) : bytes :=
  (arr instance ++ be_bytes 4 (wval digest_index))%list.
(* src mpc/types.rs:44-53 sub_instance *)
Definition sub_instance (instance : B256) (digest_index : u32) : B256 :=
  keccak256 (sub_instance_preimage instance digest_index).

(** Everything one party needs to join a protocol run. *)
(* src mpc/runner.rs:20-34 PartyContext *)
Record PartyContext : Type := MkContext {
  party_id : u8;
  instance : B256;
  signing_key : SigningKey;
  party_vks : list VerifyingKey;
  threshold : u8;
  ttl : Duration;
}.

(** The preimages of two instances or two digest indices differ: distinct
    digests of one request hash distinct preimages. *)
Lemma sub_instance_preimage_inj i1 d1 i2 d2 :
  sub_instance_preimage i1 d1 = sub_instance_preimage i2 d2 -> i1 = i2 /\ d1 = d2.
Proof.
  unfold sub_instance_preimage. intros [H1 H2]%app_inj_1; [|by rewrite !array_len].
  split; [by apply array_eq|]. apply word_eq.
  eapply (be_bytes_inj 4); [apply word_lt..|done].
Qed.
End Seam.

(** ** The cosigner's port: one party's share of a ceremony.
    [Traffic] is what the relay delivers to this party during the run; a run
    that does not finish within the ceremony's TTL yields [None]. *)
(* src mpc/runner.rs:47-86 PartyRunner *)
Class PartyRunner {C : Crypto} : Type := {
  Traffic : Type;
  keygen : PartyContext -> Traffic -> option (result MpcError (KeyShare * PubkeySec1));
  run_sign : PartyContext -> KeyShare -> B256 -> list u8 -> Traffic -> option (result MpcError EcdsaParts);
  run_refresh : PartyContext -> KeyShare -> PubkeySec1 -> Traffic ->
    option (result MpcError (KeyShare * PubkeySec1));
  public_key_of : KeyShare -> result MpcError PubkeySec1;
}.

(** What a runner promises the store: a share it hands out holds the public
    key handed out with it, and a refresh keeps the key. *)
Class RunnerLaws {C : Crypto} (P : PartyRunner) : Prop := {
  keygen_key : forall ctx tr share pk,
    keygen ctx tr = Some (Ok (share, pk)) -> public_key_of share = Ok pk;
  refresh_key : forall ctx share anchor tr share' pk,
    run_refresh ctx share anchor tr = Some (Ok (share', pk)) ->
    pk = anchor /\ public_key_of share = Ok anchor /\ public_key_of share' = Ok anchor;
}.

(** ** [to_ecdsa_parts]: k256 signatures split into two 32-byte halves. *)
(* src mpc/lib.rs:25-36 to_ecdsa_parts *)
Definition to_ecdsa_parts (sig_r sig_s : array 32) (is_y_odd : bool) : EcdsaParts :=
  {| r := wmod 256 (be_val (arr sig_r));
     s := wmod 256 (be_val (arr sig_s));
     y_parity := is_y_odd |}.

(** No bit of the halves is lost: the parts give them back. *)
Lemma to_ecdsa_parts_lossless sr ss odd :
  let p := to_ecdsa_parts sr ss odd in
  be_bytes 32 (wval (r p)) = arr sr /\ be_bytes 32 (wval (s p)) = arr ss /\ y_parity p = odd.
Proof.
  assert (forall a : array 32, be_bytes 32 (wval (wmod 256 (be_val (arr a)))) = arr a) as H.
  { intros a. pose proof (be_val_lt (arr a)) as Hlt. rewrite array_len in Hlt.
    rewrite wmod_small by exact Hlt. rewrite <- (array_len a) at 1. apply be_bytes_val. }
  intros p. unfold p, to_ecdsa_parts. cbn [r s y_parity]. auto.
Qed.

(** ** A concrete cryptography, to inhabit the interfaces.
    A keyless polynomial hash, signatures and MACs that recompute it, and an
    additive Diffie-Hellman: enough for every law, and executable. *)
Definition low64 (n : N) : N := N.land n 18446744073709551615.

Definition toy_hash (n : nat) (m : bytes) : array n :=
  Array (le_bytes n (foldl (fun acc b => low64 (acc * 257 + wval b + 1))%N 7%N m))
        (canon _ (proj2 (Nat.eqb_eq _ _) (le_bytes_length n _))).

Definition toy_sig (k : array 32) (m : bytes) : array 64 := toy_hash 64 (arr k ++ m).

Definition toy_dh (a b : array 32) : array 32 :=
  Array (be_bytes 32 (low64 (be_val (arr a) + be_val (arr b))))
        (canon _ (proj2 (Nat.eqb_eq _ _) (be_bytes_length 32 _))).

Definition toy_mac (k : array 32) (n : array 24) (aad m : bytes) : bytes :=
  arr (toy_hash 16 (arr k ++ arr n ++ aad ++ m)%list).

Definition toy_decrypt (k : array 32) (n : array 24) (aad c : bytes) : option bytes :=
  let k16 := (length c - 16)%nat in
  let m := take k16 c in
  if decide (drop k16 c = toy_mac k n aad m) then Some m else None.

#[export] Instance ToyCrypto : Crypto := {|
  SigningKey := array 32;
  VerifyingKey := array 32;
  verifying_key sk := sk;
  vk_bytes vk := vk;
  ed_sign sk m := toy_sig sk m;
  verify_strict vk m sg := bool_decide (sg = toy_sig vk m);
  sha512 m := toy_hash 64 m;
  keccak256 m := toy_hash 32 m;
  to_montgomery vk := vk;
  to_scalar_bytes sk := sk;
  x25519_pub a := a;
  x25519_dh := toy_dh;
  was_contributory a := negb (N.eqb (be_val (arr a)) 0);
  aead_encrypt k n aad m := Some (m ++ toy_mac k n aad m)%list;
  aead_decrypt := toy_decrypt;
|}.

Lemma toy_decrypt_mac k n aad m : toy_decrypt k n aad (m ++ toy_mac k n aad m)%list = Some m.
Proof.
  unfold toy_decrypt.
  assert (length (toy_mac k n aad m) = 16%nat) as Hl by apply array_len.
  rewrite length_app, Hl, Nat.add_sub, take_app_length, drop_app_length.
  by rewrite decide_True.
Qed.

Lemma toy_dh_comm a b : toy_dh a b = toy_dh b a.
Proof. apply array_eq. unfold toy_dh; cbn [arr]. by rewrite N.add_comm. Qed.

Lemma toy_sign_verify k m : bool_decide (toy_sig k m = toy_sig k m) = true.
Proof. apply bool_decide_eq_true_2. exact eq_refl. Qed.

#[export] Instance ToyCryptoLaws : CryptoLaws ToyCrypto.
Proof.
  constructor.
  - exact toy_sign_verify.
  - intros; exact eq_refl.
  - exact toy_dh_comm.
  - intros k n aad m c [= <-]. exact (toy_decrypt_mac k n aad m).
Qed.

(** Test keys: 32 copies of one byte ([SigningKey::from_bytes(&[b; 32])]). *)
Definition toy_key (b : N) : array 32 := array_repeat 32 (wmod 8 b).
