(* ===== verification/Envelope.v ===== *)
(** * The relay envelope ([crates/sovra-mpc/src/envelope.rs])

    The signed and sealed frame every MPC round message travels in: its
    canonical byte layout ([header_bytes], [encode], [decode], [peek_route]),
    its signature ([sign], [verify]) and the sealed box of a p2p payload
    ([sealed], [open]).  [wire_roundtrip] and [decode_canonical] say that the
    codec is a bijection between envelopes and the frames it accepts. *)

From S2P Require Import Prelude Types Mpc.
From Stdlib Require Import String NArith Lia.
From stdpp Require Import base decidable countable list strings.

(** [pub mod op]. *)
(* src mpc/envelope.rs:31-34 op::DKG *)
Definition op_DKG : u8 := wmod 8 0.
(* src mpc/envelope.rs:35-35 op::SIGN *)
Definition op_SIGN : u8 := wmod 8 1.
(* src mpc/envelope.rs:36-36 op::REFRESH *)
Definition op_REFRESH : u8 := wmod 8 2.

(* src mpc/envelope.rs:39-41 DOMAIN *)
Definition DOMAIN : bytes := bstr "SOVRA-ENV-V1".
(* src mpc/envelope.rs:42-43 SEAL_DOMAIN *)
Definition SEAL_DOMAIN : bytes := bstr "SOVRA-SEAL-V1".
(* src mpc/envelope.rs:44-44 HEADER_LEN *)
Definition HEADER_LEN : nat := length DOMAIN + 32 + 5.
(* src mpc/envelope.rs:45-45 NONCE_LEN *)
Definition NONCE_LEN : nat := 24.
(* src mpc/envelope.rs:46-46 EPH_PK_LEN *)
Definition EPH_PK_LEN : nat := 32.
(* src mpc/envelope.rs:47-47 SIG_LEN *)
Definition SIG_LEN : nat := 64.

(* src mpc/envelope.rs:49-58 Envelope *)
Record Envelope : Type := MkEnvelope {
  instance : B256;
  op : u8;
  round : u8;
  from : u8;
  to : u8;
  payload : bytes;
  sealed : bool;
}.

#[export] Instance Envelope_eq_dec : EqDecision Envelope.
Proof. solve_decision. Defined.

(* src mpc/envelope.rs:60-66 SignedEnvelope *)
Record SignedEnvelope : Type := MkSigned { env : Envelope; sig : array 64 }.

#[export] Instance SignedEnvelope_eq_dec : EqDecision SignedEnvelope.
Proof. solve_decision. Defined.

Definition bool_u8 (b : bool) : u8 := wmod 8 (if b then 1 else 0).

(** ** Layout *)
(* src mpc/envelope.rs:186-199 Envelope::header_bytes *)
Definition header_bytes (e : Envelope) : bytes :=
  DOMAIN ++ arr (instance e) ++ [op e; round e; from e; to e; bool_u8 (sealed e)].

(* src mpc/envelope.rs:232-242 SignedEnvelope::encode *)
Definition encode (senv : SignedEnvelope) : bytes :=
  let p := payload (env senv) in
  header_bytes (env senv)
    ++ be_bytes 4 (wval (wmod 32 (N.of_nat (length p))))   (* len as u32 *)
    ++ p ++ arr (sig senv).

(* src mpc/envelope.rs:260-260 SignedEnvelope::decode *)
Definition malformed (what : string) : MpcError :=
  Transport [Lit "undecodable envelope: "; Lit what].

Definition byte_at (i : nat) (l : bytes) : u8 := default (wmod 8 0) (l !! i).

(** [B256::from_slice(&fields[..32])]: the callers hold at least 32 bytes. *)
Definition b256_of (l : bytes) : B256 := array_of 32 (take 32 l).

(* src mpc/envelope.rs:269-273 SignedEnvelope::decode *)
Definition sealed_flag (x : u8) : result MpcError bool :=
  match wval x with
  | 0%N => Ok false
  | 1%N => Ok true
  | _ => Err (malformed "non-canonical sealed flag")
  end.

(* src mpc/envelope.rs:257-293 SignedEnvelope::decode *)
Definition decode (bs : bytes) : result MpcError SignedEnvelope :=
  if Nat.ltb (length bs) (HEADER_LEN + 4 + SIG_LEN) then Err (malformed "truncated") else
  let (header, rest) := split_at HEADER_LEN bs in
  let (domain, fields) := split_at (length DOMAIN) header in
  if negb (bool_decide (domain = DOMAIN)) then Err (malformed "unknown domain/version") else
  let? sealed := sealed_flag (byte_at 36 fields) in
  let (len_bytes, rest) := split_at 4 rest in
  let payload_len := N.to_nat (be_val len_bytes) in
  if negb (Nat.eqb (length rest) (payload_len + SIG_LEN))
  then Err (malformed "length mismatch") else
  let (payload, sg) := split_at payload_len rest in
  Ok {| env := {| instance := b256_of fields;
                  op := byte_at 32 fields;
                  round := byte_at 33 fields;
                  from := byte_at 34 fields;
                  to := byte_at 35 fields;
                  payload := payload;
                  sealed := sealed |};
        sig := array_of 64 sg |}.

(* src mpc/envelope.rs:244-255 SignedEnvelope::peek_route *)
Definition peek_route (bs : bytes) : option (B256 * u8) :=
  if Nat.ltb (length bs) HEADER_LEN then None else
  let (domain, fields) := split_at (length DOMAIN) (take HEADER_LEN bs) in
  if negb (bool_decide (domain = DOMAIN)) then None
  else Some (b256_of fields, byte_at 35 fields).

(** ** Signing and sealing *)
Section Crypto.
Context {C : Crypto}.

(* src mpc/envelope.rs:69-87 Envelope::broadcast *)
Definition broadcast (instance : B256) (op round from to : u8) (payload : bytes) : Envelope :=
  MkEnvelope instance op round from to payload false.

(* src mpc/envelope.rs:201-208 Envelope::signing_preimage *)
Definition signing_preimage (e : Envelope) : bytes :=
  header_bytes e ++ arr (sha512 (payload e)).

(* src mpc/envelope.rs:181-184 Envelope::sign *)
Definition sign (e : Envelope) (sk : SigningKey) : SignedEnvelope :=
  MkSigned e (ed_sign sk (signing_preimage e)).

(* src mpc/envelope.rs:212-230 SignedEnvelope::verify *)
Definition verify (senv : SignedEnvelope) (roster : list VerifyingKey) : result MpcError unit :=
  match roster !! N.to_nat (wval (from (env senv))) with
  | None =>
      Err (EnvelopeAuth [Lit "sender "; Num (wval (from (env senv))); Lit " is not in the ";
                         Num (N.of_nat (length roster)); Lit "-party roster"])
  | Some vk =>
      if verify_strict vk (signing_preimage (env senv)) (sig senv) then Ok tt
      else Err (EnvelopeAuth [Lit "bad signature on envelope claiming party ";
                              Num (wval (from (env senv)))])
  end.

(* src mpc/envelope.rs:296-300 x25519_public_of *)
Definition x25519_public_of (vk : VerifyingKey) : array 32 := to_montgomery vk.
(* src mpc/envelope.rs:302-306 x25519_secret_of *)
Definition x25519_secret_of (sk : SigningKey) : array 32 := to_scalar_bytes sk.

(* src mpc/envelope.rs:308-323 box_key *)
Definition box_key (shared eph_pk recipient_pk : array 32) : array 32 :=
  let h := sha512 (SEAL_DOMAIN ++ arr shared ++ arr eph_pk ++ arr recipient_pk) in
  array_of 32 (take 32 (arr h)).

(** [Envelope::sealed]; the ephemeral secret and the nonce are the
    operation's randomness. *)
(* src mpc/envelope.rs:89-139 Envelope::sealed *)
Definition seal (eph : array 32) (nonce : array 24)
    (instance : B256) (op round from to : u8)
    (recipient_vk : VerifyingKey) (plaintext : bytes) : result MpcError Envelope :=
  let e := MkEnvelope instance op round from to [] true in
  let eph_pk := x25519_pub eph in
  let recipient_pk := x25519_public_of recipient_vk in
  let shared := x25519_dh eph recipient_pk in
  if negb (was_contributory shared) then
    Err (EnvelopeAuth [Lit "party "; Num (wval to);
                       Lit "'s pinned key maps to a non-contributory x25519 point"])
  else
    match aead_encrypt (box_key shared eph_pk recipient_pk) nonce (header_bytes e) plaintext with
    | None => Err (EnvelopeAuth [Lit "sealing failed"])
    | Some ciphertext =>
        Ok (MkEnvelope instance op round from to
              (arr eph_pk ++ arr nonce ++ ciphertext) true)
    end.

(* src mpc/envelope.rs:141-179 Envelope::open *)
Definition open (e : Envelope) (sk : SigningKey) : result MpcError bytes :=
  if negb (sealed e) then Err (EnvelopeAuth [Lit "open() on a plaintext envelope"])
  else if Nat.ltb (length (payload e)) (EPH_PK_LEN + NONCE_LEN)
  then Err (EnvelopeAuth [Lit "sealed payload truncated"])
  else
    let (eph_pk_bytes, rest) := split_at EPH_PK_LEN (payload e) in
    let (nonce_bytes, ciphertext) := split_at NONCE_LEN rest in
    let eph_pk := array_of 32 eph_pk_bytes in
    let nonce := array_of 24 nonce_bytes in
    let secret := x25519_secret_of sk in
    let my_pk := x25519_pub secret in
    let shared := x25519_dh secret eph_pk in
    if negb (was_contributory shared)
    then Err (EnvelopeAuth [Lit "non-contributory ephemeral key"])
    else
      match aead_decrypt (box_key shared eph_pk my_pk) nonce (header_bytes e) ciphertext with
      | None => Err (EnvelopeAuth [Lit "unsealing failed — tampered or misaddressed"])
      | Some plaintext => Ok plaintext
      end.
End Crypto.

(** ** Layout lemmas *)
Definition fields_of (e : Envelope) : bytes :=
  arr (instance e) ++ [op e; round e; from e; to e; bool_u8 (sealed e)].

Lemma fields_length e : length (fields_of e) = 37%nat.
Proof. unfold fields_of. by rewrite length_app, array_len. Qed.

Lemma header_split e : header_bytes e = DOMAIN ++ fields_of e.
Proof. done. Qed.

Lemma header_length e : length (header_bytes e) = HEADER_LEN.
Proof. rewrite header_split, length_app, fields_length. done. Qed.

Lemma encode_length senv :
  length (encode senv) = (HEADER_LEN + 4 + length (payload (env senv)) + SIG_LEN)%nat.
Proof.
  unfold encode. rewrite !length_app, header_length, be_bytes_length, array_len.
  unfold SIG_LEN. lia.
Qed.

Lemma fields_byte e i : (i < 5)%nat ->
  byte_at (32 + i) (fields_of e) =
  byte_at i [op e; round e; from e; to e; bool_u8 (sealed e)].
Proof.
  intros. unfold byte_at, fields_of. rewrite lookup_app_r by (rewrite array_len; lia).
  rewrite array_len. by rewrite Nat.add_comm, Nat.add_sub.
Qed.

Lemma fields_b256 e : b256_of (fields_of e) = instance e.
Proof.
  unfold b256_of, fields_of. apply array_of_eq.
  rewrite <- (array_len (instance e)) at 1. apply take_app_length.
Qed.

Lemma byte_at_drop (i : nat) (l : bytes) : byte_at (32 + i) l = byte_at i (drop 32 l).
Proof. unfold byte_at. by rewrite lookup_drop. Qed.

(** Any 37 bytes whose last is 0 or 1 are the fields of an envelope. *)
Lemma fields_inv l pl b :
  length l = 37%nat -> byte_at 36 l = bool_u8 b ->
  fields_of (MkEnvelope (b256_of l) (byte_at 32 l) (byte_at 33 l) (byte_at 34 l)
               (byte_at 35 l) pl b) = l.
Proof.
  intros Hl Hb. unfold fields_of; simpl.
  unfold b256_of. rewrite arr_array_of by (rewrite length_take; lia).
  rewrite <- Hb. rewrite <- (take_drop 32 l) at 7. f_equal.
  assert (length (drop 32 l) = 5%nat) as Hd by (rewrite length_drop; lia).
  rewrite (byte_at_drop 0 l : byte_at 32 l = _), (byte_at_drop 1 l : byte_at 33 l = _),
    (byte_at_drop 2 l : byte_at 34 l = _), (byte_at_drop 3 l : byte_at 35 l = _),
    (byte_at_drop 4 l : byte_at 36 l = _).
  by destruct (drop 32 l) as [|a [|b' [|c [|d [|e [|]]]]]].
Qed.

Lemma sealed_flag_Ok (x : u8) b : sealed_flag x = Ok b <-> x = bool_u8 b.
Proof.
  split; [|intros ->; by destruct b]. unfold sealed_flag.
  intros H. apply word_eq. destruct (wval x) as [|[p|p|]]; simplify_eq/=; done.
Qed.

Lemma u32_len_val n : (n < 2 ^ 32)%N -> be_val (be_bytes 4 (wval (wmod 32 n))) = n.
Proof. intros H. rewrite be_val_bytes, wmod_small by done. by apply N.mod_small. Qed.

Lemma decode_encode senv :
  (N.of_nat (length (payload (env senv))) < 2 ^ 32)%N ->
  decode (encode senv) = Ok senv.
Proof.
  intros Hlen. unfold decode. rewrite encode_length.
  rewrite (proj2 (Nat.ltb_ge _ _)) by lia.
  unfold encode. rewrite split_at_app by apply header_length.
  rewrite header_split, split_at_app by done.
  rewrite bool_decide_eq_true_2 by done. cbn [negb].
  rewrite (fields_byte _ 4 : _ -> byte_at 36 _ = _) by lia.
  rewrite (proj2 (sealed_flag_Ok _ (sealed (env senv)))) by done. cbn [rbind].
  rewrite split_at_app by apply be_bytes_length.
  rewrite u32_len_val, Nat2N.id by done.
  rewrite length_app, array_len, Nat.eqb_refl. cbn [negb].
  rewrite split_at_app by done.
  rewrite fields_b256, (fields_byte _ 0 : _ -> byte_at 32 _ = _),
    (fields_byte _ 1 : _ -> byte_at 33 _ = _), (fields_byte _ 2 : _ -> byte_at 34 _ = _),
    (fields_byte _ 3 : _ -> byte_at 35 _ = _) by lia.
  rewrite (array_of_eq (sig senv)) by done. by destruct senv as [[]].
Qed.

Lemma decode_sound bs senv :
  decode bs = Ok senv ->
  bs = encode senv /\ (N.of_nat (length (payload (env senv))) < 2 ^ 32)%N.
Proof.
  unfold decode. destruct (Nat.ltb _ _) eqn:Hlen; [done|]. apply Nat.ltb_ge in Hlen.
  unfold split_at at 1 2. destruct (negb _) eqn:Hdom; [done|].
  apply negb_false_iff, bool_decide_eq_true in Hdom.
  set (header := take HEADER_LEN bs) in *. set (fields := drop (length DOMAIN) header).
  assert (length header = HEADER_LEN) as Hh.
  { unfold header. rewrite length_take. change HEADER_LEN with 49%nat in *. unfold SIG_LEN in *. lia. }
  assert (length fields = 37%nat) as Hf by (unfold fields; rewrite length_drop, Hh; done).
  intros H. apply rbind_Ok in H as (b & Hflag & H). apply sealed_flag_Ok in Hflag.
  unfold split_at in H. destruct (negb _) eqn:Hpl; [done|].
  apply negb_false_iff, Nat.eqb_eq in Hpl. injection H as <-.
  set (body := drop HEADER_LEN bs) in *.
  assert (length (take 4 body) = 4%nat) as Hlb.
  { rewrite length_take. unfold body. rewrite length_drop. lia. }
  assert (be_val (take 4 body) < 2 ^ 32)%N as Hlt.
  { pose proof (be_val_lt (take 4 body)) as Hv. rewrite Hlb in Hv. exact Hv. }
  set (n := N.to_nat (be_val (take 4 body))) in *. set (rest := drop 4 body) in *.
  assert (length (take n rest) = n) as Hn by (rewrite length_take; lia).
  assert (N.of_nat n = be_val (take 4 body)) as Hnv by apply N2Nat.id. clearbody n.
  cbn [env payload sig]. split; [|by rewrite Hn, Hnv].
  unfold encode; cbn [env payload sig]. rewrite Hn, Hnv.
  rewrite wmod_small by done. rewrite header_split, fields_inv by done.
  rewrite arr_array_of by (rewrite length_drop; unfold SIG_LEN in *; lia).
  rewrite take_drop. unfold fields. rewrite <- Hdom at 1. rewrite take_drop.
  rewrite <- Hlb at 1. rewrite be_bytes_val. unfold rest. rewrite take_drop.
  unfold header, body. by rewrite take_drop.
Qed.

(** ** Properties *)

(** C25: the wire codec is exact.  [decode] accepts a frame exactly when it is
    the encoding of the envelope it returns and the payload fits the frame's
    32-bit length field: every encoded envelope decodes to itself, and nothing
    that is not a canonical encoding (bad domain, flag, length) is accepted. *)
Theorem wire_codec_exact bs senv :
  decode bs = Ok senv <->
  bs = encode senv /\ (N.of_nat (length (payload (env senv))) < 2 ^ 32)%N.
Proof.
  split; [apply decode_sound|]. intros [-> H]. by apply decode_encode.
Qed.

(** An oversized payload's length wraps, and the frame is refused. *)
Lemma encode_oversize_refused senv :
  (2 ^ 32 <= N.of_nat (length (payload (env senv))))%N ->
  is_ok (decode (encode senv)) = false.
Proof.
  intros Hbig. destruct (decode (encode senv)) as [senv'|] eqn:E; [|done].
  apply decode_sound in E as [Heq Hlt].
  apply (f_equal length) in Heq. rewrite !encode_length in Heq. lia.
Qed.

Lemma peek_route_encode senv :
  peek_route (encode senv) = Some (instance (env senv), to (env senv)).
Proof.
  unfold peek_route. rewrite encode_length.
  rewrite (proj2 (Nat.ltb_ge _ _)) by lia.
  unfold encode. rewrite <- (header_length (env senv)), take_app_length.
  rewrite header_split, split_at_app by done.
  rewrite bool_decide_eq_true_2 by done. cbn [negb].
  by rewrite fields_b256, (fields_byte _ 3 : _ -> byte_at 35 _ = _) by lia.
Qed.

(** The hub's routing peek reads the same instance and recipient as the
    recipient's full decode, for every frame that decodes. *)
Theorem peek_route_agrees bs senv :
  decode bs = Ok senv ->
  peek_route bs = Some (instance (env senv), to (env senv)).
Proof. intros [-> _]%decode_sound. apply peek_route_encode. Qed.

Section Theorems.
Context {C : Crypto}.

Lemma verify_Ok senv roster :
  verify senv roster = Ok tt <->
  exists vk, roster !! N.to_nat (wval (from (env senv))) = Some vk /\
             verify_strict vk (signing_preimage (env senv)) (sig senv) = true.
Proof.
  unfold verify. destruct (roster !! _) as [vk|].
  - destruct (verify_strict vk _ _) eqn:E.
    + split; [eauto|done].
    + split; [done|]. intros (? & [= <-] & ?). congruence.
  - split; [done|]. by intros (? & ? & ?).
Qed.

Lemma verify_not_Ok senv roster :
  verify senv roster <> Ok tt -> exists m, verify senv roster = Err (EnvelopeAuth m).
Proof.
  unfold verify. destruct (roster !! _) as [vk|]; [|eauto].
  destruct (verify_strict _ _ _); [done|eauto].
Qed.

Lemma sign_verifies {CL : CryptoLaws C} e sk roster :
  roster !! N.to_nat (wval (from e)) = Some (verifying_key sk) ->
  verify (sign e sk) roster = Ok tt.
Proof. intros H. apply verify_Ok. eexists; split; [exact H|]. apply ed_sign_verify. Qed.

Lemma header_inj e1 e2 :
  header_bytes e1 = header_bytes e2 <->
  instance e1 = instance e2 /\ op e1 = op e2 /\ round e1 = round e2 /\
  from e1 = from e2 /\ to e1 = to e2 /\ sealed e1 = sealed e2.
Proof.
  split.
  - rewrite !header_split. intros [_ H]%app_inj_1; [|done].
    apply app_inj_1 in H as [Hi Hf]; [|by rewrite !array_len].
    injection Hf as -> -> -> -> Hs. split_and!; try done; [by apply array_eq|].
    destruct (sealed e1), (sealed e2); done.
  - intros (Hi & Ho & Hr & Hf & Ht & Hs). unfold header_bytes. congruence.
Qed.

(** The signature covers the whole envelope.  Two envelopes have the
    same signature preimage exactly when every routing field agrees and the
    payloads have the same SHA-512 digest, so no field can be altered under
    an existing signature. *)
Theorem signature_covers_envelope e1 e2 :
  signing_preimage e1 = signing_preimage e2 <->
  (instance e1 = instance e2 /\ op e1 = op e2 /\ round e1 = round e2 /\
   from e1 = from e2 /\ to e1 = to e2 /\ sealed e1 = sealed e2) /\
  sha512 (payload e1) = sha512 (payload e2).
Proof.
  rewrite <- header_inj. unfold signing_preimage. split.
  - intros [H1 H2]%app_inj_1; [|by rewrite !header_length].
    split; [done|]. by apply array_eq.
  - intros [-> ->]. done.
Qed.

Lemma seal_shape eph nonce i o rd f t vk m e :
  seal eph nonce i o rd f t vk m = Ok e ->
  exists ct, e = MkEnvelope i o rd f t (arr (x25519_pub eph) ++ arr nonce ++ ct) true /\
    was_contributory (x25519_dh eph (x25519_public_of vk)) = true /\
    aead_encrypt (box_key (x25519_dh eph (x25519_public_of vk)) (x25519_pub eph)
                    (x25519_public_of vk)) nonce (header_bytes e) m = Some ct.
Proof.
  unfold seal. destruct (was_contributory _) eqn:Hc; simpl; [|done].
  destruct (aead_encrypt _ _ _ _) as [ct|] eqn:Hct; [|done].
  intros [= <-]. exists ct. split_and!; [done|done|]. exact Hct.
Qed.

Lemma open_sealed e sk eph_pk nonce ct :
  sealed e = true -> payload e = arr eph_pk ++ arr nonce ++ ct ->
  open e sk =
    if negb (was_contributory (x25519_dh (x25519_secret_of sk) eph_pk))
    then Err (EnvelopeAuth [Lit "non-contributory ephemeral key"])
    else match aead_decrypt (box_key (x25519_dh (x25519_secret_of sk) eph_pk) eph_pk
                               (x25519_pub (x25519_secret_of sk)))
                 nonce (header_bytes e) ct with
         | None => Err (EnvelopeAuth [Lit "unsealing failed — tampered or misaddressed"])
         | Some plaintext => Ok plaintext
         end.
Proof.
  intros Hs Hp. unfold open. rewrite Hs, Hp. cbn [negb].
  rewrite (proj2 (Nat.ltb_ge _ _)).
  2:{ rewrite !length_app, !array_len. unfold EPH_PK_LEN, NONCE_LEN. lia. }
  rewrite split_at_app by apply array_len. rewrite split_at_app by apply array_len.
  by rewrite !(array_of_eq _ _ eq_refl).
Qed.

Lemma seal_opens {CL : CryptoLaws C} eph nonce i o rd f t sk m e :
  seal eph nonce i o rd f t (verifying_key sk) m = Ok e ->
  open e sk = Ok m.
Proof.
  intros (ct & He & Hc & Hct)%seal_shape.
  rewrite (open_sealed e sk (x25519_pub eph) nonce ct) by (by subst).
  unfold x25519_secret_of, x25519_public_of in *.
  rewrite x25519_comm, montgomery_agrees, Hc. cbn [negb].
  by rewrite (aead_roundtrip _ _ _ _ _ Hct).
Qed.

(** Sealing round trip.  Whatever ephemeral key and nonce were drawn, a
    payload sealed to a party's pinned key is opened by that party's
    identity key to the plaintext. *)
Theorem seal_open_roundtrip {CL : CryptoLaws C} eph nonce i o rd f t sk m e :
  seal eph nonce i o rd f t (verifying_key sk) m = Ok e ->
  open e sk = Ok m.
Proof. apply seal_opens. Qed.
End Theorems.

(** ** Witnesses *)
Definition demo_env : Envelope :=
  broadcast (array_repeat 32 (wmod 8 7)) op_DKG (wmod 8 1) (wmod 8 0) (wmod 8 1) (bstr "round-1").
Definition demo_signed : SignedEnvelope := sign demo_env (toy_key 1).

Lemma peek_route_agrees_witness :
  peek_route (encode demo_signed) = Some (instance demo_env, wmod 8 1).
Proof. apply (peek_route_agrees (encode demo_signed) demo_signed). vm_compute. reflexivity. Defined.

Definition demo_nonce : array 24 := array_repeat 24 (wmod 8 9).
Definition demo_sealed : result MpcError Envelope :=
  seal (toy_key 5) demo_nonce (array_repeat 32 (wmod 8 7)) op_DKG (wmod 8 1) (wmod 8 0) (wmod 8 1)
    (verifying_key (toy_key 2)) (bstr "shamir fragment").

Lemma seal_open_roundtrip_witness :
  exists e, demo_sealed = Ok e /\ open e (toy_key 2) = Ok (bstr "shamir fragment").
Proof.
  destruct demo_sealed as [e|] eqn:E.
  - exists e. split; [reflexivity|]. exact (seal_open_roundtrip _ _ _ _ _ _ _ _ _ _ E).
  - exfalso. vm_compute in E. discriminate E.
Defined.

(** The envelope tests of the crate, evaluated. *)
Example decode_rejects_truncated :
  is_ok (decode (take HEADER_LEN (encode demo_signed))) = false.
Proof. vm_compute. reflexivity. Qed.
Example only_the_recipient_opens :
  rmap (fun e => (is_ok (open e (toy_key 1)), is_ok (open e (toy_key 2)))) demo_sealed
  = Ok (false, true).
Proof. vm_compute. reflexivity. Qed.
