(* ===== verification/Channel.v ===== *)
(** * Unbounded FIFO channels ([tokio::sync::mpsc::unbounded_channel])

    The store of channels the two mailbox brokers share: a channel is
    everything ever sent on it and how much of it was received, and it is
    present in the store while its receiver is alive.  Sending on a channel
    whose receiver was dropped fails, as [UnboundedSender::send] does. *)

From S2P Require Import Prelude.
From Stdlib Require Import Lia.
From stdpp Require Import base decidable list gmap.

Section Channel.
Context {A : Type}.

Record chan : Type := MkChan { log : list A; taken : nat }.

(** The frames still waiting in the channel. *)
Definition waiting (c : chan) : list A := drop (taken c) (log c).
(** The frames received, in order. *)
Definition received (c : chan) : list A := take (taken c) (log c).

Record chans : Type := MkChans { live : gmap nat chan; fresh : nat }.

Definition no_chans : chans := MkChans ∅ 0.

(** [unbounded_channel()]. *)
Definition ch_new (s : chans) : chans * nat :=
  (MkChans (<[fresh s := MkChan [] 0]> (live s)) (S (fresh s)), fresh s).

(** [tx.send(a)]: [None] when the receiver is gone. *)
Definition ch_send (s : chans) (i : nat) (a : A) : option chans :=
  c ← live s !! i; Some (MkChans (<[i := MkChan (log c ++ [a]) (taken c)]> (live s)) (fresh s)).

(** [rx.recv()] when a frame waits. *)
Definition ch_recv (s : chans) (i : nat) : option (A * chans) :=
  c ← live s !! i;
  a ← log c !! taken c;
  Some (a, MkChans (<[i := MkChan (log c) (S (taken c))]> (live s)) (fresh s)).

(** The receiver is dropped. *)
Definition ch_close (s : chans) (i : nat) : chans := MkChans (delete i (live s)) (fresh s).

(** Channel ids in use are below the next one; cursors are within the log. *)
Definition ch_wf (s : chans) : Prop :=
  forall i c, live s !! i = Some c -> (i < fresh s)%nat /\ (taken c <= length (log c))%nat.

Lemma ch_wf_empty : ch_wf no_chans.
Proof. by intros i c. Qed.

Lemma ch_wf_new s : ch_wf s -> ch_wf (fst (ch_new s)).
Proof.
  intros H i c. simpl. rewrite lookup_insert_Some. intros [[<- <-]|[_ Hc]]; simpl; [lia|].
  apply H in Hc. lia.
Qed.

Lemma ch_new_fresh s : ch_wf s -> live s !! fresh s = None.
Proof.
  intros H. destruct (live s !! fresh s) as [c|] eqn:E; [|done]. apply H in E. lia.
Qed.

Lemma ch_send_Some s i a s' :
  ch_send s i a = Some s' <->
  exists c, live s !! i = Some c /\
    s' = MkChans (<[i := MkChan (log c ++ [a]) (taken c)]> (live s)) (fresh s).
Proof.
  unfold ch_send. destruct (live s !! i) as [c|]; simpl; [|naive_solver].
  split; [intros [= <-]; eauto|]. by intros (? & [= <-] & ->).
Qed.

Lemma ch_send_None s i a : ch_send s i a = None <-> live s !! i = None.
Proof. unfold ch_send. by destruct (live s !! i). Qed.

Lemma ch_recv_Some s i a s' :
  ch_recv s i = Some (a, s') <->
  exists c, live s !! i = Some c /\ log c !! taken c = Some a /\
    s' = MkChans (<[i := MkChan (log c) (S (taken c))]> (live s)) (fresh s).
Proof.
  unfold ch_recv. destruct (live s !! i) as [c|]; simpl; [|naive_solver].
  destruct (log c !! taken c) as [b|] eqn:E; simpl.
  - split; [intros [= <- <-]; eauto|]. intros (? & [= <-] & Hb & ->). congruence.
  - split; [done|]. intros (? & [= <-] & Hb & _). congruence.
Qed.

Lemma ch_wf_send s i a s' : ch_wf s -> ch_send s i a = Some s' -> ch_wf s'.
Proof.
  intros H (c & Hc & ->)%ch_send_Some j d. simpl. rewrite lookup_insert_Some.
  intros [[<- <-]|[_ Hd]]; [|by apply H]. apply H in Hc. simpl. rewrite length_app. simpl. lia.
Qed.

Lemma ch_wf_recv s i a s' : ch_wf s -> ch_recv s i = Some (a, s') -> ch_wf s'.
Proof.
  intros H (c & Hc & Ha & ->)%ch_recv_Some j d. simpl. rewrite lookup_insert_Some.
  intros [[<- <-]|[_ Hd]]; [|by apply H]. apply H in Hc as [? _]. simpl.
  apply lookup_lt_Some in Ha. lia.
Qed.

Lemma ch_wf_close s i : ch_wf s -> ch_wf (ch_close s i).
Proof. intros H j c. simpl. rewrite lookup_delete_Some. intros [_ Hc]. by apply H. Qed.

(** Receiving moves the first waiting frame to the received ones. *)
Lemma received_step c a :
  log c !! taken c = Some a ->
  received (MkChan (log c) (S (taken c))) = received c ++ [a].
Proof. intros H. unfold received. simpl. by apply take_S_r. Qed.

Lemma received_send c a :
  (taken c <= length (log c))%nat ->
  received (MkChan (log c ++ [a]) (taken c)) = received c.
Proof. intros H. unfold received. simpl. by apply take_app_le. Qed.
End Channel.
Arguments chan A : clear implicits.
Arguments chans A : clear implicits.

#[export] Hint Resolve ch_wf_empty ch_wf_new ch_wf_send ch_wf_recv ch_wf_close : sovra.
