(* ===== verification/Network.v ===== *)
(** * The network seam ([crates/sovra-network])

    The data that crosses it ([TxView], [TxError], [SignedArtifacts]) and the
    [Network] trait as a class: the signing pipeline of one chain.  Both the
    orchestrator ([Api]) and the cosigner ([Cosigner]) are written against
    this class; [Eth] implements it for Ethereum. *)

From S2P Require Import Prelude Types.
From Stdlib Require Import String NArith.
From stdpp Require Import base decidable list strings.

(* src network/lib.rs:27-35 EthTxView *)
Record EthTxView : Type := MkEthTxView {
  view_chain_id : u64;
  view_to : option Address;     (* None means contract creation *)
  view_value : U256;
  view_data : bytes;
}.

(* src network/lib.rs:20-25 TxView *)
Inductive TxView : Type := TxViewEthereum (v : EthTxView).

(* src network/lib.rs:37-51 TxError *)
Inductive TxError : Type :=
  | TxDecode (m : msg)
  | TxValidate (m : msg)
  | TxFinalize (m : msg)
  | TxPubkey (m : msg).

(* src network/lib.rs:37-51 <TxError as Display>::fmt *)
Definition tx_error_text (e : TxError) : msg :=
  match e with
  | TxDecode m => Lit "undecodable transaction: "%string :: m
  | TxValidate m => Lit "invalid transaction: "%string :: m
  | TxFinalize m => Lit "finalize failed: "%string :: m
  | TxPubkey m => Lit "bad public key: "%string :: m
  end.

#[export] Instance TxError_eq_dec : EqDecision TxError.
Proof. unfold msg. solve_decision. Defined.

(* src network/lib.rs:53-60 SignedArtifacts *)
Record SignedArtifacts : Type := MkArtifacts { raw : bytes; txid : B256 }.

#[export] Instance SignedArtifacts_eq_dec : EqDecision SignedArtifacts.
Proof. solve_decision. Defined.

(* src network/lib.rs:62-95 Network *)
Class Network : Type := {
  ID : NetworkId;
  Unsigned : Type;
  decode_unsigned : bytes -> result TxError Unsigned;
  validate : Unsigned -> result TxError unit;
  signing_digests : Unsigned -> list B256;
  policy_view : Unsigned -> TxView;
  finalize : Unsigned -> list EcdsaParts -> PubkeySec1 -> result TxError SignedArtifacts;
  derive_address : PubkeySec1 -> result TxError string;
}.

(** What an implementation promises its clients: the pipeline always yields
    a digest to key on, and a finalized transaction carries one verified
    signature per digest. *)
Class NetworkContract (N : Network) : Type := {
  (* (r, s, parity) over a digest recovers to the signer *)
  recovers : B256 -> EcdsaParts -> PubkeySec1 -> Prop;
  digests_nonempty : forall tx, signing_digests tx <> [];
  finalize_sound : forall tx sigs signer out,
    finalize tx sigs signer = Ok out ->
    Forall2 (fun d sg => recovers d sg signer) (signing_digests tx) sigs;
}.
