(* ===== verification/Policy.v ===== *)
(** * The cosigner's signing policy ([crates/sovra-policy])

    The policy grammar (fail-closed deserialisation of the TOML file) and its
    evaluation on a decoded transaction.  [breaks] is the abstract
    specification: the rules a transaction can break, each by itself and in
    terms of the policy's fields alone; [evaluate_first_violation] says that
    the early-return code reports the first broken one, and allows when there
    is none. *)

From S2P Require Import Prelude Types Network.
From Stdlib Require Import String Ascii NArith ZArith Lia.
From stdpp Require Import base decidable list strings.
Open Scope string_scope.

(** ** Data *)
(* src policy/lib.rs:28-42 DenyReason *)
Inductive DenyReason : Type :=
  | ChainId (id : u64)
  | Recipient (a : Address)
  | ValueCeiling (value max : U256)
  | Calldata
  | ContractCreation.

#[export] Instance DenyReason_eq_dec : EqDecision DenyReason.
Proof. solve_decision. Defined.

(* src policy/lib.rs:20-26 Verdict *)
Inductive Verdict : Type :=
  | Allow
  | Deny (reason : DenyReason).

#[export] Instance Verdict_eq_dec : EqDecision Verdict.
Proof. solve_decision. Defined.

(* src policy/lib.rs:44-50 Recipients *)
Inductive Recipients : Type :=
  | Any
  | List (l : list Address).

#[export] Instance Recipients_eq_dec : EqDecision Recipients.
Proof. solve_decision. Defined.

(* src policy/lib.rs:75-93 Policy *)
Record Policy : Type := MkPolicy {
  allowed_chain_ids : list u64;
  allowed_recipients : Recipients;
  max_value_wei : U256;
  allow_calldata : bool;
  allow_contract_creation : bool;
}.

#[export] Instance Policy_eq_dec : EqDecision Policy.
Proof. solve_decision. Defined.

(** ** Evaluation *)
(* src policy/lib.rs:127-132 Policy::evaluate_ethereum *)
Definition recipient_check (p : Policy) (to : option Address) : option DenyReason :=
  match to with
  | None => if negb (allow_contract_creation p) then Some ContractCreation else None
  | Some to =>
      match allowed_recipients p with
      | Any => None
      | List allowed => if contains to allowed then None else Some (Recipient to)
      end
  end.

(* src policy/lib.rs:113-144 Policy::evaluate_ethereum *)
Definition evaluate_ethereum (p : Policy) (tx : EthTxView) : Verdict :=
  if negb (contains (view_chain_id tx) (allowed_chain_ids p))
  then Deny (ChainId (view_chain_id tx))
  else
    match recipient_check p (view_to tx) with
    | Some reason => Deny reason
    | None =>
        if N.ltb (wval (max_value_wei p)) (wval (view_value tx))
        then Deny (ValueCeiling (view_value tx) (max_value_wei p))
        else if negb (allow_calldata p) && negb (Nat.eqb (length (view_data tx)) 0)
        then Deny Calldata
        else Allow
    end.

(* src policy/lib.rs:104-111 Policy::evaluate *)
Definition evaluate (p : Policy) (view : TxView) : Verdict :=
  match view with
  | TxViewEthereum tx => evaluate_ethereum p tx
  end.

(* src policy/lib.rs:31-41 DenyReason *)
Definition deny_msg (r : DenyReason) : msg :=
  match r with
  | ChainId id => [Lit "chain id "; Num (wval id); Lit " not allowed"]
  | Recipient a => [Lit "recipient "; Hex (wval <$> arr a); Lit " not allowed"]
  | ValueCeiling v m => [Lit "value "; Num (wval v); Lit " wei exceeds ceiling "; Num (wval m)]
  | Calldata => [Lit "calldata not allowed"]
  | ContractCreation => [Lit "contract creation not allowed"]
  end.

(** ** The TOML grammar *)
(** alloy's [FromStr] for addresses and 256-bit integers. *)
Class AlloyParse : Type := {
  parse_address : string -> option Address;
  parse_u256 : string -> option U256;
}.

#[warnings="-register-all"]
Inductive toml : Type :=
  | TInt (z : Z)
  | TStr (s : string)
  | TBool (b : bool)
  | TArr (l : list toml).

(** A double-quote character. *)
Definition quote : string := String (Ascii.ascii_of_nat 34) EmptyString.

Inductive PolicyError : Type :=
  | UnknownField (k : string)
  | MissingField (k : string)
  | BadType (k : string)
  | Custom (m : msg).

Section Grammar.
Context `{AlloyParse}.

Definition as_string (k : string) (v : toml) : result PolicyError string :=
  match v with TStr s => Ok s | _ => Err (BadType k) end.
Definition as_bool (k : string) (v : toml) : result PolicyError bool :=
  match v with TBool b => Ok b | _ => Err (BadType k) end.
Definition as_u64 (k : string) (v : toml) : result PolicyError u64 :=
  match v with
  | TInt z => if Z.leb 0 z && Z.ltb z (2 ^ 63) then Ok (wmod 64 (Z.to_N z)) else Err (BadType k)
  | _ => Err (BadType k)
  end.
Definition as_list {A} (k : string) (f : toml -> result PolicyError A) (v : toml)
  : result PolicyError (list A) :=
  match v with TArr l => collect (f <$> l) | _ => Err (BadType k) end.

(* src policy/lib.rs:52-73 <Recipients as Deserialize>::deserialize *)
Definition recipients_deserialize (k : string) (v : toml) : result PolicyError Recipients :=
  let? raw := as_list k (as_string k) v in
  if contains "*" raw then
    if Nat.ltb 1 (length raw)
    then Err (Custom [Lit quote; Lit "*"; Lit quote; Lit " must be the only allowed_recipients entry"])
    else Ok Any
  else
    rmap List (collect ((fun s => ok_or (Custom [Lit "bad address "; Txt s]) (parse_address s)) <$> raw)).

(* src policy/lib.rs:95-101 u256_from_dec_string *)
Definition u256_from_dec_string (k : string) (v : toml) : result PolicyError U256 :=
  let? s := as_string k v in
  ok_or (Custom [Txt s]) (parse_u256 s).

Definition table : Type := list (string * toml).

Fixpoint field (k : string) (t : table) : option toml :=
  match t with
  | [] => None
  | (k', v) :: t => if decide (k = k') then Some v else field k t
  end.

Definition required {A} (k : string) (f : string -> toml -> result PolicyError A) (t : table)
  : result PolicyError A :=
  match field k t with None => Err (MissingField k) | Some v => f k v end.

Definition policy_keys : list string :=
  ["allowed_chain_ids"; "allowed_recipients"; "max_value_wei"; "allow_calldata";
   "allow_contract_creation"].

(** The derived [Deserialize]: [deny_unknown_fields], every field required
    except the one marked [serde(default)].  TOML tables have distinct keys;
    when several fields are bad at once, which one is named is not modelled. *)
(* src policy/lib.rs:79-93 <Policy as Deserialize>::deserialize *)
Definition policy_deserialize (t : table) : result PolicyError Policy :=
  match list_find (fun k => k ∉ policy_keys) t.*1 with
  | Some (_, k) => Err (UnknownField k)
  | None =>
      let? chains := required "allowed_chain_ids" (fun k => as_list k (as_u64 k)) t in
      let? recipients := required "allowed_recipients" recipients_deserialize t in
      let? ceiling := required "max_value_wei" u256_from_dec_string t in
      let? calldata := required "allow_calldata" as_bool t in
      let? creation := match field "allow_contract_creation" t with
                       | None => Ok false
                       | Some v => as_bool "allow_contract_creation" v
                       end in
      Ok (MkPolicy chains recipients ceiling calldata creation)
  end.
End Grammar.

(** ** Specification *)
(** The rules, each by itself: the chain must be listed, a creation must be
    permitted, a recipient must be listed unless any is accepted, the value
    must not exceed the ceiling, and call data must be permitted. *)
Inductive breaks (p : Policy) (tx : EthTxView) : DenyReason -> Prop :=
  | breaks_chain :
      view_chain_id tx ∉ allowed_chain_ids p -> breaks p tx (ChainId (view_chain_id tx))
  | breaks_creation :
      view_to tx = None -> allow_contract_creation p = false -> breaks p tx ContractCreation
  | breaks_recipient a l :
      view_to tx = Some a -> allowed_recipients p = List l -> a ∉ l -> breaks p tx (Recipient a)
  | breaks_value :
      (wval (max_value_wei p) < wval (view_value tx))%N ->
      breaks p tx (ValueCeiling (view_value tx) (max_value_wei p))
  | breaks_calldata :
      view_data tx <> [] -> allow_calldata p = false -> breaks p tx Calldata.

(** The reporting order: chain, destination, value, call data. *)
Definition rank (r : DenyReason) : nat :=
  match r with
  | ChainId _ => 0
  | ContractCreation | Recipient _ => 1
  | ValueCeiling _ _ => 2
  | Calldata => 3
  end.

(** A policy at least as permissive as another, rule by rule. *)
Definition looser (p q : Policy) : Prop :=
  (forall c, c ∈ allowed_chain_ids p -> c ∈ allowed_chain_ids q) /\
  (allowed_recipients q = Any \/
   exists l l', allowed_recipients p = List l /\ allowed_recipients q = List l' /\
                forall a, a ∈ l -> a ∈ l') /\
  (wval (max_value_wei p) <= wval (max_value_wei q))%N /\
  (allow_calldata p = true -> allow_calldata q = true) /\
  (allow_contract_creation p = true -> allow_contract_creation q = true).

Lemma recipient_check_None p to :
  recipient_check p to = None <->
  match to with
  | None => allow_contract_creation p = true
  | Some a => allowed_recipients p = Any \/ exists l, allowed_recipients p = List l /\ a ∈ l
  end.
Proof.
  unfold recipient_check. destruct to as [a|].
  - destruct (allowed_recipients p) as [|l]; [naive_solver|].
    destruct (contains a l) eqn:E.
    + apply contains_true in E. naive_solver.
    + apply contains_false in E. naive_solver.
  - destruct (allow_contract_creation p); naive_solver.
Qed.

(** The destination rules, against the code's one check for both. *)
Lemma recipient_check_breaks p tx r :
  recipient_check p (view_to tx) = Some r <-> breaks p tx r /\ rank r = 1%nat.
Proof.
  unfold recipient_check. split.
  - destruct (view_to tx) as [a|] eqn:Hto.
    + destruct (allowed_recipients p) as [|l] eqn:Hl; [done|]. destruct (contains a l) eqn:E; [done|].
      apply contains_false in E. intros [= <-]. split; [by apply (breaks_recipient _ _ a l)|done].
    + destruct (allow_contract_creation p) eqn:Hc; [done|]. intros [= <-]. split; [by apply breaks_creation|done].
  - intros [[ | -> -> | a l -> -> ->%contains_false | | ] Hk]; done.
Qed.

(** At most one rule of a rank is broken. *)
Lemma breaks_inj p tx r r' : breaks p tx r -> breaks p tx r' -> rank r = rank r' -> r = r'.
Proof. intros [] []; cbn; intros; congruence. Qed.

Lemma recipient_passes p tx r : recipient_check p (view_to tx) = None -> breaks p tx r -> rank r <> 1%nat.
Proof. intros Hn Hb Hk. by rewrite (proj2 (recipient_check_breaks p tx r) (conj Hb Hk)) in Hn. Qed.

(** The early returns, each with what was checked before it. *)
Lemma evaluate_early p tx :
  match evaluate p (TxViewEthereum tx) with
  | Allow => forall r, ~ breaks p tx r
  | Deny r => breaks p tx r /\ forall r', breaks p tx r' -> (rank r <= rank r')%nat
  end.
Proof.
  unfold evaluate, evaluate_ethereum. destruct (contains _ _) eqn:Hc; cbn [negb].
  2:{ apply contains_false in Hc. split; [by apply breaks_chain|]. cbn. lia. }
  apply contains_true in Hc. destruct (recipient_check p (view_to tx)) as [r|] eqn:Hr.
  { apply recipient_check_breaks in Hr as [Hb ->]. split; [done|]. intros r' []; cbn; solve [lia | done]. }
  pose proof (fun r => recipient_passes p tx r Hr) as Hn. destruct (N.ltb _ _) eqn:Hv.
  { apply N.ltb_lt in Hv. split; [by apply breaks_value|]. intros r' Hb. pose proof (Hn _ Hb).
    destruct Hb; cbn in *; solve [lia | done]. }
  apply N.ltb_ge in Hv. destruct (negb _ && negb _) eqn:Hd.
  - apply andb_true_iff in Hd as [Ha%negb_true_iff Hl%negb_true_iff%Nat.eqb_neq].
    split; [apply breaks_calldata; [by destruct (view_data tx)|done]|]. intros r' Hb. pose proof (Hn _ Hb).
    destruct Hb; cbn in *; solve [lia | done].
  - intros r Hb. pose proof (Hn _ Hb). destruct Hb as [| | | |Hl Ha]; cbn in *; [done..|lia|].
    rewrite Ha in Hd. by destruct (view_data tx).
Qed.

(** C26: a policy reports the first rule broken.  The early-return evaluation
    allows a transaction exactly when it breaks no rule, and refuses it with a
    reason exactly when that rule is broken and none before it in the reporting
    order is. *)
Theorem evaluate_first_violation p tx :
  (evaluate p (TxViewEthereum tx) = Allow <-> forall r, ~ breaks p tx r) /\
  forall r, evaluate p (TxViewEthereum tx) = Deny r <->
    breaks p tx r /\ forall r', breaks p tx r' -> (rank r <= rank r')%nat.
Proof.
  pose proof (evaluate_early p tx) as He. destruct (evaluate _ _) as [|r0]; (split; [split; [done|]|intros r; split]).
  - done.
  - done.
  - intros [Hb _]. by destruct (He r).
  - intros Hall. by destruct (Hall r0), He.
  - by intros [= <-].
  - intros [Hb Hr]. destruct He as [Hb0 Hmin]. f_equal. apply (breaks_inj p tx); [done..|].
    specialize (Hr _ Hb0). specialize (Hmin _ Hb). lia.
Qed.

(** What a policy allows, in full: the chain is listed, the destination
    is an allowed shape and recipient, the value is at most the ceiling
    (boundary included), and call data is empty or permitted. *)
Theorem evaluate_allow_iff p tx :
  evaluate p (TxViewEthereum tx) = Allow <->
  view_chain_id tx ∈ allowed_chain_ids p /\
  match view_to tx with
  | None => allow_contract_creation p = true
  | Some a => allowed_recipients p = Any \/ exists l, allowed_recipients p = List l /\ a ∈ l
  end /\
  (wval (view_value tx) <= wval (max_value_wei p))%N /\
  (allow_calldata p = true \/ view_data tx = []).
Proof.
  rewrite <- contains_true, <- recipient_check_None, <- N.ltb_ge.
  unfold evaluate, evaluate_ethereum. destruct (contains _ _); [|naive_solver].
  cbn [negb]. destruct (recipient_check _ _); [naive_solver|].
  destruct (N.ltb _ _); [naive_solver|].
  destruct (allow_calldata p); [naive_solver|].
  destruct (view_data tx); simpl; naive_solver.
Qed.

(** Evaluation is monotone: loosening any rule of a policy never turns an
    allowed transaction into a denied one. *)
Theorem evaluate_monotone p q view :
  looser p q -> evaluate p view = Allow -> evaluate q view = Allow.
Proof.
  destruct view as [tx]. rewrite !evaluate_allow_iff.
  intros (Hc & Hr & Hv & Hd & Hk) (Hchain & Hto & Hval & Hdata).
  split_and!; [auto| |lia|naive_solver].
  destruct (view_to tx) as [a|]; [|auto].
  destruct Hr as [->|(l & l' & Hl & -> & Hsub)]; [auto|].
  right. exists l'. split; [done|]. apply Hsub. rewrite Hl in Hto.
  destruct Hto as [?|(? & [= <-] & ?)]; done.
Qed.

Section GrammarTheorems.
Context `{AlloyParse}.

Lemma required_Ok {A} k (f : string -> toml -> result PolicyError A) t a :
  required k f t = Ok a <-> exists v, field k t = Some v /\ f k v = Ok a.
Proof. unfold required. destruct (field k t); naive_solver. Qed.

Lemma field_elem k t v : field k t = Some v -> k ∈ t.*1.
Proof.
  induction t as [|[k' v'] t IH]; simpl; [done|].
  case_decide; simplify_eq/=; intros; [left|right; auto].
Qed.

(** C27: the grammar fails closed.  A policy file is accepted only if all its
    keys are known and the four required ones are present, the value ceiling
    was a string, a wildcard recipient stands alone, and an absent creation
    knob means creation is denied. *)
Theorem policy_grammar_fail_closed t p :
  policy_deserialize t = Ok p ->
  Forall (fun k => k ∈ policy_keys) t.*1 /\
  Forall (fun k => k ∈ t.*1)
    ["allowed_chain_ids"; "allowed_recipients"; "max_value_wei"; "allow_calldata"] /\
  (exists s, field "max_value_wei" t = Some (TStr s) /\ parse_u256 s = Some (max_value_wei p)) /\
  (allowed_recipients p = Any <->
     field "allowed_recipients" t = Some (TArr [TStr "*"])) /\
  (field "allow_contract_creation" t = None -> allow_contract_creation p = false).
Proof.
  unfold policy_deserialize. destruct (list_find _ _) as [[i k]|] eqn:Hf; [done|].
  apply list_find_None in Hf. intros Hp.
  apply rbind_Ok in Hp as (c & (vc & Hvc & _)%required_Ok & Hp).
  apply rbind_Ok in Hp as (rc & (vr & Hvr & Hrc)%required_Ok & Hp).
  apply rbind_Ok in Hp as (m & (vm & Hvm & Hm)%required_Ok & Hp).
  apply rbind_Ok in Hp as (d & (vd & Hvd & _)%required_Ok & Hp).
  apply rbind_Ok in Hp as (k & Hk & [= <-]). cbn [max_value_wei allowed_recipients
    allow_contract_creation]. split_and!.
  - eapply Forall_impl; [exact Hf|]. intros x Hx. by apply dec_stable.
  - repeat constructor; eapply field_elem; eauto.
  - unfold u256_from_dec_string, as_string in Hm. destruct vm; try done. cbn [rbind] in Hm.
    apply ok_or_Ok in Hm. eauto.
  - unfold recipients_deserialize, as_list in Hrc. rewrite Hvr. destruct vr as [| | |l]; try done.
    apply rbind_Ok in Hrc as (raw & Hraw & Hrc). apply collect_Ok in Hraw.
    assert (l = TStr <$> raw) as ->.
    { revert Hraw. clear. revert raw; induction l as [|v l IH]; intros [|s raw]; try done; simpl.
      intros [= Hv Hl]. rewrite (IH _ Hl). destruct v; by simplify_eq/=. }
    destruct (contains "*" raw) eqn:Hstar.
    + destruct raw as [|s [|]]; try done.
      apply contains_true, list_elem_of_singleton in Hstar as <-. by simplify_eq/=.
    + apply rmap_Ok in Hrc as (? & _ & ->). split; [done|]. intros [= Hr].
      destruct raw as [|s [|]]; simplify_eq/=.
  - intros Hn. rewrite Hn in Hk. by simplify_eq/=.
Qed.
End GrammarTheorems.

(** ** Witnesses *)
Fixpoint toy_dec (acc : N) (s : string) : option N :=
  match s with
  | EmptyString => Some acc
  | String c s =>
      match digit_val c with
      | Some d => if N.ltb d 10 then toy_dec (10 * acc + d) s else None
      | None => None
      end
  end.

#[export] Instance ToyParse : AlloyParse := {|
  parse_address s := toy_hex_decode s ≫= to_array 20;
  parse_u256 s := wmod 256 <$> toy_dec 0 s;
|}.

Definition RECIPIENT : Address := array_repeat 20 (wmod 8 17).
Definition OTHER : Address := array_repeat 20 (wmod 8 34).
Definition demo_policy : Policy :=
  MkPolicy [wmod 64 11155111] (List [RECIPIENT]) (wmod 256 1000000) false false.
Definition demo_view (chain : N) (to : option Address) (value : N) (data : bytes) : EthTxView :=
  MkEthTxView (wmod 64 chain) to (wmod 256 value) data.

Lemma evaluate_monotone_witness :
  evaluate (MkPolicy [wmod 64 11155111] Any (wmod 256 2000000) true false)
    (TxViewEthereum (demo_view 11155111 (Some RECIPIENT) 1000000 [])) = Allow.
Proof.
  apply (evaluate_monotone demo_policy).
  - unfold looser; simpl. split_and!; [done|by left|by vm_compute|done|done].
  - vm_compute. reflexivity.
Defined.

Definition demo_table : table :=
  [("allowed_chain_ids", TArr [TInt 11155111]);
   ("allowed_recipients", TArr [TStr "0x1111111111111111111111111111111111111111"]);
   ("max_value_wei", TStr "1000000"); ("allow_calldata", TBool false)].

Lemma policy_grammar_fail_closed_witness :
  policy_deserialize demo_table = Ok demo_policy /\
  allow_contract_creation demo_policy = false.
Proof.
  assert (policy_deserialize demo_table = Ok demo_policy) as H by (vm_compute; reflexivity).
  split; [exact H|].
  apply (policy_grammar_fail_closed demo_table demo_policy H). reflexivity.
Defined.

(** The crate's policy tests, evaluated. *)
Example denies_wrong_chain :
  evaluate demo_policy (TxViewEthereum (demo_view 1 (Some RECIPIENT) 2000000 []))
  = Deny (ChainId (wmod 64 1)).
Proof. vm_compute. reflexivity. Qed.
Example denies_unlisted_recipient :
  evaluate demo_policy (TxViewEthereum (demo_view 11155111 (Some OTHER) 1 []))
  = Deny (Recipient OTHER).
Proof. vm_compute. reflexivity. Qed.
Example denies_value_over_ceiling :
  evaluate demo_policy (TxViewEthereum (demo_view 11155111 (Some RECIPIENT) 1000001 []))
  = Deny (ValueCeiling (wmod 256 1000001) (wmod 256 1000000)).
Proof. vm_compute. reflexivity. Qed.
Example rejects_wildcard_mixed_with_addresses :
  recipients_deserialize "allowed_recipients"
    (TArr [TStr "*"; TStr "0x1111111111111111111111111111111111111111"])
  = Err (Custom [Lit quote; Lit "*"; Lit quote; Lit " must be the only allowed_recipients entry"]).
Proof. vm_compute. reflexivity. Qed.
