(* ===== verification/State.v ===== *)
(** * The shard store ([crates/sovra-state])

    One party's on-disk persistence: [SignerStore] over a model of the file
    system the Rust standard library exposes.  Every primitive can fail, and a
    write can fail half-way; since the code returns at the first I/O error,
    the file system after a failed call is also what a crash at that point
    leaves behind.  [first_save_crash_safe] and [resave_crash_safe] state what a
    reader can observe after any such failure. *)

From S2P Require Import Prelude Text Types Mpc.
From Stdlib Require Import String Ascii NArith Lia.
From stdpp Require Import base decidable countable list gmap strings.

(** ** Paths *)
Abbreviation path := (list string).

Definition slash : ascii := "/"%char.
Definition nul : ascii := zero.
Definition backslash : ascii := "\"%char.

(** [Path::components]: empty and [.] components disappear. *)
Definition components (s : string) : path :=
  filter (fun c => c <> EmptyString /\ c <> "."%string) (split_on slash EmptyString s).

(** [Path::join]: an absolute argument replaces the base. *)
Definition join (root : path) (s : string) : path :=
  match s with
  | String c _ => if decide (c = slash) then components s else root ++ components s
  | EmptyString => root
  end.

(** [Path::display]. *)
Definition show_path (p : path) : frag := Txt (String.concat "/"%string p).

(** ** The file system *)
Inductive node : Type :=
  | File (content : bytes) (mode : N)
  | Dir (mode : N).

Inductive io_error : Type := NotFoundKind | OtherKind.

#[export] Instance io_error_eq_dec : EqDecision io_error.
Proof. solve_decision. Defined.

(* src state/types.rs:95-117 StateError *)
Inductive StateError : Type :=
  | Io (p : path) (source : io_error)
  | Serde
  | NotFound (id : SignerId)
  | PubkeyNotFound (pk : PubkeySec1)
  | InvalidSignerId (id : SignerId)
  | Seal
  | PartialState (pk : PubkeySec1).

#[export] Instance StateError_eq_dec : EqDecision StateError.
Proof. unfold SignerId. solve_decision. Defined.

(* src state/types.rs:95-117 <StateError as Display>::fmt *)
Definition state_error_text (e : StateError) : msg :=
  match e with
  | Io p _ => [Lit "i/o error at "%string; show_path p; Lit ": "%string; Txt "io error"%string]
  | Serde => [Lit "serialization error"%string]
  | NotFound id => [Lit "signer not found: "%string; Lit id]
  | PubkeyNotFound pk => [Lit "no signer found for public key "%string; Hex (wval <$> arr (pk_bytes pk))]
  | InvalidSignerId id => [Lit "invalid signer id: "%string; Lit id]
  | Seal => [Lit "could not unseal shard"%string]
  | PartialState pk => [Lit "metadata for "%string; Hex (wval <$> arr (pk_bytes pk));
      Lit " present but shard missing; partial dkg persistence — wipe the store dir and re-run dkg"%string]
  end.

(** The world: the file system and the failures still to come.  Each
    primitive consumes one entry: [None] lets it run, [Some k] makes it fail,
    a write having stored nothing for [Some 0] and the first [k] bytes of a
    file that is there from then on for [Some (S k)]. *)
Record world : Type := World { fs : gmap path node; faults : list (option nat) }.

Definition no_faults (w : world) : world := World (fs w) [].

Definition IO (A : Type) : Type := world -> result io_error A * world.

Definition pop_fault (w : world) : option nat * world :=
  match faults w with
  | [] => (None, w)
  | f :: l => (f, World (fs w) l)
  end.

(** The file-system call number [i] from here fails. *)
Definition fails_at (i : nat) (w : world) : bool :=
  match faults w !! i with Some (Some _) => true | _ => false end.

Definition default_mode : N := 420.   (* 0o644 *)
Definition dir_mode : N := 493.       (* 0o755 *)

Definition parent_is_dir (f : gmap path node) (p : path) : bool :=
  match reverse p with
  | [] => false
  | _ :: rp =>
      match rp with
      | [] => true
      | _ => match f !! reverse rp with Some (Dir _) => true | _ => false end
      end
  end.

Definition put_file (f : gmap path node) (p : path) (b : bytes) : gmap path node :=
  match f !! p with
  | Some (File _ m) => <[p := File b m]> f
  | Some (Dir _) => f
  | None => <[p := File b default_mode]> f
  end.

(** Some proper ancestor of [p] is a regular file: the path does not resolve,
    and the error is ENOTDIR, not ENOENT. *)
Fixpoint blocked (f : gmap path node) (done todo : path) : bool :=
  match todo with
  | [] | [_] => false
  | c :: todo =>
      match f !! (done ++ [c]) with
      | Some (File _ _) => true
      | _ => blocked f (done ++ [c]) todo
      end
  end.
(** The error of an operation on a path with nothing at it. *)
Definition absent (f : gmap path node) (p : path) : io_error :=
  if blocked f [] p then OtherKind else NotFoundKind.

(** [Path::exists]: [false] when the metadata cannot be read, for whatever
    reason. *)
Definition path_exists (p : path) (w0 : world) : bool * world :=
  let (fault, w) := pop_fault w0 in
  match fault with
  | Some _ => (false, w)
  | None => (bool_decide (is_Some (fs w !! p)), w)
  end.

(** [std::fs::write]. *)
Definition fs_write (p : path) (b : bytes) : IO unit := fun w0 =>
  let (fault, w) := pop_fault w0 in
  if negb (parent_is_dir (fs w) p) then (Err (absent (fs w) p), w) else
  match fs w !! p with
  | Some (Dir _) => (Err OtherKind, w)
  | _ =>
      match fault with
      | None => (Ok tt, World (put_file (fs w) p b) (faults w))
      | Some 0%nat => (Err OtherKind, w)
      | Some (S k) => (Err OtherKind, World (put_file (fs w) p (take k b)) (faults w))
      end
  end.

(** [std::fs::set_permissions]. *)
Definition fs_set_mode (p : path) (m : N) : IO unit := fun w0 =>
  let (fault, w) := pop_fault w0 in
  match fault, fs w !! p with
  | Some _, _ => (Err OtherKind, w)
  | None, None => (Err (absent (fs w) p), w)
  | None, Some (File b _) => (Ok tt, World (<[p := File b m]> (fs w)) (faults w))
  | None, Some (Dir _) => (Ok tt, World (<[p := Dir m]> (fs w)) (faults w))
  end.

(** [std::fs::rename], of a file: atomic. *)
Definition fs_rename (a b : path) : IO unit := fun w0 =>
  let (fault, w) := pop_fault w0 in
  match fault, fs w !! a, fs w !! b with
  | Some _, _, _ => (Err OtherKind, w)
  | None, None, _ => (Err (absent (fs w) a), w)
  | None, Some (Dir _), _ => (Err OtherKind, w)
  | None, _, Some (Dir _) => (Err OtherKind, w)
  | None, Some n, _ => (Ok tt, World (<[b := n]> (delete a (fs w))) (faults w))
  end.

(** [std::fs::read]. *)
Definition fs_read (p : path) : IO bytes := fun w0 =>
  let (fault, w) := pop_fault w0 in
  match fault, fs w !! p with
  | Some _, _ => (Err OtherKind, w)
  | None, None => (Err (absent (fs w) p), w)
  | None, Some (Dir _) => (Err OtherKind, w)
  | None, Some (File b _) => (Ok b, w)
  end.

(** [std::fs::read_to_string]: the bytes, when they are UTF-8. *)
Definition fs_read_to_string (p : path) : IO bytes := fun w =>
  match fs_read p w with
  | (Ok b, w) => (if utf8_valid b then Ok b else Err OtherKind, w)
  | (Err e, w) => (Err e, w)
  end.

(** [std::fs::read_dir].  The order of the entries is the file system's
    ([listing]); each entry is read from the directory when it is reached, and
    that read can fail too ([fs_entry]). *)
Definition Listing : Type := gmap path node -> path -> list string.
Definition fs_read_dir (listing : Listing) (p : path) : IO (list string) := fun w0 =>
  let (fault, w) := pop_fault w0 in
  match fault, fs w !! p with
  | Some _, _ => (Err OtherKind, w)
  | None, None => (Err (absent (fs w) p), w)
  | None, Some (File _ _) => (Err OtherKind, w)
  | None, Some (Dir _) => (Ok (listing (fs w) p), w)
  end.
Definition fs_entry : IO unit := fun w0 =>
  let (fault, w) := pop_fault w0 in
  match fault with Some _ => (Err OtherKind, w) | None => (Ok tt, w) end.

(** What [read_dir] promises: every child, once, and nothing else. *)
Definition lists_children (listing : Listing) : Prop :=
  forall f p, NoDup (listing f p) /\ forall n, n ∈ listing f p <-> is_Some (f !! (p ++ [n])).

(** [std::fs::create_dir_all]. *)
Fixpoint mkdirs (f : gmap path node) (done todo : path) : option (gmap path node) :=
  match todo with
  | [] => Some f
  | c :: todo =>
      let p := done ++ [c] in
      match f !! p with
      | Some (File _ _) => None
      | Some (Dir _) => mkdirs f p todo
      | None => mkdirs (<[p := Dir dir_mode]> f) p todo
      end
  end.
Definition fs_create_dir_all (p : path) : IO unit := fun w0 =>
  let (fault, w) := pop_fault w0 in
  match fault, mkdirs (fs w) [] p with
  | Some _, _ => (Err OtherKind, w)
  | None, None => (Err OtherKind, w)
  | None, Some f => (Ok tt, World f (faults w))
  end.

Definition S_ (A : Type) : Type := M world StateError A.

(* src state/types.rs:83-93 IoResultExt::at *)
Definition at_ {A} (x : IO A) (p : path) : S_ A := mmap_err (Io p) x.

(** ** Sealing at rest *)
(* src state/types.rs:14-18 ShardSealer *)
Record ShardSealer : Type := MkSealer {
  seal_op : array 24 -> bytes -> result StateError bytes;   (* the nonce is drawn at random *)
  open_op : bytes -> result StateError bytes;
}.

(** What the store relies on: what was sealed opens to the plaintext. *)
Definition sealer_ok (sl : ShardSealer) : Prop :=
  forall n b c, seal_op sl n b = Ok c -> open_op sl c = Ok b.

(* src state/types.rs:20-32 Passthrough *)
Definition Passthrough : ShardSealer := MkSealer (fun _ b => Ok b) (fun b => Ok b).

(* src state/types.rs:34-37 SEAL_MAGIC *)
Definition SEAL_MAGIC : bytes := bstr "SVR1".
(* src state/types.rs:38-38 NONCE_LEN *)
Definition NONCE_LEN : nat := 24.

Section XChaCha.
Context {C : Crypto}.

(* src state/types.rs:56-68 <XChaChaSealer as ShardSealer>::seal *)
Definition xchacha_seal (key : array 32) (nonce : array 24) (plaintext : bytes)
  : result StateError bytes :=
  let? ciphertext := ok_or Seal (aead_encrypt key nonce [] plaintext) in
  Ok (SEAL_MAGIC ++ arr nonce ++ ciphertext).

(* src state/types.rs:70-80 <XChaChaSealer as ShardSealer>::open *)
Definition xchacha_open (key : array 32) (sealed : bytes) : result StateError bytes :=
  let? rest := ok_or Seal (strip_pfx SEAL_MAGIC sealed) in
  if Nat.ltb (length rest) NONCE_LEN then Err Seal else
  let (nonce, ciphertext) := split_at NONCE_LEN rest in
  ok_or Seal (aead_decrypt key (array_of 24 nonce) [] ciphertext).

(* src state/types.rs:40-53 XChaChaSealer *)
Definition XChaChaSealer (key : array 32) : ShardSealer :=
  MkSealer (xchacha_seal key) (xchacha_open key).
End XChaCha.

(** ** Metadata: serde_json's encoding of [SignerMetadata]. *)
Class MetaCodec : Type := {
  to_json : SignerMetadata -> bytes;
  from_json : bytes -> option SignerMetadata;
}.
Class MetaLaws (J : MetaCodec) : Prop := { json_roundtrip : forall m, from_json (to_json m) = Some m }.

(* src state/lib.rs:26-26 METADATA_FILE *)
Definition METADATA_FILE : string := "metadata.json".
(* src state/lib.rs:27-27 SHARD_FILE *)
Definition SHARD_FILE : string := "shard.bin".

(* src state/lib.rs:29-35 SignerStore *)
Record SignerStore : Type := MkStore { root : path; sealer : ShardSealer }.

(* src state/lib.rs:147-155 set_mode *)
Definition set_mode (p : path) (mode : N) : S_ unit := at_ (fs_set_mode p mode) p.

Definition file_name (p : path) : string :=
  match reverse p with n :: _ => n | [] => "f"%string end.
Definition parent (p : path) : path := reverse (tail (reverse p)).

(* src state/lib.rs:180-184 write_atomic_mode *)
Definition tmp_path (p : path) : path := parent p ++ [String.append ".tmp-" (file_name p)].

(* src state/lib.rs:179-189 write_atomic_mode *)
Definition write_atomic_mode (p : path) (b : bytes) (mode : N) : S_ unit :=
  let tmp := tmp_path p in
  let! _ := at_ (fs_write tmp b) tmp in
  let! _ := set_mode tmp mode in
  at_ (fs_rename tmp p) p.

(* src state/lib.rs:168-170 write_atomic *)
Definition write_atomic (p : path) (b : bytes) : S_ unit := write_atomic_mode p b 384. (* 0o600 *)
(* src state/lib.rs:172-177 write_atomic_public *)
Definition write_atomic_public (p : path) (b : bytes) : S_ unit := write_atomic_mode p b 420.

(* src state/lib.rs:157-166 read_or_not_found *)
Definition read_or_not_found (p : path) (id : SignerId) : S_ bytes := fun w =>
  match fs_read p w with
  | (Ok b, w) => (Ok b, w)
  | (Err NotFoundKind, w) => (Err (NotFound id), w)
  | (Err source, w) => (Err (Io p source), w)
  end.

(* src state/lib.rs:53-65 SignerStore::signer_dir *)
Definition signer_dir (st : SignerStore) (id : SignerId) : result StateError path :=
  let safe := negb (bool_decide (id = EmptyString)) && negb (bool_decide (id = "."%string))
              && negb (bool_decide (id = ".."%string)) && negb (has_char slash id)
              && negb (has_char backslash id) && negb (has_char nul id) in
  if negb safe then Err (InvalidSignerId id) else Ok (join (root st) id).

(* src state/lib.rs:43-51 SignerStore::open_with_sealer *)
Definition open_with_sealer (r : path) (sl : ShardSealer) : S_ SignerStore :=
  let! _ := at_ (fs_create_dir_all r) r in
  mpure (MkStore r sl).

(* src state/lib.rs:38-41 SignerStore::open *)
Definition open_store (r : path) : S_ SignerStore := open_with_sealer r Passthrough.

Section Store.
Context `{MetaCodec}.
Variable st : SignerStore.

(* src state/lib.rs:67-83 SignerStore::save_shard *)
Definition save_shard (nonce : array 24) (meta : SignerMetadata) (shard : KeyShare) : S_ unit :=
  let! dir := mlift (signer_dir st (signer_id meta)) in
  let! _ := at_ (fs_create_dir_all dir) dir in
  let! _ := set_mode dir 448 in                                    (* 0o700 *)
  let meta_bytes := to_json meta in
  let! _ := write_atomic (dir ++ [METADATA_FILE]) meta_bytes in
  let! sealed := mlift (seal_op (sealer st) nonce shard) in
  let! _ := write_atomic (dir ++ [SHARD_FILE]) sealed in
  mpure tt.

(* src state/lib.rs:84-90 SignerStore::load_shard *)
Definition load_shard (id : SignerId) : S_ KeyShare :=
  let! dir := mlift (signer_dir st id) in
  let! sealed := read_or_not_found (dir ++ [SHARD_FILE]) id in
  mlift (open_op (sealer st) sealed).

(* src state/lib.rs:92-97 SignerStore::load_metadata *)
Definition load_metadata (id : SignerId) : S_ SignerMetadata :=
  let! dir := mlift (signer_dir st id) in
  let! b := read_or_not_found (dir ++ [METADATA_FILE]) id in
  mlift (ok_or Serde (from_json b)).

(* src state/lib.rs:104-124 SignerStore::find_by_public_key *)
Fixpoint find_in (pk : PubkeySec1) (entries : list string) : S_ SignerId :=
  match entries with
  | [] => mabort (PubkeyNotFound pk)
  | e :: entries =>
      let! _ := at_ fs_entry (root st) in
      fun w =>
      let meta_path := (root st ++ [e]) ++ [METADATA_FILE] in
      match fs_read meta_path w with
      | (Err NotFoundKind, w) => find_in pk entries w
      | (Err source, w) => (Err (Io meta_path source), w)
      | (Ok b, w) =>
          match from_json b with
          | None => (Err Serde, w)
          | Some meta =>
              if decide (public_key meta = pk) then (Ok (signer_id meta), w)
              else find_in pk entries w
          end
      end
  end.

(* src state/lib.rs:99-127 SignerStore::find_by_public_key *)
Definition find_by_public_key (listing : Listing) (pk : PubkeySec1) : S_ SignerId :=
  let! entries := at_ (fs_read_dir listing (root st)) (root st) in
  find_in pk entries.

(* src state/lib.rs:129-144 SignerStore::load_active *)
Definition load_active (id : SignerId) : S_ (option PubkeySec1) := fun w =>
  match load_metadata id w with
  | (Err (NotFound _), w) => (Ok None, w)
  | (Err e, w) => (Err e, w)
  | (Ok meta, w) =>
      match load_shard id w with
      | (Ok _, w) => (Ok (Some (public_key meta)), w)
      | (Err (NotFound _), w) => (Err (PartialState (public_key meta)), w)
      | (Err e, w) => (Err e, w)
      end
  end.
End Store.

(** ** What a reader can observe at a path: nothing, a directory, or a
    file's bytes. *)
Definition shape (n : node) : option bytes := match n with File b _ => Some b | Dir _ => None end.
Definition content (f : gmap path node) (p : path) : option (option bytes) := shape <$> f !! p.

Lemma content_insert_ne f p q n : q <> p -> content (<[p := n]> f) q = content f q.
Proof. intros. unfold content. by rewrite lookup_insert_ne. Qed.

Lemma content_insert_eq f p b m : content (<[p := File b m]> f) p = Some (Some b).
Proof. unfold content. by rewrite lookup_insert_eq. Qed.

Lemma pop_fault_fs w fault w1 : pop_fault w = (fault, w1) -> fs w1 = fs w.
Proof. unfold pop_fault. destruct (faults w); naive_solver. Qed.

Lemma path_exists_fs p w b w' : path_exists p w = (b, w') -> fs w' = fs w.
Proof.
  unfold path_exists. destruct (pop_fault w) as [fault w1] eqn:Hp. apply pop_fault_fs in Hp.
  destruct fault; by intros [= _ <-].
Qed.

Lemma path_exists_quiet p w :
  path_exists p (no_faults w) = (bool_decide (content (fs w) p <> None), no_faults w).
Proof.
  unfold path_exists, content. simpl. f_equal. apply bool_decide_ext.
  destruct (fs w !! p); split; intros H; try done; by destruct H.
Qed.

Ltac io_cases :=
  repeat match goal with
  | H : (let (_, _) := pop_fault ?w in _) = _ |- _ =>
      let E := fresh "Epop" in
      destruct (pop_fault w) as [? ?] eqn:E; apply pop_fault_fs in E
  | H : context [match ?x with _ => _ end] |- _ => destruct x eqn:?; simplify_eq/=
  end; simplify_eq/=.

Lemma put_file_ne f p q b : q <> p -> put_file f p b !! q = f !! q.
Proof. intros. unfold put_file. repeat case_match; by rewrite ?lookup_insert_ne. Qed.

Lemma fs_write_spec p b w r w' :
  fs_write p b w = (r, w') ->
  (forall q, q <> p -> content (fs w') q = content (fs w) q) /\
  (r = Ok tt -> content (fs w') p = Some (Some b)).
Proof.
  unfold fs_write. intros H. io_cases; (split; [intros q Hq|try done]);
    unfold content; rewrite ?put_file_ne by done; rewrite ?Epop; try done;
    intros _; unfold put_file; rewrite <- ?Epop, Heqo0; by rewrite lookup_insert_eq.
Qed.

Lemma fs_set_mode_spec p m w r w' :
  fs_set_mode p m w = (r, w') -> forall q, content (fs w') q = content (fs w) q.
Proof.
  unfold fs_set_mode. intros H q. io_cases; rewrite ?Epop in *; try done;
    (destruct (decide (q = p)) as [->|]; [|by rewrite content_insert_ne by done]);
    unfold content; rewrite lookup_insert_eq; by simplify_option_eq.
Qed.

Lemma fs_rename_spec a b w r w' :
  a <> b -> fs_rename a b w = (r, w') ->
  (forall q, q <> a -> q <> b -> content (fs w') q = content (fs w) q) /\
  (content (fs w') b = content (fs w) b \/
   content (fs w') b = content (fs w) a) /\
  (r = Ok tt -> content (fs w') b = content (fs w) a).
Proof.
  intros Hab. unfold fs_rename. intros H. io_cases; rewrite ?Epop in *;
    try (split_and!; [done|by left|done]);
    match goal with H : fs w !! a = Some (File ?c _) |- _ =>
      assert (content (fs w) a = Some (Some c)) as Ha by (unfold content; by rewrite H) end;
    (split_and!; [intros q Hqa Hqb|right|intros _]); rewrite ?Ha, ?content_insert_eq; eauto;
    rewrite content_insert_ne by done; unfold content; by rewrite lookup_delete_ne.
Qed.

Lemma mkdirs_content f dn todo f' :
  mkdirs f dn todo = Some f' ->
  forall q, ~ q `prefix_of` dn ++ todo -> content f' q = content f q.
Proof.
  revert f dn. induction todo as [|c todo IH]; simpl; intros f dn Hm q Hq; [by simplify_eq|].
  assert (~ q `prefix_of` (dn ++ [c]) ++ todo) as Hq' by (by rewrite <- app_assoc).
  destruct (f !! (dn ++ [c])) as [[]|] eqn:E; [done|by eapply IH|].
  rewrite (IH _ _ Hm) by done. apply content_insert_ne. intros ->. apply Hq'.
  by apply prefix_app_r.
Qed.

Lemma mkdirs_dirs f dn todo f' q :
  mkdirs f dn todo = Some f' ->
  content f' q = content f q \/ (content f q = None /\ content f' q = Some None).
Proof.
  revert f dn. induction todo as [|c todo IH]; simpl; intros f dn Hm; [simplify_eq; by left|].
  destruct (f !! (dn ++ [c])) as [[]|] eqn:E; [done|by eapply IH|].
  assert (content f (dn ++ [c]) = None) as En by (unfold content; by rewrite E).
  destruct (decide (q = dn ++ [c])) as [->|Hq]; apply IH in Hm.
  - right. split; [done|]. revert Hm. unfold content. rewrite lookup_insert_eq. simpl. naive_solver.
  - by rewrite content_insert_ne in Hm.
Qed.

(** Between two disks: files outside [except] are untouched, except that
    missing ancestors of [d] may have become directories. *)
Definition grown (d : path) (f f' : gmap path node) (q : path) : Prop :=
  (~ q `prefix_of` d -> content f' q = content f q) /\
  (content f' q = content f q \/ (content f q = None /\ content f' q = Some None)).

Lemma fs_create_dir_all_spec p w r w' :
  fs_create_dir_all p w = (r, w') -> forall q, grown p (fs w) (fs w') q.
Proof.
  unfold fs_create_dir_all. intros H q. io_cases; rewrite ?Epop in *; try (split; by auto).
  split; [intros; by eapply mkdirs_content|by eapply mkdirs_dirs].
Qed.

Lemma grown_eq d f f' f'' q : grown d f f' q -> content f'' q = content f' q -> grown d f f'' q.
Proof. unfold grown. by intros ? ->. Qed.

(** What makes a path resolve: no regular file above it. *)
Lemma blocked_snoc f dn d n :
  blocked f dn (d ++ [n]) = false <->
  forall k b, k <> [] -> k `prefix_of` d -> content f (dn ++ k) <> Some (Some b).
Proof.
  revert dn. induction d as [|c d IH]; intros dn.
  - split; [|done]. intros _ k b Hk [l Hl]. by destruct k.
  - assert (blocked f dn ((c :: d) ++ [n]) =
            match f !! (dn ++ [c]) with Some (File _ _) => true | _ => blocked f (dn ++ [c]) (d ++ [n]) end) as ->
      by (simpl; by destruct (d ++ [n]) eqn:?; [destruct d|]).
    split.
    + intros Hb k b Hk Hp. destruct k as [|x k]; [done|].
      apply prefix_cons_inv_1 in Hp as Hx. apply prefix_cons_inv_2 in Hp. subst x.
      destruct (f !! (dn ++ [c])) as [[]|] eqn:E; [done| |];
        (destruct k as [|y k]; [unfold content; by rewrite E|]);
        (replace (dn ++ c :: y :: k) with ((dn ++ [c]) ++ y :: k) by (by rewrite <- app_assoc));
        by apply (proj1 (IH _) Hb).
    + intros Hk. assert (forall b m, f !! (dn ++ [c]) <> Some (File b m)) as Hn.
      { intros b m E. apply (Hk [c] b); [done|by apply prefix_cons, prefix_nil|].
        unfold content. by rewrite E. }
      assert (blocked f (dn ++ [c]) (d ++ [n]) = false) as Hb.
      { apply IH. intros k b Hne Hp. rewrite <- app_assoc. apply Hk; [done|by apply prefix_cons]. }
      destruct (f !! (dn ++ [c])) as [[b m|]|] eqn:E; [by destruct (Hn b m)|done|done].
Qed.

Lemma grown_unblocked d f f' n :
  (forall q, q `prefix_of` d -> grown d f f' q) ->
  blocked f [] (d ++ [n]) = false -> blocked f' [] (d ++ [n]) = false.
Proof.
  rewrite !blocked_snoc. intros Hg Hb k b Hk Hp. destruct (proj2 (Hg k Hp)) as [E|[_ E]];
    cbn [app] in *; rewrite E; [by apply Hb|done].
Qed.

Lemma at_inv {A} (x : IO A) p w r w' :
  at_ x p w = (r, w') -> exists r0, x w = (r0, w') /\ (is_ok r = is_ok r0) /\ r = map_err (Io p) r0.
Proof. unfold at_, mmap_err. destruct (x w) as [r0 w0]. intros [= <- <-]. exists r0. by destruct r0. Qed.

(** The atomic write: whatever fails, the target holds its old content or
    exactly the new bytes, never a torn mixture, and no other file changes
    except the temporary one. *)
Lemma write_atomic_mode_spec p b m w r w' :
  tmp_path p <> p -> write_atomic_mode p b m w = (r, w') ->
  (forall q, q <> p -> q <> tmp_path p -> content (fs w') q = content (fs w) q) /\
  (content (fs w') p = content (fs w) p \/ content (fs w') p = Some (Some b)) /\
  (r = Ok tt -> content (fs w') p = Some (Some b)).
Proof.
  intros Ht. unfold write_atomic_mode, mbnd, set_mode.
  destruct (at_ (fs_write _ _) _ w) as [r1 w1] eqn:H1.
  apply at_inv in H1 as (r1' & H1 & _ & ->). apply fs_write_spec in H1 as [W1 W2].
  destruct r1' as [[]|e]; cbn [map_err].
  2:{ intros [= <- <-]. split_and!; [intros; by apply W1|left; apply W1; congruence|done]. }
  specialize (W2 eq_refl).
  destruct (at_ (fs_set_mode _ _) _ w1) as [r2 w2] eqn:H2.
  apply at_inv in H2 as (r2' & H2 & _ & ->). pose proof (fs_set_mode_spec _ _ _ _ _ H2) as M2.
  destruct r2' as [[]|e]; cbn [map_err].
  2:{ intros [= <- <-]. split_and!; [|left|done]; intros; rewrite M2; apply W1; congruence. }
  intros H3. apply at_inv in H3 as (r3' & H3 & Hok & Hr).
  apply fs_rename_spec in H3 as (R1 & R2 & R3); [|done]. rewrite !M2, W2 in R2. rewrite M2, W2 in R3.
  split_and!.
  - intros q Hp Hq. rewrite R1, M2 by done. by apply W1.
  - destruct R2 as [R2|R2]; [left|by right]. rewrite R2. apply W1. congruence.
  - intros ->. apply R3. by destruct r3' as [[]|].
Qed.

Lemma tmp_path_snoc d n : tmp_path (d ++ [n]) = d ++ [String.append ".tmp-" n].
Proof. unfold tmp_path, parent, file_name. rewrite reverse_snoc. simpl. by rewrite reverse_involutive. Qed.

Definition meta_path (d : path) : path := d ++ [METADATA_FILE].
Definition shard_path (d : path) : path := d ++ [SHARD_FILE].

(** Where a store keeps the active generation. *)
Definition shard_dir (st : SignerStore) : path := root st ++ [ACTIVE_SIGNER_ID].

Lemma shard_dir_ok st : signer_dir st ACTIVE_SIGNER_ID = Ok (shard_dir st).
Proof. reflexivity. Qed.

(** The files a save writes: the two targets and their temporaries. *)
Definition save_files (d : path) : list path :=
  [meta_path d; shard_path d; tmp_path (meta_path d); tmp_path (shard_path d)].

Lemma snoc_not_prefix (d : path) n : ~ (d ++ [n]) `prefix_of` d.
Proof. intros [k Hk]. apply (f_equal length) in Hk. rewrite !length_app in Hk. simpl in Hk. lia. Qed.

Lemma save_files_distinct d :
  tmp_path (meta_path d) <> meta_path d /\ tmp_path (shard_path d) <> shard_path d /\
  meta_path d <> shard_path d /\ meta_path d <> tmp_path (shard_path d) /\
  shard_path d <> tmp_path (meta_path d).
Proof.
  unfold meta_path, shard_path. rewrite !tmp_path_snoc.
  split_and!; intros H; apply app_inv_head in H; discriminate H.
Qed.

Lemma save_files_dirs d q : q `prefix_of` d -> q ∉ save_files d.
Proof.
  intros Hq Hin. assert (exists n, q = d ++ [n]) as [n ->].
  { unfold save_files, meta_path, shard_path in Hin. rewrite !tmp_path_snoc in Hin. set_solver. }
  by apply snoc_not_prefix in Hq.
Qed.

Lemma blocked_sibling f d n n' : blocked f [] (d ++ [n]) = blocked f [] (d ++ [n']).
Proof.
  destruct (blocked f [] (d ++ [n])) eqn:E.
  - symmetry. apply not_false_is_true. intros E'.
    by rewrite (proj2 (blocked_snoc f [] d n) (proj1 (blocked_snoc f [] d n') E')) in E.
  - symmetry. exact (proj2 (blocked_snoc f [] d n') (proj1 (blocked_snoc f [] d n) E)).
Qed.

Section SaveSpec.
Context `{MetaCodec}.
Variable st : SignerStore.

(** What one call leaves behind, whatever failed inside it. *)
Lemma save_shard_effect nonce meta shard w r w' d :
  signer_dir st (signer_id meta) = Ok d ->
  save_shard st nonce meta shard w = (r, w') ->
  let old p := content (fs w') p = content (fs w) p in
  let new_meta := content (fs w') (meta_path d) = Some (Some (to_json meta)) in
  let new_shard := exists c, seal_op (sealer st) nonce shard = Ok c /\
                             content (fs w') (shard_path d) = Some (Some c) in
  (forall q, q ∉ save_files d -> grown d (fs w) (fs w') q) /\
  ((old (meta_path d) \/ new_meta) /\ old (shard_path d) \/ new_meta /\ new_shard) /\
  (r = Ok tt -> new_meta /\ new_shard).
Proof.
  intros Hd. unfold save_shard, mlift, mbnd, write_atomic. rewrite Hd.
  pose proof (save_files_distinct d) as (T1 & T2 & MS & MT & ST).
  pose proof (snoc_not_prefix d METADATA_FILE) as PM.
  pose proof (snoc_not_prefix d SHARD_FILE) as PS.
  fold (meta_path d) (shard_path d) in *.
  destruct (at_ (fs_create_dir_all d) d w) as [r1 w1] eqn:H1.
  apply at_inv in H1 as (r1' & H1 & _ & ->). pose proof (fs_create_dir_all_spec _ _ _ _ H1) as C1.
  destruct r1'; cbn [map_err]; [|intros [= <- <-]; cbv zeta; split_and!; [by auto| |done]].
  2:{ left. split; [left; by apply C1|by apply C1]. }
  unfold set_mode.
  destruct (at_ (fs_set_mode d 448) d w1) as [r2 w2] eqn:H2.
  apply at_inv in H2 as (r2' & H2 & _ & ->). pose proof (fs_set_mode_spec _ _ _ _ _ H2) as C2.
  assert (forall q, grown d (fs w) (fs w2) q) as G2 by (intros q; by eapply grown_eq).
  pose proof (fun q => proj1 (G2 q)) as C12. clear C1 C2. destruct r2'; cbn [map_err]; [|intros [= <- <-]; cbv zeta; split_and!; [by auto|left; by auto|done]].
  destruct (write_atomic_mode (meta_path d) _ _ w2) as [r3 w3] eqn:H3.
  apply write_atomic_mode_spec in H3 as (O3 & N3 & K3); [|done].
  rewrite (C12 _ PM) in N3.
  assert (content (fs w3) (shard_path d) = content (fs w) (shard_path d)) as S3.
  { rewrite O3 by congruence. by apply C12. }
  assert (forall q, q ∉ save_files d -> grown d (fs w) (fs w3) q) as Q3.
  { unfold save_files. intros q Hq. eapply grown_eq; [done|]. apply O3; set_solver. }
  destruct r3 as [[]|]; [|intros [= <- <-]; cbv zeta; split_and!; [by auto|left; by auto|done]].
  specialize (K3 eq_refl).
  destruct (seal_op (sealer st) nonce shard) as [c|] eqn:Hseal;
  [|intros [= <- <-]; cbv zeta; split_and!; [by auto|left; by auto|done]].
  destruct (write_atomic_mode (shard_path d) c _ w3) as [r4 w4] eqn:H4.
  apply write_atomic_mode_spec in H4 as (O4 & N4 & K4); [|done].
  rewrite <- (O4 (meta_path d)) in K3 by congruence. rewrite S3 in N4.
  assert (forall q, q ∉ save_files d -> grown d (fs w) (fs w4) q) as Q4.
  { intros q Hq. eapply grown_eq; [by apply Q3|]. unfold save_files in Hq. apply O4; set_solver. }
  intros Hr. assert (r = r4 /\ w' = w4) as [-> ->]
    by (destruct r4 as [[]|]; unfold mpure in Hr; by inversion Hr).
  cbv zeta. split_and!; [done| |].
  - destruct N4 as [N4|N4]; [left; auto|right; eauto].
  - intros ->. eauto.
Qed.

(** *** Reading *)
Lemma fs_read_quiet p w :
  fs_read p (no_faults w) =
  (match content (fs w) p with
   | None => Err (absent (fs w) p)
   | Some None => Err OtherKind
   | Some (Some b) => Ok b
   end, no_faults w).
Proof. unfold fs_read, content; simpl. destruct (fs w !! p) as [[]|]; done. Qed.

(** The error of reading a file that is not there. *)
Definition absent_as (id : SignerId) (f : gmap path node) (p : path) : StateError :=
  if blocked f [] p then Io p OtherKind else NotFound id.

Lemma read_or_not_found_quiet p id w :
  read_or_not_found p id (no_faults w) =
  (match content (fs w) p with
   | None => Err (absent_as id (fs w) p)
   | Some None => Err (Io p OtherKind)
   | Some (Some b) => Ok b
   end, no_faults w).
Proof.
  unfold read_or_not_found. rewrite fs_read_quiet. destruct (content _ _) as [[]|]; try done.
  unfold absent, absent_as. by destruct (blocked _ _ _).
Qed.

Lemma load_metadata_quiet id d w :
  signer_dir st id = Ok d ->
  load_metadata st id (no_faults w) =
  (match content (fs w) (meta_path d) with
   | None => Err (absent_as id (fs w) (meta_path d))
   | Some None => Err (Io (meta_path d) OtherKind)
   | Some (Some b) => ok_or Serde (from_json b)
   end, no_faults w).
Proof.
  intros Hd. unfold load_metadata, mlift, mbnd. rewrite Hd.
  fold (meta_path d). rewrite read_or_not_found_quiet. by destruct (content _ _) as [[]|].
Qed.

Lemma load_shard_quiet id d w :
  signer_dir st id = Ok d ->
  load_shard st id (no_faults w) =
  (match content (fs w) (shard_path d) with
   | None => Err (absent_as id (fs w) (shard_path d))
   | Some None => Err (Io (shard_path d) OtherKind)
   | Some (Some b) => open_op (sealer st) b
   end, no_faults w).
Proof.
  intros Hd. unfold load_shard, mlift, mbnd. rewrite Hd.
  fold (shard_path d). rewrite read_or_not_found_quiet. by destruct (content _ _) as [[]|].
Qed.

Context {JL : MetaLaws _}.

Lemma load_active_quiet id d w :
  signer_dir st id = Ok d ->
  fst (load_active st id (no_faults w)) =
  match fst (load_metadata st id (no_faults w)) with
  | Err (NotFound _) => Ok None
  | Err e => Err e
  | Ok meta =>
      match fst (load_shard st id (no_faults w)) with
      | Ok _ => Ok (Some (public_key meta))
      | Err (NotFound _) => Err (PartialState (public_key meta))
      | Err e => Err e
      end
  end.
Proof.
  intros Hd. unfold load_active. rewrite (load_metadata_quiet _ _ _ Hd). cbn [fst].
  destruct (content (fs w) (meta_path d)) as [[b|]|]; cbn [ok_or]; try done;
    [|unfold absent_as; by destruct (blocked _ _ _)].
  destruct (from_json b) as [meta|]; cbn [ok_or]; [|done].
  rewrite (load_shard_quiet _ _ _ Hd). cbn [fst].
  destruct (content (fs w) (shard_path d)) as [[c|]|]; try done;
    [|unfold absent_as; by destruct (blocked _ _ _)].
  by destruct (open_op (sealer st) c) as [|[]].
Qed.

(** What a successful save leaves to read. *)
Lemma save_loads nonce meta shard w w' :
  sealer_ok (sealer st) ->
  save_shard st nonce meta shard w = (Ok tt, w') ->
  fst (load_metadata st (signer_id meta) (no_faults w')) = Ok meta /\
  fst (load_shard st (signer_id meta) (no_faults w')) = Ok shard /\
  fst (load_active st (signer_id meta) (no_faults w')) = Ok (Some (public_key meta)).
Proof.
  intros Hsl Hsave. destruct (signer_dir st (signer_id meta)) as [d|e] eqn:Hd.
  2:{ unfold save_shard, mbnd, mlift in Hsave. by rewrite Hd in Hsave. }
  destruct (save_shard_effect _ _ _ _ _ _ _ Hd Hsave) as (_ & _ & Hn).
  cbv zeta in Hn. destruct (Hn eq_refl) as (Hm & c & Hc & Hs).
  rewrite (load_active_quiet _ _ _ Hd), (load_metadata_quiet _ _ _ Hd), (load_shard_quiet _ _ _ Hd).
  cbn [fst]. rewrite Hm, Hs, json_roundtrip. cbn [ok_or]. by rewrite (Hsl _ _ _ Hc).
Qed.

(** Saving round-trips.  A save that returned success, under any schedule
    of faults elsewhere, is read back exactly: the metadata, the shard through
    the sealer, and the generation as active. *)
Theorem save_then_load nonce meta shard w w' :
  sealer_ok (sealer st) ->
  save_shard st nonce meta shard w = (Ok tt, w') ->
  fst (load_metadata st (signer_id meta) (no_faults w')) = Ok meta /\
  fst (load_shard st (signer_id meta) (no_faults w')) = Ok shard /\
  fst (load_active st (signer_id meta) (no_faults w')) = Ok (Some (public_key meta)).
Proof. apply save_loads. Qed.

(** C23: a first save is crash-safe.  From a store with neither file of this
    signer and no regular file in the place of one of its directories,
    whatever primitive of the save fails (or the process dies there), the
    store afterwards reads as no generation, as the whole new generation, or
    as the explicit partial-state error: never as a wrong or torn one. *)
Theorem first_save_crash_safe nonce meta shard w r w' d :
  sealer_ok (sealer st) ->
  signer_dir st (signer_id meta) = Ok d ->
  content (fs w) (meta_path d) = None -> content (fs w) (shard_path d) = None ->
  blocked (fs w) [] (meta_path d) = false ->
  save_shard st nonce meta shard w = (r, w') ->
  fst (load_active st (signer_id meta) (no_faults w')) ∈
    [Ok None; Err (PartialState (public_key meta)); Ok (Some (public_key meta))].
Proof.
  intros Hsl Hd Hm0 Hs0 Hbl Hsave.
  destruct (save_shard_effect _ _ _ _ _ _ _ Hd Hsave) as (Hg & Hcase & _). cbv zeta in Hcase.
  rewrite (load_active_quiet _ _ _ Hd), (load_metadata_quiet _ _ _ Hd), (load_shard_quiet _ _ _ Hd).
  assert (blocked (fs w') [] (meta_path d) = false) as Hbl'
    by (eapply grown_unblocked; [intros; by apply Hg, save_files_dirs|done]).
  unfold absent_as, shard_path. rewrite (blocked_sibling _ _ SHARD_FILE METADATA_FILE).
  fold (meta_path d) (shard_path d). rewrite Hbl'. cbn [fst]. rewrite Hm0, Hs0 in Hcase.
  destruct Hcase as [[[Hm|Hm] Hs]|(Hm & c & Hc & Hs)]; rewrite Hm, ?Hs, ?json_roundtrip; cbn [ok_or].
  - by left.
  - right. by left.
  - rewrite (Hsl _ _ _ Hc). right. right. by left.
Qed.

(** C16: replacing a generation (a refresh) is crash-safe.  If the store holds
    a shard of the same public key, then after a save that failed anywhere it
    still reports that key as active, and its shard file reads as the old
    shard or the new one, whole. *)
Theorem resave_crash_safe nonce n0 meta shard old w r w' d c0 :
  sealer_ok (sealer st) ->
  signer_dir st (signer_id meta) = Ok d ->
  content (fs w) (meta_path d) = Some (Some (to_json meta)) ->
  seal_op (sealer st) n0 old = Ok c0 -> content (fs w) (shard_path d) = Some (Some c0) ->
  save_shard st nonce meta shard w = (r, w') ->
  fst (load_active st (signer_id meta) (no_faults w')) = Ok (Some (public_key meta)) /\
  (fst (load_shard st (signer_id meta) (no_faults w')) = Ok old \/
   fst (load_shard st (signer_id meta) (no_faults w')) = Ok shard).
Proof.
  intros Hsl Hd Hm0 Hc0 Hs0 Hsave.
  destruct (save_shard_effect _ _ _ _ _ _ _ Hd Hsave) as (_ & Hcase & _). cbv zeta in Hcase.
  rewrite (load_active_quiet _ _ _ Hd), (load_metadata_quiet _ _ _ Hd), (load_shard_quiet _ _ _ Hd).
  cbn [fst]. rewrite Hm0, Hs0 in Hcase.
  assert (content (fs w') (meta_path d) = Some (Some (to_json meta)) /\
          (content (fs w') (shard_path d) = Some (Some c0) \/
           exists c, seal_op (sealer st) nonce shard = Ok c /\
                     content (fs w') (shard_path d) = Some (Some c))) as [-> Hs] by naive_solver.
  rewrite json_roundtrip. cbn [ok_or].
  destruct Hs as [->|(c & Hc & ->)]; rewrite ?(Hsl _ _ _ Hc0), ?(Hsl _ _ _ Hc); auto.
Qed.
End SaveSpec.

(** ** The temporary file carries the final mode before it becomes visible *)
Lemma fs_set_mode_node p m b m0 w r w' :
  fs w !! p = Some (File b m0) -> fs_set_mode p m w = (r, w') ->
  r = Ok tt -> fs w' !! p = Some (File b m).
Proof.
  unfold fs_set_mode. intros Hp H ->. io_cases; rewrite ?Epop, ?Hp in *; simplify_eq.
  by rewrite lookup_insert_eq.
Qed.

Lemma fs_rename_node a b w r w' :
  a <> b -> fs_rename a b w = (r, w') ->
  fs w' !! b = fs w !! b \/ fs w' !! b = fs w !! a.
Proof.
  intros Hab. unfold fs_rename. intros H. io_cases; rewrite ?Epop in *; auto;
    right; rewrite lookup_insert_eq; by simplify_option_eq.
Qed.

Lemma fs_other_node q p w r w' :
  q <> p -> (exists m, fs_set_mode p m w = (r, w')) \/ (exists b, fs_write p b w = (r, w')) ->
  fs w' !! q = fs w !! q.
Proof.
  intros Hq [[m H]|[b H]]; [unfold fs_set_mode in H|unfold fs_write in H]; io_cases;
    rewrite ?put_file_ne, ?lookup_insert_ne by done; by rewrite ?Epop.
Qed.

Lemma fs_rename_other q a b w r w' :
  q <> a -> q <> b -> fs_rename a b w = (r, w') -> fs w' !! q = fs w !! q.
Proof.
  intros Ha Hb H. unfold fs_rename in H. io_cases;
    rewrite ?lookup_insert_ne, ?lookup_delete_ne by done; by rewrite ?Epop.
Qed.

Lemma fs_rename_node_Ok a b w n w' :
  fs_rename a b w = (Ok tt, w') -> fs w !! a = Some n -> fs w' !! b = Some n.
Proof.
  unfold fs_rename. intros H Ha. io_cases; rewrite ?Epop in *; simplify_eq;
    by rewrite lookup_insert_eq.
Qed.

(** The atomic write, node by node: permission bits included. *)
Lemma write_atomic_mode_nodes p b m w r w' :
  tmp_path p <> p -> write_atomic_mode p b m w = (r, w') ->
  (forall q, q <> p -> q <> tmp_path p -> fs w' !! q = fs w !! q) /\
  (fs w' !! p = fs w !! p \/ fs w' !! p = Some (File b m)) /\
  (r = Ok tt -> fs w' !! p = Some (File b m)).
Proof.
  intros Ht. unfold write_atomic_mode, mbnd, set_mode.
  destruct (at_ (fs_write _ _) _ w) as [r1 w1] eqn:H1.
  apply at_inv in H1 as (r1' & H1 & _ & ->).
  assert (forall q, q <> tmp_path p -> fs w1 !! q = fs w !! q) as E1
    by (intros; eapply fs_other_node; eauto).
  destruct r1' as [[]|e]; cbn [map_err]; [|intros [= <- <-]; split_and!; auto; done].
  apply fs_write_spec in H1 as [_ W2]. specialize (W2 eq_refl).
  destruct (fs w1 !! tmp_path p) as [[b0 m0|]|] eqn:Hn; unfold content in W2;
    rewrite Hn in W2; try done. injection W2 as ->.
  destruct (at_ (fs_set_mode _ _) _ w1) as [r2 w2] eqn:H2.
  apply at_inv in H2 as (r2' & H2 & _ & ->).
  assert (forall q, q <> tmp_path p -> fs w2 !! q = fs w !! q) as E2.
  { intros q Hq. rewrite <- E1 by done. eapply fs_other_node; eauto. }
  destruct r2' as [[]|e]; cbn [map_err]; [|intros [= <- <-]; split_and!; auto; done].
  pose proof (fs_set_mode_node _ _ _ _ _ _ _ Hn H2 eq_refl) as Hm.
  intros H3. apply at_inv in H3 as (r3' & H3 & _ & ->). split_and!.
  - intros q Hp Hq. rewrite (fs_rename_other q _ _ _ _ _ Hq Hp H3). by apply E2.
  - apply fs_rename_node in H3 as [->| ->]; [left; auto|right; congruence|done].
  - intros Hok. destruct r3' as [[]|]; [|done]. by apply (fs_rename_node_Ok _ _ _ _ _ H3).
Qed.

(** A secret is never briefly readable: at every point where an atomic
    write can stop, the target is the node it was, or a file with exactly the
    requested permission bits. *)
Theorem write_atomic_mode_private p b m w r w' :
  tmp_path p <> p -> write_atomic_mode p b m w = (r, w') ->
  fs w' !! p = fs w !! p \/ fs w' !! p = Some (File b m).
Proof. intros Ht H. apply (write_atomic_mode_nodes _ _ _ _ _ _ Ht H). Qed.

(** ** A save with no fault and a writable directory succeeds *)
Definition not_dir (f : gmap path node) (p : path) : Prop := forall m, f !! p <> Some (Dir m).

Lemma write_atomic_mode_runs d n b m f :
  parent_is_dir f (d ++ [n]) = true -> parent_is_dir f (tmp_path (d ++ [n])) = true ->
  not_dir f (d ++ [n]) -> not_dir f (tmp_path (d ++ [n])) ->
  tmp_path (d ++ [n]) <> d ++ [n] ->
  exists f', write_atomic_mode (d ++ [n]) b m (World f []) = (Ok tt, World f' []) /\
    (forall q, q <> d ++ [n] -> q <> tmp_path (d ++ [n]) -> f' !! q = f !! q).
Proof.
  intros Hp Htp Hd Htd Hne. set (p := d ++ [n]) in *. set (t := tmp_path p) in *.
  assert (exists m1, put_file f t b !! t = Some (File b m1)) as [m1 Hput].
  { unfold put_file. destruct (f !! t) as [[]|] eqn:E; [|by destruct (Htd mode)|];
      rewrite lookup_insert_eq; eauto. }
  assert (fs_write t b (World f []) = (Ok tt, World (put_file f t b) [])) as E1.
  { unfold fs_write; simpl. rewrite Htp. simpl.
    destruct (f !! t) as [[]|] eqn:E; [done|by destruct (Htd mode)|done]. }
  unfold write_atomic_mode, mbnd, set_mode, at_, mmap_err. fold t.
  rewrite E1. cbn [map_err].
  unfold fs_set_mode at 1; simpl. rewrite Hput. cbn [map_err].
  unfold fs_rename; simpl. rewrite lookup_insert_eq, lookup_insert_ne, put_file_ne by congruence.
  destruct (f !! p) as [[]|] eqn:Ep; [|by destruct (Hd mode)|];
    (eexists; split; [reflexivity|]; intros q Hqp Hqt;
     rewrite lookup_insert_ne, lookup_delete_ne, lookup_insert_ne, put_file_ne by congruence; done).
Qed.

Lemma parent_is_dir_snoc f d n :
  parent_is_dir f (d ++ [n]) = match d with [] => true | _ => match f !! d with Some (Dir _) => true | _ => false end end.
Proof.
  unfold parent_is_dir. rewrite reverse_snoc. destruct d as [|x d]; [done|].
  destruct (reverse (x :: d)) as [|y l] eqn:E.
  - apply (f_equal length) in E. by rewrite length_reverse in E.
  - rewrite <- E, reverse_involutive. done.
Qed.

Lemma mkdirs_is_dir f dn todo f' :
  mkdirs f dn todo = Some f' -> todo <> [] -> exists m, f' !! (dn ++ todo) = Some (Dir m).
Proof.
  revert f dn. induction todo as [|c todo IH]; [done|]. simpl. intros f dn H _.
  destruct todo as [|c' todo].
  - simpl in H. destruct (f !! (dn ++ [c])) as [[]|] eqn:E; simplify_eq; [eauto|].
    rewrite lookup_insert_eq. eauto.
  - replace (dn ++ c :: c' :: todo) with ((dn ++ [c]) ++ c' :: todo) by (by rewrite <- app_assoc).
    destruct (f !! (dn ++ [c])) as [[]|]; [done|eapply IH; eauto..].
Qed.

Lemma mkdirs_above f dn todo f' q :
  (length q <= length dn)%nat -> mkdirs f dn todo = Some f' -> f' !! q = f !! q.
Proof.
  revert f dn. induction todo as [|z todo IH]; simpl; intros f dn Hl Hm; [by simplify_eq|].
  assert (length q <= length (dn ++ [z]))%nat as Hl' by (rewrite length_app; lia).
  destruct (f !! (dn ++ [z])) as [[]|] eqn:E; [done|by apply (IH _ _ Hl' Hm)|].
  rewrite (IH _ _ Hl' Hm). apply lookup_insert_ne. intros <-. rewrite length_app in Hl. simpl in Hl. lia.
Qed.

Lemma mkdirs_dir_at f dn todo f' k :
  mkdirs f dn todo = Some f' -> k <> [] -> k `prefix_of` todo -> exists m, f' !! (dn ++ k) = Some (Dir m).
Proof.
  revert f dn k. induction todo as [|c todo IH]; intros f dn k Hm Hk Hp; [by destruct k, Hp|].
  destruct k as [|x k]; [done|].
  apply prefix_cons_inv_1 in Hp as Hx. apply prefix_cons_inv_2 in Hp. subst x.
  assert (exists f1 m1, f1 !! (dn ++ [c]) = Some (Dir m1) /\ mkdirs f1 (dn ++ [c]) todo = Some f') as (f1 & m1 & H1 & Hm1).
  { simpl in Hm. destruct (f !! (dn ++ [c])) as [[]|] eqn:E; [done|by eauto|].
    eexists _, _. split; [apply lookup_insert_eq|exact Hm]. }
  destruct k as [|y k].
  - exists m1. by rewrite (mkdirs_above _ _ _ _ _ (le_n _) Hm1).
  - replace (dn ++ c :: y :: k) with ((dn ++ [c]) ++ y :: k) by (by rewrite <- app_assoc).
    by eapply IH.
Qed.

Lemma mkdirs_done f dn todo :
  (forall k, k <> [] -> k `prefix_of` todo -> exists m, f !! (dn ++ k) = Some (Dir m)) ->
  mkdirs f dn todo = Some f.
Proof.
  revert dn. induction todo as [|c todo IH]; intros dn Hk; [done|]. simpl.
  destruct (Hk [c]) as [m ->]; [done|by apply prefix_cons, prefix_nil|]. apply IH.
  intros k Hne Hp. rewrite <- app_assoc. apply Hk; [done|by apply prefix_cons].
Qed.

Lemma mkdirs_frame f dn todo f' q :
  mkdirs f dn todo = Some f' -> ~ q `prefix_of` dn ++ todo -> f' !! q = f !! q.
Proof.
  revert f dn. induction todo as [|c todo IH]; simpl; intros f dn Hm Hq; [by simplify_eq|].
  assert (~ q `prefix_of` (dn ++ [c]) ++ todo) as Hq' by (by rewrite <- app_assoc).
  destruct (f !! (dn ++ [c])) as [[]|] eqn:E; [done|by eapply IH|].
  rewrite (IH _ _ Hm) by done. apply lookup_insert_ne. intros <-. apply Hq'.
  by apply prefix_app_r.
Qed.

(** A save succeeds when nothing fails: if the signer's directory can be
    created, none of the four file names is taken by a directory, and the
    sealer accepts the shard, [save_shard] returns success. *)
Theorem save_shard_total `{MetaCodec} st nonce meta shard c d f f1 :
  signer_dir st (signer_id meta) = Ok d -> d <> [] ->
  mkdirs f [] d = Some f1 ->
  Forall (not_dir f) (save_files d) ->
  seal_op (sealer st) nonce shard = Ok c ->
  exists f', save_shard st nonce meta shard (World f []) = (Ok tt, World f' []).
Proof.
  intros Hd Hne Hmk Hfiles Hseal.
  destruct (save_files_distinct d) as (T1 & T2 & MS & MT & ST).
  unfold save_files, meta_path, shard_path in *. rewrite !tmp_path_snoc in *.
  destruct (mkdirs_is_dir _ _ _ _ Hmk Hne) as [m0 Hdir]. rewrite app_nil_l in Hdir.
  set (f2 := <[d := Dir 448]> f1).
  assert (forall n, f2 !! (d ++ [n]) = f !! (d ++ [n])) as Hf2.
  { intros n. unfold f2. rewrite lookup_insert_ne.
    - apply (mkdirs_frame _ _ _ _ _ Hmk). apply snoc_not_prefix.
    - intros E. apply (snoc_not_prefix d n). rewrite <- E. reflexivity. }
  assert (forall n, parent_is_dir f2 (d ++ [n]) = true) as Hpar.
  { intros n. rewrite parent_is_dir_snoc. unfold f2. rewrite lookup_insert_eq. by destruct d. }
  rewrite !Forall_cons in Hfiles. destruct Hfiles as (F1 & F2 & F3 & F4 & _).
  destruct (write_atomic_mode_runs d METADATA_FILE (to_json meta) 384 f2) as (f3 & E3 & O3);
    rewrite ?tmp_path_snoc in *; auto; try (intros m; rewrite Hf2; auto).
  assert (forall n, parent_is_dir f3 (d ++ [n]) = true) as Hpar3.
  { intros n. rewrite parent_is_dir_snoc, O3.
    - unfold f2. rewrite lookup_insert_eq. by destruct d.
    - intros E. apply (snoc_not_prefix d METADATA_FILE). rewrite <- E. reflexivity.
    - intros E. apply (snoc_not_prefix d (String.append ".tmp-" METADATA_FILE)). rewrite <- E. reflexivity. }
  destruct (write_atomic_mode_runs d SHARD_FILE c 384 f3) as (f4 & E4 & _);
    rewrite ?tmp_path_snoc in *; auto;
    try (intros m; rewrite O3 by (try congruence; intros E; by apply app_inv_head in E);
         rewrite Hf2; auto).
  exists f4. unfold save_shard, mbnd, mlift, write_atomic, set_mode, at_, mmap_err. rewrite Hd.
  unfold fs_create_dir_all; simpl. rewrite Hmk. cbn [map_err].
  unfold fs_set_mode at 1; simpl. rewrite Hdir. cbn [map_err]. fold f2.
  rewrite E3, Hseal, E4. done.
Qed.

(** ** Signer directories and sealing *)
(** Signer ids cannot traverse: an accepted id names a direct child of
    the store's root, and is not empty, [.] or [..]. *)
Theorem signer_dir_contained st id d :
  signer_dir st id = Ok d ->
  d = root st ++ [id] /\ id <> EmptyString /\ id <> "."%string /\ id <> ".."%string.
Proof.
  unfold signer_dir. destruct (negb _) eqn:Hs; [done|]. apply negb_false_iff in Hs.
  rewrite !andb_true_iff, !negb_true_iff, !bool_decide_eq_false in Hs.
  destruct Hs as (((((H0 & H1) & H2) & H3) & _) & _). intros [= <-]. split; [|done].
  assert (components id = [id]) as Hc.
  { unfold components. rewrite split_on_none by done. simpl.
    rewrite filter_cons_True by done. done. }
  unfold join. destruct id as [|c id']; [done|]. rewrite decide_False; [by rewrite Hc|].
  simpl in H3. apply orb_false_iff in H3 as [H3 _]. by apply bool_decide_eq_false in H3.
Qed.

Section Sealers.
Context {C : Crypto}.

(** The XChaCha20-Poly1305 sealer round-trips under any drawn nonce, so
    it is a lawful sealer for the store. *)
Lemma xchacha_sealer_ok {CL : CryptoLaws C} key : sealer_ok (XChaChaSealer key).
Proof.
  intros n b c. simpl. unfold xchacha_seal. intros (ct & Hct & [= <-])%rbind_Ok.
  apply ok_or_Ok in Hct. unfold xchacha_open.
  rewrite (proj2 (strip_pfx_Some SEAL_MAGIC _ (arr n ++ ct))) by done. cbn [ok_or rbind].
  rewrite (proj2 (Nat.ltb_ge _ _)) by (rewrite length_app, array_len; unfold NONCE_LEN; lia).
  rewrite split_at_app by apply array_len.
  by rewrite (array_of_eq n), (aead_roundtrip _ _ _ _ _ Hct).
Qed.

(** A shard that was never sealed is refused, not read as plaintext. *)
Lemma xchacha_refuses_plaintext key b :
  (forall rest, b <> SEAL_MAGIC ++ rest) -> xchacha_open key b = Err Seal.
Proof.
  intros H. unfold xchacha_open. destruct (strip_pfx SEAL_MAGIC b) as [rest|] eqn:E; [|done].
  apply strip_pfx_Some in E. by destruct (H rest).
Qed.
End Sealers.

(** ** Finding a signer by its key *)
Section Find.
Context `{MetaCodec}.
Variable st : SignerStore.

(** The metadata stored under the child [e] of the root. *)
Definition stored (f : gmap path node) (e : string) (m : SignerMetadata) : Prop :=
  exists b, content f (meta_path (root st ++ [e])) = Some (Some b) /\ from_json b = Some m.
(** A child that is not a signer's: no metadata in it, and it is a directory. *)
Definition no_signer (f : gmap path node) (e : string) : Prop :=
  content f (meta_path (root st ++ [e])) = None /\
  blocked f [] (meta_path (root st ++ [e])) = false.

Lemma stored_unique f e m m' : stored f e m -> stored f e m' -> m = m'.
Proof. intros (b & Hb & Hm) (b' & Hb' & Hm'). congruence. Qed.

Lemma no_signer_stored f e m : no_signer f e -> ~ stored f e m.
Proof. intros [Hn _] (b & Hb & _). congruence. Qed.

(** One step of the scan, when nothing fails. *)
Lemma find_in_cons pk e es w :
  find_in st pk (e :: es) (no_faults w) =
  match content (fs w) (meta_path (root st ++ [e])) with
  | None => if blocked (fs w) [] (meta_path (root st ++ [e]))
            then (Err (Io (meta_path (root st ++ [e])) OtherKind), no_faults w)
            else find_in st pk es (no_faults w)
  | Some None => (Err (Io (meta_path (root st ++ [e])) OtherKind), no_faults w)
  | Some (Some b) =>
      match from_json b with
      | None => (Err Serde, no_faults w)
      | Some m => if decide (public_key m = pk) then (Ok (signer_id m), no_faults w)
                  else find_in st pk es (no_faults w)
      end
  end.
Proof.
  cbn [find_in]. unfold mbnd.
  assert (at_ fs_entry (root st) (no_faults w) = (Ok tt, no_faults w)) as -> by done.
  fold (meta_path (root st ++ [e])). rewrite fs_read_quiet.
  destruct (content (fs w) _) as [[b|]|]; [done|done|].
  unfold absent. by destruct (blocked _ _ _).
Qed.

Lemma find_in_cases pk es w :
  Forall (fun e => no_signer (fs w) e \/ exists m, stored (fs w) e m) es ->
  (exists e m, e ∈ es /\ stored (fs w) e m /\ public_key m = pk /\
     find_in st pk es (no_faults w) = (Ok (signer_id m), no_faults w)) \/
  (forall e m, e ∈ es -> stored (fs w) e m -> public_key m <> pk) /\
  find_in st pk es (no_faults w) = (Err (PubkeyNotFound pk), no_faults w).
Proof.
  induction es as [|e es IH]; [right; split; [set_solver|done]|].
  intros [He Hes]%Forall_cons. rewrite find_in_cons. destruct He as [Hn|(m & Hm)].
  - pose proof Hn as [-> ->]. destruct (IH Hes) as [(e' & m & Hin & Hs & Hpk & ->)|[Hno ->]].
    + left. exists e', m. split_and!; [by right|done..].
    + right. split; [|done]. intros e' m [->|Hin]%elem_of_cons; [|by apply Hno].
      by intros Hs%(no_signer_stored _ _ _ Hn).
  - pose proof Hm as (b & -> & ->). destruct (decide (public_key m = pk)) as [Hpk|Hpk].
    + left. exists e, m. split_and!; [by left|done..].
    + destruct (IH Hes) as [(e' & m' & Hin & Hs & Hpk' & ->)|[Hno ->]].
      * left. exists e', m'. split_and!; [by right|done..].
      * right. split; [|done]. intros e' m' [->|Hin]%elem_of_cons; [|by apply Hno].
        intros Hs. by rewrite (stored_unique _ _ _ _ Hs Hm).
Qed.

Lemma find_by_public_key_quiet listing pk w m0 :
  fs w !! root st = Some (Dir m0) ->
  find_by_public_key st listing pk (no_faults w) =
  find_in st pk (listing (fs w) (root st)) (no_faults w).
Proof.
  intros Hr. unfold find_by_public_key, mbnd, at_, mmap_err, fs_read_dir. cbn. by rewrite Hr.
Qed.

(** Finding a signer by key is exact.  When every child of the root is a
    readable signer directory or a directory without metadata, the scan finds
    a stored signer with that key if there is one, in whatever order the
    directory is listed, and reports the key as not found otherwise; the disk
    is not changed. *)
Theorem find_by_public_key_exact listing pk w m0 :
  lists_children listing ->
  fs w !! root st = Some (Dir m0) ->
  (forall e, is_Some (fs w !! (root st ++ [e])) -> no_signer (fs w) e \/ exists m, stored (fs w) e m) ->
  (exists e m, stored (fs w) e m /\ public_key m = pk /\
     find_by_public_key st listing pk (no_faults w) = (Ok (signer_id m), no_faults w)) \/
  (forall e m, is_Some (fs w !! (root st ++ [e])) -> stored (fs w) e m -> public_key m <> pk) /\
  find_by_public_key st listing pk (no_faults w) = (Err (PubkeyNotFound pk), no_faults w).
Proof.
  intros Hl Hr Hch. destruct (Hl (fs w) (root st)) as [_ Hin].
  rewrite (find_by_public_key_quiet _ _ _ _ Hr).
  destruct (find_in_cases pk (listing (fs w) (root st)) w) as [(e & m & _ & H1 & H2 & H3)|[Hno ->]].
  - apply Forall_forall. intros e He. by apply Hch, Hin.
  - left. by exists e, m.
  - right. split; [|done]. intros e m He. by apply Hno, Hin.
Qed.

(** A regular file beside the signer directories ends the scan with an I/O
    error: its [metadata.json] is ENOTDIR, which is not the "not found" the
    scan skips. *)
Theorem stray_file_ends_scan listing pk w m0 e b m1 :
  lists_children listing ->
  fs w !! root st = Some (Dir m0) ->
  fs w !! (root st ++ [e]) = Some (File b m1) ->
  fs w !! (meta_path (root st ++ [e])) = None ->
  (forall n m, stored (fs w) n m -> public_key m <> pk) ->
  fst (find_by_public_key st listing pk (no_faults w)) <> Err (PubkeyNotFound pk).
Proof.
  intros Hl Hr He Hnone Hno. rewrite (find_by_public_key_quiet _ _ _ _ Hr).
  destruct (Hl (fs w) (root st)) as [_ Hin].
  assert (e ∈ listing (fs w) (root st)) as Hel by (apply Hin; by rewrite He).
  assert (content (fs w) (meta_path (root st ++ [e])) = None) as Hc by (unfold content; by rewrite Hnone).
  assert (blocked (fs w) [] (meta_path (root st ++ [e])) = true) as Hb.
  { apply not_false_is_true. intros Hb. unfold meta_path in Hb.
    apply (proj1 (blocked_snoc _ _ _ _) Hb (root st ++ [e]) b).
    - by destruct (root st).
    - reflexivity.
    - unfold content. cbn [app]. by rewrite He. }
  revert Hel. clear Hin. generalize (listing (fs w) (root st)). intros es.
  induction es as [|n es IH]; intros Hel; [by apply elem_of_nil in Hel|].
  rewrite find_in_cons. apply elem_of_cons in Hel as [<-|Hel]; [by rewrite Hc, Hb|].
  destruct (content (fs w) (meta_path (root st ++ [n]))) as [[c|]|] eqn:En; [|done|].
  - destruct (from_json c) as [m|] eqn:Em; [|done].
    rewrite decide_False; [by apply IH|]. apply (Hno n). by exists c.
  - destruct (blocked (fs w) [] (meta_path (root st ++ [n]))); [done|by apply IH].
Qed.
End Find.

(** A file system that lists a directory in the order of its own table. *)
Definition child_of (p q : path) : option string :=
  match reverse q with
  | n :: rp => if decide (reverse rp = p) then Some n else None
  | [] => None
  end.
Definition table_listing : Listing := fun f p => omap (child_of p) (map_to_list f).*1.

Lemma child_of_Some p q n : child_of p q = Some n <-> q = p ++ [n].
Proof.
  unfold child_of. split.
  - destruct (reverse q) as [|x rp] eqn:E; [done|]. case_decide as Hp; [|done].
    intros [= ->]. rewrite <- (reverse_involutive q), E, reverse_cons. by rewrite Hp.
  - intros ->. rewrite reverse_snoc. by rewrite decide_True by apply reverse_involutive.
Qed.

Lemma omap_NoDup {A B} (f : A -> option B) l :
  (forall x y b, f x = Some b -> f y = Some b -> x = y) -> NoDup l -> NoDup (omap f l).
Proof.
  intros Hinj. induction 1 as [|x l Hx Hl IH]; simpl; [constructor|].
  destruct (f x) as [b|] eqn:E; [|done]. constructor; [|done].
  intros (y & Hy & Hfy)%list_elem_of_omap. by rewrite (Hinj _ _ _ E Hfy) in Hx.
Qed.

Lemma table_listing_children : lists_children table_listing.
Proof.
  intros f p. split.
  - apply omap_NoDup; [|apply NoDup_fst_map_to_list].
    intros x y n Hx%child_of_Some Hy%child_of_Some. congruence.
  - intros n. unfold table_listing. rewrite list_elem_of_omap. split.
    + intros (q & Hq & ->%child_of_Some). apply list_elem_of_fmap in Hq as ([q' v] & -> & Hv).
      apply elem_of_map_to_list in Hv. eauto.
    + intros [v Hv]. exists (p ++ [n]). split; [|by apply child_of_Some].
      apply list_elem_of_fmap. exists (p ++ [n], v). split; [done|by apply elem_of_map_to_list].
Qed.

(** ** A concrete metadata codec and witnesses *)
Definition ascii_of_byte (b : u8) : ascii := ascii_of_N (wval b).
Fixpoint str_of (b : bytes) : string :=
  match b with [] => EmptyString | x :: b => String (ascii_of_byte x) (str_of b) end.

Lemma str_of_bstr s : str_of (bstr s) = s.
Proof.
  induction s as [|c s IH]; [done|]. cbn [bstr str_of]. f_equal; [|done].
  unfold ascii_of_byte, u8_of_ascii.
  rewrite wmod_small by (apply (N_ascii_bounded c)). apply ascii_N_embedding.
Qed.

#[export] Instance ToyMeta : MetaCodec := {|
  to_json m := arr (pk_bytes (public_key m)) ++ bstr (signer_id m);
  from_json b :=
    match from_slice (take 33 b) with
    | Ok pk => Some (MkMeta (str_of (drop 33 b)) pk)
    | Err _ => None
    end;
|}.

#[export] Instance ToyMetaLaws : MetaLaws ToyMeta.
Proof.
  constructor. intros [id pk]. unfold from_json, to_json, ToyMeta; simpl.
  rewrite <- (array_len (pk_bytes pk)) at 1. rewrite take_app_length, from_slice_bytes.
  rewrite <- (array_len (pk_bytes pk)) at 1. by rewrite drop_app_length, str_of_bstr.
Qed.

Definition demo_pk (b : N) : PubkeySec1 :=
  MkPubkey (array_of 33 (wmod 8 2 :: replicate 32 (wmod 8 b))) eq_refl.
Definition demo_meta : SignerMetadata := MkMeta ACTIVE_SIGNER_ID (demo_pk 17).
Definition demo_store : SignerStore := MkStore ["data"; "store"]%string (XChaChaSealer (toy_key 3)).
Definition demo_root : gmap path node :=
  {[ ["data"]%string := Dir 493; ["data"; "store"]%string := Dir 493 ]}.
Definition nonce0 : array 24 := array_repeat 24 (wmod 8 1).
Definition demo_dir : path := ["data"; "store"; "default"]%string.

Lemma demo_signer_dir : signer_dir demo_store ACTIVE_SIGNER_ID = Ok demo_dir.
Proof. vm_compute. reflexivity. Qed.

Definition demo_saved (faults : list (option nat)) : result StateError unit * world :=
  save_shard demo_store nonce0 demo_meta (bstr "party-0") (World demo_root faults).

Lemma save_then_load_witness :
  fst (load_shard demo_store ACTIVE_SIGNER_ID (no_faults (snd (demo_saved [])))) = Ok (bstr "party-0").
Proof.
  apply (save_then_load demo_store nonce0 demo_meta (bstr "party-0") (World demo_root [])).
  - apply xchacha_sealer_ok.
  - vm_compute. reflexivity.
Defined.

Lemma first_save_crash_safe_witness :
  fst (load_active demo_store ACTIVE_SIGNER_ID
         (no_faults (snd (demo_saved [None; None; None; None; None; Some 4%nat])))) ∈
  [Ok None; Err (PartialState (demo_pk 17)); Ok (Some (demo_pk 17))].
Proof.
  eapply (first_save_crash_safe demo_store nonce0 demo_meta (bstr "party-0")
            (World demo_root [None; None; None; None; None; Some 4%nat]) _ _ demo_dir).
  - apply xchacha_sealer_ok.
  - exact demo_signer_dir.
  - vm_compute. reflexivity.
  - vm_compute. reflexivity.
  - vm_compute. reflexivity.
  - apply surjective_pairing.
Defined.

Definition demo_world1 : world := snd (demo_saved []).
Lemma resave_crash_safe_witness :
  fst (load_active demo_store ACTIVE_SIGNER_ID
    (no_faults (snd (save_shard demo_store nonce0 demo_meta (bstr "rotated")
       (World (fs demo_world1) [None; None; None; None; None; Some 4%nat]))))) = Ok (Some (demo_pk 17)).
Proof.
  eapply (resave_crash_safe demo_store nonce0 nonce0 demo_meta (bstr "rotated") (bstr "party-0")
            (World (fs demo_world1) [None; None; None; None; None; Some 4%nat]) _ _ demo_dir
            (SEAL_MAGIC ++ arr nonce0 ++ bstr "party-0" ++ toy_mac (toy_key 3) nonce0 [] (bstr "party-0"))).
  - apply xchacha_sealer_ok.
  - exact demo_signer_dir.
  - vm_compute. reflexivity.
  - vm_compute. reflexivity.
  - vm_compute. reflexivity.
  - apply surjective_pairing.
Defined.

Lemma write_atomic_mode_private_witness :
  let p := shard_path demo_dir in
  let w' := snd (write_atomic_mode p (bstr "x") 384 demo_world1) in
  fs w' !! p = fs demo_world1 !! p \/ fs w' !! p = Some (File (bstr "x") 384).
Proof.
  apply (write_atomic_mode_private (shard_path demo_dir) (bstr "x") 384 demo_world1
           (fst (write_atomic_mode (shard_path demo_dir) (bstr "x") 384 demo_world1))).
  - vm_compute. discriminate.
  - apply surjective_pairing.
Defined.

Lemma demo_mkdirs : mkdirs demo_root [] demo_dir = Some (<[demo_dir := Dir 493%N]> demo_root).
Proof.
  cbn [mkdirs demo_dir app].
  assert (demo_root !! ["data"] = Some (Dir 493)) as -> by (vm_compute; reflexivity).
  assert (demo_root !! ["data"; "store"] = Some (Dir 493)) as -> by (vm_compute; reflexivity).
  assert (demo_root !! ["data"; "store"; "default"] = None) as -> by (vm_compute; reflexivity).
  reflexivity.
Qed.

Lemma save_shard_total_witness : exists f', demo_saved [] = (Ok tt, World f' []).
Proof.
  apply (save_shard_total demo_store nonce0 demo_meta (bstr "party-0")
           (SEAL_MAGIC ++ arr nonce0 ++ bstr "party-0" ++ toy_mac (toy_key 3) nonce0 [] (bstr "party-0"))
           demo_dir demo_root (<[demo_dir := Dir 493%N]> demo_root)).
  - exact demo_signer_dir.
  - discriminate.
  - exact demo_mkdirs.
  - repeat constructor; intros m; vm_compute; discriminate.
  - vm_compute. reflexivity.
Defined.

Lemma signer_dir_contained_witness : demo_dir = root demo_store ++ [ACTIVE_SIGNER_ID].
Proof. apply (signer_dir_contained demo_store ACTIVE_SIGNER_ID demo_dir demo_signer_dir). Defined.

Example traversal_refused :
  signer_dir demo_store "../x" = Err (InvalidSignerId "../x") /\
  signer_dir demo_store ".." = Err (InvalidSignerId "..").
Proof. split; vm_compute; reflexivity. Qed.

Lemma demo_children e :
  is_Some (fs demo_world1 !! (root demo_store ++ [e])) -> e = "default"%string.
Proof.
  intros He. apply (table_listing_children (fs demo_world1) (root demo_store)) in He.
  assert (table_listing (fs demo_world1) (root demo_store) = ["default"%string]) as Ht
    by (vm_compute; reflexivity).
  rewrite Ht in He. by apply list_elem_of_singleton in He.
Qed.

Lemma find_by_public_key_exact_witness :
  exists e m, stored demo_store (fs demo_world1) e m /\ public_key m = demo_pk 17 /\
    find_by_public_key demo_store table_listing (demo_pk 17) (no_faults demo_world1)
      = (Ok (signer_id m), no_faults demo_world1).
Proof.
  assert (stored demo_store (fs demo_world1) "default" demo_meta) as Hs
    by (eexists; split; vm_compute; reflexivity).
  destruct (find_by_public_key_exact demo_store table_listing (demo_pk 17) demo_world1 493
              table_listing_children) as [H|[H _]].
  - vm_compute. reflexivity.
  - intros e ->%demo_children. right. exists demo_meta. exact Hs.
  - exact H.
  - exfalso. apply (H "default"%string demo_meta); [|exact Hs|reflexivity].
    eexists. vm_compute. reflexivity.
Defined.
