(* ===== verification/Exchange.v ===== *)
(** * The round driver ([crates/sovra-mpc/src/exchange.rs])

    One ceremony's traffic rules for one party: sealing and fanning out a
    round's messages, admitting inbound envelopes (foreign traffic dropped,
    forgeries fatal, early rounds buffered, late ones dropped, first message
    of a sender and kind wins), and collecting a round until every peer has
    delivered.  Inbound traffic is the finite list of events the relay yields
    before the round's deadline; when it is exhausted the timeout fires.

    [recv_round_functional] is the refinement: what a round collects is a
    function of the traffic alone, independent of the driver's bookkeeping. *)

From S2P Require Import Prelude Types Mpc Envelope.
From Stdlib Require Import String NArith Lia.
From stdpp Require Import base decidable countable list strings.
Open Scope string_scope. Open Scope list_scope.

(** ** Data *)
(* src mpc/exchange.rs:25-32 RoundOutbox *)
Record RoundOutbox : Type := MkOutbox {
  out_broadcast : option bytes;
  out_p2p : BTree.t bytes;
}.

(* src mpc/exchange.rs:34-40 RoundInbox *)
Record RoundInbox : Type := MkInbox {
  broadcasts : BTree.t bytes;
  p2p : BTree.t bytes;
}.

Definition empty_inbox : RoundInbox := MkInbox [] [].

(* src mpc/exchange.rs:42-48 Expect *)
Inductive Expect : Type := Broadcasts | P2p | Both.

#[export] Instance Expect_eq_dec : EqDecision Expect.
Proof. solve_decision. Defined.

(* src mpc/exchange.rs:51-53 Expect::broadcasts *)
Definition expect_broadcasts (e : Expect) : bool := negb (bool_decide (e = P2p)).
(* src mpc/exchange.rs:55-57 Expect::p2p *)
Definition expect_p2p (e : Expect) : bool := negb (bool_decide (e = Broadcasts)).

Section Driver.
Context {C : Crypto}.

(* src mpc/exchange.rs:60-70 Exchange *)
Record Exchange : Type := MkExchange {
  ctx : PartyContext;
  ex_op : u8;
  peers : list u8;
  ahead : list SignedEnvelope;
}.

(* src mpc/exchange.rs:73-88 Exchange::new *)
Definition exchange_new (c : PartyContext) (op : u8) (participants : list u8) : Exchange :=
  MkExchange c op (filter (fun p => p <> party_id c) participants) [].

Definition set_ahead (ex : Exchange) (l : list SignedEnvelope) : Exchange :=
  MkExchange (ctx ex) (ex_op ex) (peers ex) l.

(** ** Sending *)
Section Send.
Context {R : Type}.
(** The relay's [send], and the randomness drawn to seal to each recipient. *)
Variable relay_send : SignedEnvelope -> M R MpcError unit.
Variable rng : u8 -> array 32 * array 24.

Definition relay (senv : SignedEnvelope) : M R stop unit := mmap_err Fail (relay_send senv).

(* src mpc/exchange.rs:94-106 Exchange::send_round *)
Fixpoint send_broadcasts (ex : Exchange) (round : u8) (payload : bytes) (tos : list u8) : M R stop unit :=
  match tos with
  | [] => mpure tt
  | to :: tos =>
      let env := broadcast (Mpc.instance (ctx ex)) (ex_op ex) round (party_id (ctx ex)) to payload in
      let! _ := relay (sign env (signing_key (ctx ex))) in
      send_broadcasts ex round payload tos
  end.

(* src mpc/exchange.rs:107-126 Exchange::send_round *)
Fixpoint send_p2p (ex : Exchange) (round : u8) (msgs : BTree.t bytes) : M R stop unit :=
  match msgs with
  | [] => mpure tt
  | (to, plaintext) :: msgs =>
      if negb (contains to (peers ex)) then
        mabort (Fail (EnvelopeAuth [Lit "p2p recipient "; Num (wval to); Lit " is not a ceremony peer"]))
      else
        match party_vks (ctx ex) !! N.to_nat (wval to) with
        | None => mabort (Panic "party_vks[to]")
        | Some vk =>
            let! env := mlift (map_err Fail
                          (Envelope.seal (fst (rng to)) (snd (rng to)) (Mpc.instance (ctx ex)) (ex_op ex) round
                             (party_id (ctx ex)) to vk plaintext)) in
            let! _ := relay (sign env (signing_key (ctx ex))) in
            send_p2p ex round msgs
        end
  end.

(* src mpc/exchange.rs:90-126 Exchange::send_round *)
Definition send_round (ex : Exchange) (round : u8) (outbox : RoundOutbox) : M R stop unit :=
  let! _ := match out_broadcast outbox with
            | Some payload => send_broadcasts ex round payload (peers ex)
            | None => mpure tt
            end in
  send_p2p ex round (out_p2p outbox).
End Send.

(** ** Receiving *)
(** What [timeout_at(deadline, relay.recv())] yields, while it yields. *)
Inductive event : Type :=
  | Arrived (senv : SignedEnvelope)
  | RelayFailed (e : MpcError).

(* src mpc/exchange.rs:205-245 Exchange::file *)
Definition file (ex : Exchange) (senv : SignedEnvelope) (inbox : RoundInbox) (expect : Expect)
  : result MpcError RoundInbox :=
  let e := env senv in
  let wanted := if sealed e then expect_p2p expect else expect_broadcasts expect in
  if negb wanted then Ok inbox else
  let slot := if sealed e then p2p inbox else broadcasts inbox in
  if BTree.contains_key (from e) slot then Ok inbox else
  let? payload := if sealed e then open e (signing_key (ctx ex)) else Ok (payload e) in
  let slot' := BTree.insert (from e) payload slot in
  Ok (if sealed e then MkInbox (broadcasts inbox) slot' else MkInbox slot' (p2p inbox)).

(* src mpc/exchange.rs:166-170 Exchange::admit *)
Definition foreign (ex : Exchange) (e : Envelope) : bool :=
  negb (bool_decide (Envelope.instance e = Mpc.instance (ctx ex)))
  || negb (bool_decide (op e = ex_op ex))
  || negb (bool_decide (to e = party_id (ctx ex)))
  || negb (contains (from e) (peers ex)).

(* src mpc/exchange.rs:155-203 Exchange::admit *)
Definition admit_mail (ex : Exchange) (rnd : u8) (senv : SignedEnvelope) (inbox : RoundInbox)
    (expect : Expect) : result MpcError (Exchange * RoundInbox) :=
  let e := env senv in
  if foreign ex e then Ok (ex, inbox) else
  let? _ := verify senv (party_vks (ctx ex)) in
  match N.compare (wval (round e)) (wval rnd) with
  | Gt => Ok (set_ahead ex (ahead ex ++ [senv])%list, inbox)
  | Lt => Ok (ex, inbox)
  | Eq => let? inbox := file ex senv inbox expect in Ok (ex, inbox)
  end.

(* src mpc/exchange.rs:247-250 Exchange::complete *)
Definition complete (ex : Exchange) (inbox : RoundInbox) (expect : Expect) : bool :=
  (negb (expect_broadcasts expect)
   || forallb (fun p => BTree.contains_key p (broadcasts inbox)) (peers ex))
  && (negb (expect_p2p expect)
      || forallb (fun p => BTree.contains_key p (p2p inbox)) (peers ex)).

(* src mpc/exchange.rs:135-137 Exchange::recv_round *)
Fixpoint drain (ex : Exchange) (rnd : u8) (l : list SignedEnvelope) (inbox : RoundInbox)
    (expect : Expect) : result MpcError (Exchange * RoundInbox) :=
  match l with
  | [] => Ok (ex, inbox)
  | senv :: l => let? x := admit_mail ex rnd senv inbox expect in drain (fst x) rnd l (snd x) expect
  end.

Definition expect_name (e : Expect) : string :=
  match e with Broadcasts => "Broadcasts" | P2p => "P2p" | Both => "Both" end.

(* src mpc/exchange.rs:141-149 Exchange::recv_round *)
Definition timed_out (ex : Exchange) (rnd : u8) (inbox : RoundInbox) (expect : Expect) : MpcError :=
  Transport [Lit "op "; Num (wval (ex_op ex)); Lit " round "; Num (wval rnd);
             Lit ": timed out with broadcasts from "; Nums (wval <$> BTree.keys (broadcasts inbox));
             Lit ", p2p from "; Nums (wval <$> BTree.keys (p2p inbox));
             Lit ", expecting "; Lit (expect_name expect); Lit " from all of "; Nums (wval <$> peers ex)].

(* src mpc/exchange.rs:138-152 Exchange::recv_round *)
Fixpoint collect_loop (ex : Exchange) (rnd : u8) (inbox : RoundInbox) (expect : Expect)
    (events : list event) : result MpcError (RoundInbox * Exchange * list event) :=
  if complete ex inbox expect then Ok (inbox, ex, events) else
  match events with
  | [] => Err (timed_out ex rnd inbox expect)
  | RelayFailed e :: _ => Err e
  | Arrived senv :: events =>
      let? x := admit_mail ex rnd senv inbox expect in
      collect_loop (fst x) rnd (snd x) expect events
  end.

(* src mpc/exchange.rs:128-153 Exchange::recv_round *)
Definition recv_round (ex : Exchange) (rnd : u8) (expect : Expect) (events : list event)
  : result MpcError (RoundInbox * Exchange * list event) :=
  let? x := drain (set_ahead ex []) rnd (ahead ex) empty_inbox expect in
  collect_loop (fst x) rnd (snd x) expect events.

(** ** Specification *)
(** Authenticated mail of this ceremony. *)
Definition genuine (ex : Exchange) (senv : SignedEnvelope) : bool :=
  negb (foreign ex (env senv)) && is_ok (verify senv (party_vks (ctx ex))).

(** Genuine mail of a given round. *)
Definition current (ex : Exchange) (rnd : u8) (senv : SignedEnvelope) : bool :=
  genuine ex senv && N.eqb (wval (round (env senv))) (wval rnd).

(** Genuine mail of a later round. *)
Definition later (ex : Exchange) (rnd : u8) (senv : SignedEnvelope) : bool :=
  genuine ex senv && N.ltb (wval rnd) (wval (round (env senv))).

(** What the message of one kind from one sender says: the first current one. *)
Definition first_of (ex : Exchange) (rnd : u8) (is_sealed : bool) (p : u8)
    (l : list SignedEnvelope) : option SignedEnvelope :=
  snd <$> list_find (fun s => current ex rnd s = true /\ sealed (env s) = is_sealed /\ from (env s) = p) l.

Definition plaintext (ex : Exchange) (senv : SignedEnvelope) : option bytes :=
  if sealed (env senv)
  then match open (env senv) (signing_key (ctx ex)) with Ok b => Some b | Err _ => None end
  else Some (payload (env senv)).

(** The traffic of a round, collected functionally. *)
Definition collected (ex : Exchange) (rnd : u8) (wanted is_sealed : bool) (p : u8)
    (l : list SignedEnvelope) : option bytes :=
  if wanted then first_of ex rnd is_sealed p l ≫= plaintext ex else None.
End Driver.

(** ** Lemmas *)
Section Lemmas.
Context {C : Crypto}.

Lemma contains_key_get {V} (k : u8) (m : BTree.t V) :
  BTree.contains_key k m = true <-> exists v, BTree.get k m = Some v.
Proof. apply BTree.contains_key_true. Qed.

(** The part of an exchange no round changes. *)
Definition same_ceremony (x y : Exchange) : Prop :=
  ctx x = ctx y /\ ex_op x = ex_op y /\ peers x = peers y.

#[export] Instance same_ceremony_equiv : Equivalence same_ceremony.
Proof.
  split.
  - by intros x.
  - by intros x y (H1 & H2 & H3).
  - intros x y z (H1 & H2 & H3) (K1 & K2 & K3). split_and!; congruence.
Qed.

#[export] Instance foreign_proper : Proper (same_ceremony ==> eq ==> eq) foreign.
Proof. intros x y (H1 & H2 & H3) e ? <-. unfold foreign. by rewrite H1, H2, H3. Qed.

#[export] Instance genuine_proper : Proper (same_ceremony ==> eq ==> eq) genuine.
Proof.
  intros x y H s ? <-. unfold genuine. rewrite (foreign_proper x y H _ _ eq_refl).
  destruct H as (-> & _). done.
Qed.

#[export] Instance current_proper : Proper (same_ceremony ==> eq ==> eq ==> eq) current.
Proof.
  intros x y H r ? <- s ? <-. unfold current. by rewrite (genuine_proper x y H s s eq_refl).
Qed.

#[export] Instance later_proper : Proper (same_ceremony ==> eq ==> eq ==> eq) later.
Proof.
  intros x y H r ? <- s ? <-. unfold later. by rewrite (genuine_proper x y H s s eq_refl).
Qed.

#[export] Instance plaintext_proper : Proper (same_ceremony ==> eq ==> eq) plaintext.
Proof. intros x y (H & _) s ? <-. unfold plaintext. by rewrite H. Qed.

#[export] Instance complete_proper : Proper (same_ceremony ==> eq ==> eq ==> eq) complete.
Proof. intros x y (_ & _ & H) i ? <- e ? <-. unfold complete. by rewrite H. Qed.

#[export] Instance collected_proper :
  Proper (same_ceremony ==> eq ==> eq ==> eq ==> eq ==> eq ==> eq) collected.
Proof.
  intros x y H r ? <- w ? <- k ? <- p ? <- l ? <-. unfold collected, first_of.
  destruct w; [|done].
  induction l as [|s l IH]; [done|]. cbn [list_find].
  pose proof (current_proper x y H r r eq_refl s s eq_refl) as Hc.
  pose proof (plaintext_proper x y H s s eq_refl) as Hp.
  case_decide as Hd1; case_decide as Hd2; simpl.
  - done.
  - rewrite Hc in Hd1. by destruct Hd2.
  - rewrite <- Hc in Hd2. by destruct Hd1.
  - destruct (list_find _ l) as [[]|], (list_find _ l) as [[]|]; simpl in *; done.
Qed.

Lemma set_ahead_same ex l : same_ceremony (set_ahead ex l) ex.
Proof. by destruct ex. Qed.

(** *** One envelope *)
Lemma collected_cons ex rnd w k p s l :
  collected ex rnd w k p (s :: l) =
    if w then
      if bool_decide (current ex rnd s = true /\ sealed (env s) = k /\ from (env s) = p)
      then plaintext ex s else collected ex rnd w k p l
    else None.
Proof.
  unfold collected, first_of. destruct w; [|done]. cbn [list_find].
  case_decide as Hd; [by rewrite bool_decide_eq_true_2|].
  rewrite bool_decide_eq_false_2 by done.
  by destruct (list_find _ l) as [[]|].
Qed.

Definition wanted (expect : Expect) (k : bool) : bool :=
  if k then expect_p2p expect else expect_broadcasts expect.
Definition slot (k : bool) (inbox : RoundInbox) : BTree.t bytes :=
  if k then p2p inbox else broadcasts inbox.

Definition set_slot (k : bool) (m : BTree.t bytes) (inbox : RoundInbox) : RoundInbox :=
  if k then MkInbox (broadcasts inbox) m else MkInbox m (p2p inbox).

Lemma slot_set_slot k k' m inbox :
  slot k' (set_slot k m inbox) = if bool_decide (k' = k) then m else slot k' inbox.
Proof. by destruct k, k'. Qed.

(** [file], by cases on why nothing or something is filed. *)
Lemma file_cases ex s inbox expect :
  let k := sealed (env s) in let f := from (env s) in
  (file ex s inbox expect = Ok inbox /\
     (wanted expect k = false \/ exists b, BTree.get f (slot k inbox) = Some b)) \/
  (wanted expect k = true /\ BTree.get f (slot k inbox) = None /\
   ((exists b, plaintext ex s = Some b /\
       file ex s inbox expect = Ok (set_slot k (BTree.insert f b (slot k inbox)) inbox)) \/
    (plaintext ex s = None /\ exists e, file ex s inbox expect = Err e))).
Proof.
  cbv zeta. unfold file, plaintext, wanted, slot, set_slot. cbv zeta.
  destruct (if sealed (env s) then expect_p2p expect else expect_broadcasts expect) eqn:Hw;
    cbn [negb]; [|left; auto].
  destruct (BTree.contains_key _ _) eqn:Hk.
  { left. split; [done|]. right. by apply contains_key_get. }
  right. split; [done|]. apply BTree.contains_key_false in Hk. split; [done|].
  destruct (sealed (env s)); [|left; eauto].
  destruct (open _ _); [left; eauto|right; eauto].
Qed.

(** Filing touches one slot, and only to add the sender's first message. *)
Lemma file_Ok ex s inbox expect inbox' :
  file ex s inbox expect = Ok inbox' ->
  forall k p, BTree.get p (slot k inbox') =
    match BTree.get p (slot k inbox) with
    | Some b => Some b
    | None => if wanted expect k && bool_decide (sealed (env s) = k /\ from (env s) = p)
              then plaintext ex s else None
    end.
Proof.
  intros H k p.
  destruct (file_cases ex s inbox expect)
    as [[HOk Hwhy]|(Hw & Hn & [(b & Hb & HOk)|(_ & e & He)])]; [| |congruence];
    rewrite HOk in H; injection H as <-.
  - destruct (BTree.get p (slot k inbox)) eqn:Hg; [done|].
    destruct (wanted expect k) eqn:Hw; [|done]. rewrite bool_decide_eq_false_2; [done|].
    intros [<- <-]. destruct Hwhy as [?|[b ?]]; congruence.
  - rewrite slot_set_slot. case_bool_decide as Hk.
    + subst k. rewrite Hw, BTree.get_insert. case_decide as Hp.
      * subst p. by rewrite Hn, bool_decide_eq_true_2.
      * rewrite bool_decide_eq_false_2 by (intros [_ ?]; congruence).
        by destruct (BTree.get p _).
    + destruct (BTree.get p _); [done|].
      rewrite bool_decide_eq_false_2 by (intros [? _]; congruence).
      by destruct (wanted expect k).
Qed.

(** [admit_mail], by cases on the envelope. *)
Lemma admit_cases ex rnd s inbox expect :
  (genuine ex s = false /\ foreign ex (env s) = true /\ admit_mail ex rnd s inbox expect = Ok (ex, inbox)) \/
  (genuine ex s = false /\ foreign ex (env s) = false /\
     exists m, admit_mail ex rnd s inbox expect = Err (EnvelopeAuth m)) \/
  (genuine ex s = true /\ later ex rnd s = true /\ current ex rnd s = false /\
     admit_mail ex rnd s inbox expect = Ok (set_ahead ex (ahead ex ++ [s])%list, inbox)) \/
  (genuine ex s = true /\ later ex rnd s = false /\ current ex rnd s = false /\
     admit_mail ex rnd s inbox expect = Ok (ex, inbox)) \/
  (genuine ex s = true /\ later ex rnd s = false /\ current ex rnd s = true /\
     admit_mail ex rnd s inbox expect = (let? inbox := file ex s inbox expect in Ok (ex, inbox))).
Proof.
  unfold admit_mail, later, current, genuine. cbv zeta.
  destruct (foreign ex (env s)); cbn [negb andb]; [left; auto|right].
  destruct (verify s (party_vks (ctx ex))) as [[]|e] eqn:Hv; cbn [is_ok rbind andb].
  2:{ left. split; [done|]. split; [done|].
      destruct (verify_not_Ok s (party_vks (ctx ex))) as [m Hm]; [congruence|].
      exists m. congruence. }
  right. destruct (N.compare_spec (wval (round (env s))) (wval rnd)) as [Hc|Hc|Hc].
  - right; right. rewrite (proj2 (N.eqb_eq _ _) Hc), (proj2 (N.ltb_ge _ _)) by lia. done.
  - right; left. rewrite (proj2 (N.eqb_neq _ _)), (proj2 (N.ltb_ge _ _)) by lia. done.
  - left. rewrite (proj2 (N.eqb_neq _ _)), (proj2 (N.ltb_lt _ _)) by lia. done.
Qed.

(** Mail that stops no ceremony: foreign, or authentic and, when it is a
    sealed message of this round, openable. *)
Definition benign (ex : Exchange) (rnd : u8) (s : SignedEnvelope) : bool :=
  foreign ex (env s) ||
  (genuine ex s && (negb (current ex rnd s) || bool_decide (is_Some (plaintext ex s)))).

(** One envelope, from the specification's side. *)
Lemma admit_Ok ex rnd s inbox expect ex' inbox' :
  admit_mail ex rnd s inbox expect = Ok (ex', inbox') ->
  same_ceremony ex' ex /\
  ahead ex' = (ahead ex ++ filter (fun s => later ex rnd s = true) [s])%list /\
  (foreign ex (env s) = true \/ genuine ex s = true) /\
  (current ex rnd s = true -> wanted expect (sealed (env s)) = true ->
     is_Some (BTree.get (from (env s)) (slot (sealed (env s)) inbox'))) /\
  forall k p, BTree.get p (slot k inbox') =
    match BTree.get p (slot k inbox) with
    | Some b => Some b
    | None => collected ex rnd (wanted expect k) k p [s]
    end.
Proof.
  assert (forall k p, current ex rnd s = false ->
            BTree.get p (slot k inbox) = match BTree.get p (slot k inbox) with
              | Some b => Some b | None => collected ex rnd (wanted expect k) k p [s] end) as Hskip.
  { intros k p Hc. destruct (BTree.get p _); [done|]. rewrite collected_cons.
    destruct (wanted expect k) eqn:Hw; [|done].
    rewrite bool_decide_eq_false_2 by (intros [? _]; congruence). unfold collected. done. }
  rewrite filter_cons, filter_nil.
  destruct (admit_cases ex rnd s inbox expect)
    as [(Hg & Hf & H)|[(Hg & Hf & m & H)|[(Hg & Hl & Hc & H)|[(Hg & Hl & Hc & H)|(Hg & Hl & Hc & H)]]]];
    rewrite H; intros Heq.
  - injection Heq as <- <-. unfold later. rewrite Hg. simpl.
    split_and!; [done|by rewrite app_nil_r|auto| |].
    + unfold current. by rewrite Hg.
    + intros k p. apply Hskip. unfold current. by rewrite Hg.
  - done.
  - injection Heq as <- <-. rewrite decide_True by done. split_and!; auto; [apply set_ahead_same|by rewrite Hc].
  - injection Heq as <- <-. rewrite decide_False by congruence.
    split_and!; [done|by rewrite app_nil_r|auto|by rewrite Hc|auto].
  - apply rbind_Ok in Heq as (ib & Hfile & Heq). injection Heq as <- <-.
    rewrite decide_False by congruence. split_and!; [done|by rewrite app_nil_r|auto| |].
    { intros _ Hw. destruct (file_cases ex s inbox expect)
        as [[HOk [?|[b Hb]]]|(_ & _ & [(b & _ & HOk)|(_ & e & He)])];
        rewrite ?HOk in Hfile; [congruence|injection Hfile as <-; eauto| |congruence].
      injection Hfile as <-. rewrite slot_set_slot, bool_decide_eq_true_2 by done.
      rewrite BTree.get_insert_eq. eauto. }
    intros k p. rewrite (file_Ok _ _ _ _ _ Hfile k p), collected_cons, Hc.
    destruct (BTree.get p _); [done|]. destruct (wanted expect k); [|done]. simpl.
    repeat case_bool_decide; tauto || done.
Qed.

Lemma admit_benign ex rnd s inbox expect :
  benign ex rnd s = true -> exists r, admit_mail ex rnd s inbox expect = Ok r.
Proof.
  unfold benign. intros Hb.
  destruct (admit_cases ex rnd s inbox expect)
    as [(Hg & Hf & H)|[(Hg & Hf & m & H)|[(Hg & Hl & Hc & H)|[(Hg & Hl & Hc & H)|(Hg & Hl & Hc & H)]]]];
    rewrite H; eauto.
  - rewrite Hg, Hf in Hb. done.
  - assert (is_Some (plaintext ex s)) as [b Hp].
    { rewrite Hg, Hc in Hb. unfold genuine in Hg. destruct (foreign ex (env s)); [done|].
      simpl in Hb. by apply bool_decide_eq_true in Hb. }
    destruct (file_cases ex s inbox expect) as [[-> _]|(_ & _ & [(? & _ & ->)|(? & _)])];
      [simpl; eauto|simpl; eauto|congruence].
Qed.

(** *** A stretch of traffic *)
Definition mail_ok (ex : Exchange) (s : SignedEnvelope) : Prop :=
  foreign ex (env s) = true \/ genuine ex s = true.

Lemma drain_Ok ex rnd l inbox expect ex' inbox' :
  drain ex rnd l inbox expect = Ok (ex', inbox') ->
  same_ceremony ex' ex /\
  ahead ex' = (ahead ex ++ filter (fun s => later ex rnd s = true) l)%list /\
  Forall (mail_ok ex) l /\
  forall k p, BTree.get p (slot k inbox') =
    match BTree.get p (slot k inbox) with
    | Some b => Some b
    | None => collected ex rnd (wanted expect k) k p l
    end.
Proof.
  revert ex inbox; induction l as [|s l IH]; intros ex inbox; cbn [drain].
  - intros [= -> ->]. split_and!; [done|by rewrite app_nil_r|constructor|].
    intros k p. unfold collected. by destruct (BTree.get p _), (wanted expect k).
  - intros ([ex1 ib1] & Ha & Hd)%rbind_Ok. cbn [fst snd] in Hd.
    apply admit_Ok in Ha as (Hs1 & Hah1 & Hm1 & Hin1 & Hg1).
    apply IH in Hd as (Hs & Hah & Hm & Hg). split_and!.
    + by transitivity ex1.
    + rewrite Hah, Hah1, <- app_assoc. f_equal. change (s :: l)%list with ([s] ++ l)%list.
      rewrite filter_app. f_equal. apply list_filter_iff. intros x.
      by rewrite (later_proper _ _ Hs1 rnd rnd eq_refl x x eq_refl).
    + constructor; [done|]. eapply Forall_impl; [exact Hm|]. intros x. unfold mail_ok.
      by rewrite (foreign_proper _ _ Hs1 _ _ eq_refl), (genuine_proper _ _ Hs1 x x eq_refl).
    + intros k p. rewrite Hg.
      rewrite (collected_proper _ _ Hs1 rnd _ eq_refl _ _ eq_refl k _ eq_refl p _ eq_refl l _ eq_refl).
      rewrite (collected_cons ex rnd _ k p s l).
      specialize (Hg1 k p). rewrite collected_cons in Hg1. rewrite Hg1.
      destruct (BTree.get p (slot k inbox)) as [b|]; [done|].
      destruct (wanted expect k) eqn:Hw; [|done].
      case_bool_decide as Hd; [|by unfold collected].
      destruct Hd as (Hc & <- & <-). destruct (Hin1 Hc Hw) as [b Hb]. by rewrite <- Hg1, Hb.
Qed.

Lemma drain_benign ex rnd l inbox expect :
  Forall (fun s => benign ex rnd s = true) l -> exists r, drain ex rnd l inbox expect = Ok r.
Proof.
  revert ex inbox; induction l as [|s l IH]; intros ex inbox Hb; cbn [drain]; [eauto|].
  inversion_clear Hb as [|? ? Hs Hl].
  destruct (admit_benign ex rnd s inbox expect Hs) as [[ex1 ib1] Ha]. rewrite Ha. cbn [rbind fst snd].
  apply admit_Ok in Ha as (Hs1 & _). apply IH. eapply Forall_impl; [exact Hl|]. intros x.
  unfold benign.
  by rewrite (foreign_proper _ _ Hs1 _ _ eq_refl), (genuine_proper _ _ Hs1 x x eq_refl),
    (current_proper _ _ Hs1 rnd _ eq_refl x x eq_refl), (plaintext_proper _ _ Hs1 x x eq_refl).
Qed.

Lemma drain_app ex rnd l1 l2 inbox expect :
  drain ex rnd (l1 ++ l2) inbox expect =
    let? x := drain ex rnd l1 inbox expect in drain (fst x) rnd l2 (snd x) expect.
Proof.
  revert ex inbox; induction l1 as [|s l1 IH]; intros ex inbox; simpl; [done|].
  destruct (admit_mail ex rnd s inbox expect) as [[ex1 ib1]|e]; simpl; [apply IH|done].
Qed.

(** The collecting loop consumes a prefix of the traffic and stops as soon as
    the inbox is complete. *)
Lemma collect_loop_Ok ex rnd inbox expect events inbox' ex' rest :
  collect_loop ex rnd inbox expect events = Ok (inbox', ex', rest) ->
  exists pre, events = (Arrived <$> pre) ++ rest /\
    drain ex rnd pre inbox expect = Ok (ex', inbox') /\ complete ex' inbox' expect = true.
Proof.
  revert ex inbox; induction events as [|ev events IH]; intros ex inbox; simpl;
    destruct (complete ex inbox expect) eqn:Hc.
  - intros [= -> -> <-]. by exists [].
  - done.
  - intros [= -> -> <-]. by exists [].
  - destruct ev as [s|e]; [|done]. intros ([ex1 ib1] & Ha & Hl)%rbind_Ok.
    apply IH in Hl as (pre & -> & Hd & Hcp). exists (s :: pre). simpl.
    by rewrite Ha.
Qed.

(** What arrives after a round completed is not touched. *)
Lemma collect_loop_more ex rnd inbox expect events events' inbox' ex' rest :
  collect_loop ex rnd inbox expect events = Ok (inbox', ex', rest) ->
  collect_loop ex rnd inbox expect (events ++ events') = Ok (inbox', ex', rest ++ events').
Proof.
  revert ex inbox; induction events as [|ev events IH]; intros ex inbox; cbn [collect_loop app];
    destruct (complete ex inbox expect) eqn:Hc; try done.
  - intros [= -> -> <-]. by destruct events'; cbn [collect_loop]; rewrite Hc.
  - by intros [= -> -> <-].
  - destruct ev as [s|e]; [|done]. destruct (admit_mail _ _ _ _ _) as [x|e]; [apply IH|done].
Qed.

Lemma recv_round_more ex rnd expect events events' inbox ex' rest :
  recv_round ex rnd expect events = Ok (inbox, ex', rest) ->
  recv_round ex rnd expect (events ++ events') = Ok (inbox, ex', rest ++ events').
Proof. unfold recv_round. destruct (drain _ _ _ _ _) as [x|e]; [apply collect_loop_more|done]. Qed.

(** An error other than the timeout (or the transport's) came from something
    that arrived, and stands whatever follows. *)
Lemma recv_round_fails ex rnd expect events events' e :
  recv_round ex rnd expect events = Err e -> (forall m, e <> Transport m) ->
  recv_round ex rnd expect (events ++ events') = Err e.
Proof.
  unfold recv_round. destruct (drain _ _ _ _ _) as [[ex1 inbox]|]; [|done]. cbn [rbind fst snd].
  revert ex1 inbox; induction events as [|ev events IH]; intros ex1 inbox He Hn; cbn [collect_loop app] in *.
  - destruct (complete _ _ _); [done|]. injection He as <-. by destruct (Hn _ eq_refl).
  - destruct (complete _ _ _); [done|]. destruct ev as [s|e']; [|done].
    destruct (admit_mail _ _ _ _ _) as [[ex2 ib2]|e']; [by apply IH|done].
Qed.

(** Every prefix short of completion is consumed. *)
Lemma collect_loop_app ex rnd inbox expect pre events ex1 ib1 :
  drain ex rnd pre inbox expect = Ok (ex1, ib1) ->
  (exists pre1 pre2 ex' ib', pre = pre1 ++ pre2 /\
     drain ex rnd pre1 inbox expect = Ok (ex', ib') /\
     collect_loop ex rnd inbox expect ((Arrived <$> pre) ++ events) =
       Ok (ib', ex', (Arrived <$> pre2) ++ events)) \/
  collect_loop ex rnd inbox expect ((Arrived <$> pre) ++ events) =
    collect_loop ex1 rnd ib1 expect events.
Proof.
  revert ex inbox; induction pre as [|s pre IH]; intros ex inbox; simpl.
  - intros [= -> ->]. by right.
  - destruct (complete ex inbox expect) eqn:Hc.
    + intros _. left. exists [], (s :: pre), ex, inbox. done.
    + destruct (admit_mail ex rnd s inbox expect) as [[ex2 ib2]|e] eqn:Ha; simpl; [|done].
      intros Hd. destruct (IH _ _ Hd) as [(p1 & p2 & ex' & ib' & -> & Hp1 & Hl)|Hl]; [left|by right].
      exists (s :: p1), p2, ex', ib'. simpl. by rewrite Ha.
Qed.

#[export] Instance Arrived_inj : Inj eq eq Arrived.
Proof. by intros s s' [= ->]. Qed.

(** *** A whole round *)
Lemma complete_true ex inbox expect :
  complete ex inbox expect = true <->
  forall k p, wanted expect k = true -> p ∈ peers ex -> is_Some (BTree.get p (slot k inbox)).
Proof.
  unfold complete.
  rewrite andb_true_iff, !orb_true_iff, !negb_true_iff, !forallb_forall.
  setoid_rewrite <- list_elem_of_In. setoid_rewrite BTree.contains_key_true. split.
  - intros [Hb Hp] [] p Hw Hin; simpl in *.
    + destruct Hp as [Hp|Hp]; [congruence|auto].
    + destruct Hb as [Hb|Hb]; [congruence|auto].
  - intros H. split.
    + destruct (expect_broadcasts expect) eqn:Hw; [right|by left].
      intros p Hin. exact (H false p Hw Hin).
    + destruct (expect_p2p expect) eqn:Hw; [right|by left].
      intros p Hin. exact (H true p Hw Hin).
Qed.

Lemma slot_empty k p : BTree.get p (slot k empty_inbox) = None.
Proof. by destruct k. Qed.

Lemma recv_round_Ok ex rnd expect events inbox ex' rest :
  recv_round ex rnd expect events = Ok (inbox, ex', rest) ->
  exists pre, events = (Arrived <$> pre) ++ rest /\
    drain (set_ahead ex []) rnd (ahead ex ++ pre) empty_inbox expect = Ok (ex', inbox) /\
    complete ex' inbox expect = true.
Proof.
  unfold recv_round. intros ([ex1 ib1] & Hd & Hl)%rbind_Ok.
  apply collect_loop_Ok in Hl as (pre & -> & Hp & Hc). exists pre. split_and!; [done| |done].
  by rewrite drain_app, Hd.
Qed.

(** What a successful round computed, as a function of the mail it saw. *)
Lemma recv_round_spec ex rnd expect events inbox ex' rest :
  recv_round ex rnd expect events = Ok (inbox, ex', rest) ->
  exists pre, events = (Arrived <$> pre) ++ rest /\
    same_ceremony ex' ex /\
    ahead ex' = filter (fun s => later ex rnd s = true) (ahead ex ++ pre) /\
    Forall (mail_ok ex) (ahead ex ++ pre) /\
    (forall k p, BTree.get p (slot k inbox) =
                 collected ex rnd (wanted expect k) k p (ahead ex ++ pre)) /\
    (forall k p, wanted expect k = true -> p ∈ peers ex -> is_Some (BTree.get p (slot k inbox))).
Proof.
  intros (pre & -> & Hd & Hc)%recv_round_Ok. exists pre. split; [done|].
  apply drain_Ok in Hd as (Hs & Hah & Hm & Hg). pose proof (set_ahead_same ex []) as Hs0.
  split_and!.
  - by transitivity (set_ahead ex []).
  - rewrite Hah. simpl. apply list_filter_iff. intros x.
    by rewrite (later_proper _ _ Hs0 rnd rnd eq_refl x x eq_refl).
  - exact Hm.
  - intros k p. rewrite Hg, slot_empty.
    apply (collected_proper _ _ Hs0 rnd _ eq_refl _ _ eq_refl k _ eq_refl p _ eq_refl _ _ eq_refl).
  - rewrite complete_true in Hc. destruct Hs as (_ & _ & Hpe).
    change (peers ex) with (peers (set_ahead ex [])). by rewrite <- Hpe.
Qed.

Lemma recv_round_benign ex rnd expect pre events :
  Forall (fun s => benign ex rnd s = true) (ahead ex ++ pre) ->
  exists ex1 ib1, drain (set_ahead ex []) rnd (ahead ex ++ pre) empty_inbox expect = Ok (ex1, ib1) /\
    same_ceremony ex1 ex /\
    (forall k p, BTree.get p (slot k ib1) =
                 collected ex rnd (wanted expect k) k p (ahead ex ++ pre)) /\
    ((exists p1 p2 ib' ex', pre = p1 ++ p2 /\
        recv_round ex rnd expect ((Arrived <$> pre) ++ events) =
          Ok (ib', ex', (Arrived <$> p2) ++ events) /\
        (forall k p, BTree.get p (slot k ib') =
                     collected ex rnd (wanted expect k) k p (ahead ex ++ p1)) /\
        complete ex' ib' expect = true /\ same_ceremony ex' ex /\
        complete ex1 ib1 expect = true) \/
     (recv_round ex rnd expect ((Arrived <$> pre) ++ events) =
        collect_loop ex1 rnd ib1 expect events)).
Proof.
  intros Hb. destruct (drain_benign (set_ahead ex []) rnd (ahead ex ++ pre) empty_inbox expect)
    as [[ex1 ib1] Hd]; [exact Hb|].
  exists ex1, ib1. split; [done|]. pose proof (set_ahead_same ex []) as Hs0.
  pose proof Hd as Hd'. apply drain_Ok in Hd' as (Hs & _ & _ & Hg).
  split_and!; [by transitivity (set_ahead ex [])| |].
  { intros k p. rewrite Hg, slot_empty.
    apply (collected_proper _ _ Hs0 rnd _ eq_refl _ _ eq_refl k _ eq_refl p _ eq_refl _ _ eq_refl). }
  rewrite drain_app in Hd. apply rbind_Ok in Hd as ([ex0 ib0] & Hd0 & Hd1). cbn [fst snd] in Hd1.
  unfold recv_round. rewrite Hd0. cbn [rbind fst snd].
  destruct (collect_loop_app ex0 rnd ib0 expect pre events ex1 ib1 Hd1)
    as [(p1 & p2 & ex' & ib' & -> & Hp1 & Hl)|Hl]; [left|right; exact Hl].
  exists p1, p2, ib', ex'. split; [done|]. split; [exact Hl|].
  assert (drain (set_ahead ex []) rnd (ahead ex ++ p1) empty_inbox expect = Ok (ex', ib')) as Hd'.
  { by rewrite drain_app, Hd0. }
  apply drain_Ok in Hd' as (Hs' & _ & _ & Hg').
  pose proof Hl as Hl'. apply collect_loop_Ok in Hl' as (_ & _ & _ & Hc2).
  split; [|split; [done|split]].
  { intros k p. rewrite Hg', slot_empty.
    apply (collected_proper _ _ Hs0 rnd _ eq_refl _ _ eq_refl k _ eq_refl p _ eq_refl _ _ eq_refl). }
  { by transitivity (set_ahead ex []). }
  rewrite drain_app, Hp1 in Hd1. cbn [rbind fst snd] in Hd1.
  apply drain_Ok in Hd1 as (Hse & _ & _ & Hge).
  apply complete_true. intros k p Hw Hin. rewrite Hge.
  rewrite complete_true in Hc2. destruct (Hc2 k p Hw) as [b ->]; [|eauto].
  destruct Hse as (_ & _ & Hpe). by rewrite <- Hpe.
Qed.

(** A round completes within the traffic that suffices for it. *)
Lemma recv_round_completes ex rnd expect pre events :
  Forall (fun s => benign ex rnd s = true) (ahead ex ++ pre) ->
  (forall k p, wanted expect k = true -> p ∈ peers ex ->
     is_Some (collected ex rnd true k p (ahead ex ++ pre))) ->
  exists p1 p2 inbox ex', pre = p1 ++ p2 /\
    recv_round ex rnd expect ((Arrived <$> pre) ++ events) =
      Ok (inbox, ex', (Arrived <$> p2) ++ events) /\
    (forall k p, BTree.get p (slot k inbox) =
                 collected ex rnd (wanted expect k) k p (ahead ex ++ p1)) /\
    (forall k p, wanted expect k = true -> p ∈ peers ex -> is_Some (BTree.get p (slot k inbox))).
Proof.
  intros Hb Hall.
  destruct (recv_round_benign ex rnd expect pre events Hb)
    as (ex1 & ib1 & _ & Hs & Hg & [(p1 & p2 & ib & ex' & -> & HOk & Hg' & Hc & Hs' & _)| ->]).
  { exists p1, p2, ib, ex'. split_and!; try done. rewrite complete_true in Hc.
    destruct Hs' as (_ & _ & <-). exact Hc. }
  assert (forall k p, wanted expect k = true -> p ∈ peers ex -> is_Some (BTree.get p (slot k ib1))) as H.
  { intros k p Hw Hp. rewrite Hg, Hw. by apply Hall. }
  assert (complete ex1 ib1 expect = true) as Hc.
  { apply complete_true. intros k p Hw Hp. apply H; [done|]. destruct Hs as (_ & _ & <-). done. }
  exists pre, [], ib1, ex1. split_and!; [by rewrite app_nil_r| |done|done].
  destruct events; simpl; by rewrite Hc.
Qed.

(** *** Sending *)
(** The relay of an exchange that sends into a list. *)
Definition push (s : SignedEnvelope) : M (list SignedEnvelope) MpcError unit :=
  fun sent => (Ok tt, sent ++ [s]).

(** The envelopes a round puts on the wire: the broadcast once per peer, then
    each p2p payload sealed to its recipient. *)
Definition broadcast_to (ex : Exchange) (rnd : u8) (b : bytes) (to : u8) : SignedEnvelope :=
  sign (broadcast (Mpc.instance (ctx ex)) (ex_op ex) rnd (party_id (ctx ex)) to b)
       (signing_key (ctx ex)).

Definition seals_to (rng : u8 -> array 32 * array 24) (ex : Exchange) (rnd : u8)
    (m : u8 * bytes) (s : SignedEnvelope) : Prop :=
  exists vk e, fst m ∈ peers ex /\ party_vks (ctx ex) !! N.to_nat (wval (fst m)) = Some vk /\
    Envelope.seal (fst (rng (fst m))) (snd (rng (fst m))) (Mpc.instance (ctx ex)) (ex_op ex) rnd
      (party_id (ctx ex)) (fst m) vk (snd m) = Ok e /\
    s = sign e (signing_key (ctx ex)).

Lemma send_broadcasts_push ex rnd b tos st :
  send_broadcasts push ex rnd b tos st = (Ok tt, st ++ (broadcast_to ex rnd b <$> tos)).
Proof.
  revert st; induction tos as [|to tos IH]; intros st; simpl; [by rewrite app_nil_r|].
  unfold mbnd, relay, mmap_err, push. simpl. rewrite IH, <- app_assoc. done.
Qed.

Lemma send_p2p_push rng ex rnd msgs st st' :
  send_p2p push rng ex rnd msgs st = (Ok tt, st') <->
  exists out, st' = st ++ out /\ Forall2 (seals_to rng ex rnd) msgs out.
Proof.
  revert st; induction msgs as [|[to m] msgs IH]; intros st; simpl.
  - split.
    + intros [= <-]. exists []. by rewrite app_nil_r.
    + intros (out & -> & H%Forall2_nil_inv_l). subst. by rewrite app_nil_r.
  - destruct (contains to (peers ex)) eqn:Hin; simpl.
    2:{ split; [done|]. intros (out & -> & (s & out' & (vk & e & Hp & _) & _)%Forall2_cons_inv_l).
        apply contains_false in Hin. done. }
    apply contains_true in Hin.
    destruct (party_vks (ctx ex) !! N.to_nat (wval to)) as [vk|] eqn:Hvk.
    2:{ split; [done|]. intros (out & -> & (s & out' & (vk & e & _ & Hv & _) & _)%Forall2_cons_inv_l).
        simpl in Hv. congruence. }
    rewrite mbnd_Ok. split.
    + intros (e & st1 & [Hsl ->]%pair_eq & H). apply map_err_Ok in Hsl.
      unfold mbnd, relay, mmap_err, push in H. simpl in H. apply IH in H as (out & -> & Hf).
      exists (sign e (signing_key (ctx ex)) :: out). rewrite <- app_assoc. split; [done|].
      constructor; [|done]. by exists vk, e.
    + intros (out & -> & (s & out' & (vk' & e & _ & Hv & Hsl & ->) & Hf & ->)%Forall2_cons_inv_l).
      simpl in Hv, Hsl. replace vk' with vk in Hsl by congruence. rewrite Hsl.
      exists e, st. split; [done|]. unfold mbnd, relay, mmap_err, push. simpl.
      apply IH. exists out'. by rewrite <- app_assoc.
Qed.

Definition bcasts (ex : Exchange) (rnd : u8) (ob : RoundOutbox) : list SignedEnvelope :=
  match out_broadcast ob with
  | Some b => broadcast_to ex rnd b <$> peers ex
  | None => []
  end.

Lemma send_round_push rng ex rnd ob st st' :
  send_round push rng ex rnd ob st = (Ok tt, st') <->
  exists out, st' = st ++ bcasts ex rnd ob ++ out /\ Forall2 (seals_to rng ex rnd) (out_p2p ob) out.
Proof.
  unfold send_round, bcasts, mbnd. destruct (out_broadcast ob) as [b|].
  - rewrite send_broadcasts_push, send_p2p_push. setoid_rewrite <- app_assoc. done.
  - simpl. by rewrite send_p2p_push.
Qed.
End Lemmas.

Lemma Forall2_elem_r {A B} (P : A -> B -> Prop) l1 l2 y :
  Forall2 P l1 l2 -> y ∈ l2 -> exists x, x ∈ l1 /\ P x y.
Proof.
  intros Hf (i & Hi)%list_elem_of_lookup_1.
  destruct (Forall2_lookup_r _ _ _ _ _ Hf Hi) as (x & Hx & HP).
  exists x. split; [|done]. by eapply list_elem_of_lookup_2.
Qed.

Lemma Forall2_elem_l {A B} (P : A -> B -> Prop) l1 l2 x :
  Forall2 P l1 l2 -> x ∈ l1 -> exists y, y ∈ l2 /\ P x y.
Proof.
  intros Hf (i & Hi)%list_elem_of_lookup_1.
  destruct (Forall2_lookup_l _ _ _ _ _ Hf Hi) as (y & Hy & HP).
  exists y. split; [|done]. by eapply list_elem_of_lookup_2.
Qed.

(** ** Properties *)
Section Properties.
Context {C : Crypto}.

(** C20: a round that completes is a function of the authentic mail.  It
    consumes a prefix of the traffic; every consumed envelope addressed to
    this ceremony carried a valid roster signature; what each slot holds is
    the first authentic current-round message of that sender and kind (p2p
    already opened); every peer delivered every expected kind; and exactly the
    later-round mail seen is kept, in order, for the rounds to come. *)
Theorem recv_round_functional ex rnd expect events inbox ex' rest :
  recv_round ex rnd expect events = Ok (inbox, ex', rest) ->
  exists pre, let mail := ahead ex ++ pre in
    events = (Arrived <$> pre) ++ rest /\
    Forall (fun s => foreign ex (env s) = true \/ genuine ex s = true) mail /\
    (forall p, BTree.get p (broadcasts inbox) =
               collected ex rnd (expect_broadcasts expect) false p mail) /\
    (forall p, BTree.get p (p2p inbox) = collected ex rnd (expect_p2p expect) true p mail) /\
    (forall p, p ∈ peers ex ->
       (expect_broadcasts expect = true -> is_Some (BTree.get p (broadcasts inbox))) /\
       (expect_p2p expect = true -> is_Some (BTree.get p (p2p inbox)))) /\
    same_ceremony ex' ex /\
    ahead ex' = filter (fun s => later ex rnd s = true) mail.
Proof.
  intros (pre & -> & Hs & Hah & Hm & Hg & Hc)%recv_round_spec. exists pre. cbv zeta.
  split_and!; try done; [exact (Hg false)|exact (Hg true)|].
  intros p Hp. split; intros Hw; [exact (Hc false p Hw Hp)|exact (Hc true p Hw Hp)].
Qed.

(** A round makes progress.  When the mail buffered ahead and the mail
    that arrives contain no forgery of this ceremony and, among them, an
    openable current message of every expected kind from every peer, the round
    completes, whatever the relay does afterwards and whatever foreign, late
    or duplicate mail is interleaved. *)
Theorem recv_round_live ex rnd expect pre events :
  Forall (fun s => benign ex rnd s = true) (ahead ex ++ pre) ->
  (forall k p, wanted expect k = true -> p ∈ peers ex ->
     is_Some (collected ex rnd true k p (ahead ex ++ pre))) ->
  exists inbox ex' rest,
    recv_round ex rnd expect ((Arrived <$> pre) ++ events) = Ok (inbox, ex', rest).
Proof.
  intros Hb Hall. destruct (recv_round_completes ex rnd expect pre events Hb Hall)
    as (p1 & p2 & ib & ex' & _ & H & _). eauto.
Qed.

(** A forgery aborts the round at once.  An envelope that matches this
    ceremony (instance, operation, recipient and a peer's id) but fails roster
    authentication, arriving while some peer's message is still missing, makes
    the round fail with an authentication error, not a timeout. *)
Theorem recv_round_forgery_aborts ex rnd expect pre s events k p :
  Forall (fun s => benign ex rnd s = true) (ahead ex ++ pre) ->
  wanted expect k = true -> p ∈ peers ex ->
  collected ex rnd true k p (ahead ex ++ pre) = None ->
  foreign ex (env s) = false -> verify s (party_vks (ctx ex)) <> Ok tt ->
  exists m, recv_round ex rnd expect ((Arrived <$> pre) ++ Arrived s :: events)
            = Err (EnvelopeAuth m).
Proof.
  intros Hb Hw Hp Hn Hf Hv.
  destruct (recv_round_benign ex rnd expect pre (Arrived s :: events) Hb)
    as (ex1 & ib1 & _ & Hs & Hg & H).
  assert (complete ex1 ib1 expect = false) as Hc.
  { apply not_true_is_false. intros Hc. rewrite complete_true in Hc.
    destruct (Hc k p Hw) as [b Hk]; [by destruct Hs as (_ & _ & ->)|].
    rewrite Hg, Hw in Hk. congruence. }
  destruct H as [(? & ? & ? & ? & _ & _ & _ & _ & _ & ?)|H]; [congruence|]. rewrite H. cbn [collect_loop]. rewrite Hc.
  assert (genuine ex1 s = false) as Hgen.
  { rewrite (genuine_proper _ _ Hs s s eq_refl). unfold genuine. rewrite Hf. simpl.
    by destruct (verify s _) as [[]|]. }
  rewrite <- (foreign_proper _ _ Hs _ _ eq_refl) in Hf.
  destruct (admit_cases ex1 rnd s ib1 expect)
    as [(_ & ? & _)|[(_ & _ & m & ->)|[(? & _)|[(? & _)|(? & _)]]]]; [congruence| |congruence..].
  by exists m.
Qed.

(** Two parties of one ceremony that pinned each other's keys. *)
Definition agree (a b : Exchange) : Prop :=
  Mpc.instance (ctx a) = Mpc.instance (ctx b) /\ ex_op a = ex_op b /\
  party_vks (ctx b) !! N.to_nat (wval (party_id (ctx a))) = Some (verifying_key (signing_key (ctx a))) /\
  party_vks (ctx a) !! N.to_nat (wval (party_id (ctx b))) = Some (verifying_key (signing_key (ctx b))) /\
  party_id (ctx b) ∈ peers a /\ party_id (ctx a) ∈ peers b.

(** What the sender put in its outbox for one recipient and kind. *)
Definition meant (ob : RoundOutbox) (k : bool) (to : u8) : option bytes :=
  if k then BTree.get to (out_p2p ob) else out_broadcast ob.

Lemma sent_shape rng a rnd ob out s :
  BTree.wf (out_p2p ob) = true ->
  send_round push rng a rnd ob [] = (Ok tt, out) -> s ∈ out ->
  exists e, s = sign e (signing_key (ctx a)) /\
    Envelope.instance e = Mpc.instance (ctx a) /\ op e = ex_op a /\ round e = rnd /\
    from e = party_id (ctx a) /\
    ((sealed e = false /\ meant ob false (to e) = Some (payload e)) \/
     exists vk m, sealed e = true /\ meant ob true (to e) = Some m /\
       party_vks (ctx a) !! N.to_nat (wval (to e)) = Some vk /\
       Envelope.seal (fst (rng (to e))) (snd (rng (to e))) (Mpc.instance (ctx a)) (ex_op a) rnd
         (party_id (ctx a)) (to e) vk m = Ok e).
Proof.
  intros Hwf (ps & -> & Hf)%send_round_push. rewrite app_nil_l. intros [Hin|Hin]%elem_of_app.
  - unfold bcasts in Hin. destruct (out_broadcast ob) as [b|] eqn:Hob; [|by apply not_elem_of_nil in Hin].
    apply list_elem_of_fmap in Hin as (to & -> & _). eexists; split; [reflexivity|].
    simpl. split_and!; try done. left. by rewrite Hob.
  - destruct (Forall2_elem_r _ _ _ _ Hf Hin) as ([to m] & Hm & (vk & e & _ & Hvk & Hsl & ->)).
    simpl in Hvk, Hsl. exists e. split; [done|].
    pose proof Hsl as (ct & -> & _)%seal_shape. simpl. split_and!; try done.
    right. exists vk, m. split_and!; try done. by apply BTree.elem_of_get.
Qed.

(** A sent envelope, at the party it is addressed to. *)
Lemma sent_current {CL : CryptoLaws C} rng a b rnd ob out s :
  agree a b -> BTree.wf (out_p2p ob) = true ->
  send_round push rng a rnd ob [] = (Ok tt, out) -> s ∈ out ->
  (foreign b (env s) = true /\ to (env s) <> party_id (ctx b)) \/
  (to (env s) = party_id (ctx b) /\ from (env s) = party_id (ctx a) /\ current b rnd s = true /\
   plaintext b s = meant ob (sealed (env s)) (party_id (ctx b)) /\ is_Some (plaintext b s)).
Proof.
  intros (Hi & Ho & Hvb & Hva & Hpb & Hpa) Hwf Hsend Hin.
  destruct (sent_shape _ _ _ _ _ _ Hwf Hsend Hin) as (e & -> & Ei & Eo & Er & Ef & Hk).
  cbn [env sign]. destruct (decide (to e = party_id (ctx b))) as [Et|Et].
  2:{ left. split; [|done]. unfold foreign. rewrite (bool_decide_eq_false_2 (to e = _)) by done.
      by rewrite !orb_true_r. }
  right. split; [done|]. split; [done|]. split.
  - unfold current, genuine. cbn [env sign]. rewrite sign_verifies by (by rewrite Ef).
    unfold foreign. rewrite Ei, Eo, Et, Ef, Hi, Ho, !bool_decide_eq_true_2 by done.
    rewrite (proj2 (contains_true _ _) Hpa), Er, N.eqb_refl. done.
  - unfold plaintext. cbn [env sign]. rewrite <- Et.
    destruct Hk as [(-> & Hm)|(vk & m & -> & Hm & Hvk & Hsl)].
    + by rewrite Hm.
    + rewrite Et in Hvk. assert (vk = verifying_key (signing_key (ctx b))) as -> by congruence.
      pose proof Hsl as (ct & He & Hc & Hct)%seal_shape.
      assert (open e (signing_key (ctx b)) = Ok m) as Hop.
      { eapply seal_opens; exact Hsl. }
      by rewrite Hop, Hm.
Qed.

(** What an outbox means for a peer is on the wire. *)
Lemma sent_exists rng a rnd ob out k p m :
  send_round push rng a rnd ob [] = (Ok tt, out) -> p ∈ peers a -> meant ob k p = Some m ->
  exists s, s ∈ out /\ to (env s) = p /\ sealed (env s) = k /\ from (env s) = party_id (ctx a).
Proof.
  intros (ps & -> & Hf)%send_round_push Hp Hm. rewrite app_nil_l. destruct k; simpl in Hm.
  - apply BTree.get_elem_of in Hm.
    destruct (Forall2_elem_l _ _ _ _ Hf Hm) as (s & Hs & (vk & e & _ & _ & Hsl & ->)).
    exists (sign e (signing_key (ctx a))). split; [apply elem_of_app; by right|].
    by apply seal_shape in Hsl as (ct & -> & _).
  - exists (broadcast_to a rnd m p). split; [|done]. apply elem_of_app; left.
    unfold bcasts. rewrite Hm. by apply list_elem_of_fmap_2.
Qed.

Lemma collected_is_Some ex rnd k p l :
  (exists s, s ∈ l /\ current ex rnd s = true /\ sealed (env s) = k /\ from (env s) = p) ->
  (forall s, s ∈ l -> current ex rnd s = true -> is_Some (plaintext ex s)) ->
  is_Some (collected ex rnd true k p l).
Proof.
  intros (s & Hin & Hs) Hop. induction l as [|s' l IH]; [by apply not_elem_of_nil in Hin|].
  rewrite collected_cons. case_bool_decide as Hd.
  - apply Hop; [left|tauto].
  - apply elem_of_cons in Hin as [->|Hin]; [done|]. apply IH; [done|].
    intros s0 Hs0. apply Hop. by right.
Qed.

Lemma collected_Some ex rnd w k p l b :
  collected ex rnd w k p l = Some b ->
  exists s, s ∈ l /\ current ex rnd s = true /\ sealed (env s) = k /\ from (env s) = p /\
            plaintext ex s = Some b.
Proof.
  induction l as [|s l IH]; [unfold collected; by destruct w|].
  rewrite collected_cons. destruct w; [|done]. case_bool_decide as Hd.
  - intros Hp. exists s. split; [left|tauto].
  - intros (s' & Hin & H)%IH. exists s'. split; [by right|done].
Qed.

(** What a party signed for a round of its ceremony. *)
Definition authored (a : Exchange) (rnd : u8) (s : SignedEnvelope) : Prop :=
  exists e, s = sign e (signing_key (ctx a)) /\ Envelope.instance e = Mpc.instance (ctx a) /\
            op e = ex_op a /\ round e = rnd /\ from e = party_id (ctx a).

#[export] Instance authored_proper : Proper (same_ceremony ==> eq ==> eq ==> iff) authored.
Proof. intros x y (H1 & H2 & _) r ? <- s ? <-. unfold authored. by rewrite H1, H2. Qed.

#[export] Instance agree_proper : Proper (same_ceremony ==> same_ceremony ==> iff) agree.
Proof.
  intros x y (H1 & H2 & H3) x' y' (K1 & K2 & K3). unfold agree. by rewrite H1, H2, H3, K1, K2, K3.
Qed.

Lemma authored_round a rnd s : authored a rnd s -> round (env s) = rnd.
Proof. by intros (e & -> & _ & _ & <- & _). Qed.

(** It is genuine at its recipient, and foreign to everyone else. *)
Lemma authored_at {CL : CryptoLaws C} a b rnd s :
  agree a b -> authored a rnd s ->
  if decide (to (env s) = party_id (ctx b)) then genuine b s = true else foreign b (env s) = true.
Proof.
  intros (Hi & Ho & Hvb & _ & _ & Hpa) (e & -> & Ei & Eo & _ & Ef). cbn [env sign].
  case_decide as Et; unfold genuine, foreign; cbn [env sign].
  - rewrite sign_verifies by (by rewrite Ef). rewrite Ei, Eo, Et, Ef, Hi, Ho, !bool_decide_eq_true_2 by done.
    by rewrite (proj2 (contains_true _ _) Hpa).
  - rewrite (bool_decide_eq_false_2 (to e = _)) by done. by rewrite !orb_true_r.
Qed.

Lemma genuine_not_foreign b s : genuine b s = true -> foreign b (env s) = false.
Proof. unfold genuine. by destruct (foreign b (env s)). Qed.

(** Whatever a sending attempt came to, it only added what the party signed
    for that round. *)
Lemma send_round_authored rng a rnd ob st x st' :
  send_round push rng a rnd ob st = (x, st') ->
  exists out, st' = st ++ out /\ Forall (authored a rnd) out.
Proof.
  assert (forall msgs st x st', send_p2p push rng a rnd msgs st = (x, st') ->
    exists out, st' = st ++ out /\ Forall (authored a rnd) out) as Hp.
  { induction msgs as [|[to m] msgs IH]; intros st0 x0 st0'; simpl.
    { intros [= _ <-]. exists []. by rewrite app_nil_r. }
    destruct (contains to (peers a)); simpl; [|intros [= _ <-]; exists []; by rewrite app_nil_r].
    destruct (_ !! _) as [vk|]; [|intros [= _ <-]; exists []; by rewrite app_nil_r].
    unfold mbnd, mlift. destruct (Envelope.seal _ _ _ _ _ _ _ _ _) as [e|er] eqn:Hsl; simpl.
    2:{ intros [= _ <-]. exists []. by rewrite app_nil_r. }
    intros (out & -> & Hout)%IH. exists (sign e (signing_key (ctx a)) :: out). rewrite <- app_assoc.
    split; [done|]. constructor; [|done]. exists e. by apply seal_shape in Hsl as (ct & -> & _). }
  unfold send_round. destruct (out_broadcast ob) as [b|]; [|apply Hp].
  unfold mbnd. rewrite send_broadcasts_push. intros (out & -> & Hout)%Hp.
  exists ((broadcast_to a rnd b <$> peers a) ++ out). rewrite <- app_assoc. split; [done|].
  apply Forall_app. split; [|done]. apply Forall_fmap, Forall_true. intros to. by eexists.
Qed.

(** Sending appends to what was sent before. *)
Lemma send_round_from rng a rnd ob st st' :
  send_round push rng a rnd ob st = (Ok tt, st') <->
  exists out, st' = st ++ out /\ send_round push rng a rnd ob [] = (Ok tt, out).
Proof.
  rewrite send_round_push. setoid_rewrite send_round_push. split.
  - intros (o & -> & Hf). exists (bcasts a rnd ob ++ o). split; [done|]. by exists o.
  - intros (o' & -> & o & -> & Hf). by exists o.
Qed.

(** Sending does not look at what is buffered. *)
Lemma send_round_same rng a b rnd ob st st' :
  same_ceremony a b -> send_round push rng a rnd ob st = (Ok tt, st') ->
  send_round push rng b rnd ob st = (Ok tt, st').
Proof.
  intros (H1 & H2 & H3). rewrite !send_round_push. intros (o & -> & Hf). exists o. split.
  - unfold bcasts, broadcast_to. by rewrite H1, H2, H3.
  - eapply Forall2_impl; [exact Hf|]. intros m s. unfold seals_to. by rewrite H1, H2, H3.
Qed.

(** An inbox is in the map's key order. *)
Lemma drain_wf ex rnd l inbox expect ex' inbox' :
  drain ex rnd l inbox expect = Ok (ex', inbox') ->
  (forall k, BTree.wf (slot k inbox) = true) -> forall k, BTree.wf (slot k inbox') = true.
Proof.
  revert ex inbox; induction l as [|s l IH]; intros ex inbox; cbn [drain]; [by intros [= -> ->]|].
  intros ([ex1 ib1] & Ha & Hd)%rbind_Ok Hwf. apply (IH _ _ Hd). cbn [fst snd].
  destruct (admit_cases ex rnd s inbox expect)
    as [(_ & _ & H)|[(_ & _ & m & H)|[(_ & _ & _ & H)|[(_ & _ & _ & H)|(_ & _ & _ & H)]]]];
    rewrite H in Ha; [by injection Ha as <- <-|done|by injection Ha as <- <-|by injection Ha as <- <-|].
  apply rbind_Ok in Ha as (ib & Hfile & [= <- <-]).
  destruct (file_cases ex s inbox expect) as [[HOk _]|(_ & _ & [(b & _ & HOk)|(_ & e & He)])];
    [| |congruence]; rewrite HOk in Hfile; injection Hfile as <-; [done|].
  intros k. rewrite slot_set_slot. case_bool_decide; [by apply BTree.wf_insert|done].
Qed.

Lemma recv_round_wf ex rnd expect events inbox ex' rest :
  recv_round ex rnd expect events = Ok (inbox, ex', rest) -> forall k, BTree.wf (slot k inbox) = true.
Proof.
  intros (pre & _ & Hd & _)%recv_round_Ok. apply (drain_wf _ _ _ _ _ _ _ Hd). by intros [].
Qed.

Lemma current_peer b rnd s : current b rnd s = true -> from (env s) ∈ peers b.
Proof.
  unfold current. intros [Hgn%genuine_not_foreign _]%andb_true_iff. unfold foreign in Hgn.
  apply orb_false_iff in Hgn as [_ Hgn]. by apply negb_false_iff, contains_true in Hgn.
Qed.

(** Mail of a ceremony stops no round, and its current envelopes say what
    their senders' outboxes mean. *)
Lemma round_mail {CL : CryptoLaws C} (b : Exchange) (rnd : u8)
    (party : u8 -> Exchange) (ob : u8 -> RoundOutbox) (rng : u8 -> u8 -> array 32 * array 24)
    (sent : u8 -> list SignedEnvelope) (mail : list SignedEnvelope) :
  (forall p, p ∈ peers b -> agree (party p) b /\ party_id (ctx (party p)) = p /\
     BTree.wf (out_p2p (ob p)) = true /\
     send_round push (rng p) (party p) rnd (ob p) [] = (Ok tt, sent p)) ->
  (forall s, s ∈ ahead b ++ mail -> foreign b (env s) = true \/
     (genuine b s = true /\ round (env s) <> rnd) \/ exists p, p ∈ peers b /\ s ∈ sent p) ->
  (forall s, s ∈ ahead b ++ mail -> current b rnd s = true -> exists p, p ∈ peers b /\ from (env s) = p /\
     plaintext b s = meant (ob p) (sealed (env s)) (party_id (ctx b)) /\ is_Some (plaintext b s)) /\
  Forall (fun s => benign b rnd s = true) (ahead b ++ mail).
Proof.
  intros Hp Hmail.
  assert (forall s, s ∈ ahead b ++ mail -> current b rnd s = true -> exists p, p ∈ peers b /\ from (env s) = p /\
            plaintext b s = meant (ob p) (sealed (env s)) (party_id (ctx b)) /\
            is_Some (plaintext b s)) as Hcur.
  { intros s Hs Hc. destruct (Hmail s Hs) as [Hf|[[_ Hr]|(p & Hin & Hsp)]].
    - unfold current, genuine in Hc. by rewrite Hf in Hc.
    - apply andb_true_iff in Hc as [_ Hc%N.eqb_eq%word_eq]. done.
    - destruct (Hp p Hin) as (Hag & Hid & Hwf & Hsend). exists p. split; [done|].
      destruct (sent_current _ _ _ _ _ _ _ Hag Hwf Hsend Hsp) as [[Hf _]|(_ & Hfr & _ & Hpl)].
      + unfold current, genuine in Hc. by rewrite Hf in Hc.
      + by rewrite Hfr, Hid. }
  split; [done|]. apply Forall_forall. intros s Hs. unfold benign. destruct (current b rnd s) eqn:Hc.
  { destruct (Hcur s Hs Hc) as (_ & _ & _ & _ & Hpl). rewrite (bool_decide_eq_true_2 _ Hpl).
    apply andb_true_iff in Hc as [-> _]. by rewrite orb_true_r. }
  destruct (Hmail s Hs) as [Hf|[[Hg _]|(p & Hin & Hsp)]]; [by rewrite Hf|by rewrite Hg, orb_true_r|].
  destruct (Hp p Hin) as (Hag & Hid & Hwf & Hsend).
  destruct (sent_current _ _ _ _ _ _ _ Hag Hwf Hsend Hsp) as [[Hf _]|(_ & _ & Hc' & _)];
    [by rewrite Hf|congruence].
Qed.

(** The outcome of a round in the middle of a ceremony.  Parties that pinned
    each other's keys each send their outbox; the receiver's mail, counting
    what it buffered, is any interleaving, reordering, duplication or loss of
    what they sent and of genuine mail of other rounds, with foreign traffic
    mixed in.  Then either the round completes, it holds from every peer
    exactly what that peer's outbox meant for the receiver and nothing else,
    and keeps the later rounds' mail; or some peer's message is missing, and
    what follows decides. *)
Lemma round_outcome {CL : CryptoLaws C} (b : Exchange) (rnd : u8) (expect : Expect)
    (party : u8 -> Exchange) (ob : u8 -> RoundOutbox) (rng : u8 -> u8 -> array 32 * array 24)
    (sent : u8 -> list SignedEnvelope) (mail : list SignedEnvelope) (events : list event) :
  (forall p, p ∈ peers b -> agree (party p) b /\ party_id (ctx (party p)) = p /\
     BTree.wf (out_p2p (ob p)) = true /\
     send_round push (rng p) (party p) rnd (ob p) [] = (Ok tt, sent p)) ->
  (forall s, s ∈ ahead b ++ mail -> foreign b (env s) = true \/
     (genuine b s = true /\ round (env s) <> rnd) \/ exists p, p ∈ peers b /\ s ∈ sent p) ->
  (exists p1 p2 inbox b',
    mail = p1 ++ p2 /\
    recv_round b rnd expect ((Arrived <$> mail) ++ events) = Ok (inbox, b', (Arrived <$> p2) ++ events) /\
    same_ceremony b' b /\
    ahead b' = filter (fun s => later b rnd s = true) (ahead b ++ p1) /\
    (forall k, BTree.wf (slot k inbox) = true) /\
    (forall k p, BTree.get p (slot k inbox) =
       if wanted expect k && contains p (peers b) then meant (ob p) k (party_id (ctx b)) else None)) \/
  (~ (forall k p, wanted expect k = true -> p ∈ peers b ->
        is_Some (collected b rnd true k p (ahead b ++ mail))) /\
   exists ex1 ib1, complete ex1 ib1 expect = false /\
     recv_round b rnd expect ((Arrived <$> mail) ++ events) = collect_loop ex1 rnd ib1 expect events).
Proof.
  intros Hp Hmail. pose proof (round_mail b rnd party ob rng sent mail Hp Hmail) as [Hcur Hben].
  destruct (recv_round_benign b rnd expect mail events Hben)
    as (ex1 & ib1 & _ & Hs1 & Hg1 & Hcase).
  assert ((exists p1 p2 ib b', mail = p1 ++ p2 /\
            recv_round b rnd expect ((Arrived <$> mail) ++ events) = Ok (ib, b', (Arrived <$> p2) ++ events)) \/
          (complete ex1 ib1 expect = false /\
           recv_round b rnd expect ((Arrived <$> mail) ++ events) = collect_loop ex1 rnd ib1 expect events))
    as [(p1 & p2 & ib & b' & Hpp & HOk)|[Hc Hl]].
  - destruct Hcase as [(p1 & p2 & ib & b' & Hpp & HOk & _)|Hl]; [left; by exists p1, p2, ib, b'|].
    destruct (complete ex1 ib1 expect) eqn:Hc; [left|by right].
    exists mail, [], ib1, ex1. rewrite app_nil_r. split; [done|]. rewrite Hl. destruct events; simpl; by rewrite Hc.
  - left. pose proof (recv_round_wf _ _ _ _ _ _ _ HOk) as Hwf.
    pose proof HOk as (pre & Hpre & Hsame & Hah & _ & Hg & Hc)%recv_round_spec.
    rewrite Hpp, fmap_app, <- app_assoc in Hpre. rewrite !app_assoc in Hpre.
    apply app_inv_tail, app_inv_tail in Hpre. apply (inj (fmap Arrived)) in Hpre as <-.
    exists p1, p2, ib, b'. split_and!; try done. intros k p.
    destruct (wanted expect k) eqn:Hw; cbn [andb]; [|by rewrite Hg, Hw].
    destruct (contains p (peers b)) eqn:Hin.
    + apply contains_true in Hin. destruct (Hc k p Hw Hin) as [m Hm]. rewrite Hm.
      rewrite Hg in Hm. apply collected_Some in Hm as (s & Hs & Hcs & Hk & Hfr & Hpl).
      destruct (Hcur s) as (p' & _ & Hfr' & Hpl' & _).
      { rewrite Hpp, app_assoc. apply elem_of_app; by left. }
      { done. }
      rewrite <- Hpl, Hpl'. congruence.
    + apply contains_false in Hin. rewrite Hg. apply eq_None_not_Some. intros [m Hm].
      apply collected_Some in Hm as (s & _ & Hcs & _ & Hfr & _). apply Hin. rewrite <- Hfr. by eapply current_peer.
  - right. split; [|by exists ex1, ib1]. intros Hall. apply not_true_iff_false in Hc. apply Hc, complete_true.
    intros k p Hw Hin. rewrite Hg1, Hw. apply Hall; [done|]. by destruct Hs1 as (_ & _ & <-).
Qed.

(** It completes when nothing of the round is lost. *)
Lemma round_delivers {CL : CryptoLaws C} (b : Exchange) (rnd : u8) (expect : Expect)
    (party : u8 -> Exchange) (ob : u8 -> RoundOutbox) (rng : u8 -> u8 -> array 32 * array 24)
    (sent : u8 -> list SignedEnvelope) (mail : list SignedEnvelope) :
  (forall p, p ∈ peers b -> agree (party p) b /\ party_id (ctx (party p)) = p /\
     BTree.wf (out_p2p (ob p)) = true /\
     send_round push (rng p) (party p) rnd (ob p) [] = (Ok tt, sent p)) ->
  (forall s, s ∈ ahead b ++ mail -> foreign b (env s) = true \/
     (genuine b s = true /\ round (env s) <> rnd) \/ exists p, p ∈ peers b /\ s ∈ sent p) ->
  (forall p k, p ∈ peers b -> wanted expect k = true -> is_Some (meant (ob p) k (party_id (ctx b)))) ->
  (forall p s, p ∈ peers b -> s ∈ sent p -> to (env s) = party_id (ctx b) -> s ∈ ahead b ++ mail) ->
  forall k p, wanted expect k = true -> p ∈ peers b -> is_Some (collected b rnd true k p (ahead b ++ mail)).
Proof.
  intros Hp Hmail Hm Hall k p Hw Hin.
  pose proof (round_mail b rnd party ob rng sent mail Hp Hmail) as [Hcur _]. apply collected_is_Some.
  2:{ intros s Hs Hc. by destruct (Hcur s Hs Hc) as (? & _ & _ & _ & ?). }
  destruct (Hp p Hin) as (Hag & Hid & Hwf & Hsend). destruct (Hm p k Hin Hw) as [m Hmk].
  assert (party_id (ctx b) ∈ peers (party p)) as Hbp by (by destruct Hag as (_ & _ & _ & _ & ? & _)).
  destruct (sent_exists _ _ _ _ _ _ _ _ Hsend Hbp Hmk) as (s & Hs & Hto & Hk & Hfr).
  exists s. split; [by eapply Hall|]. split; [|by rewrite Hfr].
  by destruct (sent_current _ _ _ _ _ _ _ Hag Hwf Hsend Hs) as [[_ ?]|(_ & _ & ? & _)].
Qed.

(** One round of a ceremony delivers.  Parties that pinned each other's
    keys each send their outbox; the receiver's mail is any interleaving,
    reordering or duplication of what they sent, with foreign traffic mixed
    in, in which nothing addressed to the receiver was lost.  Then the
    receiver's round completes and holds, from every peer, exactly the
    broadcast and the p2p plaintext that peer's outbox meant for it. *)
Theorem mesh_round_delivers {CL : CryptoLaws C} (b : Exchange) (rnd : u8) (expect : Expect)
    (party : u8 -> Exchange) (ob : u8 -> RoundOutbox) (rng : u8 -> u8 -> array 32 * array 24)
    (sent : u8 -> list SignedEnvelope) (mail : list SignedEnvelope) (events : list event) :
  ahead b = [] ->
  (forall p, p ∈ peers b -> agree (party p) b /\ party_id (ctx (party p)) = p /\
     BTree.wf (out_p2p (ob p)) = true /\
     send_round push (rng p) (party p) rnd (ob p) [] = (Ok tt, sent p) /\
     (expect_broadcasts expect = true -> is_Some (meant (ob p) false (party_id (ctx b)))) /\
     (expect_p2p expect = true -> is_Some (meant (ob p) true (party_id (ctx b))))) ->
  (forall s, s ∈ mail -> foreign b (env s) = true \/ exists p, p ∈ peers b /\ s ∈ sent p) ->
  (forall p s, p ∈ peers b -> s ∈ sent p -> to (env s) = party_id (ctx b) -> s ∈ mail) ->
  exists inbox b' rest,
    recv_round b rnd expect ((Arrived <$> mail) ++ events) = Ok (inbox, b', rest) /\
    forall p, p ∈ peers b ->
      (expect_broadcasts expect = true -> BTree.get p (broadcasts inbox) = out_broadcast (ob p)) /\
      (expect_p2p expect = true ->
         BTree.get p (p2p inbox) = BTree.get (party_id (ctx b)) (out_p2p (ob p))).
Proof.
  intros Hah Hp Hmail Hall. rewrite <- (app_nil_l mail), <- Hah in Hmail, Hall.
  assert (forall p, p ∈ peers b -> agree (party p) b /\ party_id (ctx (party p)) = p /\
     BTree.wf (out_p2p (ob p)) = true /\ send_round push (rng p) (party p) rnd (ob p) [] = (Ok tt, sent p)) as Hp'.
  { intros p Hin. by destruct (Hp p Hin) as (? & ? & ? & ? & _). }
  assert (forall s, s ∈ ahead b ++ mail -> foreign b (env s) = true \/
     (genuine b s = true /\ round (env s) <> rnd) \/ exists p, p ∈ peers b /\ s ∈ sent p) as Hmail'.
  { intros s Hs. destruct (Hmail s Hs); auto. }
  destruct (round_outcome b rnd expect party ob rng sent mail events Hp' Hmail')
    as [(p1 & p2 & ib & b' & _ & HOk & _ & _ & _ & Hg)|[Hn _]].
  - exists ib, b', ((Arrived <$> p2) ++ events). split; [done|]. intros p Hin%contains_true.
    split; intros Hw; [specialize (Hg false p)|specialize (Hg true p)]; simpl in Hg;
      by rewrite Hw, Hin in Hg.
  - exfalso. apply Hn. apply (round_delivers b rnd expect party ob rng sent mail Hp' Hmail'); [|done].
    intros p k Hin Hw. destruct (Hp p Hin) as (_ & _ & _ & _ & Hmb & Hmp). destruct k; auto.
Qed.

(** What a round puts on the wire.  With a working relay, sending an
    outbox succeeds exactly when every p2p recipient is a ceremony peer with a
    pinned key its payload can be sealed to; then the relay has received, in
    order, the signed broadcast once per peer followed by each p2p payload
    sealed to its recipient, and nothing else. *)
Theorem send_round_exact rng ex rnd ob st st' :
  send_round push rng ex rnd ob st = (Ok tt, st') <->
  exists out,
    st' = st ++ match out_broadcast ob with
                | Some b => broadcast_to ex rnd b <$> peers ex
                | None => []
                end ++ out /\
    Forall2 (seals_to rng ex rnd) (out_p2p ob) out.
Proof. apply send_round_push. Qed.

(** Indexing the roster never panics: the peers are roster members. *)
Lemma send_round_no_panic {R} (relay_send : SignedEnvelope -> M R MpcError unit) rng ex rnd ob st what st' :
  (forall p, p ∈ peers ex -> (N.to_nat (wval p) < length (party_vks (ctx ex)))%nat) ->
  send_round relay_send rng ex rnd ob st <> (Err (Panic what), st').
Proof.
  intros Hr H. unfold send_round in H.
  assert (forall tos b st, send_broadcasts relay_send ex rnd b tos st <> (Err (Panic what), st')) as Hb.
  { induction tos as [|to tos IH]; intros b st0; simpl; [done|].
    intros [Hm|(? & ? & _ & Hm)]%mbnd_Err; [|by eapply IH].
    unfold relay, mmap_err in Hm. by destruct (relay_send _ st0) as [[] ?]. }
  apply mbnd_Err in H as [H|(u & st1 & _ & H)].
  - destruct (out_broadcast ob); [by eapply Hb|done].
  - clear u. revert st1 H. induction (out_p2p ob) as [|[to m] l IH]; intros st1; simpl; [done|].
    destruct (contains to (peers ex)) eqn:Hin; simpl; [|done].
    apply contains_true, Hr, lookup_lt_is_Some_2 in Hin as [vk ->].
    intros [Hm|(? & ? & _ & Hm)]%mbnd_Err; [by destruct (Envelope.seal _ _ _ _ _ _ _ _ _)|].
    apply mbnd_Err in Hm as [Hm|(? & ? & _ & Hm)]; [|by eapply IH].
    unfold relay, mmap_err in Hm. destruct (relay_send _ _) as [[] ?]; done.
Qed.
End Properties.

(** ** Witnesses: a two-party ceremony. *)
Definition demo_ctx (i : N) : PartyContext :=
  MkContext (wmod 8 i) (array_repeat 32 (wmod 8 170)) (toy_key (i + 1))
    [toy_key 1; toy_key 2] (wmod 8 2) 2000%N.
Definition demo_ex (i : N) : Exchange := exchange_new (demo_ctx i) op_DKG [wmod 8 0; wmod 8 1].
Definition demo_rng (_ : u8) : array 32 * array 24 := (toy_key 9, array_repeat 24 (wmod 8 4)).
Definition demo_ob : RoundOutbox := MkOutbox (Some (bstr "B0")) [(wmod 8 1, bstr "S01")].
Definition demo_sent : list SignedEnvelope :=
  snd (send_round push demo_rng (demo_ex 0) (wmod 8 1) demo_ob []).
Definition demo_round : result MpcError (RoundInbox * Exchange * list event) :=
  recv_round (demo_ex 1) (wmod 8 1) Both (Arrived <$> demo_sent).

Lemma demo_peer p : p ∈ peers (demo_ex 1) -> p = wmod 8 0.
Proof. intros H. change (p ∈ [wmod 8 0]) in H. by apply list_elem_of_singleton in H. Qed.

Lemma demo_forall_peers (P : u8 -> Prop) :
  P (wmod 8 0) -> forall p, p ∈ peers (demo_ex 1) -> P p.
Proof. intros H p ->%demo_peer. exact H. Qed.

Lemma mesh_round_delivers_witness :
  exists inbox b' rest,
    recv_round (demo_ex 1) (wmod 8 1) Both ((Arrived <$> demo_sent) ++ [RelayFailed Deserialize])
      = Ok (inbox, b', rest) /\
    forall p, p ∈ peers (demo_ex 1) ->
      (expect_broadcasts Both = true -> BTree.get p (broadcasts inbox) = Some (bstr "B0")) /\
      (expect_p2p Both = true -> BTree.get p (p2p inbox) = Some (bstr "S01")).
Proof.
  apply (mesh_round_delivers (demo_ex 1) (wmod 8 1) Both (fun _ => demo_ex 0) (fun _ => demo_ob)
           (fun _ => demo_rng) (fun _ => demo_sent)).
  - exact eq_refl.
  - apply demo_forall_peers. split.
    + unfold agree. split_and!; try exact eq_refl; apply contains_true; vm_compute; reflexivity.
    + split_and!; try (vm_compute; reflexivity); intros _; eexists; vm_compute; reflexivity.
  - intros s Hs. right. exists (wmod 8 0). split; [|exact Hs].
    apply contains_true. vm_compute. reflexivity.
  - intros p s _ Hs _. exact Hs.
Defined.

Example demo_round_p2p :
  rmap (fun x => BTree.get (wmod 8 0) (p2p (fst (fst x)))) demo_round = Ok (Some (bstr "S01")).
Proof. vm_compute. reflexivity. Qed.

Example demo_round_ok :
  is_ok (recv_round (demo_ex 1) (wmod 8 1) Both (Arrived <$> demo_sent)) = true.
Proof. vm_compute. reflexivity. Qed.

Lemma is_ok_inv {E A} (x : result E A) : is_ok x = true -> exists a, x = Ok a.
Proof. destruct x; [eauto|done]. Qed.

Lemma recv_round_functional_witness :
  exists inbox ex' rest pre,
    recv_round (demo_ex 1) (wmod 8 1) Both (Arrived <$> demo_sent) = Ok (inbox, ex', rest) /\
    Arrived <$> demo_sent = (Arrived <$> pre) ++ rest.
Proof.
  destruct (is_ok_inv _ demo_round_ok) as [[[inbox ex'] rest] E].
  destruct (recv_round_functional _ _ _ _ _ _ _ E) as (pre & H & _).
  exists inbox, ex', rest, pre. split; [exact E|exact H].
Defined.

Lemma demo_live k p : wanted Both k = true -> p ∈ peers (demo_ex 1) ->
  is_Some (collected (demo_ex 1) (wmod 8 1) true k p (ahead (demo_ex 1) ++ demo_sent)).
Proof.
  intros _. revert p. apply demo_forall_peers.
  destruct k; eexists; vm_compute; reflexivity.
Qed.

Lemma demo_benign : Forall (fun s => benign (demo_ex 1) (wmod 8 1) s = true)
  (ahead (demo_ex 1) ++ demo_sent).
Proof.
  apply Forall_forall. intros s Hs. apply list_elem_of_In in Hs.
  assert (forallb (benign (demo_ex 1) (wmod 8 1)) (ahead (demo_ex 1) ++ demo_sent) = true) as H
    by (vm_compute; reflexivity).
  rewrite forallb_forall in H. by apply H.
Qed.

Lemma recv_round_live_witness :
  exists inbox ex' rest,
    recv_round (demo_ex 1) (wmod 8 1) Both ((Arrived <$> demo_sent) ++ [RelayFailed Deserialize])
    = Ok (inbox, ex', rest).
Proof. apply (recv_round_live (demo_ex 1) (wmod 8 1) Both demo_sent). exact demo_benign. exact demo_live. Defined.

(** Signed by a key that is not party 0's. *)
Definition demo_forged : SignedEnvelope :=
  sign (broadcast (array_repeat 32 (wmod 8 170)) op_DKG (wmod 8 1) (wmod 8 0) (wmod 8 1) (bstr "evil"))
       (toy_key 238).

Lemma recv_round_forgery_aborts_witness :
  exists m, recv_round (demo_ex 1) (wmod 8 1) Broadcasts ((Arrived <$> []) ++ [Arrived demo_forged])
            = Err (EnvelopeAuth m).
Proof.
  apply (recv_round_forgery_aborts (demo_ex 1) (wmod 8 1) Broadcasts [] demo_forged [] false (wmod 8 0)).
  - constructor.
  - reflexivity.
  - apply contains_true. vm_compute. reflexivity.
  - reflexivity.
  - vm_compute. reflexivity.
  - intros H. vm_compute in H. discriminate H.
Defined.
