(* ===== verification/MemHub.v ===== *)
(** * The in-process relay ([crates/sovra-mpc/src/memhub.rs])

    [MemoryHub] hands out one relay per party and routes envelopes between
    them over unbounded channels: unicast on [env.to], store and forward, no
    verification; a second connect for one party panics. *)

From S2P Require Import Prelude Types Mpc Envelope Channel.
From Stdlib Require Import String NArith Lia.
From stdpp Require Import base decidable countable list gmap strings.
Open Scope string_scope. Open Scope list_scope.

(* src mpc/memhub.rs:24-29 Mailbox *)
Record Mailbox : Type := MkMailbox { tx : nat; rx : option nat }.

(* src mpc/memhub.rs:19-22 MemoryHub *)
Record MemoryHub : Type := MkMemoryHub { boxes : gmap u8 Mailbox; queues : chans SignedEnvelope }.

Definition mem_new : MemoryHub := MkMemoryHub ∅ no_chans.

(* src mpc/memhub.rs:31-36 Mailbox::new *)
Definition mem_entry (h : MemoryHub) (p : u8) : MemoryHub * Mailbox :=
  match boxes h !! p with
  | Some m => (h, m)
  | None =>
      let (c, i) := ch_new (queues h) in
      let m := MkMailbox i (Some i) in
      (MkMemoryHub (<[p := m]> (boxes h)) c, m)
  end.

(** [connect] yields the relay's receiver. *)
(* src mpc/memhub.rs:43-58 MemoryHub::connect *)
Definition mem_connect (p : u8) : M MemoryHub stop nat :=
  fun h =>
    let (h, m) := mem_entry h p in
    let h := MkMemoryHub (<[p := MkMailbox (tx m) None]> (boxes h)) (queues h) in
    match rx m with
    | Some i => (Ok i, h)
    | None => (Err (Panic "party connected twice"), h)
    end.

(* src mpc/memhub.rs:67-75 MemoryRelay::send *)
Definition mem_send (e : SignedEnvelope) : M MemoryHub MpcError unit :=
  fun h =>
    let (h, m) := mem_entry h (to (env e)) in
    match ch_send (queues h) (tx m) e with
    | Some c => (Ok tt, MkMemoryHub (boxes h) c)
    | None => (Err (Transport [Lit "recipient's mailbox is closed"]), h)
    end.

(** [recv], when mail waits: the hub holds every sender, so the channel never
    closes under a relay. *)
(* src mpc/memhub.rs:77-82 MemoryRelay::recv *)
Definition mem_recv (i : nat) (h : MemoryHub) : option (SignedEnvelope * MemoryHub) :=
  '(e, c) ← ch_recv (queues h) i; Some (e, MkMemoryHub (boxes h) c).

(** A relay is dropped. *)
Definition mem_drop (i : nat) (h : MemoryHub) : MemoryHub :=
  MkMemoryHub (boxes h) (ch_close (queues h) i).

Fixpoint mem_send_all (l : list SignedEnvelope) : M MemoryHub MpcError unit :=
  match l with
  | [] => mpure tt
  | e :: l => let! _ := mem_send e in mem_send_all l
  end.

Fixpoint mem_recv_n (n : nat) (i : nat) (h : MemoryHub) : list SignedEnvelope * MemoryHub :=
  match n with
  | O => ([], h)
  | S n =>
      match mem_recv i h with
      | Some (e, h) => let (l, h) := mem_recv_n n i h in (e :: l, h)
      | None => ([], h)
      end
  end.

(** ** Invariant: mailboxes hold live channels of their own, and each holds
    exactly the mail of [sent] addressed to its party, none of it received yet. *)
Definition mail_for (p : u8) (l : list SignedEnvelope) : list SignedEnvelope :=
  filter (fun e => to (env e) = p) l.

Record mem_inv (sent : list SignedEnvelope) (h : MemoryHub) : Prop := {
  mem_wf : ch_wf (queues h);
  mem_inj : forall p q m n, boxes h !! p = Some m -> boxes h !! q = Some n -> tx m = tx n -> p = q;
  mem_box : forall p m, boxes h !! p = Some m ->
    exists c, live (queues h) !! tx m = Some c /\ log c = mail_for p sent /\ taken c = O;
  mem_none : forall p, boxes h !! p = None -> mail_for p sent = [];
}.

Lemma mem_inv_new : mem_inv [] mem_new.
Proof. by constructor. Qed.

Lemma mem_entry_spec sent h p h' m :
  mem_inv sent h -> mem_entry h p = (h', m) ->
  mem_inv sent h' /\ boxes h' !! p = Some m /\
  (forall q, q <> p -> boxes h' !! q = boxes h !! q) /\
  match boxes h !! p with
  | Some m0 => m = m0 /\ h' = h
  | None => rx m = Some (tx m) /\ live (queues h') !! tx m = Some (MkChan [] 0)
  end.
Proof.
  intros Hi. pose proof Hi as [Hwf Hinj Hbox Hnone]. unfold mem_entry.
  destruct (boxes h !! p) as [m0|] eqn:Hp; [by intros [= <- <-]|].
  pose proof (ch_wf_new _ Hwf) as Hw'. pose proof (ch_new_fresh _ Hwf) as Hfr.
  unfold ch_new in *. cbn [fst] in Hw'. intros [= <- <-].
  cbn [boxes queues live tx rx]. split_and!; [|by rewrite lookup_insert_eq| |done|by rewrite lookup_insert_eq].
  2:{ intros q Hq. by apply lookup_insert_ne. }
  constructor; simpl; [done|..].
  - intros q1 q2 m1 m2 Ha Hb Ht. apply lookup_insert_Some in Ha, Hb.
    destruct Ha as [[<- <-]|[_ Ha]], Hb as [[<- <-]|[_ Hb]]; simpl in *; try done; [| |by eapply Hinj].
    + apply Hbox in Hb as (c & Hc & _). congruence.
    + apply Hbox in Ha as (c & Hc & _). congruence.
  - intros q n [[<- <-]|[Hq Hn]]%lookup_insert_Some; simpl.
    + exists (MkChan [] 0). rewrite lookup_insert_eq. split_and!; [done| |done].
      by rewrite (Hnone p Hp).
    + destruct (Hbox _ _ Hn) as (c & Hc & H). exists c. rewrite lookup_insert_ne; [done|]. congruence.
  - intros q [? Hq]%lookup_insert_None. by apply Hnone.
Qed.

Lemma mem_send_spec sent h e :
  mem_inv sent h -> exists h', mem_send e h = (Ok tt, h') /\ mem_inv (sent ++ [e]) h' /\
    (forall p m, boxes h !! p = Some m -> boxes h' !! p = Some m) /\
    (forall p m, boxes h' !! p = Some m ->
       boxes h !! p = Some m \/ boxes h !! p = None /\ rx m = Some (tx m)).
Proof.
  intros Hi. unfold mem_send. destruct (mem_entry h (to (env e))) as [h1 m] eqn:He.
  destruct (mem_entry_spec _ _ _ _ _ Hi He) as (Hi1 & Hm & Hoth & Hcase).
  pose proof Hi1 as [Hwf Hinj Hbox Hnone].
  destruct (Hbox _ _ Hm) as (c & Hc & Hl & Hr).
  destruct (ch_send (queues h1) (tx m) e) as [cs|] eqn:Hs;
    [|apply ch_send_None in Hs; congruence].
  pose proof (ch_wf_send _ _ _ _ Hwf Hs) as Hw'. apply ch_send_Some in Hs as (c' & Hc' & ->).
  replace c' with c in * by congruence.
  exists (MkMemoryHub (boxes h1) (MkChans (<[tx m := MkChan (log c ++ [e]) (taken c)]> (live (queues h1)))
            (Channel.fresh (queues h1)))).
  split; [done|]. split_and!.
  - constructor; simpl; [done|done| |].
    + intros p n Hn. unfold mail_for. rewrite filter_app. fold (mail_for p sent).
      rewrite filter_cons, filter_nil. destruct (decide (to (env e) = p)) as [<-|Hne].
      * replace n with m in * by congruence. exists (MkChan (log c ++ [e]) (taken c)).
        rewrite lookup_insert_eq, Hl. done.
      * destruct (Hbox _ _ Hn) as (d & Hd & Hld & Hrd). exists d.
        rewrite lookup_insert_ne, app_nil_r; [done|]. intros Ht. apply Hne. by eapply Hinj.
    + intros p Hp. unfold mail_for. rewrite filter_app, filter_cons, filter_nil. fold (mail_for p sent).
      rewrite decide_False by congruence. by rewrite (Hnone p Hp).
  - simpl. intros p n Hn. destruct (decide (p = to (env e))) as [->|Hne]; [|by rewrite Hoth].
    rewrite Hn in Hcase. destruct Hcase as [-> ->]. done.
  - simpl. intros p n Hn. destruct (decide (p = to (env e))) as [->|Hne].
    + replace n with m by congruence. destruct (boxes h !! to (env e)); [|right; tauto].
      left. by destruct Hcase as [-> _].
    + left. by rewrite <- Hoth.
Qed.

Lemma mem_send_all_spec l sent h :
  mem_inv sent h -> exists h', mem_send_all l h = (Ok tt, h') /\ mem_inv (sent ++ l) h' /\
    (forall p m, boxes h !! p = Some m -> boxes h' !! p = Some m) /\
    (forall p m, boxes h' !! p = Some m ->
       boxes h !! p = Some m \/ boxes h !! p = None /\ rx m = Some (tx m)).
Proof.
  revert sent h; induction l as [|e l IH]; intros sent h Hi; simpl.
  - exists h. rewrite app_nil_r. auto.
  - destruct (mem_send_spec sent h e Hi) as (h1 & Hs & Hi1 & Hstay1 & Hb1). unfold mbnd. rewrite Hs.
    destruct (IH _ _ Hi1) as (h2 & Hs2 & Hi2 & Hstay2 & Hb2). exists h2.
    rewrite <- app_assoc in Hi2. split_and!; try done; [auto|].
    intros p m Hm. destruct (Hb2 p m Hm) as [H|[Hn Hr]]; [by apply Hb1|].
    right. split; [|done]. destruct (boxes h !! p) as [m0|] eqn:Hp; [|done].
    by rewrite (Hstay1 p m0 Hp) in Hn.
Qed.

Lemma mem_recv_n_spec n i h c :
  live (queues h) !! i = Some c -> (n <= length (waiting c))%nat ->
  fst (mem_recv_n n i h) = take n (waiting c).
Proof.
  revert h c; induction n as [|n IH]; intros h c Hc Hn; simpl; [by rewrite take_0|].
  destruct (waiting c) as [|e w] eqn:Hw; [simpl in Hn; lia|].
  assert (log c !! taken c = Some e) as He.
  { assert (waiting c !! 0%nat = Some e) as H by (by rewrite Hw).
    unfold waiting in H. by rewrite lookup_drop, Nat.add_0_r in H. }
  unfold mem_recv, ch_recv. rewrite Hc. simpl. rewrite He. simpl.
  set (h1 := MkMemoryHub _ _). specialize (IH h1 (MkChan (log c) (S (taken c)))).
  assert (waiting (MkChan (log c) (S (taken c))) = w) as Hw'.
  { unfold waiting in *. simpl. replace (S (taken c)) with (taken c + 1)%nat by lia.
    rewrite <- drop_drop. by rewrite Hw. }
  rewrite Hw' in IH. destruct (mem_recv_n n i h1) as [l h2]. simpl in *. f_equal.
  apply IH; [apply lookup_insert_eq|]. simpl in Hn. lia.
Qed.

(** ** Properties *)

(** The in-process relay is a store-and-forward broker.  Starting from an
    empty hub, after any sequence of sends, before or after the recipient
    connects, every send succeeds and the recipient then receives exactly the
    envelopes addressed to it, in the order they were sent. *)
Theorem memhub_delivers (before after : list SignedEnvelope) (p : u8) :
  exists h1 i h2 h3,
    mem_send_all before mem_new = (Ok tt, h1) /\
    mem_connect p h1 = (Ok i, h2) /\
    mem_send_all after h2 = (Ok tt, h3) /\
    fst (mem_recv_n (length (mail_for p (before ++ after))) i h3) = mail_for p (before ++ after).
Proof.
  destruct (mem_send_all_spec before [] mem_new mem_inv_new) as (h1 & H1 & Hi1 & _ & Hb1).
  rewrite app_nil_l in Hi1.
  destruct (mem_entry h1 p) as [h1' m] eqn:He.
  destruct (mem_entry_spec _ _ _ _ _ Hi1 He) as ([Hwf Hinj Hbox Hnone] & Hm & _ & Hcase).
  assert (rx m = Some (tx m)) as Hr.
  { destruct (boxes h1 !! p) as [m0|] eqn:Hp; [|tauto]. destruct Hcase as [-> _].
    by destruct (Hb1 p m0 Hp) as [?|[_ ?]]. }
  set (h2 := MkMemoryHub (<[p := MkMailbox (tx m) None]> (boxes h1')) (queues h1')).
  assert (mem_inv before h2) as Hi2.
  { constructor; simpl; [done|..].
    - intros q1 q2 m1 m2 Ha Hb Ht. apply lookup_insert_Some in Ha, Hb.
      destruct Ha as [[<- <-]|[_ Ha]], Hb as [[<- <-]|[_ Hb]]; simpl in *; eauto.
    - intros q n [[<- <-]|[_ Hn]]%lookup_insert_Some; simpl; eauto.
    - intros q [Hq _]%lookup_insert_None; eauto. }
  destruct (mem_send_all_spec after before h2 Hi2) as (h3 & H3 & Hi3 & Hstay & _).
  exists h1, (tx m), h2, h3. split; [done|]. split; [|split; [done|]].
  { unfold mem_connect. by rewrite He, Hr. }
  destruct (mem_box _ _ Hi3 p (MkMailbox (tx m) None)) as (c & Hc & Hl & Ht).
  { apply Hstay. simpl. apply lookup_insert_eq. }
  assert (waiting c = mail_for p (before ++ after)) as Hw by (unfold waiting; by rewrite Ht, drop_0).
  rewrite (mem_recv_n_spec _ _ h3 c Hc) by (by rewrite Hw).
  rewrite Hw. by rewrite take_ge.
Qed.

(** A second relay for one party is refused with a panic. *)
Lemma double_connect_panics p h i h' :
  mem_connect p h = (Ok i, h') -> fst (mem_connect p h') = Err (Panic "party connected twice").
Proof.
  unfold mem_connect. destruct (mem_entry h p) as [h1 m]. destruct (rx m); [|done].
  intros [= <- <-]. unfold mem_entry. cbn [boxes]. rewrite lookup_insert_eq. done.
Qed.
