(* ===== verification/Hub.v ===== *)
(** * The relay plane ([crates/sovra-ipc]: [hub.rs], [envelope_client.rs])

    [Join] frames and their codec, and the mailbox broker [EnvelopeHub] with
    the sockets it serves, as a state machine: accepting a socket, a frame
    read from it, a frame of its mailbox written to it, and time passing.
    The invariant [hub_inv] and its consequences (one claimer per mailbox, no
    mail lost between routing and delivery) hold in every reachable state. *)

From S2P Require Import Prelude Types Mpc Envelope Channel.
From Stdlib Require Import String NArith Lia.
From stdpp Require Import base decidable countable list gmap strings relations.
Open Scope string_scope. Open Scope list_scope.

(** ** Join frames *)
(* src ipc/hub.rs:36-43 Join *)
Record Join : Type := MkJoin { join_instance : B256; join_party : u8 }.

(* src ipc/hub.rs:45-45 JOIN_DOMAIN *)
Definition JOIN_DOMAIN : bytes := bstr "SOVRA-JOIN-V1".

(* src ipc/hub.rs:48-54 Join::encode *)
Definition join_encode (j : Join) : bytes := JOIN_DOMAIN ++ arr (join_instance j) ++ [join_party j].

(* src ipc/hub.rs:56-66 Join::decode *)
Definition join_decode (bs : bytes) : option Join :=
  rest ← strip_pfx JOIN_DOMAIN bs;
  inst ← to_array 32 (take 32 rest);
  match drop 32 rest with
  | [party_id] => Some (MkJoin inst party_id)
  | _ => None
  end.

(** ** The broker *)
Definition key : Type := B256 * u8.

(* src ipc/hub.rs:167-167 serve_env *)
Definition mailbox_of (j : Join) : key := (join_instance j, join_party j).

(** A mailbox: the sender half of its channel, its receiver until a party
    claims it, and its creation time. *)
(* src ipc/hub.rs:80-86 Mailbox *)
Record Mailbox : Type := MkMailbox { tx : nat; rx : option nat; created : Duration }.

Inductive sock : Type :=
  | Joining                          (* waiting for the first frame *)
  | Serving (k : key) (rx : nat)     (* draining mailbox [k]'s receiver *)
  | Closed.

(** The hub, its channels, its sockets (with the frames written to each), and
    the clock. *)
(* src ipc/hub.rs:74-78 EnvelopeHub *)
Record Hub : Type := MkHub {
  mailboxes : gmap key Mailbox;
  chs : chans bytes;
  sockets : gmap nat (sock * list bytes);
  clock : Duration;
  unclaimed_ttl : Duration;
}.

(* src ipc/hub.rs:106-111 EnvelopeHub::new *)
Definition hub_new (ttl : Duration) : Hub := MkHub ∅ no_chans ∅ 0%N ttl.

(* src ipc/hub.rs:69-72 DEFAULT_UNCLAIMED_TTL *)
Definition DEFAULT_UNCLAIMED_TTL : Duration := 120000%N.

Definition with_boxes (h : Hub) (b : gmap key Mailbox) : Hub :=
  MkHub b (chs h) (sockets h) (clock h) (unclaimed_ttl h).
Definition with_chs (h : Hub) (c : chans bytes) : Hub :=
  MkHub (mailboxes h) c (sockets h) (clock h) (unclaimed_ttl h).
Definition set_socket (h : Hub) (sid : nat) (st : sock) (out : list bytes) : Hub :=
  MkHub (mailboxes h) (chs h) (<[sid := (st, out)]> (sockets h)) (clock h) (unclaimed_ttl h).

(* src ipc/hub.rs:116-116 EnvelopeHub::sweep *)
Definition keeps (h : Hub) (m : Mailbox) : bool :=
  match rx m with
  | None => true
  | Some _ => N.ltb (clock h - created m) (unclaimed_ttl h)
  end.

(** The channel of a swept mailbox loses both its ends, so nothing can tell
    whether it is still in the store. *)
(* src ipc/hub.rs:113-117 EnvelopeHub::sweep *)
Definition sweep (h : Hub) : Hub :=
  with_boxes h (filter (fun km => keeps h (snd km) = true) (mailboxes h)).

(** [boxes.entry(key).or_insert_with(Mailbox::new)]. *)
(* src ipc/hub.rs:88-97 Mailbox::new *)
Definition entry (h : Hub) (k : key) : Hub * Mailbox :=
  match mailboxes h !! k with
  | Some m => (h, m)
  | None =>
      let (c, i) := ch_new (chs h) in
      let m := MkMailbox i (Some i) (clock h) in
      (with_boxes (with_chs h c) (<[k := m]> (mailboxes h)), m)
  end.

(* src ipc/hub.rs:119-126 EnvelopeHub::claim *)
Definition claim (h : Hub) (k : key) : Hub * option nat :=
  let (h, m) := entry (sweep h) k in
  (with_boxes h (<[k := MkMailbox (tx m) None (created m)]> (mailboxes h)), rx m).

(* src ipc/hub.rs:128-142 EnvelopeHub::deliver *)
Definition deliver (h : Hub) (k : key) (frame : bytes) : Hub :=
  let (h, m) := entry (sweep h) k in
  match ch_send (chs h) (tx m) frame with
  | Some c => with_chs h c
  | None => h                        (* "dropping envelope for a disconnected party" *)
  end.

(* src ipc/hub.rs:144-149 EnvelopeHub::remove *)
Definition remove (h : Hub) (k : key) : Hub := with_boxes h (delete k (mailboxes h)).

(** A message read from a socket; [None] stands for an error or its end. *)
Inductive message : Type := Binary (bs : bytes) | OtherMessage.

(** Leaving the serving loop: the mailbox goes, then the receiver. *)
(* src ipc/hub.rs:198-200 serve_env *)
Definition leave (h : Hub) (sid : nat) (k : key) (i : nat) (out : list bytes) : Hub :=
  let h := remove h k in
  set_socket (with_chs h (ch_close (chs h) i)) sid Closed out.

(* src ipc/hub.rs:163-180 serve_env *)
Definition serve_join (h : Hub) (sid : nat) (out : list bytes) (msg : option message) : Hub :=
  match msg with
  | Some (Binary bs) =>
      match join_decode bs with
      | Some j =>
          let k := mailbox_of j in
          let (h, r) := claim h k in
          match r with
          | Some i => set_socket h sid (Serving k i) out
          | None => set_socket h sid Closed out        (* "mailbox already claimed" *)
          end
      | None => set_socket h sid Closed out            (* "first frame was not a join" *)
      end
  | Some OtherMessage => h
  | None => set_socket h sid Closed out
  end.

(* src ipc/hub.rs:184-191 serve_env *)
Definition serve_frame (h : Hub) (sid : nat) (k : key) (i : nat) (out : list bytes)
    (msg : option message) : Hub :=
  match msg with
  | None => leave h sid k i out
  | Some OtherMessage => h
  | Some (Binary bs) =>
      match peek_route bs with
      | Some dest => deliver h dest bs
      | None => h                                      (* "dropping unroutable frame" *)
      end
  end.

(** The [rx.recv()] branch: [sent] is whether writing to the socket
    succeeded.  It is not ready while the channel is open and empty; it
    yields [None] once the mailbox, which holds the only sender, is gone. *)
(* src ipc/hub.rs:192-195 serve_env *)
Definition serve_mail (h : Hub) (sid : nat) (k : key) (i : nat) (out : list bytes)
    (sent : bool) : Hub :=
  match ch_recv (chs h) i with
  | Some (frame, c) =>
      if sent then set_socket (with_chs h c) sid (Serving k i) (out ++ [frame])
      else leave (with_chs h c) sid k i out
  | None =>
      if bool_decide (tx <$> mailboxes h !! k = Some i) then h else leave h sid k i out
  end.

Inductive hub_event : Type :=
  | Accept (sid : nat)                          (* [env_handler] upgrades a socket *)
  | Read (sid : nat) (msg : option message)     (* [socket.recv()] is ready *)
  | Mail (sid : nat) (sent : bool)              (* [rx.recv()] is ready *)
  | Tick (d : Duration).                        (* time passes *)

(* src ipc/hub.rs:162-200 serve_env *)
Definition hub_step (h : Hub) (ev : hub_event) : Hub :=
  match ev with
  | Accept sid =>
      match sockets h !! sid with Some _ => h | None => set_socket h sid Joining [] end
  | Read sid msg =>
      match sockets h !! sid with
      | Some (Joining, out) => serve_join h sid out msg
      | Some (Serving k i, out) => serve_frame h sid k i out msg
      | _ => h
      end
  | Mail sid sent =>
      match sockets h !! sid with
      | Some (Serving k i, out) => serve_mail h sid k i out sent
      | _ => h
      end
  | Tick d => MkHub (mailboxes h) (chs h) (sockets h) (clock h + d)%N (unclaimed_ttl h)
  end.

Definition hub_run (h : Hub) (evs : list hub_event) : Hub := foldl hub_step h evs.

(** The interleavings of the hub's tasks. *)
Definition reachable (ttl : Duration) (h : Hub) : Prop :=
  exists evs, h = hub_run (hub_new ttl) evs.

(** ** The invariant *)
Record hub_inv (h : Hub) : Prop := {
  inv_chs : ch_wf (chs h);
  (* every mailbox's channel is alive; an unclaimed one holds its receiver
     and nothing was received from it yet *)
  inv_box : forall k m, mailboxes h !! k = Some m ->
    exists c, live (chs h) !! tx m = Some c /\
      (rx m = None \/ rx m = Some (tx m) /\ taken c = O);
  (* mailboxes do not share channels *)
  inv_inj : forall k1 k2 m1 m2, mailboxes h !! k1 = Some m1 -> mailboxes h !! k2 = Some m2 ->
    tx m1 = tx m2 -> k1 = k2;
  (* a serving socket drains its own, claimed mailbox, and has been written
     exactly what was received from it *)
  inv_serving : forall sid k i out, sockets h !! sid = Some (Serving k i, out) ->
    exists m c, mailboxes h !! k = Some m /\ tx m = i /\ rx m = None /\
      live (chs h) !! i = Some c /\ received c = out;
  (* one socket per mailbox *)
  inv_one : forall s1 s2 k i1 i2 o1 o2, sockets h !! s1 = Some (Serving k i1, o1) ->
    sockets h !! s2 = Some (Serving k i2, o2) -> s1 = s2;
  (* a socket that has not joined was written nothing *)
  inv_joining : forall sid out, sockets h !! sid = Some (Joining, out) -> out = [];
  (* a claimed mailbox has its socket *)
  inv_claimed : forall k m, mailboxes h !! k = Some m -> rx m = None ->
    exists sid out, sockets h !! sid = Some (Serving k (tx m), out);
}.

Lemma hub_inv_new ttl : hub_inv (hub_new ttl).
Proof. by constructor. Qed.

Lemma sweep_lookup h k m :
  mailboxes (sweep h) !! k = Some m <-> mailboxes h !! k = Some m /\ keeps h m = true.
Proof. simpl. by rewrite map_lookup_filter_Some. Qed.

Lemma sweep_claimed h k m : mailboxes h !! k = Some m -> rx m = None -> mailboxes (sweep h) !! k = Some m.
Proof. intros H Hr. apply sweep_lookup. split; [done|]. unfold keeps. by rewrite Hr. Qed.

Lemma hub_inv_sweep h : hub_inv h -> hub_inv (sweep h).
Proof.
  intros [H1 H2 H3 H4 H5 HJ H6]. constructor; try done.
  - intros k m [Hm _]%sweep_lookup. by apply H2 in Hm.
  - intros k1 k2 m1 m2 [Hm1 _]%sweep_lookup [Hm2 _]%sweep_lookup. by apply H3.
  - intros sid k i out Hs. destruct (H4 _ _ _ _ Hs) as (m & c & Hm & Ht & Hr & Hc).
    exists m, c. split; [by apply sweep_claimed|done].
  - intros k m [Hm _]%sweep_lookup. by apply H6.
Qed.

(** [entry] yields the mailbox at [k], creating it when absent. *)
Lemma entry_spec h k h' m :
  hub_inv h -> entry h k = (h', m) ->
  hub_inv h' /\ mailboxes h' !! k = Some m /\ sockets h' = sockets h /\ clock h' = clock h /\
  (forall k', k' <> k -> mailboxes h' !! k' = mailboxes h !! k') /\
  (forall i c, live (chs h) !! i = Some c -> live (chs h') !! i = Some c) /\
  match mailboxes h !! k with
  | Some m0 => m = m0 /\ h' = h
  | None => rx m = Some (tx m) /\ created m = clock h /\ live (chs h') !! tx m = Some (MkChan [] 0)
  end.
Proof.
  intros Hi. pose proof Hi as [H1 H2 H3 H4 H5 HJ H6]. unfold entry.
  destruct (mailboxes h !! k) as [m0|] eqn:Hk.
  - intros [= <- <-]. split_and!; try done.
  - destruct (ch_new (chs h)) as [c i] eqn:Hn. intros [= <- <-].
    assert (live (chs h) !! i = None) as Hfr.
    { injection Hn as <- <-. by apply ch_new_fresh. }
    assert (live c = <[i := MkChan [] 0]> (live (chs h)) /\ ch_wf c) as [Hl Hwf].
    { pose proof (ch_wf_new (chs h) H1) as Hw. rewrite Hn in Hw. by injection Hn as <- <-. }
    assert (forall j d, live (chs h) !! j = Some d -> live c !! j = Some d) as Hmono.
    { intros j d Hd. rewrite Hl. apply lookup_insert_Some. right. split; [|done]. congruence. }
    split_and!; simpl; try done; [|by rewrite lookup_insert_eq| |by rewrite Hl, lookup_insert_eq].
    2:{ intros k' Hk'. by apply lookup_insert_ne. }
    constructor; simpl; [done|..].
    + intros k' m' [[<- <-]|[_ Hm]]%lookup_insert_Some.
      * exists (MkChan [] 0). simpl. rewrite Hl, lookup_insert_eq. auto.
      * apply H2 in Hm as (d & Hd & Hr). exists d. auto.
    + intros k1 k2 m1 m2 [[<- <-]|[Hn1 Hm1]]%lookup_insert_Some
        [[<- <-]|[Hn2 Hm2]]%lookup_insert_Some; simpl; try done.
      * intros Heq. apply H2 in Hm2 as (d & Hd & _). congruence.
      * intros Heq. apply H2 in Hm1 as (d & Hd & _). congruence.
      * by apply H3.
    + intros sid k' j out Hs. destruct (H4 _ _ _ _ Hs) as (m & d & Hm & Ht & Hr & Hd & Ho).
      exists m, d. split_and!; auto. apply lookup_insert_Some. right. split; [|done]. congruence.
    + done.
    + done.
    + intros k' m' [[<- <-]|[_ Hm]]%lookup_insert_Some Hr; [done|]. by apply H6.
Qed.

(** Delivery appends the frame to the mailbox's log: the channel of a mailbox
    is always alive, so no routed frame is dropped. *)
Lemma deliver_spec h k f :
  hub_inv h ->
  hub_inv (deliver h k f) /\
  sockets (deliver h k f) = sockets h /\ clock (deliver h k f) = clock h /\
  (exists m c, mailboxes (deliver h k f) !! k = Some m /\
     live (chs (deliver h k f)) !! tx m = Some (MkChan (log c ++ [f]) (taken c)) /\
     match mailboxes (sweep h) !! k with
     | Some m0 => m = m0 /\ live (chs h) !! tx m = Some c
     | None => rx m = Some (tx m) /\ created m = clock h /\ c = MkChan [] 0
     end) /\
  (forall k', k' <> k -> mailboxes (deliver h k f) !! k' = mailboxes (sweep h) !! k') /\
  (forall k' m', k' <> k -> mailboxes (sweep h) !! k' = Some m' ->
     live (chs (deliver h k f)) !! tx m' = live (chs h) !! tx m').
Proof.
  intros Hi. apply hub_inv_sweep in Hi as Hs. unfold deliver.
  destruct (entry (sweep h) k) as [h1 m] eqn:He.
  destruct (entry_spec _ _ _ _ Hs He) as (Hi1 & Hm & Hsk & Hcl & Hoth & Hmono & Hcase).
  pose proof Hi1 as [H1 H2 H3 H4 H5 HJ H6].
  destruct (H2 _ _ Hm) as (c & Hc & Hrx).
  destruct (ch_send (chs h1) (tx m) f) as [cs|] eqn:Hsend;
    [|apply ch_send_None in Hsend; congruence].
  pose proof (ch_wf_send _ _ _ _ H1 Hsend) as Hwf.
  apply ch_send_Some in Hsend as (c' & Hc' & ->).
  replace c' with c in * by congruence. clear Hc'.
  unfold with_chs; split_and!; cbn [mailboxes chs sockets clock live fresh]; try done.
  - constructor; simpl; [done| |done| |done|done|done].
    + intros k' m' Hm'. destruct (decide (tx m' = tx m)) as [Ht|Ht].
      * assert (k' = k) as -> by (by eapply H3). replace m' with m by congruence.
        eexists. rewrite lookup_insert_eq. split; [done|]. simpl. done.
      * apply H2 in Hm' as (d & Hd & Hr). exists d. by rewrite lookup_insert_ne.
    + intros sid k' i out Hso. destruct (H4 _ _ _ _ Hso) as (m' & d & Hm' & Ht & Hr & Hd & Ho).
      destruct (decide (i = tx m)) as [->|Hne].
      * replace d with c in * by congruence.
        exists m', (MkChan (log c ++ [f]) (taken c)). rewrite lookup_insert_eq. split_and!; try done.
        rewrite received_send; [congruence|]. exact (proj2 (H1 _ _ Hc)).
      * exists m', d. rewrite lookup_insert_ne by done. done.
  - exists m, c. rewrite lookup_insert_eq. split; [done|]. split; [done|].
    destruct (mailboxes (sweep h) !! k) as [m0|].
    + destruct Hcase as [-> ->]. done.
    + destruct Hcase as (? & ? & Hl). split_and!; try done. congruence.
  - intros k' m' Hk' Hm'. rewrite lookup_insert_ne.
    + apply hub_inv_sweep in Hi. destruct (inv_box _ Hi _ _ Hm') as (d & Hd & _).
      apply Hmono in Hd as Hd'. simpl in Hd. congruence.
    + intros Ht. apply Hk'. symmetry. eapply H3; [exact Hm|rewrite Hoth by done; exact Hm'|done].
Qed.

(** A socket that holds no mailbox changes state. *)
Lemma hub_inv_idle h sid st out :
  hub_inv h -> st = Joining /\ out = [] \/ st = Closed ->
  (forall k i out, sockets h !! sid <> Some (Serving k i, out)) ->
  hub_inv (set_socket h sid st out).
Proof.
  intros [H1 H2 H3 H4 H5 HJ H6] Hst Hidle.
  assert (forall s k i o, <[sid:=(st, out)]> (sockets h) !! s = Some (Serving k i, o) ->
            sockets h !! s = Some (Serving k i, o)) as Hs.
  { intros s k i o [[_ Heq]|[_ H]]%lookup_insert_Some; [|done]. destruct Hst as [[]|]; congruence. }
  constructor; simpl; try done.
  - intros s k i o H%Hs. by apply H4 in H.
  - intros s1 s2 k i1 i2 o1 o2 Ha%Hs Hb%Hs. by eapply H5.
  - intros s o [[_ Heq]|[_ H]]%lookup_insert_Some; [|by eapply HJ].
    destruct Hst as [[]|]; congruence.
  - intros k m Hm Hr. destruct (H6 k m Hm Hr) as (s & o & Hso). exists s, o.
    rewrite lookup_insert_ne; [done|]. intros ->. by eapply Hidle.
Qed.

(** The claim of a free mailbox, by a socket that holds none. *)
Lemma hub_inv_claimed h k m sid :
  hub_inv h -> mailboxes h !! k = Some m -> rx m = Some (tx m) ->
  (forall k i out, sockets h !! sid <> Some (Serving k i, out)) ->
  hub_inv (set_socket (with_boxes h (<[k := MkMailbox (tx m) None (created m)]> (mailboxes h)))
             sid (Serving k (tx m)) []).
Proof.
  intros [H1 H2 H3 H4 H5 HJ H6] Hm Hrx Hidle.
  destruct (H2 _ _ Hm) as (c & Hc & Hr0).
  assert (taken c = O) as Ht0 by (destruct Hr0 as [?|[_ ?]]; congruence).
  assert (forall s i o, sockets h !! s <> Some (Serving k i, o)) as Hfree.
  { intros s i o (m' & d & Hm' & _ & Hr & _)%H4. congruence. }
  constructor; simpl; [done|..].
  - intros k' m' [[<- <-]|[_ Hm']]%lookup_insert_Some; simpl; eauto.
  - intros k1 k2 m1 m2 [[<- <-]|[Hn1 Hm1]]%lookup_insert_Some
      [[<- <-]|[Hn2 Hm2]]%lookup_insert_Some; simpl; try done; intros; eauto.
  - intros s k' i o [[<- Heq]|[_ Hs]]%lookup_insert_Some.
    + simplify_eq. exists (MkMailbox (tx m) None (created m)), c. rewrite lookup_insert_eq.
      split_and!; try done. unfold received. by rewrite Ht0.
    + destruct (H4 _ _ _ _ Hs) as (m' & d & Hm' & H). exists m', d.
      rewrite lookup_insert_ne; [done|]. intros <-. by eapply Hfree.
  - intros s1 s2 k' i1 i2 o1 o2 Ha Hb. apply lookup_insert_Some in Ha, Hb.
    destruct Ha as [[<- Ha]|[_ Ha]], Hb as [[<- Hb]|[_ Hb]]; simplify_eq; try done.
    + by apply Hfree in Hb.
    + by apply Hfree in Ha.
    + by eapply H5.
  - intros s o [[_ ?]|[_ Hs]]%lookup_insert_Some; [done|by eapply HJ].
  - intros k' m' [[<- <-]|[Hn Hm']]%lookup_insert_Some; simpl; intros Hr.
    + exists sid, []. by rewrite lookup_insert_eq.
    + destruct (H6 _ _ Hm' Hr) as (s & o & Hs). exists s, o.
      rewrite lookup_insert_ne; [done|]. intros <-. by eapply Hidle.
Qed.

(** The two outcomes of [claim]. *)
Lemma claim_cases h k :
  hub_inv h ->
  (exists m h1, claim h k = (with_boxes h1 (<[k := MkMailbox (tx m) None (created m)]> (mailboxes h1)),
                             Some (tx m)) /\
     entry (sweep h) k = (h1, m) /\ rx m = Some (tx m)) \/
  (exists m, mailboxes h !! k = Some m /\ rx m = None /\ claim h k = (sweep h, None)).
Proof.
  intros Hi. pose proof (hub_inv_sweep h Hi) as Hs. unfold claim.
  destruct (entry (sweep h) k) as [h1 m] eqn:He.
  destruct (entry_spec _ _ _ _ Hs He) as (Hi1 & Hm & _ & _ & _ & _ & Hcase).
  destruct (inv_box _ Hi1 _ _ Hm) as (c & Hc & [Hr|[Hr _]]).
  - right. destruct (mailboxes (sweep h) !! k) as [m0|] eqn:Hm0.
    + destruct Hcase as [-> ->]. exists m0. apply sweep_lookup in Hm0 as Hm1.
      destruct Hm1 as [Hm1 _]. split_and!; [done|done|]. rewrite Hr. f_equal.
      unfold with_boxes. destruct h as [b cs so cl tt]. unfold sweep, with_boxes. cbn in *.
      f_equal. apply insert_id. rewrite Hm0. by destruct m0; simpl in *; subst.
    + destruct Hcase as (? & _). congruence.
  - left. exists m, h1. by rewrite Hr.
Qed.

(** The serving socket leaves: exactly its own mailbox goes. *)
Lemma hub_inv_leave h sid k i out :
  hub_inv h -> sockets h !! sid = Some (Serving k i, out) -> hub_inv (leave h sid k i out).
Proof.
  intros [H1 H2 H3 H4 H5 HJ H6] Hsid. destruct (H4 _ _ _ _ Hsid) as (m & c & Hm & Ht & Hr & Hc & Ho).
  assert (forall k' m', k' <> k -> mailboxes h !! k' = Some m' -> tx m' <> i) as Hne.
  { intros k' m' Hk Hm' Htx. apply Hk. eapply H3; [done|done|congruence]. }
  assert (forall s k' j o, <[sid:=(Closed, out)]> (sockets h) !! s = Some (Serving k' j, o) ->
            sockets h !! s = Some (Serving k' j, o) /\ k' <> k) as Hs.
  { intros s k' j o [[_ ?]|[Hn Hs]]%lookup_insert_Some; [done|]. split; [done|].
    intros ->. apply Hn. by eapply H5. }
  constructor; simpl; [by apply ch_wf_close|..].
  - intros k' m' [Hk Hm']%lookup_delete_Some. destruct (H2 _ _ Hm') as (d & Hd & Hrd).
    exists d. rewrite lookup_delete_ne; [done|]. intros ->. by eapply Hne.
  - intros k1 k2 m1 m2 [_ Hm1]%lookup_delete_Some [_ Hm2]%lookup_delete_Some. by eapply H3.
  - intros s k' j o [Hs' Hk]%Hs. destruct (H4 _ _ _ _ Hs') as (m' & d & Hm' & Ht' & Hr' & Hd & Ho').
    exists m', d. rewrite !lookup_delete_ne; [done| |done].
    intros <-. eapply Hne; [exact Hk|exact Hm'|exact Ht'].
  - intros s1 s2 k' i1 i2 o1 o2 [Ha _]%Hs [Hb _]%Hs. by eapply H5.
  - intros s o [[_ ?]|[_ Hso]]%lookup_insert_Some; [done|by eapply HJ].
  - intros k' m' [Hk Hm']%lookup_delete_Some Hr'. destruct (H6 _ _ Hm' Hr') as (s & o & Hso).
    exists s, o. rewrite lookup_insert_ne; [done|]. intros <-. congruence.
Qed.

(** A waiting frame moves from the mailbox to the socket. *)
Lemma hub_inv_mail h sid k i out f cs :
  hub_inv h -> sockets h !! sid = Some (Serving k i, out) -> ch_recv (chs h) i = Some (f, cs) ->
  hub_inv (set_socket (with_chs h cs) sid (Serving k i) (out ++ [f])).
Proof.
  intros [H1 H2 H3 H4 H5 HJ H6] Hsid Hrecv.
  pose proof (ch_wf_recv _ _ _ _ H1 Hrecv) as Hwf.
  apply ch_recv_Some in Hrecv as (c & Hc & Hf & ->).
  destruct (H4 _ _ _ _ Hsid) as (m & c' & Hm & Ht & Hr & Hc' & Ho).
  replace c' with c in * by congruence. clear Hc'.
  constructor; simpl; [done|..].
  - intros k' m' Hm'. destruct (H2 _ _ Hm') as (d & Hd & Hrd).
    destruct (decide (tx m' = i)) as [Hti|Hti].
    + assert (k' = k) as -> by (eapply H3; [done|done|congruence]).
      rewrite Hti, lookup_insert_eq. eexists; split; [done|]. left. congruence.
    + rewrite lookup_insert_ne by done. eauto.
  - done.
  - intros s k' j o [[<- Heq]|[Hn Hs]]%lookup_insert_Some.
    + simplify_eq. exists m, (MkChan (log c) (S (taken c))). rewrite lookup_insert_eq.
      split_and!; try done. rewrite (received_step _ _ Hf). congruence.
    + destruct (H4 _ _ _ _ Hs) as (m' & d & Hm' & Ht' & Hr' & Hd & Ho').
      exists m', d. rewrite lookup_insert_ne; [done|]. intros <-.
      apply Hn. assert (k' = k) as -> by (eapply H3; [done|done|congruence]). by eapply H5.
  - intros s1 s2 k' i1 i2 o1 o2 Ha Hb. apply lookup_insert_Some in Ha, Hb.
    destruct Ha as [[<- Ha]|[_ Ha]], Hb as [[<- Hb]|[_ Hb]]; simplify_eq; try done; by eapply H5.
  - intros s o [[_ ?]|[_ Hs]]%lookup_insert_Some; [done|by eapply HJ].
  - intros k' m' Hm' Hr'. destruct (H6 _ _ Hm' Hr') as (s & o & Hs).
    destruct (decide (s = sid)) as [->|Hn].
    + exists sid, (out ++ [f]). rewrite lookup_insert_eq. congruence.
    + exists s, o. by rewrite lookup_insert_ne.
Qed.

Lemma not_serving h sid st out :
  sockets h !! sid = Some (st, out) -> st = Joining \/ st = Closed ->
  forall k i o, sockets h !! sid <> Some (Serving k i, o).
Proof. intros Hs Hst k i o Ho. destruct Hst; congruence. Qed.

Lemma serve_join_inv h sid out msg :
  hub_inv h -> sockets h !! sid = Some (Joining, out) -> hub_inv (serve_join h sid out msg).
Proof.
  intros Hi Hsid. pose proof (not_serving _ _ _ _ Hsid (or_introl eq_refl)) as Hidle.
  pose proof (inv_joining _ Hi _ _ Hsid) as ->.
  assert (hub_inv (set_socket h sid Closed [])) as Hc by (apply hub_inv_idle; auto).
  unfold serve_join. destruct msg as [[bs|]|]; [|done|done].
  destruct (join_decode bs) as [j|]; [|done].
  set (k := mailbox_of j).
  destruct (claim_cases h k Hi) as [(m & h1 & -> & He & Hr)|(m & Hm & Hr & ->)].
  - destruct (entry_spec _ _ _ _ (hub_inv_sweep _ Hi) He) as (Hi1 & Hm & Hsk & _).
    apply hub_inv_claimed; [done|done|done|]. by rewrite Hsk.
  - apply hub_inv_idle; [by apply hub_inv_sweep|auto|done].
Qed.

Lemma hub_inv_step h ev : hub_inv h -> hub_inv (hub_step h ev).
Proof.
  intros Hi. destruct ev as [sid|sid msg|sid sent|d]; simpl.
  - destruct (sockets h !! sid) eqn:Hs; [done|]. apply hub_inv_idle; auto. congruence.
  - destruct (sockets h !! sid) as [[[|k i|] out]|] eqn:Hs; try done; [by apply serve_join_inv|].
    unfold serve_frame. destruct msg as [[bs|]|]; [|done|by apply hub_inv_leave].
    destruct (peek_route bs) as [dest|]; [|done]. by apply deliver_spec.
  - destruct (sockets h !! sid) as [[[|k i|] out]|] eqn:Hs; try done.
    unfold serve_mail. destruct (ch_recv (chs h) i) as [[f cs]|] eqn:Hr.
    + pose proof (hub_inv_mail _ _ _ _ _ _ _ Hi Hs Hr) as Hm. destruct sent; [done|].
      replace (leave (with_chs h cs) sid k i out)
        with (leave (set_socket (with_chs h cs) sid (Serving k i) (out ++ [f])) sid k i out).
      2:{ unfold leave, set_socket. simpl. by rewrite insert_insert_eq. }
      assert (sockets (set_socket (with_chs h cs) sid (Serving k i) (out ++ [f])) !! sid
              = Some (Serving k i, out ++ [f])) as Hs' by (simpl; apply lookup_insert_eq).
      pose proof (hub_inv_leave _ _ _ _ _ Hm Hs') as Hl.
      apply (hub_inv_idle _ sid Closed out) in Hl; [|auto|].
      * unfold leave, set_socket in *. simpl in *. by rewrite insert_insert_eq in Hl.
      * intros k' i' o. simpl. rewrite lookup_insert_eq. congruence.
    + case_bool_decide; [done|]. by apply hub_inv_leave.
  - destruct Hi as [H1 H2 H3 H4 H5 HJ H6]. by constructor.
Qed.

Lemma reachable_inv ttl h : reachable ttl h -> hub_inv h.
Proof.
  intros [evs ->]. unfold hub_run. generalize (hub_inv_new ttl).
  generalize (hub_new ttl). induction evs as [|ev evs IH]; intros h Hi; simpl; [done|].
  apply IH. by apply hub_inv_step.
Qed.

(** ** Join frames *)
Lemma join_decode_encode j : join_decode (join_encode j) = Some j.
Proof.
  unfold join_decode, join_encode. rewrite (proj2 (strip_pfx_Some _ _ _) eq_refl). simpl.
  rewrite take_app_length', drop_app_length' by (by rewrite array_len).
  rewrite to_array_arr. by destruct j.
Qed.

(** The join frame's codec is exact: a frame claims a mailbox exactly when
    it is the 46-byte encoding of that claim. *)
Theorem join_codec_exact bs j : join_decode bs = Some j <-> bs = join_encode j.
Proof.
  split; [|intros ->; apply join_decode_encode]. unfold join_decode.
  destruct (strip_pfx JOIN_DOMAIN bs) as [rest|] eqn:Hp; [|done]. apply strip_pfx_Some in Hp. simpl.
  destruct (to_array 32 (take 32 rest)) as [a|] eqn:Ha; [|done]. apply to_array_Some in Ha. simpl.
  destruct (drop 32 rest) as [|p [|]] eqn:Hd; try done. intros [= <-].
  unfold join_encode. simpl. by rewrite Ha, <- Hd, take_drop.
Qed.

(** Writing the waiting mail to the socket. *)
Lemma mail_drains n h sid k i out c :
  sockets h !! sid = Some (Serving k i, out) -> live (chs h) !! i = Some c ->
  length (waiting c) = n ->
  exists h', hub_run h (replicate n (Mail sid true)) = h' /\
    sockets h' !! sid = Some (Serving k i, out ++ waiting c).
Proof.
  revert h out c; induction n as [|n IH]; intros h out c Hs Hc Hn; simpl.
  - exists h. split; [done|]. apply nil_length_inv in Hn. rewrite Hn. by rewrite app_nil_r.
  - rewrite Hs. unfold serve_mail.
    destruct (waiting c) as [|f w] eqn:Hw; [done|].
    assert (log c !! taken c = Some f) as Hf.
    { assert (waiting c !! 0%nat = Some f) as H by (by rewrite Hw).
      unfold waiting in H. rewrite lookup_drop, Nat.add_0_r in H. done. }
    assert (waiting (MkChan (log c) (S (taken c))) = w) as Hw'.
    { unfold waiting in *. simpl. replace (S (taken c)) with (taken c + 1)%nat by lia.
      rewrite <- drop_drop. by rewrite Hw. }
    unfold ch_recv. rewrite Hc. simpl. rewrite Hf. simpl.
    destruct (IH (set_socket (with_chs h (MkChans (<[i:=MkChan (log c) (S (taken c))]> (live (chs h)))
                    (Channel.fresh (chs h)))) sid (Serving k i) (out ++ [f]))
                 (out ++ [f]) (MkChan (log c) (S (taken c)))) as (h' & Hrun & Hs').
    + simpl. by rewrite lookup_insert_eq.
    + simpl. by rewrite lookup_insert_eq.
    + rewrite Hw'. by injection Hn.
    + exists h'. split; [exact Hrun|]. rewrite Hs', Hw', <- app_assoc. done.
Qed.

(** ** Properties *)

(** C19: mailboxes are exclusive and FIFO.  In every reachable state, whatever
    the interleaving of joins, frames, writes, hang-ups and time: the frames
    written to a serving socket are a prefix of the mail of its own mailbox,
    in order and without gaps or repeats, the rest still waiting; no two
    sockets serve one mailbox; no two mailboxes share a channel; and a claimed
    mailbox always has its live socket. *)
Theorem hub_exclusive_fifo ttl h :
  reachable ttl h ->
  (forall sid k i out, sockets h !! sid = Some (Serving k i, out) ->
     exists m c, mailboxes h !! k = Some m /\ tx m = i /\ rx m = None /\
       live (chs h) !! i = Some c /\ log c = out ++ waiting c) /\
  (forall s1 s2 k i1 i2 o1 o2, sockets h !! s1 = Some (Serving k i1, o1) ->
     sockets h !! s2 = Some (Serving k i2, o2) -> s1 = s2) /\
  (forall k1 k2 m1 m2, mailboxes h !! k1 = Some m1 -> mailboxes h !! k2 = Some m2 ->
     tx m1 = tx m2 -> k1 = k2) /\
  (forall k m, mailboxes h !! k = Some m -> rx m = None ->
     exists sid out, sockets h !! sid = Some (Serving k (tx m), out)).
Proof.
  intros [H1 H2 H3 H4 H5 HJ H6]%reachable_inv. split_and!; [|exact H5|exact H3|exact H6].
  intros sid k i out Hs. destruct (H4 _ _ _ _ Hs) as (m & c & Hm & Ht & Hr & Hc & Ho).
  exists m, c. split_and!; try done. rewrite <- Ho. unfold received, waiting. by rewrite take_drop.
Qed.

(** Routing loses nothing.  An envelope's frame that a serving socket
    sends is appended, whole and exactly once, to the mail of the mailbox its
    header names (which is created if needed); every other mailbox's mail is
    untouched; and the recipient decodes from it the envelope that was sent. *)
Theorem hub_routes_envelope ttl h sid k i out senv :
  reachable ttl h -> sockets h !! sid = Some (Serving k i, out) ->
  (N.of_nat (length (payload (env senv))) < 2 ^ 32)%N ->
  let dest : key := (instance (env senv), to (env senv)) in
  let h' := hub_step h (Read sid (Some (Binary (Envelope.encode senv)))) in
  (exists m c, mailboxes h' !! dest = Some m /\
     live (chs h') !! tx m = Some (MkChan (log c ++ [Envelope.encode senv]) (taken c)) /\
     match mailboxes (sweep h) !! dest with
     | Some m0 => m = m0 /\ live (chs h) !! tx m = Some c
     | None => c = MkChan [] 0
     end) /\
  (forall k' m', k' <> dest -> mailboxes (sweep h) !! k' = Some m' ->
     mailboxes h' !! k' = Some m' /\ live (chs h') !! tx m' = live (chs h) !! tx m') /\
  sockets h' = sockets h /\
  Envelope.decode (Envelope.encode senv) = Ok senv.
Proof.
  intros Hi%reachable_inv Hs Hlen dest h'.
  assert (peek_route (Envelope.encode senv) = Some dest) as Hp.
  { by apply peek_route_encode. }
  assert (h' = deliver h dest (Envelope.encode senv)) as ->.
  { unfold h', hub_step. rewrite Hs. unfold serve_frame. by rewrite Hp. }
  destruct (deliver_spec h dest (Envelope.encode senv) Hi) as (_ & Hsk & _ & (m & c & Hm & Hc & Hcase) & Hoth & Hch).
  split_and!; [| |done|by apply Envelope.decode_encode].
  - exists m, c. split; [exact Hm|]. split; [exact Hc|].
    destruct (mailboxes (sweep h) !! dest); [exact Hcase|]. by destruct Hcase as (_ & _ & ?).
  - intros k' m' Hk Hm'. split; [by rewrite (Hoth k' Hk)|by apply (Hch k')].
Qed.

(** Store and forward.  Mail routed to a party before it joined waits for
    it: when the party's join frame arrives within the mailbox's lifetime, its
    socket is then written all of that mail, in order. *)
Theorem hub_early_mail ttl h sid j m c :
  reachable ttl h ->
  sockets h !! sid = Some (Joining, []) ->
  mailboxes h !! mailbox_of j = Some m ->
  rx m = Some (tx m) -> (clock h - created m < Hub.unclaimed_ttl h)%N ->
  live (chs h) !! tx m = Some c ->
  let evs := Read sid (Some (Binary (join_encode j)))
               :: replicate (length (log c)) (Mail sid true) in
  sockets (hub_run h evs) !! sid
    = Some (Serving (mailbox_of j) (tx m), log c).
Proof.
  intros Hi%reachable_inv Hs Hm Hr Hlt Hc. cbv zeta. set (k := mailbox_of j) in *.
  assert (mailboxes (sweep h) !! k = Some m) as Hm'.
  { apply sweep_lookup. split; [done|]. unfold keeps. rewrite Hr. by apply N.ltb_lt. }
  assert (taken c = O) as Ht.
  { destruct (inv_box _ Hi _ _ Hm) as (c' & Hc' & [?|[_ ?]]); congruence. }
  assert (hub_step h (Read sid (Some (Binary (join_encode j)))) =
          set_socket (with_boxes (sweep h) (<[k := MkMailbox (tx m) None (created m)]>
                        (mailboxes (sweep h)))) sid (Serving k (tx m)) []) as Hstep.
  { simpl. rewrite Hs. unfold serve_join. rewrite join_decode_encode. fold k.
    unfold claim, entry. rewrite Hm', Hr. done. }
  unfold hub_run. cbn [foldl]. rewrite Hstep.
  edestruct (mail_drains (length (log c)) (set_socket (with_boxes (sweep h)
      (<[k := MkMailbox (tx m) None (created m)]> (mailboxes (sweep h)))) sid (Serving k (tx m)) [])
      sid k (tx m) [] c) as (h' & Hrun & Hs').
  - simpl. by rewrite lookup_insert_eq.
  - exact Hc.
  - unfold waiting. by rewrite Ht, drop_0.
  - unfold hub_run in Hrun. rewrite Hrun, Hs'. unfold waiting. by rewrite Ht, drop_0.
Qed.

(** A second claimer is refused.  While a socket serves a mailbox, however
    long, another join for the same mailbox closes the newcomer's socket and
    leaves the mailbox, its mail and its socket as they were. *)
Theorem hub_second_claim_refused ttl h s1 s2 j i out :
  reachable ttl h ->
  sockets h !! s1 = Some (Serving (mailbox_of j) i, out) ->
  sockets h !! s2 = Some (Joining, []) ->
  let h' := hub_step h (Read s2 (Some (Binary (join_encode j)))) in
  sockets h' !! s2 = Some (Closed, []) /\
  sockets h' !! s1 = sockets h !! s1 /\
  mailboxes h' !! mailbox_of j = mailboxes h !! mailbox_of j /\
  chs h' = chs h.
Proof.
  intros Hi%reachable_inv Hs1 Hs2. cbv zeta. set (k := mailbox_of j) in *.
  destruct (inv_serving _ Hi _ _ _ _ Hs1) as (m & c & Hm & Ht & Hr & _).
  pose proof (sweep_claimed _ _ _ Hm Hr) as Hm'.
  assert (hub_step h (Read s2 (Some (Binary (join_encode j)))) = set_socket (sweep h) s2 Closed []) as ->.
  { simpl. rewrite Hs2. unfold serve_join. rewrite join_decode_encode. fold k.
    destruct (claim_cases h k Hi) as [(m1 & h1 & _ & He & Hr1)|(m1 & _ & _ & ->)]; [|done].
    unfold entry in He. rewrite Hm' in He. injection He as <- <-. congruence. }
  cbn [set_socket sockets mailboxes chs]. split_and!; [by rewrite lookup_insert_eq| | |done].
  - rewrite lookup_insert_ne; [done|]. congruence.
  - by rewrite Hm'.
Qed.

(** ** The client side ([WsEnvelopeRelay]) *)
(** What the client's socket yields next. *)
Inductive ws_item : Type :=
  | WsBinary (bs : bytes)
  | WsOther                        (* ping, pong, text *)
  | WsError.

(* src ipc/envelope_client.rs:23-28 WsEnvelopeRelay *)
Record WsEnvelopeRelay : Type := MkRelay {
  relay_party : u8;
  sent_count : u64 * u64;          (* frames, bytes *)
  received_count : u64 * u64;
}.

Definition count (c : u64 * u64) (bs : bytes) : u64 * u64 :=
  (wmod 64 (wval (fst c) + 1), wmod 64 (wval (snd c) + N.of_nat (length bs))).

(** Connecting dials the hub and sends the join frame; [dial] and [push] are
    the socket's operations. *)
(* src ipc/envelope_client.rs:31-57 WsEnvelopeRelay::connect *)
Definition ws_connect {S E} (dial : M S E unit) (push : bytes -> M S E unit)
    (instance : B256) (party_id : u8) : M S E WsEnvelopeRelay :=
  let! _ := dial in
  let! _ := push (join_encode (MkJoin instance party_id)) in
  mpure (MkRelay party_id (wmod 64 0, wmod 64 0) (wmod 64 0, wmod 64 0)).

(* src ipc/envelope_client.rs:61-68 WsEnvelopeRelay::send *)
Definition ws_send {S} (push : bytes -> M S string unit) (r : WsEnvelopeRelay) (e : SignedEnvelope)
  : M S MpcError unit * WsEnvelopeRelay :=
  let frame := Envelope.encode e in
  (mmap_err (fun e => Transport [Lit "relay send failed: "; Txt e]) (push frame),
   MkRelay (relay_party r) (count (sent_count r) frame) (received_count r)).

(** The loop reads until a binary frame, an error or the end of the stream. *)
(* src ipc/envelope_client.rs:70-84 WsEnvelopeRelay::recv *)
Fixpoint ws_recv (r : WsEnvelopeRelay) (items : list ws_item)
  : result MpcError SignedEnvelope * WsEnvelopeRelay * list ws_item :=
  match items with
  | [] => (Err (Transport [Lit "relay hub closed the socket"]), r, [])
  | WsOther :: items => ws_recv r items
  | WsError :: items => (Err (Transport [Lit "relay stream error: "; Txt ""]), r, items)
  | WsBinary bs :: items =>
      (Envelope.decode bs, MkRelay (relay_party r) (sent_count r) (count (received_count r) bs), items)
  end.

(** Control frames between two envelopes change nothing. *)
Lemma ws_recv_skips r others bs items :
  Forall (eq WsOther) others ->
  ws_recv r (others ++ WsBinary bs :: items) =
    (Envelope.decode bs, MkRelay (relay_party r) (sent_count r) (count (received_count r) bs), items).
Proof. induction 1 as [|x l <- _ IH]; [done|exact IH]. Qed.

(** ** Witnesses: two parties of one ceremony. *)
Definition demo_inst : B256 := array_repeat 32 (wmod 8 7).
Definition demo_join (p : N) : Join := MkJoin demo_inst (wmod 8 p).
(** Party 0 joins and sends before party 1's socket joins. *)
Definition demo_events : list hub_event :=
  [Accept 0; Accept 1; Read 0 (Some (Binary (join_encode (demo_join 0))));
   Read 0 (Some (Binary (Envelope.encode demo_signed))); Tick 1000%N].
Definition demo_hub : Hub := hub_run (hub_new DEFAULT_UNCLAIMED_TTL) demo_events.

Lemma demo_reachable : reachable DEFAULT_UNCLAIMED_TTL demo_hub.
Proof. by exists demo_events. Qed.

Definition is_claimed (o : option Mailbox) : option bool := (fun m => bool_decide (rx m = None)) <$> o.

Lemma hub_exclusive_fifo_witness :
  reachable DEFAULT_UNCLAIMED_TTL demo_hub /\
  forall s1 s2 k i1 i2 o1 o2, sockets demo_hub !! s1 = Some (Serving k i1, o1) ->
     sockets demo_hub !! s2 = Some (Serving k i2, o2) -> s1 = s2.
Proof.
  split; [exact demo_reachable|].
  exact (proj1 (proj2 (hub_exclusive_fifo DEFAULT_UNCLAIMED_TTL demo_hub demo_reachable))).
Defined.

Lemma hub_routes_envelope_witness :
  Envelope.decode (Envelope.encode demo_signed) = Ok demo_signed.
Proof.
  assert (sockets demo_hub !! 0%nat = Some (Serving (demo_inst, wmod 8 0) 0, [])) as Hs
    by (vm_compute; reflexivity).
  refine (proj2 (proj2 (proj2 (hub_routes_envelope DEFAULT_UNCLAIMED_TTL demo_hub 0 (demo_inst, wmod 8 0) 0 []
            demo_signed demo_reachable Hs _)))).
  vm_compute. reflexivity.
Defined.

Lemma hub_early_mail_witness :
  sockets (hub_run demo_hub [Read 1 (Some (Binary (join_encode (demo_join 1)))); Mail 1 true]) !! 1%nat
    = Some (Serving (demo_inst, wmod 8 1) 1, [Envelope.encode demo_signed]).
Proof.
  apply (hub_early_mail DEFAULT_UNCLAIMED_TTL demo_hub 1 (demo_join 1) (MkMailbox 1 (Some 1%nat) 0%N)
           (MkChan [Envelope.encode demo_signed] 0)).
  - exact demo_reachable.
  - vm_compute. reflexivity.
  - vm_compute. reflexivity.
  - reflexivity.
  - vm_compute. reflexivity.
  - vm_compute. reflexivity.
Defined.

Lemma hub_second_claim_refused_witness :
  sockets (hub_step demo_hub (Read 1 (Some (Binary (join_encode (demo_join 0)))))) !! 1%nat
    = Some (Closed, []).
Proof.
  refine (proj1 (hub_second_claim_refused DEFAULT_UNCLAIMED_TTL demo_hub 0 1 (demo_join 0) 0 []
                   demo_reachable _ _)); vm_compute; reflexivity.
Defined.
