(* ===== verification/Control.v ===== *)
(** * The control plane's wire types ([crates/sovra-ipc/src/control.rs])

    The bodies the orchestrator and the cosigners exchange over HTTP, and the
    replies an HTTP request can get. *)

From S2P Require Import Prelude Types Mpc.
From Stdlib Require Import String NArith.
From stdpp Require Import base decidable list strings.

(* src ipc/control.rs:19-27 StartDkgRequest *)
Record StartDkgRequest : Type := MkStartDkg {
  dkg_instance : B256;
  dkg_n_parties : u8;
  dkg_threshold : u8;
}.

(* src ipc/control.rs:29-41 StartSignRequest *)
Record StartSignRequest : Type := MkStartSign {
  sign_instance : B256;
  network : NetworkId;
  unsigned_transaction : bytes;
  participants : list u8;
}.

(* src ipc/control.rs:43-54 StartRefreshRequest *)
Record StartRefreshRequest : Type := MkStartRefresh {
  refresh_instance : B256;
  refresh_n_parties : u8;
  refresh_threshold : u8;
  refresh_public_key : PubkeySec1;
}.

(** The bodies a cosigner is POSTed. *)
Inductive request : Type :=
  | ReqDkg (r : StartDkgRequest)
  | ReqSign (r : StartSignRequest)
  | ReqRefresh (r : StartRefreshRequest).

(* src ipc/control.rs:56-63 PublicKeyInfo *)
Record PublicKeyInfo : Type := MkPublicKeyInfo { info_public_key : PubkeySec1 }.

#[export] Instance PublicKeyInfo_eq_dec : EqDecision PublicKeyInfo.
Proof. solve_decision. Defined.

(* src ipc/control.rs:65-73 RosterInfo *)
Record RosterInfo : Type := MkRosterInfo { info_n : u8; info_threshold : u8; roster_hash : B256 }.

#[export] Instance RosterInfo_eq_dec : EqDecision RosterInfo.
Proof. solve_decision. Defined.

(* src ipc/control.rs:75-80 SignParts *)
Record SignParts : Type := MkSignParts { sp_r : U256; sp_s : U256; sp_y_parity : bool }.

#[export] Instance SignParts_eq_dec : EqDecision SignParts.
Proof. solve_decision. Defined.

(* src ipc/control.rs:82-87 SignaturesInfo *)
Record SignaturesInfo : Type := MkSignaturesInfo { signatures : list SignParts }.

#[export] Instance SignaturesInfo_eq_dec : EqDecision SignaturesInfo.
Proof. solve_decision. Defined.

(* src ipc/control.rs:95-101 <SignParts as From>::from *)
Definition sign_parts_of (p : EcdsaParts) : SignParts := MkSignParts (r p) (s p) (y_parity p).
(* src ipc/control.rs:104-110 <EcdsaParts as From>::from *)
Definition ecdsa_parts_of (p : SignParts) : EcdsaParts := MkEcdsaParts (sp_r p) (sp_s p) (sp_y_parity p).

(** The two conversions lose nothing. *)
Lemma ecdsa_parts_roundtrip p : ecdsa_parts_of (sign_parts_of p) = p.
Proof. by destruct p. Qed.
Lemma sign_parts_roundtrip p : sign_parts_of (ecdsa_parts_of p) = p.
Proof. by destruct p. Qed.

(** ** HTTP replies, as [reqwest] reports them.  A body can fail to be read. *)
Inductive reply : Type :=
  | BadUrl (e : string)
  | SendFailed (e : string)
  | Reply (status : N) (body : option string).

(** [StatusCode::is_success]. *)
Definition is_success (status : N) : bool := N.leb 200 status && N.ltb status 300.

(** serde_json: decoding a body into each wire type, and looking up the string
    field [reason] of a JSON object. *)
Class JsonLib : Type := {
  json_public_key : string -> result string PublicKeyInfo;
  json_roster : string -> result string RosterInfo;
  json_signatures : string -> result string SignaturesInfo;
  json_reason : string -> option string;
}.
