(* ===== verification/Remote.v ===== *)
(** * The orchestrator's side of the control plane ([crates/sovra-ipc/src/remote.rs])

    [RemoteBackend]: every operation is sent to a set of cosigners and their
    answers are merged by [combine].  The cosigners and the network between
    are an oracle: what each reply to a GET or POST is. *)

From S2P Require Import Prelude Types Mpc Control.
From Stdlib Require Import String NArith Lia Sorting.Sorted.
From stdpp Require Import base decidable list strings.
Open Scope string_scope. Open Scope list_scope.

(** ** Merging the replies *)
Section Combine.
Context {R : Type} `{EqDecision R} (dbg : R -> msg).

(** [vetoes.sort_by_key(|v| v.party)]: a stable sort. *)
Fixpoint insert_veto (v : Veto) (l : list Veto) : list Veto :=
  match l with
  | [] => [v]
  | w :: l' => if N.ltb (wval (veto_party v)) (wval (veto_party w)) then v :: l else w :: insert_veto v l'
  end.
Definition sort_vetoes (l : list Veto) : list Veto := foldl (fun acc v => insert_veto v acc) [] l.

Definition vetoes_of (rs : list (u8 * result MpcError R)) : list Veto :=
  rs ≫= fun x => match snd x with Err (Rejected vs) => vs | _ => [] end.

Fixpoint first_error (rs : list (u8 * result MpcError R)) : option MpcError :=
  match rs with
  | [] => None
  | (_, Ok _) :: rs => first_error rs
  | (_, Err (Rejected _)) :: rs => first_error rs
  | (_, Err e) :: _ => Some e
  end.

Fixpoint oks_of (rs : list (u8 * result MpcError R)) : list (u8 * R) :=
  match rs with
  | [] => []
  | (p, Ok v) :: rs => (p, v) :: oks_of rs
  | (_, Err _) :: rs => oks_of rs
  end.

(* src ipc/remote.rs:384-394 combine *)
Fixpoint all_agree (first_party : u8) (first : R) (oks : list (u8 * R)) : result stop R :=
  match oks with
  | [] => Ok first
  | (party, value) :: oks =>
      if negb (bool_decide (value = first)) then
        Err (Fail (PartyMismatch ([Lit "cosigner"; Num (wval first_party); Lit " returned "] ++ dbg first
                    ++ [Lit ", cosigner"; Num (wval party); Lit " returned "] ++ dbg value)))
      else all_agree first_party first oks
  end.

(* src ipc/remote.rs:349-395 combine *)
Definition combine (rs : list (u8 * result MpcError R)) : result stop R :=
  match vetoes_of rs with
  | (_ :: _) as vetoes => Err (Fail (Rejected (sort_vetoes vetoes)))
  | [] =>
      match first_error rs with
      | Some e => Err (Fail e)
      | None =>
          match oks_of rs with
          | [] => Err (Panic "broadcast targets are never empty")
          | (first_party, first) :: oks => all_agree first_party first oks
          end
      end
  end.
End Combine.

(** ** Requests *)
Section Remote.
Context `{JsonLib}.

(** An endpoint's base URL; only its scheme is inspected. *)
Record Url : Type := MkUrl { scheme : string; url_text : string }.

(* src ipc/remote.rs:51-57 RemoteBackend *)
Record RemoteBackend : Type := MkRemote {
  cosigners : list (u8 * Url);
  threshold : N;
}.

(* src ipc/types.rs:9-21 IpcError *)
Inductive IpcError : Type :=
  | Connect (e : string)
  | Http (m : msg)
  | ConfigError (m : msg)
  | PlainScheme (url expected : string)
  | TlsOther (e : string).

(* src ipc/types.rs:9-21 <IpcError as Display>::fmt *)
Definition ipc_error_text (e : IpcError) : msg :=
  match e with
  | Connect e => [Lit "websocket connect failed: "; Txt e]
  | Http m => Lit "cosigner http request failed: " :: m
  | ConfigError m => Lit "cosigner set misconfigured: " :: m
  | PlainScheme url expected =>
      [Txt url; Lit ": internal peers must be reached over "; Txt expected; Lit " — plaintext is refused"]
  | TlsOther e => [Txt e]
  end.

(* src ipc/remote.rs:151-163 RemoteBackend::new *)
Fixpoint check_cosigners (seen : list u8) (l : list (u8 * Url)) : result IpcError unit :=
  match l with
  | [] => Ok tt
  | (id, url) :: l =>
      if negb (bool_decide (scheme url = "https")) then Err (PlainScheme (url_text url) "https")
      else if contains id seen then Err (ConfigError [Lit "duplicate party id "; Num (wval id)])
      else check_cosigners (id :: seen) l
  end.

(** The TLS client is built from loaded materials; [client] is whether that
    succeeds. *)
(* src ipc/remote.rs:142-175 RemoteBackend::new *)
Definition remote_new (cs : list (u8 * Url)) (t : N) (client : result IpcError unit)
  : result IpcError RemoteBackend :=
  let? _ := check_cosigners [] cs in
  if negb (N.leb 2 t && N.leb t (N.of_nat (length cs))) then
    Err (ConfigError [Lit "threshold "; Num t; Lit " out of bounds for ";
                      Num (N.of_nat (length cs)); Lit " cosigners"])
  else let? _ := client in Ok (MkRemote cs t).

(** The replies of the cosigners. *)
Variable http_get : u8 -> Url -> string -> reply.
Variable http_post : u8 -> Url -> string -> request -> reply.
(** The readiness probe has its own, shorter timeout. *)
Variable probe_get : u8 -> Url -> string -> reply.

Definition cosigner_msg (party : u8) (path : string) (rest : msg) : MpcError :=
  Transport ([Lit "cosigner"; Num (wval party); Lit " "; Lit path] ++ rest).

(** Reading a 2xx body as JSON. *)
Definition read_json {T} (json : string -> result string T) (body : option string) : result string T :=
  match body with None => Err "error decoding response body" | Some b => json b end.

(* src ipc/remote.rs:255-282 RemoteBackend::get_json *)
Definition get_json {T} (json : string -> result string T) (party : u8) (base : Url) (path : string)
  : result MpcError T :=
  match http_get party base path with
  | BadUrl e => Err (Transport [Lit "cosigner"; Num (wval party); Lit " url: "; Txt e])
  | SendFailed e => Err (cosigner_msg party path [Lit ": "; Txt e])
  | Reply status body =>
      if negb (is_success status) then
        Err (cosigner_msg party path [Lit ": "; HttpStatus status; Lit ": "; Txt (default "" body)])
      else map_err (fun e => cosigner_msg party path [Lit ": bad response: "; Txt e])
                   (read_json json body)
  end.

(* src ipc/remote.rs:301-346 RemoteBackend::post *)
Definition post {T} (json : string -> result string T) (party : u8) (base : Url) (path : string)
    (req : request) : result MpcError T :=
  match http_post party base path req with
  | BadUrl e => Err (Transport [Lit "cosigner"; Num (wval party); Lit " url: "; Txt e])
  | SendFailed e => Err (cosigner_msg party path [Lit ": "; Txt e])
  | Reply status body =>
      if N.eqb status 403 then
        let text := default "" body in
        let reason := default text (json_reason text) in
        Err (Rejected [MkVeto party [Txt reason]])
      else if negb (is_success status) then
        Err (cosigner_msg party path [Lit ": "; HttpStatus status; Lit ": "; Txt (default "" body)])
      else map_err (fun e => cosigner_msg party path [Lit ": bad response: "; Txt e])
                   (read_json json body)
  end.

(* src ipc/remote.rs:284-299 RemoteBackend::broadcast *)
Definition broadcast {T} `{EqDecision T} (dbg : T -> msg) (json : string -> result string T)
    (targets : list (u8 * Url)) (path : string) (req : request) : result stop T :=
  combine dbg ((fun t => (fst t, post json (fst t) (snd t) path req)) <$> targets).

Definition dbg_pk (i : PublicKeyInfo) : msg :=
  [Lit "PublicKeyInfo { public_key: "] ++ dbg_pubkey (info_public_key i) ++ [Lit " }"].
Definition dbg_parts (p : SignParts) : msg :=
  [Lit "SignParts { r: "; Num (wval (sp_r p)); Lit ", s: "; Num (wval (sp_s p)); Lit ", y_parity: ";
   Lit (if sp_y_parity p then "true" else "false"); Lit " }"].
Definition dbg_sigs (i : SignaturesInfo) : msg :=
  [Lit "SignaturesInfo { signatures: ["] ++ join_msgs ", " (dbg_parts <$> signatures i) ++ [Lit "] }"].
Definition dbg_roster (i : RosterInfo) : msg :=
  [Lit "RosterInfo { n: "; Num (wval (info_n i)); Lit ", threshold: "; Num (wval (info_threshold i));
   Lit ", roster_hash: "; Hex (wval <$> arr (roster_hash i)); Lit " }"].

Definition n_of (b : RemoteBackend) : N := N.of_nat (length (cosigners b)).

(* src ipc/remote.rs:188-207 RemoteBackend::preflight_roster *)
Definition roster_answer (b : RemoteBackend) (party : u8) (r : result MpcError RosterInfo)
  : result MpcError (u8 * RosterInfo) :=
  let? info := map_err (fun e => match e with
                 | Transport m => Transport (m ++ [Lit " — all "; Num (n_of b);
                                   Lit " parties must be online for this ceremony"])
                 | other => other
                 end) r in
  if negb (N.eqb (wval (info_n info)) (n_of b)) || negb (N.eqb (wval (info_threshold info)) (threshold b))
  then Err (PartyMismatch [Lit "cosigner"; Num (wval party); Lit " is configured ";
              Num (wval (info_threshold info)); Lit "-of-"; Num (wval (info_n info));
              Lit ", orchestrator expects "; Num (threshold b); Lit "-of-"; Num (n_of b)])
  else Ok (party, info).

(** The first answer that differs from the first one is an error. *)
Fixpoint check_equal {T} `{EqDecision T} (err : u8 -> T -> MpcError) (first : T) (l : list (u8 * T))
  : result MpcError unit :=
  match l with
  | [] => Ok tt
  | (party, info) :: l =>
      if negb (bool_decide (info = first)) then Err (err party info) else check_equal err first l
  end.

(* src ipc/remote.rs:177-218 RemoteBackend::preflight_roster *)
Definition preflight_roster (b : RemoteBackend) : result stop unit :=
  let? infos := map_err Fail (collect
    ((fun c => roster_answer b (fst c) (get_json json_roster (fst c) (snd c) "roster")) <$> cosigners b)) in
  match infos with
  | [] => Err (Panic "infos[0]")
  | (first_party, first_info) :: rest =>
      map_err Fail (check_equal (fun party info =>
        PartyMismatch ([Lit "roster mismatch: cosigner"; Num (wval first_party); Lit " reports "]
          ++ dbg_roster first_info ++ [Lit ", cosigner"; Num (wval party); Lit " reports "]
          ++ dbg_roster info ++ [Lit " — the participant lists diverge"])) first_info rest)
  end.

(* src ipc/remote.rs:224-237 RemoteBackend::select_signers *)
Definition ready (c : u8 * Url) : bool :=
  match probe_get (fst c) (snd c) "signer" with
  | Reply status _ => is_success status
  | _ => false
  end.

(* src ipc/remote.rs:220-253 RemoteBackend::select_signers *)
Definition select_signers (b : RemoteBackend) : result MpcError (list (u8 * Url)) :=
  let rdy := filter (fun c => ready c = true) (cosigners b) in
  if N.ltb (N.of_nat (length rdy)) (threshold b) then
    Err (Transport [Lit "only "; Num (N.of_nat (length rdy)); Lit " of "; Num (n_of b);
                    Lit " cosigners ready; need "; Num (threshold b)])
  else Ok (take (N.to_nat (threshold b)) rdy).

(* src ipc/remote.rs:60-72 <RemoteBackend as MpcBackend>::dkg *)
Definition remote_dkg (b : RemoteBackend) (instance : B256) : result stop PubkeySec1 :=
  let? _ := preflight_roster b in
  let req := MkStartDkg instance (wmod 8 (n_of b)) (wmod 8 (threshold b)) in
  rmap info_public_key (broadcast dbg_pk json_public_key (cosigners b) "dkg" (ReqDkg req)).

(** [participants.sort_unstable()]. *)
Fixpoint insert_id (x : u8) (l : list u8) : list u8 :=
  match l with
  | [] => [x]
  | y :: l' => if N.ltb (wval x) (wval y) then x :: l else y :: insert_id x l'
  end.
Definition sort_ids (l : list u8) : list u8 := foldr insert_id [] l.

(* src ipc/remote.rs:85-90 <RemoteBackend as MpcBackend>::sign *)
Definition sign_request (instance : B256) (net : NetworkId) (unsigned_tx : bytes)
    (signers : list (u8 * Url)) : StartSignRequest :=
  MkStartSign instance net unsigned_tx (sort_ids signers.*1).

(* src ipc/remote.rs:74-96 <RemoteBackend as MpcBackend>::sign *)
Definition remote_sign (b : RemoteBackend) (instance : B256) (net : NetworkId) (unsigned_tx : bytes)
  : result stop (list EcdsaParts) :=
  let? signers := map_err Fail (select_signers b) in
  let req := sign_request instance net unsigned_tx signers in
  rmap (fun i => ecdsa_parts_of <$> signatures i)
    (broadcast dbg_sigs json_signatures signers "sign" (ReqSign req)).

(* src ipc/remote.rs:98-138 <RemoteBackend as MpcBackend>::refresh *)
Definition remote_refresh (b : RemoteBackend) (instance : B256) : result stop PubkeySec1 :=
  let? _ := preflight_roster b in
  let? infos := map_err Fail (collect
    ((fun c => rmap (pair (fst c)) (get_json json_public_key (fst c) (snd c) "pubkey")) <$> cosigners b)) in
  match infos with
  | [] => Err (Panic "infos[0]")
  | (first_party, first) :: rest =>
      let? _ := map_err Fail (check_equal (fun party _ =>
        PartyMismatch [Lit "cosigners disagree on the wallet public key: cosigner";
                       Num (wval first_party); Lit " vs cosigner"; Num (wval party)]) first rest) in
      let req := MkStartRefresh instance (wmod 8 (n_of b)) (wmod 8 (threshold b)) (info_public_key first) in
      rmap info_public_key (broadcast dbg_pk json_public_key (cosigners b) "refresh" (ReqRefresh req))
  end.

(* src ipc/remote.rs:397-422 fetch_signer *)
Definition fetch_signer (r : reply) : result IpcError (option PubkeySec1) :=
  match r with
  | BadUrl e => Err (Http [Lit "bad url: "; Txt e])
  | SendFailed e => Err (Http [Txt e])
  | Reply status body =>
      if N.eqb status 404 then Ok None
      else if is_success status then
        let? info := map_err (fun e => Http [Txt e]) (read_json json_public_key body) in
        Ok (Some (info_public_key info))
      else Err (Http [Lit "GET /signer returned "; HttpStatus status])
  end.
End Remote.

(** ** Merging, specified *)
Section CombineLemmas.
Context {R : Type} `{EqDecision R} (dbg : R -> msg).
Implicit Types rs : list (u8 * result MpcError R).

Definition by_party (v w : Veto) : Prop := (wval (veto_party v) <= wval (veto_party w))%N.

Lemma insert_veto_perm v l : insert_veto v l ≡ₚ v :: l.
Proof.
  induction l as [|w l IH]; simpl; [done|]. destruct (N.ltb _ _); [done|].
  rewrite IH. apply Permutation_swap.
Qed.

Lemma insert_veto_sorted v l : Sorted by_party l -> Sorted by_party (insert_veto v l).
Proof.
  induction 1 as [|w l Hs IH Hd]; simpl; [by repeat constructor|].
  destruct (N.ltb _ _) eqn:Hlt.
  - apply N.ltb_lt in Hlt. constructor; [by constructor|]. constructor. unfold by_party. lia.
  - apply N.ltb_ge in Hlt. constructor; [done|]. destruct l as [|x l]; simpl.
    + constructor. unfold by_party. lia.
    + inversion_clear Hd. destruct (N.ltb _ _); constructor; unfold by_party in *; auto; lia.
Qed.

Lemma foldl_veto_perm l acc : foldl (fun acc v => insert_veto v acc) acc l ≡ₚ acc ++ l.
Proof.
  revert acc; induction l as [|v l IH]; intros acc; simpl; [by rewrite app_nil_r|].
  rewrite IH, insert_veto_perm. simpl. by rewrite Permutation_middle.
Qed.

Lemma sort_vetoes_perm l : sort_vetoes l ≡ₚ l.
Proof. apply foldl_veto_perm. Qed.

Lemma sort_vetoes_sorted l : Sorted by_party (sort_vetoes l).
Proof.
  unfold sort_vetoes. assert (Sorted by_party []) as H by constructor. revert H.
  generalize (@nil Veto). induction l as [|v l IH]; intros acc H; simpl; [done|].
  apply IH. by apply insert_veto_sorted.
Qed.

Lemma all_agree_Ok p first oks v :
  all_agree dbg p first oks = Ok v <-> v = first /\ Forall (fun x => snd x = first) oks.
Proof.
  induction oks as [|[q w] oks IH]; simpl.
  - split; [by intros [= <-]|]. by intros [-> _].
  - case_bool_decide as Hw; simpl.
    + rewrite IH, Forall_cons. naive_solver.
    + split; [done|]. intros [_ ?%Forall_cons]. naive_solver.
Qed.

Lemma all_agree_Err p first oks e :
  all_agree dbg p first oks = Err e -> exists m, e = Fail (PartyMismatch m).
Proof.
  induction oks as [|[q w] oks IH]; simpl; [done|].
  destruct (negb _); [intros [= <-]; eauto|auto].
Qed.

Lemma vetoes_of_elem rs v :
  v ∈ vetoes_of rs <-> exists p vs, (p, Err (Rejected vs)) ∈ rs /\ v ∈ vs.
Proof.
  unfold vetoes_of. rewrite list_elem_of_bind. split.
  - intros ([p r] & Hv & Hin). simpl in Hv. destruct r as [|[]]; try by apply not_elem_of_nil in Hv. eauto.
  - intros (p & vs & Hin & Hv). by exists (p, Err (Rejected vs)).
Qed.

Lemma oks_all rs :
  vetoes_of rs = [] -> first_error rs = None ->
  (forall p, (p, Err (Rejected [])) ∉ rs) ->
  rs = (fun x => (fst x, Ok (snd x))) <$> oks_of rs.
Proof.
  induction rs as [|[p [v|e]] rs IH]; simpl; [done|..].
  - intros Hv He Hn. f_equal. apply IH; [done|done|]. intros q Hq. apply (Hn q). by right.
  - intros Hv He Hn. destruct e; try done.
    unfold vetoes_of in Hv. simpl in Hv. apply app_eq_nil in Hv as [-> _].
    destruct (Hn p). left.
Qed.

(** Every asked party answered, and all answered [v]. *)
Definition unanimous rs (v : R) : Prop := rs <> [] /\ Forall (fun x => snd x = Ok v) rs.

Lemma combine_unanimous rs v : unanimous rs v -> combine dbg rs = Ok v.
Proof.
  intros [Hne Hall].
  assert (vetoes_of rs = [] /\ first_error rs = None /\ exists ps, oks_of rs = (fun p => (p, v)) <$> ps /\
          length ps = length rs) as (Hv & He & ps & Ho & Hlen).
  { clear Hne. induction Hall as [|[p r] rs Hr _ (Hv & He & ps & Ho & Hl)]; simpl in *.
    - split_and!; try done. by exists [].
    - subst r. unfold vetoes_of in *. simpl. split_and!; try done.
      exists (p :: ps). simpl. by rewrite Ho, Hl. }
  unfold combine. rewrite Hv, He, Ho. destruct ps as [|p ps]; [by destruct rs|]. simpl.
  apply all_agree_Ok. split; [done|]. apply Forall_fmap, Forall_forall. done.
Qed.

Lemma combine_Ok rs v :
  (forall p, (p, Err (Rejected [])) ∉ rs) -> combine dbg rs = Ok v -> unanimous rs v.
Proof.
  intros Hn. unfold combine. destruct (vetoes_of rs) as [|] eqn:Hv; [|done].
  destruct (first_error rs) eqn:He; [done|]. pose proof (oks_all rs Hv He Hn) as Hrs.
  destruct (oks_of rs) as [|[p w] oks] eqn:Ho; [done|]. intros [-> Hf]%all_agree_Ok.
  split; rewrite Hrs; [done|]. simpl. constructor; [done|].
  apply Forall_fmap. eapply Forall_impl; [exact Hf|]. intros [] ?. simpl in *. congruence.
Qed.

(** How one broadcast's replies are merged.  Success means every asked
    party answered and all answered the same value; a policy veto outranks
    every other outcome, and all the vetoes are reported, ordered by party;
    and when nobody vetoed and not all agreed the operation fails. *)
Theorem combine_spec rs :
  (forall p, (p, Err (Rejected [])) ∉ rs) -> rs <> [] ->
  (forall v, combine dbg rs = Ok v <-> Forall (fun x => snd x = Ok v) rs) /\
  (vetoes_of rs <> [] -> exists vs, combine dbg rs = Err (Fail (Rejected vs)) /\
     vs ≡ₚ vetoes_of rs /\ Sorted by_party vs) /\
  (vetoes_of rs = [] -> (exists v, combine dbg rs = Ok v) \/
     (exists e, first_error rs = Some e /\ combine dbg rs = Err (Fail e)) \/
     (exists m, first_error rs = None /\ combine dbg rs = Err (Fail (PartyMismatch m)))).
Proof.
  intros Hn Hne. split_and!.
  - intros v. split; [by intros [_ ?]%combine_Ok|]. intros Hf. by apply combine_unanimous.
  - intros Hv. unfold combine. destruct (vetoes_of rs) as [|w vs]; [done|].
    eexists. split; [done|]. split; [apply sort_vetoes_perm|apply sort_vetoes_sorted].
  - intros Hv. unfold combine. rewrite Hv. destruct (first_error rs) as [e|] eqn:He; [eauto|].
    pose proof (oks_all rs Hv He Hn) as Hrs. destruct (oks_of rs) as [|[p w] oks]; [by simpl in Hrs|].
    destruct (all_agree dbg p w oks) as [v|e] eqn:Ha; [eauto|].
    apply all_agree_Err in Ha as [m ->]. eauto.
Qed.
End CombineLemmas.

Lemma fmap_nil_iff_ne {A B} (f : A -> B) (l : list A) : f <$> l <> [] <-> l <> [].
Proof. by destruct l. Qed.

Section RemoteLemmas.
Context `{JsonLib}.
Variable http_get : u8 -> Url -> string -> reply.
Variable http_post : u8 -> Url -> string -> request -> reply.
Variable probe_get : u8 -> Url -> string -> reply.

(** *** Selection *)
Lemma insert_id_perm x l : insert_id x l ≡ₚ x :: l.
Proof.
  induction l as [|y l IH]; simpl; [done|]. destruct (N.ltb _ _); [done|].
  rewrite IH. apply Permutation_swap.
Qed.

Lemma sort_ids_perm l : sort_ids l ≡ₚ l.
Proof. induction l as [|x l IH]; simpl; [done|]. by rewrite insert_id_perm, IH. Qed.

Lemma insert_id_ascending x l :
  x ∉ l -> ascending (wval <$> l) = true -> ascending (wval <$> insert_id x l) = true.
Proof.
  induction l as [|y l IH]; simpl; [done|].
  rewrite not_elem_of_cons. intros [Hne Hnin] Ha. destruct (N.ltb _ _) eqn:Hlt.
  - simpl. by rewrite Hlt.
  - apply N.ltb_ge in Hlt. assert (wval x <> wval y) by (by intros ?%word_eq).
    cbn [fmap list_fmap]. apply (ascending_cons (wval y)) in Ha as [Hf Ha].
    apply ascending_cons. split; [|by apply IH].
    apply Forall_fmap, Forall_forall. intros z Hz. rewrite insert_id_perm in Hz.
    apply elem_of_cons in Hz as [->|Hz]; simpl; [lia|].
    rewrite Forall_fmap, Forall_forall in Hf. by apply Hf.
Qed.

Lemma sort_ids_ascending l : NoDup l -> ascending (wval <$> sort_ids l) = true.
Proof.
  induction 1 as [|x l Hx _ IH]; simpl; [done|]. apply insert_id_ascending; [|done].
  by rewrite sort_ids_perm.
Qed.

Lemma check_cosigners_Ok seen l :
  check_cosigners seen l = Ok tt <->
  Forall (fun c => scheme (snd c) = "https") l /\ NoDup l.*1 /\ (forall i, i ∈ l.*1 -> i ∉ seen).
Proof.
  revert seen; induction l as [|[i u] l IH]; intros seen; simpl.
  - split; [|done]. intros _. split_and!; [constructor|constructor|]. intros i Hi.
    by apply not_elem_of_nil in Hi.
  - case_bool_decide as Hs; simpl; [|split; [done|]; intros (?%Forall_cons & _); naive_solver].
    destruct (contains i seen) eqn:Hc.
    + split; [done|]. apply contains_true in Hc. intros (_ & _ & Hn). destruct (Hn i); [left|done].
    + apply contains_false in Hc. rewrite IH, Forall_cons, NoDup_cons. split.
      * intros (Hf & Hnd & Hn). split_and!; try done.
        -- intros Hi. apply (Hn i Hi). left.
        -- intros j [->|Hj]%elem_of_cons; [done|]. intros Hjs. apply (Hn j Hj). by right.
      * intros ((_ & Hf) & [Hni Hnd] & Hn). split_and!; try done.
        intros j Hj [->|Hjs]%elem_of_cons; [done|]. apply (Hn j); [by right|done].
Qed.

(** What a constructed backend satisfies. *)
Definition valid_backend (b : RemoteBackend) : Prop :=
  Forall (fun c => scheme (snd c) = "https") (cosigners b) /\ NoDup (cosigners b).*1 /\
  (2 <= threshold b <= n_of b)%N.

Lemma remote_new_Ok cs t client b :
  remote_new cs t client = Ok b <->
  b = MkRemote cs t /\ valid_backend b /\ client = Ok tt.
Proof.
  unfold remote_new, valid_backend, n_of. rewrite rbind_Ok. split.
  - intros ([] & Hc & H1). apply check_cosigners_Ok in Hc as (Hf & Hnd & _).
    destruct (N.leb 2 t && _) eqn:Ht; simpl in H1; [|done].
    apply andb_true_iff in Ht as [H2 Hn]. apply N.leb_le in H2, Hn.
    apply rbind_Ok in H1 as ([] & -> & [= <-]). split_and!; try done.
  - intros (-> & (Hf & Hnd & H2 & Hn) & ->). exists tt. split.
    + apply check_cosigners_Ok. split_and!; try done. intros i _. apply not_elem_of_nil.
    + simpl in *. rewrite (proj2 (N.leb_le 2 t) H2), (proj2 (N.leb_le _ _) Hn). done.
Qed.

Lemma select_signers_Ok b l :
  select_signers probe_get b = Ok l ->
  l `sublist_of` cosigners b /\ N.of_nat (length l) = threshold b /\
  Forall (fun c => ready probe_get c = true) l.
Proof.
  unfold select_signers. destruct (N.ltb _ _) eqn:Hlt; [done|]. apply N.ltb_ge in Hlt. intros [= <-].
  split_and!.
  - etransitivity; [apply sublist_take|apply sublist_filter].
  - rewrite length_take_le; lia.
  - apply Forall_take, Forall_forall. intros c Hc. by apply list_elem_of_filter in Hc as [? _].
Qed.

(** Selection is by liveness alone, in preference order. *)
Lemma select_signers_prefix b l :
  select_signers probe_get b = Ok l ->
  l = take (N.to_nat (threshold b)) (filter (fun c => ready probe_get c = true) (cosigners b)).
Proof. unfold select_signers. destruct (N.ltb _ _); [done|]. by intros [= <-]. Qed.

Lemma signers_NoDup b l :
  valid_backend b -> select_signers probe_get b = Ok l -> NoDup l.*1.
Proof.
  intros (_ & Hnd & _) (Hs & _)%select_signers_Ok.
  eapply sublist_NoDup; [exact Hnd|by apply fmap_sublist].
Qed.

(** *** One broadcast *)
Lemma post_not_empty_veto {T} (json : string -> result string T) p u path req :
  post http_post json p u path req <> Err (Rejected []).
Proof.
  unfold post. destruct (http_post p u path req) as [e|e|st body]; [done|done|].
  destruct (N.eqb st 403); [done|]. destruct (negb _); [done|]. by destruct (read_json json body).
Qed.

Lemma post_Ok {T} (json : string -> result string T) p u path req v :
  post http_post json p u path req = Ok v <->
  exists st body, http_post p u path req = Reply st (Some body) /\
    is_success st = true /\ json body = Ok v.
Proof.
  unfold post. destruct (http_post p u path req) as [e|e|st body].
  1,2: split; [done|]; by intros (? & ? & ? & _).
  destruct (N.eqb st 403) eqn:H403.
  { apply N.eqb_eq in H403 as ->. split; [done|]. by intros (? & ? & [= <- ->] & ? & _). }
  destruct (is_success st) eqn:Hst; simpl.
  - rewrite map_err_Ok. destruct body as [body|]; simpl.
    + split; [eauto|]. intros (? & ? & [= <- <-] & _ & ?). done.
    + split; [done|]. by intros (? & ? & ? & _).
  - split; [done|]. intros (? & ? & [= <- ->] & ? & _). congruence.
Qed.

Lemma broadcast_no_empty {T} (json : string -> result string T) (targets : list (u8 * Url)) path req :
  forall p : u8, (p, Err (Rejected [])) ∉
    ((fun t => (fst t, post http_post json (fst t) (snd t) path req)) <$> targets).
Proof.
  intros p ((q & u) & Heq & _)%list_elem_of_fmap. injection Heq as -> Heq.
  symmetry in Heq. by apply post_not_empty_veto in Heq.
Qed.

Lemma broadcast_Ok {T} `{EqDecision T} dbg (json : string -> result string T)
    (targets : list (u8 * Url)) path req v :
  broadcast http_post dbg json targets path req = Ok v <->
  targets <> [] /\ Forall (fun t => exists st body,
    http_post (fst t) (snd t) path req = Reply st (Some body) /\
    is_success st = true /\ json body = Ok v) targets.
Proof.
  unfold broadcast.
  assert (forall P : Prop, (P <-> unanimous ((fun t => (fst t, post http_post json (fst t) (snd t) path req)) <$> targets) v) ->
     (P <-> targets <> [] /\ Forall (fun t => exists st body,
    http_post (fst t) (snd t) path req = Reply st (Some body) /\
    is_success st = true /\ json body = Ok v) targets)) as Hgen.
  { intros P ->. unfold unanimous. rewrite Forall_fmap, fmap_nil_iff_ne.
    split; intros [? Hf]; (split; [done|]); eapply Forall_impl; try exact Hf;
      intros [p u]; simpl; by rewrite post_Ok. }
  apply Hgen. split; [apply combine_Ok, broadcast_no_empty|apply combine_unanimous].
Qed.

(** One veto fails the whole broadcast, and is in the report. *)
Lemma broadcast_veto {T} `{EqDecision T} dbg (json : string -> result string T)
    (targets : list (u8 * Url)) path req p u v :
  (p, u) ∈ targets -> post http_post json p u path req = Err (Rejected [v]) ->
  exists vs, broadcast http_post dbg json targets path req = Err (Fail (Rejected vs)) /\
    v ∈ vs /\ Sorted by_party vs.
Proof.
  intros Hin Hpost. unfold broadcast, combine. set (rs := _ <$> targets).
  assert (v ∈ vetoes_of rs) as Hv.
  { apply vetoes_of_elem. exists p, [v]. split; [|by left].
    unfold rs. apply list_elem_of_fmap. exists (p, u). cbn [fst snd]. by rewrite Hpost. }
  destruct (vetoes_of rs) as [|w vs] eqn:Hvs; [by apply not_elem_of_nil in Hv|].
  exists (sort_vetoes (w :: vs)). split_and!; [done| |apply sort_vetoes_sorted].
  by rewrite sort_vetoes_perm.
Qed.
End RemoteLemmas.

(** ** Properties *)
Section RemoteProperties.
Context `{JsonLib}.
Variable http_get : u8 -> Url -> string -> reply.
Variable http_post : u8 -> Url -> string -> request -> reply.
Variable probe_get : u8 -> Url -> string -> reply.

(** What a successful remote signature means.  Exactly [t] distinct
    configured parties, all of them ready, the first ones in preference
    order, were asked; they all received the same request, whose participants
    are these parties in strictly ascending order; and every one of them
    answered 2xx with the very signatures returned. *)
Theorem remote_sign_agreement cs t client b instance net tx sigs :
  remote_new cs t client = Ok b ->
  remote_sign http_post probe_get b instance net tx = Ok sigs ->
  exists signers info,
    signers = take (N.to_nat t) (filter (fun c => ready probe_get c = true) cs) /\
    N.of_nat (length signers) = t /\ NoDup signers.*1 /\
    Forall (fun c => ready probe_get c = true) signers /\
    let req := sign_request instance net tx signers in
    participants req ≡ₚ signers.*1 /\
    ascending (wval <$> participants req) = true /\
    Forall (fun c => exists st body,
      http_post (fst c) (snd c) "sign" (ReqSign req) = Reply st (Some body) /\
      is_success st = true /\ json_signatures body = Ok info) signers /\
    sigs = ecdsa_parts_of <$> signatures info.
Proof.
  intros (-> & Hv & _)%remote_new_Ok. unfold remote_sign.
  intros (signers & Hsel & Hb)%rbind_Ok. apply map_err_Ok in Hsel.
  pose proof (select_signers_Ok _ _ _ Hsel) as (_ & Hlen & Hready).
  pose proof (signers_NoDup _ _ _ Hv Hsel) as Hnd.
  pose proof (select_signers_prefix _ _ _ Hsel) as Hpre.
  apply rmap_Ok in Hb as (info & Hb & ->). apply broadcast_Ok in Hb as (_ & Hall).
  exists signers, info. cbv zeta. split_and!; try done.
  - apply sort_ids_perm.
  - by apply sort_ids_ascending.
Qed.

(** A veto is final.  If any selected party answers 403, the operation
    fails as rejected and names that party, whatever the others answer and
    whatever other cosigners are available: no other subset is tried. *)
Theorem remote_veto_final b instance net tx signers p u body :
  select_signers probe_get b = Ok signers ->
  (p, u) ∈ signers ->
  http_post p u "sign" (ReqSign (sign_request instance net tx signers)) = Reply 403 body ->
  exists vs v, remote_sign http_post probe_get b instance net tx = Err (Fail (Rejected vs)) /\
    v ∈ vs /\ veto_party v = p /\ Sorted by_party vs.
Proof.
  intros Hsel Hin Hpost. unfold remote_sign. rewrite Hsel. cbn [map_err rbind].
  set (req := ReqSign _) in *. set (v := MkVeto p [Txt (default (default "" body) (json_reason (default "" body)))]).
  assert (post http_post json_signatures p u "sign" req = Err (Rejected [v])) as Hv
    by (unfold post; by rewrite Hpost).
  destruct (broadcast_veto http_post dbg_sigs json_signatures signers "sign" req p u v Hin Hv)
    as (vs & -> & Hvs & Hsorted). by exists vs, v.
Qed.

Lemma check_equal_Ok {T} `{EqDecision T} (err : u8 -> T -> MpcError) first l :
  check_equal err first l = Ok tt <-> Forall (fun x => snd x = first) l.
Proof.
  induction l as [|[p x] l IH]; simpl; [done|]. rewrite Forall_cons. simpl.
  case_bool_decide; simpl; [rewrite IH; tauto|]. split; [done|]. tauto.
Qed.

Lemma roster_answer_Ok b p r p' info :
  roster_answer b p r = Ok (p', info) <->
  p' = p /\ r = Ok info /\ wval (info_n info) = n_of b /\ wval (info_threshold info) = threshold b.
Proof.
  unfold roster_answer. rewrite rbind_Ok. setoid_rewrite map_err_Ok. split.
  - intros (i & -> & Hi). destruct (negb _ || negb _) eqn:E; [done|].
    apply orb_false_iff in E as [H1%negb_false_iff%N.eqb_eq H2%negb_false_iff%N.eqb_eq].
    injection Hi as <- <-. done.
  - intros (-> & -> & Hn & Ht). exists info. split; [done|].
    by rewrite (proj2 (N.eqb_eq _ _) Hn), (proj2 (N.eqb_eq _ _) Ht).
Qed.

(** The pre-flight passes only when every party reports one same roster, of
    this process's own size and threshold. *)
Lemma preflight_roster_Ok b :
  preflight_roster http_get b = Ok tt ->
  exists info, wval (info_n info) = n_of b /\ wval (info_threshold info) = threshold b /\
    Forall (fun c => get_json http_get json_roster (fst c) (snd c) "roster" = Ok info) (cosigners b).
Proof.
  unfold preflight_roster. intros (infos & Hc & H1)%rbind_Ok. apply map_err_Ok, collect_Ok in Hc.
  destruct infos as [|[p0 i0] rest]; [done|]. apply map_err_Ok, check_equal_Ok in H1.
  assert (Forall (fun x => snd x = i0) ((p0, i0) :: rest)) as Hall by (by constructor).
  assert (forall c, c ∈ cosigners b -> get_json http_get json_roster (fst c) (snd c) "roster" = Ok i0 /\
            wval (info_n i0) = n_of b /\ wval (info_threshold i0) = threshold b) as Hcs.
  { intros c Hin. apply (list_elem_of_fmap_2 (fun c => roster_answer b (fst c)
       (get_json http_get json_roster (fst c) (snd c) "roster"))) in Hin.
    rewrite Hc in Hin. apply list_elem_of_fmap in Hin as ([p i] & Heq & Hin).
    apply roster_answer_Ok in Heq as (_ & -> & Hn & Ht).
    rewrite Forall_forall in Hall. specialize (Hall _ Hin). simpl in Hall. by subst. }
  exists i0. destruct (cosigners b) as [|c cs] eqn:Hb.
  - simpl in Hc. done.
  - split_and!; [apply (Hcs c); left|apply (Hcs c); left|]. apply Forall_forall. intros x Hx. by apply Hcs.
Qed.

Lemma remote_ceremony_Ok b instance pk :
  let everyone_answered path req :=
    cosigners b <> [] /\
    Forall (fun c => exists st body,
      http_post (fst c) (snd c) path req = Reply st (Some body) /\
      is_success st = true /\ json_public_key body = Ok (MkPublicKeyInfo pk)) (cosigners b) in
  (remote_dkg http_get http_post b instance = Ok pk ->
     preflight_roster http_get b = Ok tt /\
     everyone_answered "dkg" (ReqDkg (MkStartDkg instance (wmod 8 (n_of b)) (wmod 8 (threshold b))))) /\
  (remote_refresh http_get http_post b instance = Ok pk ->
     preflight_roster http_get b = Ok tt /\
     exists anchor,
       Forall (fun c => get_json http_get json_public_key (fst c) (snd c) "pubkey"
                        = Ok (MkPublicKeyInfo anchor)) (cosigners b) /\
       everyone_answered "refresh" (ReqRefresh (MkStartRefresh instance (wmod 8 (n_of b))
                                      (wmod 8 (threshold b)) anchor))).
Proof.
  cbv zeta. split.
  - unfold remote_dkg. intros ([] & Hp & Hb)%rbind_Ok. split; [done|].
    apply rmap_Ok in Hb as ([pk'] & Hb & ->). by apply broadcast_Ok in Hb.
  - unfold remote_refresh. intros ([] & Hp & Hb)%rbind_Ok. split; [done|].
    apply rbind_Ok in Hb as (infos & Hc & Hb). apply map_err_Ok, collect_Ok in Hc.
    destruct infos as [|[p0 [anchor]] rest]; [done|].
    apply rbind_Ok in Hb as ([] & He & Hb). apply map_err_Ok, check_equal_Ok in He.
    apply rmap_Ok in Hb as ([pk'] & Hb & ->). apply broadcast_Ok in Hb.
    exists anchor. split; [|exact Hb]. apply Forall_forall. intros c Hin.
    apply (list_elem_of_fmap_2 (fun c => rmap (pair (fst c))
       (get_json http_get json_public_key (fst c) (snd c) "pubkey"))) in Hin.
    rewrite Hc in Hin. apply list_elem_of_fmap in Hin as ([p i] & Heq & Hin).
    apply rmap_Ok in Heq as (i' & -> & [= -> ->]). f_equal.
    apply elem_of_cons in Hin as [[= _ ->]|Hin]; [done|].
    rewrite Forall_forall in He. exact (He _ Hin).
Qed.


(** What a successful key generation or refresh means.  Before anything
    was started every configured party reported the same roster hash and this
    orchestrator's own (n, t); a refresh was anchored to one public key that
    every party holds; and every party, all [n] of them, answered with the
    public key returned. *)
Theorem remote_ceremony_agreement b instance pk :
  let everyone_answered path req :=
    cosigners b <> [] /\
    Forall (fun c => exists st body,
      http_post (fst c) (snd c) path req = Reply st (Some body) /\
      is_success st = true /\ json_public_key body = Ok (MkPublicKeyInfo pk)) (cosigners b) in
  (remote_dkg http_get http_post b instance = Ok pk ->
     preflight_roster http_get b = Ok tt /\
     everyone_answered "dkg" (ReqDkg (MkStartDkg instance (wmod 8 (n_of b)) (wmod 8 (threshold b))))) /\
  (remote_refresh http_get http_post b instance = Ok pk ->
     preflight_roster http_get b = Ok tt /\
     exists anchor,
       Forall (fun c => get_json http_get json_public_key (fst c) (snd c) "pubkey"
                        = Ok (MkPublicKeyInfo anchor)) (cosigners b) /\
       everyone_answered "refresh" (ReqRefresh (MkStartRefresh instance (wmod 8 (n_of b))
                                      (wmod 8 (threshold b)) anchor))).
Proof. apply remote_ceremony_Ok. Qed.
(** A ceremony request for the whole fleet: its two byte fields are the
    number of configured cosigners and the threshold, and not these modulo 256. *)
Definition exact_dkg (b : RemoteBackend) (instance : B256) (req : request) : Prop :=
  exists q, req = ReqDkg q /\ dkg_instance q = instance /\
    wval (dkg_n_parties q) = n_of b /\ wval (dkg_threshold q) = threshold b.
Definition exact_refresh (b : RemoteBackend) (instance : B256) (anchor : PubkeySec1) (req : request) : Prop :=
  exists q, req = ReqRefresh q /\ refresh_instance q = instance /\ refresh_public_key q = anchor /\
    wval (refresh_n_parties q) = n_of b /\ wval (refresh_threshold q) = threshold b.
(** Every cosigner reports [anchor] as its public key. *)
Definition all_report (b : RemoteBackend) (anchor : PubkeySec1) : Prop :=
  Forall (fun c => get_json http_get json_public_key (fst c) (snd c) "pubkey" = Ok (MkPublicKeyInfo anchor)) (cosigners b).
(** Every cosigner answered [req] with the key [pk]. *)
Definition all_answered (b : RemoteBackend) (path : string) (req : request) (pk : PubkeySec1) : Prop :=
  cosigners b <> [] /\
  Forall (fun c => exists st body,
    http_post (fst c) (snd c) path req = Reply st (Some body) /\
    is_success st = true /\ json_public_key body = Ok (MkPublicKeyInfo pk)) (cosigners b).

(** Past the roster pre-flight the casts to bytes lose nothing. *)
Lemma preflight_counts b :
  valid_backend b -> preflight_roster http_get b = Ok tt ->
  wval (wmod 8 (n_of b)) = n_of b /\ wval (wmod 8 (threshold b)) = threshold b.
Proof.
  intros (_ & Hnd & Ht) (info & Hn & _ & _)%preflight_roster_Ok.
  pose proof (word_lt (info_n info)) as Hlt. rewrite Hn in Hlt. change (2 ^ 8)%N with 256%N in Hlt.
  rewrite !wval_wmod. change (2 ^ 8)%N with 256%N. by rewrite !N.mod_small by lia.
Qed.

(** A broadcast depends on nothing but its targets' answers to its request. *)
Lemma broadcast_asks {T} `{EqDecision T} post1 post2 (dbg : T -> msg) json targets path req :
  (forall c, c ∈ targets -> post1 (fst c) (snd c) path req = post2 (fst c) (snd c) path req) ->
  broadcast post1 dbg json targets path req = broadcast post2 dbg json targets path req.
Proof.
  intros Hc. unfold broadcast. f_equal. apply list_fmap_ext. intros i c Hi.
  unfold post. by rewrite (Hc c) by (by eapply list_elem_of_lookup_2).
Qed.

Lemma refresh_anchor b (infos : list (u8 * PublicKeyInfo)) p first rest :
  collect ((fun c => rmap (pair (fst c)) (get_json http_get json_public_key (fst c) (snd c) "pubkey")) <$> cosigners b)
    = Ok infos ->
  infos = (p, first) :: rest -> Forall (fun x => snd x = first) rest -> all_report b (info_public_key first).
Proof.
  intros Hc%collect_Ok -> He. apply Forall_forall. intros c Hin.
  apply (list_elem_of_fmap_2 (fun c => rmap (pair (fst c))
     (get_json http_get json_public_key (fst c) (snd c) "pubkey"))) in Hin.
  rewrite Hc in Hin. apply list_elem_of_fmap in Hin as ([p' i] & Heq & Hin).
  apply rmap_Ok in Heq as (i' & -> & [= -> ->]). destruct first as [k].
  apply elem_of_cons in Hin as [[= _ ->]|Hin]; [done|].
  rewrite Forall_forall in He. f_equal. exact (He _ Hin).
Qed.

(** C34: ceremonies are run with the fleet's own counts.  [n as u8] and
    [threshold as u8] are written into the requests as bytes.  A key generation
    or a refresh that succeeds was answered by every cosigner to one request
    whose fields are exactly the number of cosigners and the threshold (and
    for a refresh the key all of them report); and no cosigner is ever asked
    anything else: the outcome, success or failure, is the same for any
    cosigners that answer such requests the same, so a request whose count
    wrapped (256 cosigners would be asked as 0) is not sent. *)
Theorem ceremony_counts_exact b instance :
  valid_backend b ->
  (forall pk, remote_dkg http_get http_post b instance = Ok pk ->
     exists req, exact_dkg b instance req /\ all_answered b "dkg" req pk) /\
  (forall pk, remote_refresh http_get http_post b instance = Ok pk ->
     exists anchor req, all_report b anchor /\ exact_refresh b instance anchor req /\
       all_answered b "refresh" req pk) /\
  (forall post', (forall c req, c ∈ cosigners b -> exact_dkg b instance req ->
       post' (fst c) (snd c) "dkg" req = http_post (fst c) (snd c) "dkg" req) ->
     remote_dkg http_get post' b instance = remote_dkg http_get http_post b instance) /\
  (forall post', (forall c req anchor, c ∈ cosigners b -> all_report b anchor -> exact_refresh b instance anchor req ->
       post' (fst c) (snd c) "refresh" req = http_post (fst c) (snd c) "refresh" req) ->
     remote_refresh http_get post' b instance = remote_refresh http_get http_post b instance).
Proof.
  intros Hv. split_and!.
  - intros pk [Hp Ha]%(proj1 (remote_ceremony_Ok b instance pk)). destruct (preflight_counts b Hv Hp).
    eexists. split; [|exact Ha]. by eexists.
  - intros pk (Hp & anchor & Hr & Ha)%(proj2 (remote_ceremony_Ok b instance pk)). destruct (preflight_counts b Hv Hp).
    exists anchor. eexists. split; [exact Hr|]. split; [|exact Ha]. by eexists.
  - intros post' Hsame. unfold remote_dkg. destruct (preflight_roster http_get b) as [[]|e] eqn:Hp; [|done].
    destruct (preflight_counts b Hv Hp). cbn [rbind]. f_equal. apply broadcast_asks. intros c Hc.
    apply Hsame; [done|]. by eexists.
  - intros post' Hsame. unfold remote_refresh. destruct (preflight_roster http_get b) as [[]|e] eqn:Hp; [|done].
    destruct (preflight_counts b Hv Hp). cbn [rbind]. destruct (collect _) as [infos|e] eqn:Hi; [|done].
    cbn [map_err rbind]. destruct infos as [|[p first] rest]; [done|].
    destruct (check_equal _ _ _) as [[]|e] eqn:He; [|done]. cbn [map_err rbind]. f_equal. apply broadcast_asks.
    intros c Hc. apply check_equal_Ok in He.
    apply (Hsame c _ (info_public_key first)); [done|by eapply refresh_anchor|]. by eexists.
Qed.

(** With 256 cosigners no ceremony runs at all. *)
Lemma full_house_refused b instance pk :
  valid_backend b -> n_of b = 256%N -> remote_dkg http_get http_post b instance <> Ok pk.
Proof.
  intros Hv Hn H1. unfold remote_dkg in H1. apply rbind_Ok in H1 as ([] & Hp & _).
  apply preflight_roster_Ok in Hp as (info & Hi & _). pose proof (word_lt (info_n info)) as Hlt.
  rewrite Hi, Hn in Hlt. change (2 ^ 8)%N with 256%N in Hlt. lia.
Qed.

(** A constructed backend asks at least two parties, so indexing the first
    answer never panics. *)
Lemma remote_no_panic b instance net tx what :
  valid_backend b ->
  remote_dkg http_get http_post b instance <> Err (Panic what) /\
  remote_sign http_post probe_get b instance net tx <> Err (Panic what) /\
  remote_refresh http_get http_post b instance <> Err (Panic what).
Proof.
  intros (_ & Hnd & Ht2 & Htn).
  assert (cosigners b <> []) as Hne by (intros Hn; unfold n_of in Htn; rewrite Hn in Htn; simpl in Htn; lia).
  assert (forall {T} `{EqDecision T} dbg (json : string -> result string T) (targets : list (u8 * Url)) path req,
            targets <> [] -> broadcast http_post dbg json targets path req <> Err (Panic what)) as Hbc.
  { intros T HT dbg json targets path req Htgt Heq. unfold broadcast, combine in Heq.
    set (rs := _ <$> targets) in Heq.
    destruct (vetoes_of rs) eqn:Hv; [|done]. destruct (first_error rs) eqn:He; [done|].
    assert (rs = (fun x => (fst x, Ok (snd x))) <$> oks_of rs) as Hrs.
    { apply oks_all; [done|done|]. apply broadcast_no_empty. }
    destruct (oks_of rs) as [|[p v] oks]; [|by apply all_agree_Err in Heq as [m ?]].
    simpl in Hrs. unfold rs in Hrs. by destruct targets. }
  assert (preflight_roster http_get b <> Err (Panic what)) as Hpre.
  { unfold preflight_roster. intros [Hc|([|[p i] rest] & Hc & H1)]%rbind_Err.
    - by destruct (collect _).
    - apply map_err_Ok, collect_Ok in Hc. by destruct (cosigners b).
    - by destruct (check_equal _ _ _). }
  split_and!.
  - unfold remote_dkg. intros [?|([] & _ & H1)]%rbind_Err; [done|].
    destruct (broadcast _ _ _ _ _ _) eqn:E in H1; simplify_eq/=. by apply Hbc in E.
  - unfold remote_sign. intros [Hs|(l & Hs & H1)]%rbind_Err.
    + by destruct (select_signers _ _).
    + apply map_err_Ok, select_signers_Ok in Hs as (_ & Hl & _).
      destruct (broadcast _ _ _ _ _ _) eqn:E in H1; simplify_eq/=. apply Hbc in E; [done|].
      intros ->. simpl in Hl. lia.
  - unfold remote_refresh. intros [?|([] & _ & H1)]%rbind_Err; [done|].
    apply rbind_Err in H1 as [Hc|([|[p i] rest] & Hc & H1)].
    + by destruct (collect _).
    + apply map_err_Ok, collect_Ok in Hc. by destruct (cosigners b).
    + apply rbind_Err in H1 as [Hc1|([] & _ & H1)]; [by destruct (check_equal _ _ _)|].
      destruct (broadcast _ _ _ _ _ _) eqn:E in H1; simplify_eq/=. by apply Hbc in E.
Qed.
End RemoteProperties.

(** ** Witnesses: a 2-of-3 fleet, party 0 down. *)
#[export] Instance ToyJson : JsonLib := {|
  json_public_key s := match pk_from_str s with
                       | Ok pk => Ok (MkPublicKeyInfo pk) | Err _ => Err "bad key" end;
  json_roster s := if bool_decide (s = "2-of-3")
                   then Ok (MkRosterInfo (wmod 8 3) (wmod 8 2) (array_repeat 32 (wmod 8 5)))
                   else Err "bad roster";
  json_signatures s := if bool_decide (s = "sig")
                       then Ok (MkSignaturesInfo [MkSignParts (wmod 256 11) (wmod 256 12) true])
                       else Err "bad signatures";
  json_reason _ := None;
|}.

Definition demo_url : Url := MkUrl "https" "https://cosigner".
Definition demo_fleet : list (u8 * Url) := [(wmod 8 2, demo_url); (wmod 8 0, demo_url); (wmod 8 1, demo_url)].
Definition demo_backend : RemoteBackend := MkRemote demo_fleet 2.
Definition demo_probe (p : u8) (_ : Url) (_ : string) : reply :=
  if N.eqb (wval p) 0 then SendFailed "connection refused" else Reply 200 (Some "").
Definition demo_post (p : u8) (_ : Url) (path : string) (_ : request) : reply :=
  if bool_decide (path = "sign") then Reply 200 (Some "sig")
  else Reply 200 (Some "0x02aaaaaaaaaaaaaaaaaaaaaaaaaaaaaaaaaaaaaaaaaaaaaaaaaaaaaaaaaaaaaaaa").
Definition demo_veto (p : u8) (u : Url) (path : string) (req : request) : reply :=
  if N.eqb (wval p) 1 then Reply 403 (Some "value too high") else demo_post p u path req.
Definition demo_get (p : u8) (_ : Url) (path : string) : reply :=
  if bool_decide (path = "roster") then Reply 200 (Some "2-of-3")
  else Reply 200 (Some "0x02aaaaaaaaaaaaaaaaaaaaaaaaaaaaaaaaaaaaaaaaaaaaaaaaaaaaaaaaaaaaaaaa").
Definition demo_instance : B256 := array_repeat 32 (wmod 8 7).

Lemma demo_new : remote_new demo_fleet 2 (Ok tt) = Ok demo_backend.
Proof. vm_compute. reflexivity. Qed.

Lemma combine_spec_witness :
  let rs := [(wmod 8 0, Err (Transport [])); (wmod 8 2, Err (Rejected [MkVeto (wmod 8 2) []]));
             (wmod 8 1, Err (Rejected [MkVeto (wmod 8 1) []]))] in
  exists vs, combine (fun _ : nat => []) rs = Err (Fail (Rejected vs)) /\ Sorted by_party vs.
Proof.
  cbv zeta.
  refine (let '(conj _ (conj H _)) := combine_spec (R := nat) (fun _ => [])
    [(wmod 8 0, Err (Transport [])); (wmod 8 2, Err (Rejected [MkVeto (wmod 8 2) []]));
     (wmod 8 1, Err (Rejected [MkVeto (wmod 8 1) []]))] _ _ in _).
  - intros p Hin. repeat (apply elem_of_cons in Hin as [Hin|Hin]; [discriminate Hin|]).
    by apply not_elem_of_nil in Hin.
  - discriminate.
  - destruct H as (vs & H1 & _ & H2); [discriminate|]. exists vs. split; [exact H1|exact H2].
Defined.

Lemma remote_sign_agreement_witness :
  exists signers info,
    signers = [(wmod 8 2, demo_url); (wmod 8 1, demo_url)] /\
    json_signatures "sig" = Ok info /\
    remote_sign demo_post demo_probe demo_backend demo_instance Ethereum [] = Ok (ecdsa_parts_of <$> signatures info).
Proof.
  assert (remote_sign demo_post demo_probe demo_backend demo_instance Ethereum []
          = Ok [MkEcdsaParts (wmod 256 11) (wmod 256 12) true]) as E by (vm_compute; reflexivity).
  destruct (remote_sign_agreement demo_post demo_probe demo_fleet 2 (Ok tt) demo_backend demo_instance
              Ethereum [] _ demo_new E) as (signers & info & Hs & _ & _ & _ & H).
  cbv zeta in H. destruct H as (_ & _ & _ & Hsig).
  exists signers, (MkSignaturesInfo [MkSignParts (wmod 256 11) (wmod 256 12) true]).
  split; [rewrite Hs; vm_compute; reflexivity|]. split; [vm_compute; reflexivity|exact E].
Defined.

Lemma remote_veto_final_witness :
  exists vs v, remote_sign demo_veto demo_probe demo_backend demo_instance Ethereum [] = Err (Fail (Rejected vs)) /\
    v ∈ vs /\ veto_party v = wmod 8 1.
Proof.
  destruct (remote_veto_final demo_veto demo_probe demo_backend demo_instance Ethereum []
              [(wmod 8 2, demo_url); (wmod 8 1, demo_url)] (wmod 8 1) demo_url (Some "value too high"))
    as (vs & v & H1 & H2 & H3 & _).
  - vm_compute. reflexivity.
  - right; left.
  - vm_compute. reflexivity.
  - exists vs, v. split; [exact H1|]. split; [exact H2|exact H3].
Defined.

Lemma remote_ceremony_agreement_witness :
  exists pk, remote_dkg demo_get demo_post demo_backend demo_instance = Ok pk /\
             remote_refresh demo_get demo_post demo_backend demo_instance = Ok pk /\
             preflight_roster demo_get demo_backend = Ok tt.
Proof.
  destruct (remote_dkg demo_get demo_post demo_backend demo_instance) as [pk|e] eqn:E;
    [|exfalso; vm_compute in E; discriminate E].
  exists pk. split; [reflexivity|]. split.
  - rewrite <- E. vm_compute. reflexivity.
  - exact (proj1 (proj1 (remote_ceremony_agreement demo_get demo_post demo_probe demo_backend demo_instance pk) E)).
Defined.

(** A fleet that answers only requests for all three of it, with threshold 2. *)
Definition demo_strict (p : u8) (u : Url) (path : string) (req : request) : reply :=
  match req with
  | ReqDkg q => if N.eqb (wval (dkg_n_parties q)) 3 && N.eqb (wval (dkg_threshold q)) 2
                then demo_post p u path req else Reply 400 None
  | _ => demo_post p u path req
  end.
Lemma ceremony_counts_exact_witness :
  exists pk req, remote_dkg demo_get demo_post demo_backend demo_instance = Ok pk /\
    exact_dkg demo_backend demo_instance req /\ all_answered demo_post demo_backend "dkg" req pk /\
    n_of demo_backend = 3%N /\
    remote_dkg demo_get demo_strict demo_backend demo_instance = remote_dkg demo_get demo_post demo_backend demo_instance.
Proof.
  destruct (remote_dkg demo_get demo_post demo_backend demo_instance) as [pk|e] eqn:E;
    [|exfalso; vm_compute in E; discriminate E].
  destruct (ceremony_counts_exact demo_get demo_post demo_probe demo_backend demo_instance
              (proj1 (proj2 (proj1 (remote_new_Ok demo_fleet 2 (Ok tt) demo_backend) demo_new))))
    as (H & _ & Hsame & _).
  destruct (H pk E) as (req & Hreq & Hall). exists pk, req.
  split; [reflexivity|]. split; [exact Hreq|]. split; [exact Hall|]. split; [reflexivity|].
  rewrite <- E. apply Hsame. intros c req' _ (q & -> & _ & Hn & Ht). unfold demo_strict. rewrite Hn, Ht. reflexivity.
Defined.
