(* ===== verification/Cosigner.v ===== *)
(** * The cosigner process ([crates/sovra-cosigner])

    Startup (configuration bounds, identity key, pinned roster, sealer) and
    the control-plane handlers.  Handlers run over the process state: the
    store's file system, the operation lock, and the log of what left the
    process (relay dials and protocol runs), so that "nothing was dialed" and
    "nothing was signed" are statements about the final state.  The protocol
    itself is the [PartyRunner] port; the network pipeline is the [Network]
    class. *)

From S2P Require Import Prelude Types Mpc Network Policy State Control Remote.
From Stdlib Require Import String Ascii NArith Lia.
From stdpp Require Import base decidable list gmap strings.
Open Scope string_scope. Open Scope list_scope.

(** ** Errors *)
(* src cosigner/errors.rs:19-49 CosignerError *)
Inductive CosignerError : Type :=
  | Busy
  | ShardExists
  | NoShard
  | RosterUnset
  | RosterMismatch (m : msg)
  | InvalidSubset (m : msg)
  | Undecodable (m : msg)
  | PolicyDenied (reason : DenyReason)
  | NoSigner
  | Relay (e : IpcError)
  | Mpc (e : MpcError)
  | State (e : StateError)
  | Identity (m : msg)
  | RunTimeout.

(* src cosigner/errors.rs:51-85 <CosignerError as IntoResponse>::into_response *)
Definition status_of (e : CosignerError) : N :=
  match e with
  | Busy | ShardExists | NoShard | RosterUnset | RosterMismatch _ | InvalidSubset _ => 409
  | Undecodable _ => 422
  | PolicyDenied _ => 403
  | NoSigner => 404
  | Relay _ | Mpc _ | RunTimeout => 502
  | State _ | Identity _ => 500
  end.

(* src cosigner/errors.rs:19-49 <CosignerError as Display>::fmt *)
Definition cosigner_error_text (e : CosignerError) : msg :=
  match e with
  | Busy => [Lit "an mpc run is already in progress"]
  | ShardExists => [Lit "a key shard already exists; refusing to overwrite"]
  | NoShard => [Lit "no key shard; run dkg first"]
  | RosterUnset => [Lit "participant roster not configured"]
  | RosterMismatch m => Lit "scheme mismatch: " :: m
  | InvalidSubset m => Lit "invalid signing subset: " :: m
  | Undecodable m => Lit "invalid transaction bytes: " :: m
  | PolicyDenied reason => Lit "policy denied: " :: deny_msg reason
  | NoSigner => [Lit "no active signer"]
  | Relay e => Lit "relay connection failed: " :: ipc_error_text e
  | Mpc e => Lit "mpc run failed: " :: mpc_error_text e
  | State e => state_error_text e                                     (* only logged *)
  | Identity m => Lit "identity key error: " :: m
  | RunTimeout => [Lit "mpc run timed out; peer never joined or stalled mid-run"]
  end.

(** The JSON object of an error response. *)
Record error_body : Type := MkErrorBody { eb_error : msg; eb_reason : option msg }.

(* src cosigner/errors.rs:51-85 <CosignerError as IntoResponse>::into_response *)
Definition error_body_of (e : CosignerError) : error_body :=
  match e with
  | PolicyDenied reason => MkErrorBody [Lit "policy denied"] (Some (deny_msg reason))
  | State _ | Identity _ => MkErrorBody [Lit "internal storage error"] None
  | _ => MkErrorBody (cosigner_error_text e) None
  end.

(** ** Process state *)
Section Cosigner.
Context {C : Crypto} {P : PartyRunner} {J : MetaCodec}.

(* src cosigner/state.rs:22-41 CosignerState *)
Record CosignerState : Type := MkCosigner {
  cs_party_id : u8;
  cs_signing_key : SigningKey;
  cs_roster : option (list VerifyingKey);
  cs_threshold : u8;
  cs_store : SignerStore;
  cs_ttl : Duration;
  cs_policy : Policy;
}.

(** What leaves the process. *)
Inductive effect : Type :=
  | Dialed (instance : B256)
  | RanKeygen (ctx : PartyContext)
  | RanSign (ctx : PartyContext) (share : KeyShare) (digest : B256) (subset : list u8)
  | RanRefresh (ctx : PartyContext) (share : KeyShare) (pk : PubkeySec1).

(** [files]: the world of the store; [op]: is the operation lock held. *)
Record proc : Type := MkProc { files : world; op : bool; effects : list effect }.

Definition H (A : Type) : Type := M proc CosignerError A.

(** What the outside contributes to one request: each relay dial's outcome
    and the traffic of its run, and the nonce drawn to seal the shard. *)
Record env : Type := MkEnv {
  dial_result : B256 -> result IpcError Traffic;
  seal_nonce : array 24;
}.

Definition log (e : effect) : H unit :=
  fun s => (Ok tt, MkProc (files s) (op s) (effects s ++ [e])).

Definition on_store {A} (x : S_ A) : M proc StateError A :=
  fun s => let (r, w) := x (files s) in (r, MkProc w (op s) (effects s)).

(** [state.op.try_lock()], released when the handler returns. *)
Definition with_op {A} (body : H A) : H A :=
  fun s =>
    if op s then (Err Busy, s)
    else let (r, s') := body (MkProc (files s) true (effects s)) in
         (r, MkProc (files s') false (effects s')).

Section Handlers.
Variable st : CosignerState.

(* src cosigner/state.rs:44-54 CosignerState::ctx *)
Definition mk_ctx (instance : B256) : result CosignerError PartyContext :=
  let? roster := ok_or RosterUnset (cs_roster st) in
  Ok (MkContext (cs_party_id st) instance (cs_signing_key st) roster (cs_threshold st) (cs_ttl st)).

(* src cosigner/state.rs:56-67 CosignerState::dial *)
Definition dial (ev : env) (instance : B256) : H Traffic :=
  let! _ := log (Dialed instance) in
  mlift (map_err Relay (dial_result ev instance)).

(* src cosigner/state.rs:75-80 CosignerState::roster_info *)
Definition roster_preimage (roster : list VerifyingKey) (t : u8) : bytes :=
  [wmod 8 (N.of_nat (length roster)); t] ++ (roster ≫= fun vk => arr (vk_bytes vk)).

(* src cosigner/state.rs:69-86 CosignerState::roster_info *)
Definition roster_info : result CosignerError RosterInfo :=
  let? roster := ok_or RosterUnset (cs_roster st) in
  Ok (MkRosterInfo (wmod 8 (N.of_nat (length roster))) (cs_threshold st)
        (keccak256 (roster_preimage roster (cs_threshold st)))).

(* src cosigner/api.rs:167-184 assert_scheme *)
Definition assert_scheme (n : nat) (req_n req_t : u8) : result CosignerError unit :=
  if negb (N.eqb (wval req_n) (N.of_nat n)) || negb (bool_decide (req_t = cs_threshold st)) then
    Err (RosterMismatch [Lit "orchestrator expects "; Num (wval req_t); Lit "-of-"; Num (wval req_n);
           Lit ", this party is configured "; Num (wval (cs_threshold st)); Lit "-of-"; Num (N.of_nat n)])
  else Ok tt.

(** [timeout(ttl, run).await.map_err(|_| RunTimeout)??]. *)
Definition finish {A} (x : option (result MpcError A)) : H A :=
  match x with
  | None => mabort RunTimeout
  | Some r => mlift (map_err Mpc r)
  end.

(* src cosigner/api.rs:43-47 dkg *)
Definition refuse_existing (id : SignerId) : H unit :=
  fun s =>
    match on_store (load_metadata (cs_store st) id) s with
    | (Ok _, s) => (Err ShardExists, s)
    | (Err (NotFound _), s) => (Ok tt, s)
    | (Err e, s) => (Err (State e), s)
    end.

(* src cosigner/api.rs:101-105 sign *)
Definition load_own_shard (missing : CosignerError) : H KeyShare :=
  fun s =>
    match on_store (load_shard (cs_store st) ACTIVE_SIGNER_ID) s with
    | (Ok share, s) => (Ok share, s)
    | (Err (NotFound _), s) => (Err missing, s)
    | (Err e, s) => (Err (State e), s)
    end.

Definition save (ev : env) (pk : PubkeySec1) (share : KeyShare) : H unit :=
  mmap_err State (on_store (save_shard (cs_store st) (seal_nonce ev) (MkMeta ACTIVE_SIGNER_ID pk) share)).

(* src cosigner/api.rs:37-64 dkg *)
Definition dkg (ev : env) (req : StartDkgRequest) : H PublicKeyInfo :=
  with_op (
    let! _ := refuse_existing ACTIVE_SIGNER_ID in
    let! ctx := mlift (mk_ctx (dkg_instance req)) in
    let! _ := mlift (assert_scheme (length (party_vks ctx)) (dkg_n_parties req) (dkg_threshold req)) in
    let! traffic := dial ev (dkg_instance req) in
    let! _ := log (RanKeygen ctx) in
    let! (share, pk) := finish (keygen ctx traffic) in
    let! _ := save ev pk share in
    mpure (MkPublicKeyInfo pk)).

(** The checks on the requested subset. *)
(* src cosigner/api.rs:80-95 sign *)
Definition check_subset (roster : list VerifyingKey) (subset : list u8) : result CosignerError unit :=
  let n := N.of_nat (length roster) in
  if negb (N.eqb (N.of_nat (length subset)) (wval (cs_threshold st)))
     || negb (ascending (wval <$> subset))
     || existsb (fun p => N.leb n (wval p)) subset
  then Err (InvalidSubset [Nums (wval <$> subset); Lit " is not "; Num (wval (cs_threshold st));
              Lit " strictly ascending party ids < "; Num n])
  else if negb (contains (cs_party_id st) subset)
  then Err (InvalidSubset [Lit "party "; Num (wval (cs_party_id st)); Lit " is not in ";
              Nums (wval <$> subset)])
  else Ok tt.

(* src cosigner/api.rs:125-141 vet *)
Definition vet {N : Network} (policy : Policy) (b : bytes) : result CosignerError (list B256) :=
  let? tx := map_err (fun e => Undecodable (tx_error_text e)) (decode_unsigned b) in
  let? _ := map_err (fun e => Undecodable (tx_error_text e)) (validate tx) in
  let digests := signing_digests tx in
  match evaluate policy (policy_view tx) with
  | Deny reason => Err (PolicyDenied reason)
  | Allow => Ok digests
  end.

(** One protocol run per digest, each on its own derived instance. *)
(* src cosigner/api.rs:106-121 sign *)
Fixpoint sign_digests (ev : env) (instance : B256) (share : KeyShare) (subset : list u8)
    (index : nat) (digests : list B256) : H (list SignParts) :=
  match digests with
  | [] => mpure []
  | digest :: digests =>
      let run_instance := sub_instance instance (wmod 32 (N.of_nat index)) in
      let! ctx := mlift (mk_ctx run_instance) in
      let! traffic := dial ev run_instance in
      let! _ := log (RanSign ctx share digest subset) in
      let! parts := finish (run_sign ctx share digest subset traffic) in
      let! rest := sign_digests ev instance share subset (S index) digests in
      mpure (sign_parts_of parts :: rest)
  end.

(* src cosigner/api.rs:66-123 sign *)
Definition sign {N : Network} (ev : env) (req : StartSignRequest) : H SignaturesInfo :=
  with_op (
    let! roster := mlift (ok_or RosterUnset (cs_roster st)) in
    let subset := participants req in
    let! _ := mlift (check_subset roster subset) in
    let! digests := match network req with
                    | Ethereum => mlift (vet (cs_policy st) (unsigned_transaction req))
                    end in
    let! share := load_own_shard NoShard in
    let! sigs := sign_digests ev (sign_instance req) share subset 0 digests in
    mpure (MkSignaturesInfo sigs)).

(* src cosigner/api.rs:143-149 roster *)
Definition roster : H RosterInfo := mlift roster_info.

(* src cosigner/api.rs:151-165 pubkey *)
Definition pubkey : H PublicKeyInfo :=
  let! share := load_own_shard NoSigner in
  mlift (map_err Mpc (rmap MkPublicKeyInfo (public_key_of share))).

(* src cosigner/api.rs:186-222 refresh *)
Definition refresh (ev : env) (req : StartRefreshRequest) : H PublicKeyInfo :=
  with_op (
    let! ctx := mlift (mk_ctx (refresh_instance req)) in
    let! _ := mlift (assert_scheme (length (party_vks ctx)) (refresh_n_parties req)
                       (refresh_threshold req)) in
    let! old_share := load_own_shard NoShard in
    let! traffic := dial ev (refresh_instance req) in
    let! _ := log (RanRefresh ctx old_share (refresh_public_key req)) in
    let! (share, pk) := finish (run_refresh ctx old_share (refresh_public_key req) traffic) in
    let! _ := save ev pk share in
    mpure (MkPublicKeyInfo pk)).

(* src cosigner/api.rs:224-232 signer *)
Definition signer : H PublicKeyInfo :=
  fun s =>
    match on_store (load_active (cs_store st) ACTIVE_SIGNER_ID) s with
    | (Ok (Some pk), s) => (Ok (MkPublicKeyInfo pk), s)
    | (Ok None, s) => (Err NoSigner, s)
    | (Err e, s) => (Err (State e), s)
    end.

(* src cosigner/api.rs:234-238 identity *)
Definition identity {X : HexCodec} : string := hex_encode (arr (vk_bytes (verifying_key (cs_signing_key st)))).
End Handlers.
End Cosigner.

(** ** Lemmas *)
Section CosignerLemmas.
Context {C : Crypto} {P : PartyRunner} {J : MetaCodec}.
Variable st : CosignerState.

Lemma fs_read_fs p w r w' : fs_read p w = (r, w') -> fs w' = fs w.
Proof.
  unfold fs_read. destruct (pop_fault w) as [fault w1] eqn:Hp. apply pop_fault_fs in Hp.
  destruct fault; [by intros [= _ <-]|]. destruct (fs w1 !! p) as [[]|]; by intros [= _ <-].
Qed.

Lemma read_or_not_found_fs p id w r w' : read_or_not_found p id w = (r, w') -> fs w' = fs w.
Proof.
  unfold read_or_not_found. destruct (fs_read p w) as [[b|[]] w1] eqn:E; apply fs_read_fs in E;
    by intros [= _ <-].
Qed.

Lemma load_shard_fs so id w r w' : load_shard so id w = (r, w') -> fs w' = fs w.
Proof.
  unfold load_shard, mbnd, mlift. destruct (signer_dir so id); [|by intros [= _ <-]].
  destruct (read_or_not_found _ id w) as [[b|e] w1] eqn:E; apply read_or_not_found_fs in E;
    by intros [= _ <-].
Qed.

Lemma load_metadata_fs so id w r w' : load_metadata so id w = (r, w') -> fs w' = fs w.
Proof.
  unfold load_metadata, mbnd, mlift. destruct (signer_dir so id); [|by intros [= _ <-]].
  destruct (read_or_not_found _ id w) as [[b|e] w1] eqn:E; apply read_or_not_found_fs in E;
    by intros [= _ <-].
Qed.

Lemma fs_read_Ok p w c w' :
  fs_read p w = (Ok c, w') -> fs w' = fs w /\ fs_read p (no_faults w) = (Ok c, no_faults w).
Proof.
  unfold fs_read at 1. destruct (pop_fault w) as [fault w1] eqn:E. apply pop_fault_fs in E as E1.
  destruct fault; [done|]. destruct (fs w1 !! p) as [[d m|]|] eqn:Hp; [|done..]. intros [= <- <-].
  split; [done|]. rewrite fs_read_quiet. unfold content. rewrite <- E1, Hp. done.
Qed.

(** A shard that could be loaded is what the disk holds. *)
Lemma load_shard_Ok so id w share w' :
  load_shard so id w = (Ok share, w') ->
  fs w' = fs w /\ load_shard so id (no_faults w) = (Ok share, no_faults w).
Proof.
  unfold load_shard. intros (d & w1 & [Hd <-]%pair_eq & (sealed & w2 & Hr & [Ho <-]%pair_eq)%mbnd_Ok)%mbnd_Ok.
  unfold read_or_not_found in Hr. destruct (fs_read _ w) as [[c|[]] w3] eqn:Hf; try done.
  injection Hr as <- <-. apply fs_read_Ok in Hf as [Hfs Hq]. split; [done|].
  unfold mbnd, mlift, read_or_not_found. rewrite Hd, Hq. by rewrite Ho.
Qed.

(** [with_op]: the body runs with the lock held, and the lock is free after. *)
Lemma with_op_inv {A} (body : H A) s r s' :
  with_op body s = (r, s') ->
  (op s = true /\ r = Err Busy /\ s' = s) \/
  (op s = false /\ op s' = false /\ exists s1, body (MkProc (files s) true (effects s)) = (r, s1) /\
     files s' = files s1 /\ effects s' = effects s1).
Proof.
  unfold with_op. destruct (op s); [intros [= <- <-]; auto|].
  destruct (body _) as [r1 s1] eqn:E. intros [= <- <-]. right. simpl. split_and!; eauto.
Qed.

Lemma with_op_busy {A} (body : H A) s : op s = true -> with_op body s = (Err Busy, s).
Proof. intros Hop. unfold with_op. by rewrite Hop. Qed.

Lemma with_op_releases {A} (body : H A) s : op s = false -> op (snd (with_op body s)) = false.
Proof. intros Hop. unfold with_op. rewrite Hop. by destruct (body _). Qed.

Lemma finish_Ok {A} (x : option (result MpcError A)) s a s' :
  finish x s = (Ok a, s') <-> x = Some (Ok a) /\ s' = s.
Proof.
  unfold finish, mlift, mabort. destruct x as [[b|e]|]; simpl; naive_solver.
Qed.

Lemma finish_state {A} (x : option (result MpcError A)) s r s' : finish x s = (r, s') -> s' = s.
Proof. unfold finish, mlift, mabort. destruct x as [[b|e]|]; simpl; naive_solver. Qed.

Lemma load_own_shard_state missing s r s' :
  load_own_shard st missing s = (r, s') ->
  fs (files s') = fs (files s) /\ op s' = op s /\ effects s' = effects s /\
  (forall share, r = Ok share -> fst (load_shard (cs_store st) ACTIVE_SIGNER_ID (files s)) = Ok share).
Proof.
  unfold load_own_shard, on_store.
  destruct (load_shard (cs_store st) ACTIVE_SIGNER_ID (files s)) as [[b|e] w] eqn:E.
  - intros [= <- <-]. apply load_shard_fs in E. simpl. split_and!; try done. by intros ? [= ->].
  - apply load_shard_fs in E. destruct e; intros [= <- <-]; done.
Qed.

Lemma dial_state ev i s r s' :
  dial ev i s = (r, s') ->
  files s' = files s /\ op s' = op s /\ effects s' = effects s ++ [Dialed i].
Proof. unfold dial, log, mbnd, mlift. simpl. by intros [= <- <-]. Qed.

(** The runs of one signing request. *)
Definition runs_of (instance : B256) (share : KeyShare) (subset : list u8)
    (index : nat) (digests : list B256) (e : effect) : Prop :=
  exists k d, digests !! k = Some d /\
    let run := sub_instance instance (wmod 32 (N.of_nat (index + k))) in
    (e = Dialed run \/ exists ctx, mk_ctx st run = Ok ctx /\ e = RanSign ctx share d subset).

Lemma runs_of_S instance share subset index d digests e :
  runs_of instance share subset (S index) digests e ->
  runs_of instance share subset index (d :: digests) e.
Proof. intros (k & d' & Hk & H). exists (S k), d'. split; [done|]. by rewrite Nat.add_succ_r. Qed.

Lemma sign_digests_effects ev instance share subset index digests s r s' :
  sign_digests st ev instance share subset index digests s = (r, s') ->
  files s' = files s /\ op s' = op s /\
  exists l, effects s' = effects s ++ l /\ Forall (runs_of instance share subset index digests) l.
Proof.
  revert index s r s'; induction digests as [|d digests IH]; intros index s r s'; cbn [sign_digests].
  - intros [= <- <-]. split_and!; try done. exists []. by rewrite app_nil_r.
  - set (run := sub_instance instance (wmod 32 (N.of_nat index))).
    assert (forall e, e = Dialed run -> runs_of instance share subset index (d :: digests) e) as Hd.
    { intros e ->. exists 0%nat, d. split; [done|]. rewrite Nat.add_0_r. by left. }
    unfold mbnd at 1, mlift at 1. destruct (mk_ctx st run) as [ctx|e] eqn:Hctx.
    2:{ intros [= <- <-]. split_and!; try done. exists []. by rewrite app_nil_r. }
    unfold mbnd at 1. destruct (dial ev run s) as [[tr|e] s1] eqn:Hdial;
      apply dial_state in Hdial as (Hf1 & Ho1 & He1).
    2:{ intros [= <- <-]. split_and!; try done. exists [Dialed run]. split; [done|].
        constructor; [by apply Hd|constructor]. }
    unfold mbnd at 1, log at 1. set (s2 := MkProc _ _ _).
    assert (effects s2 = effects s ++ [Dialed run; RanSign ctx share d subset]) as He2.
    { unfold s2. simpl. by rewrite He1, <- app_assoc. }
    assert (Forall (runs_of instance share subset index (d :: digests))
              [Dialed run; RanSign ctx share d subset]) as Hhd.
    { constructor; [by apply Hd|]. constructor; [|constructor].
      exists 0%nat, d. split; [done|]. rewrite Nat.add_0_r. right. by exists ctx. }
    unfold mbnd at 1. destruct (finish _ s2) as [[parts|e] s3] eqn:Hfin;
      apply finish_state in Hfin as ->.
    2:{ intros [= <- <-]. split_and!; try done. by eexists. }
    unfold mbnd at 1. destruct (sign_digests st ev instance share subset (S index) digests s2)
      as [[rest|e] s4] eqn:Hrec; apply IH in Hrec as (Hf4 & Ho4 & l & Hl & Hall); intros [= <- <-].
    all: split; [rewrite Hf4; exact Hf1|]; split; [rewrite Ho4; exact Ho1|].
    all: exists ([Dialed run; RanSign ctx share d subset] ++ l); rewrite Hl, He2, <- app_assoc.
    all: split; [done|]; apply Forall_app; split; [done|].
    all: eapply Forall_impl; [exact Hall|]; intros; by apply runs_of_S.
Qed.

(** The subset checks, as a proposition. *)
Definition good_subset (roster : list VerifyingKey) (subset : list u8) : Prop :=
  N.of_nat (length subset) = wval (cs_threshold st) /\ ascending (wval <$> subset) = true /\
  Forall (fun p => (wval p < N.of_nat (length roster))%N) subset /\ cs_party_id st ∈ subset.

Lemma check_subset_Ok roster subset :
  check_subset st roster subset = Ok tt <-> good_subset roster subset.
Proof.
  unfold check_subset, good_subset.
  destruct (negb _ || negb (ascending _) || existsb _ _) eqn:Hb.
  - split; [done|]. intros (Hl & Ha & Hf & _). exfalso.
    rewrite (proj2 (N.eqb_eq _ _) Hl), Ha in Hb. simpl in Hb.
    apply existsb_exists in Hb as (p & Hp & Hle). apply list_elem_of_In in Hp.
    rewrite Forall_forall in Hf. apply Hf in Hp. apply N.leb_le in Hle. lia.
  - apply orb_false_iff in Hb as [[H1%negb_false_iff%N.eqb_eq H2%negb_false_iff]%orb_false_iff H3].
    destruct (contains (cs_party_id st) subset) eqn:Hc; simpl.
    + apply contains_true in Hc. split; [|done]. intros _. split_and!; try done.
      apply Forall_forall. intros p Hp. apply N.lt_nge. intros Hle.
      assert (existsb (fun p => N.leb (N.of_nat (length roster)) (wval p)) subset = true); [|congruence].
      apply existsb_exists. exists p. split; [by apply list_elem_of_In|by apply N.leb_le].
    + apply contains_false in Hc. split; [done|tauto].
Qed.

Lemma vet_Ok {N : Network} policy b digests :
  vet policy b = Ok digests <->
  exists tx, decode_unsigned b = Ok tx /\ validate tx = Ok tt /\
    evaluate policy (policy_view tx) = Allow /\ digests = signing_digests tx.
Proof.
  unfold vet. rewrite rbind_Ok. setoid_rewrite map_err_Ok. setoid_rewrite rbind_Ok.
  setoid_rewrite map_err_Ok. split.
  - intros (tx & Hd & [] & Hv & He). exists tx. split_and!; try done.
    + by destruct (evaluate policy (policy_view tx)).
    + destruct (evaluate policy (policy_view tx)); [by injection He as <-|done].
  - intros (tx & Hd & Hv & He & ->). exists tx. split; [done|]. exists tt. split; [done|]. by rewrite He.
Qed.
End CosignerLemmas.

(** ** Properties *)
Section CosignerProperties.
Context {C : Crypto} {P : PartyRunner} {J : MetaCodec}.
Variable st : CosignerState.

(** C2: nothing is signed, and no peer is even dialed, without policy.
    Whatever the request and the outside world do, a [/sign] never changes the
    store, and if it dialed or ran anything then the operation lock was free,
    the requested subset is well formed and contains this party, the bytes
    decoded to a valid transaction that this party's own policy allows, and
    everything that was run signs, under this party's stored shard, one of the
    digests of that very transaction. *)
Theorem sign_requires_policy {N : Network} ev req s r s' :
  sign st ev req s = (r, s') ->
  fs (files s') = fs (files s) /\
  exists l, effects s' = effects s ++ l /\
    (l <> [] -> exists roster tx share,
       op s = false /\ cs_roster st = Some roster /\ good_subset st roster (participants req) /\
       decode_unsigned (unsigned_transaction req) = Ok tx /\ validate tx = Ok tt /\
       evaluate (cs_policy st) (policy_view tx) = Allow /\
       fst (load_shard (cs_store st) ACTIVE_SIGNER_ID (files s)) = Ok share /\
       Forall (runs_of st (sign_instance req) share (participants req) 0 (signing_digests tx)) l).
Proof.
  intros [(_ & -> & ->)|(Hop & _ & s1 & Hb & Hf & He)]%with_op_inv.
  { split; [done|]. exists []. by rewrite app_nil_r. }
  rewrite Hf, He. clear Hf He s'. set (s0 := MkProc _ _ _) in Hb.
  assert (forall {A} (e : CosignerError) (r : result CosignerError A) s2, fs (files s2) = fs (files s0) ->
            effects s2 = effects s0 -> fs (files s2) = fs (files s) /\ exists l, effects s2 = effects s ++ l /\
            (l <> [] -> False)) as Hstop.
  { intros A _ _ s2 Hfs Hes. rewrite Hfs, Hes. split; [done|]. exists []. by rewrite app_nil_r. }
  unfold mbnd at 1, mlift at 1 in Hb. destruct (cs_roster st) as [roster|] eqn:Hr; cbn [ok_or] in Hb.
  2:{ injection Hb as <- <-. destruct (Hstop unit Busy (Ok tt) s0) as (? & l & ? & ?); try done. naive_solver. }
  unfold mbnd at 1, mlift at 1 in Hb.
  destruct (check_subset st roster (participants req)) as [[]|e] eqn:Hsub.
  2:{ injection Hb as <- <-. destruct (Hstop unit Busy (Ok tt) s0) as (? & l & ? & ?); try done. naive_solver. }
  apply check_subset_Ok in Hsub. destruct (network req).
  unfold mbnd at 1, mlift at 1 in Hb.
  destruct (vet (cs_policy st) (unsigned_transaction req)) as [digests|e] eqn:Hvet.
  2:{ injection Hb as <- <-. destruct (Hstop unit Busy (Ok tt) s0) as (? & l & ? & ?); try done. naive_solver. }
  apply vet_Ok in Hvet as (tx & Hd & Hv & Hal & ->).
  unfold mbnd at 1 in Hb.
  destruct (load_own_shard st NoShard s0) as [[share|e] s2] eqn:Hl;
    apply load_own_shard_state in Hl as (Hf2 & _ & He2 & Hsh).
  2:{ injection Hb as <- <-. destruct (Hstop unit Busy (Ok tt) s2) as (? & l & ? & ?); try done. naive_solver. }
  unfold mbnd at 1 in Hb.
  destruct (sign_digests st ev (sign_instance req) share (participants req) 0 (signing_digests tx) s2)
    as [[sigs|e] s3] eqn:Hrun; apply sign_digests_effects in Hrun as (Hf3 & _ & l & He3 & Hall);
    injection Hb as <- <-; rewrite Hf3; (split; [exact Hf2|]); exists l;
    (split; [by rewrite He3, He2|]); intros _; exists roster, tx, share; split_and!; auto; by apply Hsub.
Qed.

(** One run's outcome, from the outside world's contribution. *)
Definition run_outcome (ev : env) (run : B256) (share : KeyShare) (subset : list u8) (d : B256)
    (parts : EcdsaParts) : Prop :=
  exists ctx tr, mk_ctx st run = Ok ctx /\ dial_result ev run = Ok tr /\
    run_sign ctx share d subset tr = Some (Ok parts).

Lemma sign_digests_Ok ev instance share subset index digests s sigs s' :
  sign_digests st ev instance share subset index digests s = (Ok sigs, s') ->
  length sigs = length digests /\
  forall k d sg, digests !! k = Some d -> sigs !! k = Some sg ->
    exists parts, sg = sign_parts_of parts /\
      run_outcome ev (sub_instance instance (wmod 32 (N.of_nat (index + k)))) share subset d parts.
Proof.
  revert index s sigs s'; induction digests as [|d digests IH]; intros index s sigs s'; cbn [sign_digests].
  - intros [= <- _]. split; [done|]. intros k ? ?. by rewrite lookup_nil.
  - intros (ctx & s1 & [Hctx <-]%pair_eq & H)%mbnd_Ok.
    apply mbnd_Ok in H as (tr & s2 & Hd & H).
    assert (dial_result ev (sub_instance instance (wmod 32 (N.of_nat index))) = Ok tr) as Htr.
    { unfold dial, log, mbnd, mlift in Hd. simpl in Hd. injection Hd as Hd _. by apply map_err_Ok in Hd. }
    apply mbnd_Ok in H as (u & s3 & _ & H).
    apply mbnd_Ok in H as (parts & s4 & [Hf _]%finish_Ok & H).
    apply mbnd_Ok in H as (rest & s5 & Hrec & H). injection H as <- _.
    apply IH in Hrec as [Hlen Hk]. split; [simpl; congruence|].
    intros [|k] d' sg Hd' Hsg; simpl in Hd', Hsg.
    + injection Hd' as ->. injection Hsg as <-. exists parts. rewrite Nat.add_0_r.
      split; [done|]. by exists ctx, tr.
    + rewrite Nat.add_succ_r. exact (Hk k d' sg Hd' Hsg).
Qed.

(** Everything a successful [/sign] went through. *)
Lemma sign_Ok {N : Network} ev req s info s' :
  sign st ev req s = (Ok info, s') ->
  exists roster tx share,
    cs_roster st = Some roster /\ good_subset st roster (participants req) /\
    decode_unsigned (unsigned_transaction req) = Ok tx /\ validate tx = Ok tt /\
    evaluate (cs_policy st) (policy_view tx) = Allow /\
    fst (load_shard (cs_store st) ACTIVE_SIGNER_ID (files s)) = Ok share /\
    length (signatures info) = length (signing_digests tx) /\
    forall k d sg, signing_digests tx !! k = Some d -> signatures info !! k = Some sg ->
      exists parts, sg = sign_parts_of parts /\
        run_outcome ev (sub_instance (sign_instance req) (wmod 32 (N.of_nat k))) share
          (participants req) d parts.
Proof.
  intros [(_ & ? & _)|(Hop & _ & s1 & Hb & _ & _)]%with_op_inv; [done|].
  apply mbnd_Ok in Hb as (roster & sa & [Hro <-]%pair_eq & Hb). apply ok_or_Ok in Hro.
  apply mbnd_Ok in Hb as ([] & sb & [Hsub%check_subset_Ok <-]%pair_eq & Hb).
  apply mbnd_Ok in Hb as (digests & sc & Hv & Hb). destruct (network req).
  apply pair_eq in Hv as [Hv <-]. apply vet_Ok in Hv as (tx & Hd & Hval & Hal & ->).
  apply mbnd_Ok in Hb as (share & sd & Hl & Hb).
  apply load_own_shard_state in Hl as (_ & _ & _ & Hsh). specialize (Hsh _ eq_refl). simpl in Hsh.
  apply mbnd_Ok in Hb as (sigs & se & Hr & Hb). injection Hb as <- _.
  apply sign_digests_Ok in Hr as [Hlen Hk]. by exists roster, tx, share.
Qed.

(** What a successful [/sign] returns: one signature per digest of the
    decoded transaction, in digest order, each the output of its own protocol
    run on an instance derived from the request and the digest's index, by
    this party's context and stored shard. *)
Theorem sign_functional {N : Network} ev req s info s' :
  sign st ev req s = (Ok info, s') ->
  exists tx share,
    decode_unsigned (unsigned_transaction req) = Ok tx /\
    fst (load_shard (cs_store st) ACTIVE_SIGNER_ID (files s)) = Ok share /\
    length (signatures info) = length (signing_digests tx) /\
    forall k d sg, signing_digests tx !! k = Some d -> signatures info !! k = Some sg ->
      exists parts, sg = sign_parts_of parts /\
        run_outcome ev (sub_instance (sign_instance req) (wmod 32 (N.of_nat k))) share
          (participants req) d parts.
Proof. intros (roster & tx & share & _ & _ & Hd & _ & _ & Hsh & Hl & Hk)%sign_Ok. by exists tx, share. Qed.

(** Key generation never overwrites a generation.  If this signer's
    metadata file exists, readable or not, [/dkg] fails, changes nothing on
    disk, and contacts nobody. *)
Theorem dkg_never_overwrites ev req s r s' d :
  signer_dir (cs_store st) ACTIVE_SIGNER_ID = Ok d ->
  content (fs (files s)) (meta_path d) <> None ->
  dkg st ev req s = (r, s') ->
  (exists e, r = Err e) /\ fs (files s') = fs (files s) /\ effects s' = effects s.
Proof.
  intros Hd Hex [(_ & -> & ->)|(Hop & _ & s1 & Hb & Hf & He)]%with_op_inv; [eauto|].
  rewrite Hf, He. clear Hf He s'. set (s0 := MkProc _ _ _) in Hb. unfold mbnd at 1 in Hb.
  assert (exists e w, refuse_existing st ACTIVE_SIGNER_ID s0 = (Err e, MkProc w true (effects s)) /\
          fs w = fs (files s)) as (e & w & Hr & Hfs).
  { unfold refuse_existing, on_store.
    destruct (load_metadata (cs_store st) ACTIVE_SIGNER_ID (files s0)) as [res w] eqn:E.
    pose proof (load_metadata_fs _ _ _ _ _ E) as Hfs.
    destruct res as [m|[]]; try (by eexists _, w). exfalso.
    unfold load_metadata, mbnd, mlift in E. rewrite Hd in E. fold (meta_path d) in E.
    unfold read_or_not_found, fs_read in E. unfold content in Hex. simpl in E.
    destruct (pop_fault (files s)) as [fault w0] eqn:Hp. apply pop_fault_fs in Hp. rewrite Hp in E.
    destruct fault; [done|]. destruct (fs (files s) !! meta_path d) as [[b m|m]|]; [|done|done].
    simpl in E. by destruct (from_json b). }
  rewrite Hr in Hb. injection Hb as <- <-. eauto.
Qed.

Lemma save_stored {JL : MetaLaws J} ev pk share s s' :
  sealer_ok (sealer (cs_store st)) -> save st ev pk share s = (Ok tt, s') ->
  fst (load_shard (cs_store st) ACTIVE_SIGNER_ID (no_faults (files s'))) = Ok share /\
  fst (load_active (cs_store st) ACTIVE_SIGNER_ID (no_faults (files s'))) = Ok (Some pk).
Proof.
  intros Hseal Hs. unfold save, mmap_err, on_store in Hs.
  destruct (save_shard _ _ _ share (files s)) as [res w] eqn:E. injection Hs as Hres <-.
  apply map_err_Ok in Hres as ->. simpl.
  by destruct (save_loads _ _ _ _ _ _ Hseal E) as (_ & H1 & H2).
Qed.

Lemma assert_scheme_Ok n rn rt :
  assert_scheme st n rn rt = Ok tt -> wval rn = N.of_nat n /\ rt = cs_threshold st.
Proof.
  unfold assert_scheme. destruct (negb _ || _) eqn:E; [done|]. intros _.
  apply orb_false_iff in E as [E1%negb_false_iff%N.eqb_eq E2%negb_false_iff%bool_decide_eq_true]. done.
Qed.

(** The store holds [share] of the key [pk] as its active generation. *)
Definition has_stored (pk : PubkeySec1) (share : KeyShare) (s : proc) : Prop :=
  fst (load_shard (cs_store st) ACTIVE_SIGNER_ID (no_faults (files s))) = Ok share /\
  fst (load_active (cs_store st) ACTIVE_SIGNER_ID (no_faults (files s))) = Ok (Some pk).

(** Everything a successful [/dkg] went through. *)
Lemma dkg_Ok {JL : MetaLaws J} ev req s info s' :
  sealer_ok (sealer (cs_store st)) -> dkg st ev req s = (Ok info, s') ->
  exists ctx tr share, mk_ctx st (dkg_instance req) = Ok ctx /\
    wval (dkg_n_parties req) = N.of_nat (length (party_vks ctx)) /\
    dkg_threshold req = cs_threshold st /\
    keygen ctx tr = Some (Ok (share, info_public_key info)) /\
    has_stored (info_public_key info) share s'.
Proof.
  intros Hseal [(_ & ? & _)|(Hop & _ & s1 & Hb & Hf & _)]%with_op_inv; [done|].
  apply mbnd_Ok in Hb as ([] & sa & _ & Hb).
  apply mbnd_Ok in Hb as (ctx & sb & [Hctx <-]%pair_eq & Hb).
  apply mbnd_Ok in Hb as ([] & sc & [Hs _]%pair_eq & Hb). apply assert_scheme_Ok in Hs as [Hn Ht].
  apply mbnd_Ok in Hb as (tr & sd & _ & Hb). apply mbnd_Ok in Hb as (u & se & _ & Hb).
  apply mbnd_Ok in Hb as ([share pk] & sf & [Hfin _]%finish_Ok & Hb).
  apply mbnd_Ok in Hb as ([] & sg & Hsv & Hb). injection Hb as <- <-.
  exists ctx, tr, share. cbn [info_public_key]. unfold has_stored. rewrite Hf.
  split_and!; try done; by eapply save_stored.
Qed.

(** Everything a successful [/refresh] went through. *)
Lemma refresh_Ok {JL : MetaLaws J} ev req s info s' :
  sealer_ok (sealer (cs_store st)) -> refresh st ev req s = (Ok info, s') ->
  exists ctx tr old share, mk_ctx st (refresh_instance req) = Ok ctx /\
    wval (refresh_n_parties req) = N.of_nat (length (party_vks ctx)) /\
    refresh_threshold req = cs_threshold st /\
    fst (load_shard (cs_store st) ACTIVE_SIGNER_ID (files s)) = Ok old /\
    run_refresh ctx old (refresh_public_key req) tr = Some (Ok (share, info_public_key info)) /\
    has_stored (info_public_key info) share s'.
Proof.
  intros Hseal [(_ & ? & _)|(Hop & _ & s1 & Hb & Hf & _)]%with_op_inv; [done|].
  apply mbnd_Ok in Hb as (ctx & sb & [Hctx <-]%pair_eq & Hb).
  apply mbnd_Ok in Hb as ([] & sc & [Hs <-]%pair_eq & Hb). apply assert_scheme_Ok in Hs as [Hn Ht].
  apply mbnd_Ok in Hb as (old & sl & Hl & Hb). apply load_own_shard_state in Hl as (_ & _ & _ & Hsh).
  specialize (Hsh _ eq_refl).
  apply mbnd_Ok in Hb as (tr & sd & _ & Hb). apply mbnd_Ok in Hb as (u & se & _ & Hb).
  apply mbnd_Ok in Hb as ([share pk] & sf & [Hfin _]%finish_Ok & Hb).
  apply mbnd_Ok in Hb as ([] & sg & Hsv & Hb). injection Hb as <- <-.
  exists ctx, tr, old, share. cbn [info_public_key]. unfold has_stored. rewrite Hf.
  split_and!; try done; by eapply save_stored.
Qed.

(** What a successful ceremony leaves.  After a successful [/dkg] or
    [/refresh] the protocol run returned the share and key, the key is the one
    answered, and the store reads back exactly that share and reports that key
    as this signer's active one; a refresh ran on the share stored before. *)
Theorem ceremony_stores {JL : MetaLaws J} ev s s' pk :
  sealer_ok (sealer (cs_store st)) ->
  (forall req, dkg st ev req s = (Ok (MkPublicKeyInfo pk), s') ->
     exists ctx tr share, mk_ctx st (dkg_instance req) = Ok ctx /\
       wval (dkg_n_parties req) = N.of_nat (length (party_vks ctx)) /\
       dkg_threshold req = cs_threshold st /\
       keygen ctx tr = Some (Ok (share, pk)) /\ has_stored pk share s') /\
  (forall req, refresh st ev req s = (Ok (MkPublicKeyInfo pk), s') ->
     exists ctx tr old share, mk_ctx st (refresh_instance req) = Ok ctx /\
       wval (refresh_n_parties req) = N.of_nat (length (party_vks ctx)) /\
       refresh_threshold req = cs_threshold st /\
       fst (load_shard (cs_store st) ACTIVE_SIGNER_ID (files s)) = Ok old /\
       run_refresh ctx old (refresh_public_key req) tr = Some (Ok (share, pk)) /\ has_stored pk share s').
Proof.
  intros Hseal. split; intros req H; [by apply (dkg_Ok _ _ _ _ _ Hseal) in H|by apply (refresh_Ok _ _ _ _ _ Hseal) in H].
Qed.

(** The subset an orchestrator selects is well formed for each party in it. *)
Lemma selected_good cs t (probe : u8 -> Url -> string -> reply) signers roster url instance net tx :
  valid_backend (MkRemote cs t) ->
  select_signers probe (MkRemote cs t) = Ok signers ->
  length roster = length cs -> wval (cs_threshold st) = t ->
  Forall (fun c => (wval (fst c) < N.of_nat (length cs))%N) cs ->
  (cs_party_id st, url) ∈ signers ->
  good_subset st roster (participants (sign_request instance net tx signers)).
Proof.
  intros Hv Hsel Hlen Ht Hids Hin.
  pose proof (select_signers_Ok _ _ _ Hsel) as (Hsub & Hl & _). simpl in Hsub, Hl.
  assert (sort_ids signers.*1 ≡ₚ signers.*1) as Hp by apply sort_ids_perm.
  unfold good_subset. simpl. split_and!.
  - rewrite Hp, length_fmap. congruence.
  - apply sort_ids_ascending. by eapply signers_NoDup.
  - rewrite Hp, Hlen. apply Forall_fmap, Forall_forall. intros c Hc.
    rewrite Forall_forall in Hids. apply Hids. by eapply elem_of_sublist.
  - rewrite Hp. apply (list_elem_of_fmap_2 fst) in Hin. done.
Qed.

(** The orchestrator's signing requests are well formed for every party
    it asks.  A backend built over [n] cosigners with ids below [n] asks, for
    any readiness, each selected party to sign with a subset that passes that
    party's checks, when the party is configured with [n] parties and the same
    threshold. *)
Theorem selected_subset_accepted cs t client b instance net tx
    (probe : u8 -> Url -> string -> reply) signers roster url :
  remote_new cs t client = Ok b ->
  select_signers probe b = Ok signers ->
  length roster = length cs -> wval (cs_threshold st) = t ->
  Forall (fun c => (wval (fst c) < N.of_nat (length cs))%N) cs ->
  (cs_party_id st, url) ∈ signers ->
  check_subset st roster (participants (sign_request instance net tx signers)) = Ok tt.
Proof.
  intros (-> & Hv & _)%remote_new_Ok Hsel Hlen Ht Hids Hin.
  apply check_subset_Ok. by eapply selected_good.
Qed.

(** The operation lock: a held lock refuses all three operations with no
    effect at all, and every outcome of an operation releases it. *)
Lemma op_lock_exclusive {N : Network} ev s :
  (op s = true ->
     (forall req, dkg st ev req s = (Err Busy, s)) /\ (forall req, sign st ev req s = (Err Busy, s)) /\
     (forall req, refresh st ev req s = (Err Busy, s))) /\
  (op s = false ->
     (forall req, op (snd (dkg st ev req s)) = false) /\ (forall req, op (snd (sign st ev req s)) = false) /\
     (forall req, op (snd (refresh st ev req s)) = false)).
Proof.
  split; intros Hop; split_and!; intros req; by (apply with_op_busy || apply with_op_releases).
Qed.
End CosignerProperties.

(** ** Witnesses: party 1 of a 2-of-3 fleet, with its shard on disk. *)
#[export] Instance ToyRunner : PartyRunner (C := ToyCrypto) := {|
  Traffic := bool;                      (* whether the peers answer in time *)
  keygen ctx ok := if ok then Some (Ok (bstr "fresh", demo_pk 34)) else None;
  run_sign ctx share d subset ok :=
    if ok then Some (Ok (MkEcdsaParts (wmod 256 (be_val (arr d))) (wmod 256 (be_val share)) true)) else None;
  run_refresh ctx share pk ok := if ok then Some (Ok (bstr "rotated", pk)) else None;
  public_key_of share := Ok (demo_pk 17);
|}.

(** A one-byte transaction format: the byte is the value transferred. *)
#[export] Instance ToyNet : Network := {|
  ID := Ethereum;
  Unsigned := u8;
  decode_unsigned b := match b with [x] => Ok x | _ => Err (TxDecode [Lit "length"]) end;
  validate _ := Ok tt;
  signing_digests x := [array_repeat 32 x];
  policy_view x := TxViewEthereum (demo_view 11155111 (Some RECIPIENT) (wval x) []);
  finalize _ _ _ := Err (TxFinalize []);
  derive_address _ := Err (TxPubkey []);
|}.

Definition demo_cosigner : CosignerState :=
  MkCosigner (wmod 8 1) (toy_key 2 : @SigningKey ToyCrypto)
    (Some [toy_key 1; toy_key 2; toy_key 3]) (wmod 8 2) demo_store 60000%N demo_policy.
Definition demo_proc : proc := MkProc demo_world1 false [].
Definition demo_env : env := MkEnv (fun _ => Ok true) nonce0.
Definition demo_sign_req : StartSignRequest :=
  MkStartSign (array_repeat 32 (wmod 8 7)) Ethereum [wmod 8 42] [wmod 8 1; wmod 8 2].

Lemma sign_requires_policy_witness :
  fs (files (snd (sign demo_cosigner demo_env demo_sign_req demo_proc))) = fs (files demo_proc).
Proof.
  destruct (sign_requires_policy demo_cosigner demo_env demo_sign_req demo_proc
    (fst (sign demo_cosigner demo_env demo_sign_req demo_proc))
    (snd (sign demo_cosigner demo_env demo_sign_req demo_proc)) (surjective_pairing _)) as [H _].
  exact H.
Defined.

(** The same request run, and one refused by the policy: no effect at all. *)
Example demo_sign_effects :
  length (effects (snd (sign demo_cosigner demo_env demo_sign_req demo_proc))) = 2%nat /\
  length (effects (snd (sign (MkCosigner (wmod 8 1) (toy_key 2 : @SigningKey ToyCrypto)
      (Some [toy_key 1; toy_key 2; toy_key 3]) (wmod 8 2) demo_store 60000%N
      (MkPolicy [] Any (wmod 256 0) false false)) demo_env demo_sign_req demo_proc))) = 0%nat.
Proof. split; vm_compute; reflexivity. Qed.

Definition demo_sig : SignParts :=
  MkSignParts (wmod 256 (be_val (replicate 32 (wmod 8 42)))) (wmod 256 (be_val (bstr "party-0"))) true.

Lemma demo_sign_ok : fst (sign demo_cosigner demo_env demo_sign_req demo_proc) = Ok (MkSignaturesInfo [demo_sig]).
Proof. vm_compute. reflexivity. Qed.

Lemma sign_functional_witness :
  exists tx share, decode_unsigned [wmod 8 42] = Ok tx /\
    fst (load_shard demo_store ACTIVE_SIGNER_ID (files demo_proc)) = Ok share.
Proof.
  pose proof demo_sign_ok as Hok.
  destruct (sign demo_cosigner demo_env demo_sign_req demo_proc) as [r s'] eqn:E.
  simpl in Hok. subst r.
  destruct (sign_functional demo_cosigner demo_env demo_sign_req demo_proc _ s' E) as (tx & share & H1 & H2 & _).
  exists tx, share. split; [exact H1|exact H2].
Defined.

Definition demo_dkg_req : StartDkgRequest := MkStartDkg (array_repeat 32 (wmod 8 7)) (wmod 8 3) (wmod 8 2).

Lemma dkg_never_overwrites_witness :
  effects (snd (dkg demo_cosigner demo_env demo_dkg_req demo_proc)) = effects demo_proc.
Proof.
  destruct (dkg_never_overwrites demo_cosigner demo_env demo_dkg_req demo_proc
            (fst (dkg demo_cosigner demo_env demo_dkg_req demo_proc))
            (snd (dkg demo_cosigner demo_env demo_dkg_req demo_proc)) demo_dir demo_signer_dir)
    as (_ & _ & H).
  - vm_compute. discriminate.
  - apply surjective_pairing.
  - exact H.
Defined.

Definition demo_blank : proc := MkProc (World demo_root []) false [].

Lemma demo_dkg_ok :
  fst (dkg demo_cosigner demo_env demo_dkg_req demo_blank) = Ok (MkPublicKeyInfo (demo_pk 34)).
Proof. vm_compute. reflexivity. Qed.

Lemma ceremony_stores_witness :
  fst (load_active demo_store ACTIVE_SIGNER_ID
         (no_faults (files (snd (dkg demo_cosigner demo_env demo_dkg_req demo_blank))))) = Ok (Some (demo_pk 34)).
Proof.
  pose proof demo_dkg_ok as Hok.
  destruct (dkg demo_cosigner demo_env demo_dkg_req demo_blank) as [r s'] eqn:E.
  simpl in Hok |- *. subst r.
  destruct (proj1 (ceremony_stores demo_cosigner demo_env demo_blank s' (demo_pk 34)
              (xchacha_sealer_ok (toy_key 3))) demo_dkg_req E) as (ctx & tr & share & _ & _ & _ & _ & _ & H).
  exact H.
Defined.

Lemma selected_subset_accepted_witness :
  check_subset demo_cosigner [toy_key 1; toy_key 2; toy_key 3]
    (participants (sign_request demo_instance Ethereum [] [(wmod 8 2, demo_url); (wmod 8 1, demo_url)])) = Ok tt.
Proof.
  apply (selected_subset_accepted demo_cosigner demo_fleet 2 (Ok tt) demo_backend demo_instance Ethereum []
           demo_probe [(wmod 8 2, demo_url); (wmod 8 1, demo_url)] [toy_key 1; toy_key 2; toy_key 3] demo_url).
  - exact demo_new.
  - vm_compute. reflexivity.
  - reflexivity.
  - reflexivity.
  - repeat constructor.
  - right; left.
Defined.
