(* ===== verification/Certs.v ===== *)
(** * Certificate provisioning ([crates/sovra-certs])

    The private CA, the leaves it issues, and the two halves of CSR
    enrollment, over the file system of [State].  rcgen (key pairs, PEM,
    signing) is the interface [Rcgen]; [RcgenLaws] states what it documents:
    a serialised key loads back, a certificate carries the parameters it was
    signed with, a CSR carries the requested name and SANs and never asks for
    a CA. *)

From S2P Require Import Prelude Text Types State.
From Stdlib Require Import String Ascii NArith ZArith Lia.
From stdpp Require Import base decidable countable list gmap strings.
Open Scope string_scope. Open Scope list_scope.

(** ** rcgen *)
Inductive IsCa : Type := NoCa | ExplicitNoCa | CaUnconstrained | CaConstrained (depth : u8).
Inductive KeyUsagePurpose : Type :=
  | DigitalSignature | ContentCommitment | KeyEncipherment | DataEncipherment | KeyAgreement
  | KeyCertSign | CrlSign | EncipherOnly | DecipherOnly.
Inductive ExtendedKeyUsagePurpose : Type :=
  | AnyUsage | ServerAuth | ClientAuth | CodeSigning | EmailProtection | TimeStamping | OcspSigning
  | OtherUsage (oid : list N).
(** A distinguished-name value or a SAN of a kind the code only prints
    ([{:?}]) is its printed form. *)
Inductive DnValue : Type := Utf8String (s : string) | OtherDn (debug : string).
Inductive SanType : Type := DnsName (s : string) | IpAddress (display : string) | OtherSan (debug : string).

(** The public fields of rcgen's parameters the code reads or assigns; [rest]
    is everything else. *)
Record CertificateParams (Rest : Type) : Type := MkParams {
  is_ca : IsCa;
  common_name : option DnValue;
  subject_alt_names : list SanType;
  key_usages : list KeyUsagePurpose;
  extended_key_usages : list ExtendedKeyUsagePurpose;
  not_before : Z;
  not_after : Z;
  rest : Rest;
}.
Arguments MkParams {Rest}.
Arguments is_ca {Rest}. Arguments common_name {Rest}. Arguments subject_alt_names {Rest}.
Arguments key_usages {Rest}. Arguments extended_key_usages {Rest}.
Arguments not_before {Rest}. Arguments not_after {Rest}. Arguments rest {Rest}.

Class Rcgen : Type := {
  rc_error : Type;
  Rest : Type;
  KeyPair : Type;
  PublicKey : Type;
  Issuer : Type;
  Certificate : Type;
  Csr : Type;
  pub_of : KeyPair -> PublicKey;
  key_from_pem : bytes -> result rc_error KeyPair;
  serialize_pem : KeyPair -> bytes;
  default_params : CertificateParams Rest;
  params_new : list string -> result rc_error (CertificateParams Rest);
  issuer_new : CertificateParams Rest -> KeyPair -> Issuer;
  issuer_from_ca_cert_pem : bytes -> KeyPair -> result rc_error Issuer;
  self_signed : CertificateParams Rest -> KeyPair -> result rc_error Certificate;
  signed_by : CertificateParams Rest -> KeyPair -> Issuer -> result rc_error Certificate;
  cert_pem : Certificate -> bytes;
  serialize_request : CertificateParams Rest -> KeyPair -> result rc_error Csr;
  csr_pem : Csr -> result rc_error bytes;
  csr_from_pem : bytes -> result rc_error (CertificateParams Rest * PublicKey);
  csr_signed_by : CertificateParams Rest * PublicKey -> Issuer -> result rc_error Certificate;
  (** What an X.509 parser reads in a certificate, and who an issuer is. *)
  IssuerId : Type;
  issuer_id : Issuer -> IssuerId;
  cert_params : Certificate -> CertificateParams Rest;
  cert_subject_key : Certificate -> PublicKey;
  cert_issuer : Certificate -> IssuerId;
}.

Class RcgenLaws (R : Rcgen) : Prop := {
  key_roundtrip k : key_from_pem (serialize_pem k) = Ok k;
  key_pem_utf8 k : utf8_valid (serialize_pem k) = true;
  cert_pem_utf8 c : utf8_valid (cert_pem c) = true;
  issuer_reloads p k c : self_signed p k = Ok c ->
    exists i, issuer_from_ca_cert_pem (cert_pem c) k = Ok i /\ issuer_id i = issuer_id (issuer_new p k);
  signed_by_reads p k i c : signed_by p k i = Ok c ->
    cert_params c = p /\ cert_subject_key c = pub_of k /\ cert_issuer c = issuer_id i;
  csr_signed_by_reads p k i c : csr_signed_by (p, k) i = Ok c ->
    cert_params c = p /\ cert_subject_key c = k /\ cert_issuer c = issuer_id i;
  csr_never_ca b p k : csr_from_pem b = Ok (p, k) -> is_ca p = NoCa;
  csr_reads p k c b : serialize_request p k = Ok c -> csr_pem c = Ok b ->
    exists p', csr_from_pem b = Ok (p', pub_of k) /\ common_name p' = common_name p /\
               subject_alt_names p' = subject_alt_names p;
}.

(* src certs/lib.rs:34-34 CA_CERT_FILE *)
Definition CA_CERT_FILE : string := "ca.cert.pem".
(* src certs/lib.rs:35-35 CA_KEY_FILE *)
Definition CA_KEY_FILE : string := "ca.key.pem".
(* src certs/lib.rs:37-38 CA_VALIDITY_DAYS *)
Definition CA_VALIDITY_DAYS : Z := 3650.
(* src certs/lib.rs:39-39 LEAF_VALIDITY_DAYS *)
Definition LEAF_VALIDITY_DAYS : Z := 730.

(* src certs/lib.rs:41-46 default_sans *)
Definition default_sans : list string := ["127.0.0.1"; "localhost"].

Section Certs.
Context {R : Rcgen}.

Abbreviation params := (CertificateParams Rest).

(* src certs/lib.rs:49-74 CertsError *)
Inductive CertsError : Type :=
  | HalfPresent (dir : path) (found missing : string)
  | StaleLeaf (p : path)
  | CertIo (p : path) (source : io_error)
  | RcgenFailed (e : rc_error)
  | StateFailed (e : StateError).

(* src certs/lib.rs:49-74 <CertsError as Display>::fmt *)
Definition certs_error_text {X : HexCodec} (e : CertsError) : msg :=
  match e with
  | HalfPresent dir found missing =>
      [Lit "half-present pair in "; show_path dir; Lit ": found "; Lit found; Lit " but not "; Lit missing;
       Lit " — restore the missing file, or delete the survivor (and, for a CA, every leaf it issued) and re-provision"]
  | StaleLeaf p =>
      [Lit "stale leaf "; show_path p; Lit ": it predates the freshly minted CA and no longer chains to the trust root — delete every leftover leaf pair and re-run provisioning"]
  | CertIo p _ => [show_path p; Lit ": "; Txt "io error"]
  | RcgenFailed _ => [Txt "rcgen error"]
  | StateFailed e => state_error_text e
  end.

(* src certs/lib.rs:76-79 Ca *)
Record Ca : Type := MkCa { issuer : Issuer }.
(* src certs/lib.rs:81-87 LeafPaths *)
Record LeafPaths : Type := MkLeafPaths { leaf_cert : path; leaf_key : path }.
(* src certs/lib.rs:179-185 CsrPaths *)
Record CsrPaths : Type := MkCsrPaths { req_csr : path; req_key : path }.

Definition C_ (A : Type) : Type := M world CertsError A.
(** The three error conversions: [map_err(|e| Io { .. })?], rcgen's and the
    store's [?]. *)
Definition io {A} (p : path) (x : IO A) : C_ A := mmap_err (CertIo p) x.
Definition rc {A} (x : result rc_error A) : C_ A := mlift (map_err RcgenFailed x).
Definition store {A} (x : S_ A) : C_ A := mmap_err StateFailed x.
Definition exists_at (p : path) : C_ bool := fun w => let (b, w) := path_exists p w in (Ok b, w).

Definition push_cn (s : string) (p : params) : params :=
  MkParams (is_ca p) (Some (Utf8String s)) (subject_alt_names p) (key_usages p) (extended_key_usages p)
    (not_before p) (not_after p) (rest p).
Definition set_usages (ku : list KeyUsagePurpose) (eku : list ExtendedKeyUsagePurpose) (p : params) : params :=
  MkParams (is_ca p) (common_name p) (subject_alt_names p) ku eku (not_before p) (not_after p) (rest p).
Definition set_ca (p : params) : params :=
  MkParams CaUnconstrained (common_name p) (subject_alt_names p) (key_usages p) (extended_key_usages p)
    (not_before p) (not_after p) (rest p).
Definition set_validity (v : Z * Z) (p : params) : params :=
  MkParams (is_ca p) (common_name p) (subject_alt_names p) (key_usages p) (extended_key_usages p)
    v.1 v.2 (rest p).

(* src certs/lib.rs:292-295 validity *)
Definition validity (now days : Z) : Z * Z := (now, (now + days * 86400)%Z).

(* src certs/lib.rs:297-303 half_present *)
Definition half_present (dir : path) (found missing : string) : CertsError := HalfPresent dir found missing.

(* src certs/lib.rs:305-310 read *)
Definition read (p : path) : C_ bytes := io p (fs_read_to_string p).

(* src certs/lib.rs:274-288 any_leaf *)
Fixpoint leaf_in (dir : path) (entries : list string) : C_ (option path) :=
  match entries with
  | [] => mpure None
  | name :: entries =>
      let! _ := io dir fs_entry in
      if ends_with ".pem" name && negb (bool_decide (name = CA_CERT_FILE))
         && negb (bool_decide (name = CA_KEY_FILE))
      then mpure (Some (dir ++ [name]))
      else leaf_in dir entries
  end.

(* src certs/lib.rs:267-290 any_leaf *)
Definition any_leaf (listing : Listing) (dir : path) : C_ (option path) :=
  let! entries := io dir (fs_read_dir listing dir) in
  leaf_in dir entries.

(** [now] is the clock, [drawn] what [KeyPair::generate_for] returns. *)
(* src certs/lib.rs:89-130 ensure_ca *)
Definition ensure_ca (listing : Listing) (now : Z) (drawn : result rc_error KeyPair) (dir : path) : C_ Ca :=
  let! _ := io dir (fs_create_dir_all dir) in
  let cert_path := State.join dir CA_CERT_FILE in
  let key_path := State.join dir CA_KEY_FILE in
  let! c := exists_at cert_path in
  let! k := exists_at key_path in
  match c, k with
  | true, true =>
      let! kb := read key_path in
      let! key := rc (key_from_pem kb) in
      let! cb := read cert_path in
      let! iss := rc (issuer_from_ca_cert_pem cb key) in
      mpure (MkCa iss)
  | false, false =>
      let! leaf := any_leaf listing dir in
      match leaf with
      | Some leaf => mabort (StaleLeaf leaf)
      | None =>
          let! key := rc drawn in
          let p := set_validity (validity now CA_VALIDITY_DAYS)
                     (set_usages [KeyCertSign; CrlSign] (extended_key_usages default_params)
                        (push_cn "sovra-ca" (set_ca default_params))) in
          let! cert := rc (self_signed p key) in
          let! _ := store (write_atomic key_path (serialize_pem key)) in
          let! _ := store (write_atomic_public cert_path (cert_pem cert)) in
          mpure (MkCa (issuer_new p key))
      end
  | true, false => mabort (half_present dir CA_CERT_FILE CA_KEY_FILE)
  | false, true => mabort (half_present dir CA_KEY_FILE CA_CERT_FILE)
  end.

(* src certs/lib.rs:132-177 ensure_leaf *)
Definition ensure_leaf (now : Z) (drawn : result rc_error KeyPair) (dir : path)
    (file_stem cn : string) (sans : list string) (ca : Ca) : C_ LeafPaths :=
  let cert_file := String.append file_stem ".cert.pem" in
  let key_file := String.append file_stem ".key.pem" in
  let cert_path := State.join dir cert_file in
  let key_path := State.join dir key_file in
  let! c := exists_at cert_path in
  let! k := exists_at key_path in
  let! _ :=
    match c, k with
    | true, true => mpure tt
    | false, false =>
        let! key := rc drawn in
        let! p := rc (params_new sans) in
        let p := set_validity (validity now LEAF_VALIDITY_DAYS)
                   (set_usages [DigitalSignature] [ServerAuth; ClientAuth] (push_cn cn p)) in
        let! cert := rc (signed_by p key (issuer ca)) in
        let! _ := store (write_atomic key_path (serialize_pem key)) in
        store (write_atomic_public cert_path (cert_pem cert))
    | true, false => mabort (half_present dir cert_file key_file)
    | false, true => mabort (half_present dir key_file cert_file)
    end in
  mpure (MkLeafPaths cert_path key_path).

(* src certs/lib.rs:187-228 generate_csr *)
Definition generate_csr (drawn : result rc_error KeyPair) (dir : path)
    (file_stem cn : string) (sans : list string) : C_ CsrPaths :=
  let! _ := io dir (fs_create_dir_all dir) in
  let csr_file := String.append file_stem ".csr.pem" in
  let key_file := String.append file_stem ".key.pem" in
  let csr_path := State.join dir csr_file in
  let key_path := State.join dir key_file in
  let! c := exists_at csr_path in
  let! k := exists_at key_path in
  let! _ :=
    match c, k with
    | true, true => mpure tt
    | false, false =>
        let! key := rc drawn in
        let! p := rc (params_new sans) in
        let p := push_cn cn p in
        let! csr := rc (serialize_request p key) in
        let! _ := store (write_atomic key_path (serialize_pem key)) in
        let! pem := rc (csr_pem csr) in
        store (write_atomic_public csr_path pem)
    | true, false => mabort (half_present dir csr_file key_file)
    | false, true => mabort (half_present dir key_file csr_file)
    end in
  mpure (MkCsrPaths csr_path key_path).

(* src certs/lib.rs:230-244 sign_csr *)
Definition sign_csr (now : Z) (ca : Ca) (pem : bytes) : result CertsError bytes :=
  let? (p, key) := map_err RcgenFailed (csr_from_pem pem) in
  let p := set_validity (validity now LEAF_VALIDITY_DAYS)
             (set_usages [DigitalSignature] [ServerAuth; ClientAuth] p) in
  let? cert := map_err RcgenFailed (csr_signed_by (p, key) (issuer ca)) in
  Ok (cert_pem cert).

Definition show_san (s : SanType) : string :=
  match s with DnsName d => d | IpAddress ip => ip | OtherSan o => o end.

(* src certs/lib.rs:246-265 describe_csr *)
Definition describe_csr (pem : bytes) : result CertsError string :=
  let? (p, _) := map_err RcgenFailed (csr_from_pem pem) in
  let cn := match common_name p with
            | Some (Utf8String s) => s
            | Some (OtherDn d) => d
            | None => "<none>"
            end in
  let sans := show_san <$> subject_alt_names p in
  Ok ("CN " ++ cn ++ ", SANs [" ++ String.concat ", " sans ++ "]")%string.
End Certs.

(** ** Provisioning *)
Section Proofs.
Context {R : Rcgen}.

Lemma store_inv {A} (x : S_ A) w r w' :
  store x w = (r, w') -> exists r0, x w = (r0, w') /\ r = map_err StateFailed r0.
Proof. unfold store, mmap_err. destruct (x w) as [r0 w0]. intros [= <- <-]. eauto. Qed.

Lemma io_inv {A} p (x : IO A) w r w' :
  io p x w = (r, w') -> exists r0, x w = (r0, w') /\ r = map_err (CertIo p) r0.
Proof. unfold io, mmap_err. destruct (x w) as [r0 w0]. intros [= <- <-]. eauto. Qed.

Lemma mbnd_pure {A B} (x : C_ A) (y : B) w r w' :
  mbnd x (fun _ => mpure y) w = (r, w') -> exists r0, x w = (r0, w') /\ r = rmap (fun _ => y) r0.
Proof. unfold mbnd, mpure. destruct (x w) as [[a|e] w0]; intros [= <- <-]; eauto. Qed.

(** The next [n] primitives do not fail. *)
Definition steady (n : nat) (w : world) : Prop := Forall (eq None) (take n (faults w)).

Lemma steady_pop n w fault w1 :
  steady (S n) w -> pop_fault w = (fault, w1) -> fault = None /\ fs w1 = fs w /\ steady n w1.
Proof.
  unfold steady, pop_fault. destruct (faults w) as [|f l] eqn:E.
  - intros _ [= <- <-]. rewrite E. by rewrite take_nil.
  - simpl. intros [<- Hl]%Forall_cons [= <- <-]. done.
Qed.

Lemma exists_at_steady n p w :
  steady (S n) w -> exists w1, exists_at p w = (Ok (bool_decide (content (fs w) p <> None)), w1) /\
    fs w1 = fs w /\ steady n w1.
Proof.
  intros Hs. unfold exists_at, path_exists. destruct (pop_fault w) as [fault w1] eqn:Hp.
  apply (steady_pop _ _ _ _ Hs) in Hp as (-> & Hf & Hs1). exists w1. split; [|done]. do 2 f_equal.
  apply bool_decide_ext. unfold content. rewrite Hf. destruct (fs w !! p); split; intros H; try done; by destruct H.
Qed.

Lemma append_cancel a b c : String.append a b = String.append a c -> b = c.
Proof.
  induction a as [|x a IH]; [done|].
  change (String x (String.append a b) = String x (String.append a c) -> b = c). intros [= E]. auto.
Qed.

Lemma append_length a b : String.length (String.append a b) = (String.length a + String.length b)%nat.
Proof.
  induction a as [|x a IH]; [done|].
  change (S (String.length (String.append a b)) = S (String.length a + String.length b)%nat). by rewrite IH.
Qed.

(** *** A key and what certifies it: the key is written first. *)
Lemma pair_distinct d a b :
  a <> b -> a <> String.append ".tmp-" b -> b <> String.append ".tmp-" a ->
  let p := d ++ [a] in let q := d ++ [b] in
  p <> q /\ p <> tmp_path q /\ q <> tmp_path p /\ tmp_path p <> p /\ tmp_path q <> q.
Proof.
  intros Hab Hat Hbt. cbv zeta. rewrite !tmp_path_snoc.
  assert (forall s, s <> String.append ".tmp-" s) as Hs.
  { intros s E. apply (f_equal String.length) in E. rewrite append_length in E. simpl in E. lia. }
  split_and!; intros E%app_inv_head; injection E; auto; intros E'; by apply (Hs _ (eq_sym E')).
Qed.

(** The four nodes of a pair after an interrupted or completed write. *)
Definition pair_written (kp pp : path) (kb : bytes) (pb : result CertsError bytes)
    (f f' : gmap path node) (r : result CertsError unit) : Prop :=
  (forall q, q <> kp -> q <> pp -> q <> tmp_path kp -> q <> tmp_path pp -> f' !! q = f !! q) /\
  (f' !! kp = f !! kp \/ f' !! kp = Some (File kb 384)) /\
  (f' !! pp = f !! pp \/ exists b, pb = Ok b /\ f' !! pp = Some (File b 420) /\ f' !! kp = Some (File kb 384)) /\
  (r = Ok tt -> exists b, pb = Ok b /\ f' !! pp = Some (File b 420) /\ f' !! kp = Some (File kb 384)).

Lemma write_pair_effect kp pp kb pb w r w' :
  kp <> pp -> kp <> tmp_path pp -> pp <> tmp_path kp -> tmp_path kp <> kp -> tmp_path pp <> pp ->
  (let! _ := store (write_atomic kp kb) in
   let! b := mlift pb in store (write_atomic_public pp b)) w = (r, w') ->
  pair_written kp pp kb pb (fs w) (fs w') r.
Proof.
  intros D1 D2 D3 T1 T2. unfold mbnd, pair_written.
  destruct (store _ w) as [r1 w1] eqn:H1. apply store_inv in H1 as (r1' & H1 & ->).
  apply write_atomic_mode_nodes in H1 as (O1 & N1 & K1); [|done].
  destruct r1' as [[]|e]; cbn [map_err].
  2:{ intros [= <- <-]. split_and!; [auto|done|left; auto|done]. }
  specialize (K1 eq_refl). destruct pb as [b|e]; cbn [mlift].
  2:{ intros [= <- <-]. split_and!; [auto|done|left; auto|done]. }
  intros H2. apply store_inv in H2 as (r2' & H2 & ->).
  apply write_atomic_mode_nodes in H2 as (O2 & N2 & K2); [|done].
  assert (fs w' !! kp = Some (File kb 384)) as Hk by (rewrite O2; done).
  split_and!.
  - intros q ????. by rewrite O2, O1.
  - by right.
  - destruct N2 as [N2|N2]; [left; rewrite N2; auto|right; eauto].
  - intros Hr. exists b. split_and!; [done| |done]. apply K2. by destruct r2' as [[]|].
Qed.

(** *** File names *)
Lemma join_simple d s :
  has_char slash s = false -> s <> "" -> s <> "." -> State.join d s = d ++ [s].
Proof.
  intros Hs Hne Hdot. assert (components s = [s]) as Hc.
  { unfold components. rewrite split_on_none by done. simpl. by rewrite filter_cons_True. }
  unfold State.join. destruct s as [|c s']; [done|]. rewrite decide_False; [by rewrite Hc|].
  simpl in Hs. apply orb_false_iff in Hs as [Hs _]. by apply bool_decide_eq_false in Hs.
Qed.

Lemma join_suffix d stem c suffix :
  has_char slash stem = false -> has_char slash (String c suffix) = false -> suffix <> "" ->
  State.join d (String.append stem (String c suffix)) = d ++ [String.append stem (String c suffix)].
Proof.
  intros Hs Hc Hne. apply join_simple.
  - by rewrite has_char_app, Hs, Hc.
  - intros E. apply (f_equal String.length) in E. rewrite append_length in E. simpl in E. lia.
  - intros E. apply (f_equal String.length) in E. rewrite append_length in E.
    destruct suffix; [done|]. simpl in E. lia.
Qed.

(** *** Leaves *)
Definition leaf_paths (dir : path) (stem : string) : LeafPaths :=
  MkLeafPaths (dir ++ [String.append stem ".cert.pem"]) (dir ++ [String.append stem ".key.pem"]).

Lemma leaf_names dir stem :
  has_char slash stem = false ->
  State.join dir (String.append stem ".cert.pem") = leaf_cert (leaf_paths dir stem) /\
  State.join dir (String.append stem ".key.pem") = leaf_key (leaf_paths dir stem).
Proof. intros H. split; by apply join_suffix. Qed.

Ltac by_length :=
  let E := fresh in intros E; apply (f_equal String.length) in E;
  rewrite !append_length in E; simpl in E; lia.

Lemma leaf_distinct dir stem :
  let kp := leaf_key (leaf_paths dir stem) in let cp := leaf_cert (leaf_paths dir stem) in
  kp <> cp /\ kp <> tmp_path cp /\ cp <> tmp_path kp /\ tmp_path kp <> kp /\ tmp_path cp <> cp.
Proof. apply pair_distinct; by_length. Qed.

(** A certificate [ca] issued for [key], with the policy of a leaf. *)
Definition issued_leaf (now : Z) (ca : Ca) (pk : PublicKey) (cn : option DnValue) (sans : list SanType)
    (ca_flag : IsCa) (c : Certificate) : Prop :=
  cert_issuer c = issuer_id (issuer ca) /\ cert_subject_key c = pk /\
  common_name (cert_params c) = cn /\ subject_alt_names (cert_params c) = sans /\
  is_ca (cert_params c) = ca_flag /\
  key_usages (cert_params c) = [DigitalSignature] /\
  extended_key_usages (cert_params c) = [ServerAuth; ClientAuth] /\
  (not_before (cert_params c), not_after (cert_params c)) = validity now LEAF_VALIDITY_DAYS.

(** What [ensure_leaf] does when neither file is there. *)
Definition mint_leaf (now : Z) (drawn : result rc_error KeyPair) (cp kp : path)
    (cn : string) (sans : list string) (ca : Ca) : C_ unit :=
  let! key := rc drawn in
  let! p := rc (params_new sans) in
  let p := set_validity (validity now LEAF_VALIDITY_DAYS)
             (set_usages [DigitalSignature] [ServerAuth; ClientAuth] (push_cn cn p)) in
  let! cert := rc (signed_by p key (issuer ca)) in
  let! _ := store (write_atomic kp (serialize_pem key)) in
  store (write_atomic_public cp (cert_pem cert)).

Lemma rc_bnd {A B} (x : result rc_error A) (f : A -> C_ B) w r w' :
  mbnd (rc x) f w = (r, w') ->
  (exists e, r = Err e /\ w' = w) \/ exists a, x = Ok a /\ f a w = (r, w').
Proof. unfold mbnd, rc, mlift. destruct x as [a|e]; simpl; [eauto|]. intros [= <- <-]. eauto. Qed.

Lemma mint_leaf_effect {RL : RcgenLaws R} now drawn dir stem cn sans ca w r w' :
  let kp := leaf_key (leaf_paths dir stem) in let cp := leaf_cert (leaf_paths dir stem) in
  mint_leaf now drawn cp kp cn sans ca w = (r, w') ->
  (exists e, r = Err e /\ w' = w) \/
  exists key p0 cert, drawn = Ok key /\ params_new sans = Ok p0 /\
    issued_leaf now ca (pub_of key) (Some (Utf8String cn)) (subject_alt_names p0) (is_ca p0) cert /\
    pair_written kp cp (serialize_pem key) (Ok (cert_pem cert)) (fs w) (fs w') r.
Proof.
  intros kp cp. unfold mint_leaf. pose proof (leaf_distinct dir stem) as (D1 & D2 & D3 & D4 & D5).
  intros [?|(key & Hkey & H)]%rc_bnd; [by left|]. apply rc_bnd in H as [?|(p0 & Hp & H)]; [by left|].
  apply rc_bnd in H as [?|(cert & Hc & H)]; [by left|]. right. exists key, p0, cert.
  apply signed_by_reads in Hc as (Hparams & Hk & Hi). split_and!; [done..| |].
  - unfold issued_leaf. by rewrite Hparams.
  - by apply (write_pair_effect kp cp (serialize_pem key) (Ok (cert_pem cert))).
Qed.

(** [ensure_leaf] in every case. *)
Lemma ensure_leaf_cases {RL : RcgenLaws R} now drawn dir stem cn sans ca w r w' :
  let kp := leaf_key (leaf_paths dir stem) in let cp := leaf_cert (leaf_paths dir stem) in
  has_char slash stem = false -> steady 2 w ->
  ensure_leaf now drawn dir stem cn sans ca w = (r, w') ->
  match content (fs w) cp, content (fs w) kp with
  | Some _, Some _ => r = Ok (leaf_paths dir stem) /\ fs w' = fs w
  | None, None =>
      (forall q, q <> kp -> q <> cp -> q <> tmp_path kp -> q <> tmp_path cp -> fs w' !! q = fs w !! q) /\
      (content (fs w') kp <> None ->
         exists key, drawn = Ok key /\ fs w' !! kp = Some (File (serialize_pem key) 384)) /\
      (is_ok r = true -> r = Ok (leaf_paths dir stem)) /\
      (content (fs w') cp <> None \/ is_ok r = true ->
         exists key p0 cert, drawn = Ok key /\ params_new sans = Ok p0 /\
           fs w' !! kp = Some (File (serialize_pem key) 384) /\
           fs w' !! cp = Some (File (cert_pem cert) 420) /\
           issued_leaf now ca (pub_of key) (Some (Utf8String cn)) (subject_alt_names p0) (is_ca p0) cert)
  | _, _ => (exists found missing, r = Err (HalfPresent dir found missing)) /\ fs w' = fs w
  end.
Proof.
  intros kp cp Hstem Hs. unfold ensure_leaf. destruct (leaf_names dir stem Hstem) as [-> ->].
  fold kp cp. unfold mbnd at 1. destruct (exists_at_steady 1 cp w Hs) as (w1 & -> & F1 & S1).
  unfold mbnd at 1. destruct (exists_at_steady 0 kp w1 S1) as (w2 & -> & F2 & _).
  rewrite F1 in *. destruct (content (fs w) cp) as [c|] eqn:Hc, (content (fs w) kp) as [k|] eqn:Hk;
    rewrite ?bool_decide_eq_true_2, ?bool_decide_eq_false_2 by naive_solver;
    intros (r0 & H & ->)%mbnd_pure.
  1-3: injection H as <- <-; unfold half_present; simpl; eauto.
  apply mint_leaf_effect in H as [(e & -> & ->)|(key & p0 & cert & Hd & Hp & Hi & O & K & P & Hok)].
  - rewrite F2. simpl. split_and!; [done|by rewrite Hk|done|]. intros [H|H]; [by rewrite Hc in H|done].
  - fold kp cp in O, K, P, Hok. rewrite F2 in *.
    assert (forall q, content (fs w) q = None -> fs w !! q = None) as Hn.
    { intros q. unfold content. by destruct (fs w !! q). }
    split_and!; [done| |by destruct r0|].
    + intros H. exists key. split; [done|]. destruct K as [K|K]; [|done].
      destruct H. unfold content. by rewrite K, (Hn _ Hk).
    + intros H. exists key, p0, cert.
      assert (exists b, Ok (cert_pem cert) = (Ok b : result CertsError bytes) /\
                fs w' !! cp = Some (File b 420) /\ fs w' !! kp = Some (File (serialize_pem key) 384))
        as (b & [= <-] & Hcp & Hkp); [|done].
      destruct H as [H|H]; [|apply Hok; by destruct r0 as [[]|]].
      destruct P as [P|P]; [|done]. destruct H. unfold content. by rewrite P, (Hn _ Hc).
Qed.

(** A leaf is minted once, key first.  With both files in place
    [ensure_leaf] changes nothing and succeeds; with one of them it fails and
    changes nothing; with neither, whatever fails after these two were looked
    for ([steady 2]; a call that fails there reports absence), the disk holds
    no certificate without its key, each file is whole (the key readable by its
    owner only), and success means a certificate for that key under the CA,
    with the requested name and SANs and the usages of a leaf. *)
Theorem leaf_provisioned {RL : RcgenLaws R} now drawn dir stem cn sans ca w r w' :
  let kp := leaf_key (leaf_paths dir stem) in let cp := leaf_cert (leaf_paths dir stem) in
  has_char slash stem = false -> steady 2 w ->
  ensure_leaf now drawn dir stem cn sans ca w = (r, w') ->
  match content (fs w) cp, content (fs w) kp with
  | Some _, Some _ => r = Ok (leaf_paths dir stem) /\ fs w' = fs w
  | None, None =>
      (forall q, q <> kp -> q <> cp -> q <> tmp_path kp -> q <> tmp_path cp -> fs w' !! q = fs w !! q) /\
      (content (fs w') kp <> None ->
         exists key, drawn = Ok key /\ fs w' !! kp = Some (File (serialize_pem key) 384)) /\
      (is_ok r = true -> r = Ok (leaf_paths dir stem)) /\
      (content (fs w') cp <> None \/ is_ok r = true ->
         exists key p0 cert, drawn = Ok key /\ params_new sans = Ok p0 /\
           fs w' !! kp = Some (File (serialize_pem key) 384) /\
           fs w' !! cp = Some (File (cert_pem cert) 420) /\
           issued_leaf now ca (pub_of key) (Some (Utf8String cn)) (subject_alt_names p0) (is_ca p0) cert)
  | _, _ => (exists found missing, r = Err (HalfPresent dir found missing)) /\ fs w' = fs w
  end.
Proof. apply ensure_leaf_cases. Qed.

Lemma exists_at_inv p w b w' :
  exists_at p w = (Ok b, w') -> fs w' = fs w /\ (b = true -> content (fs w) p <> None).
Proof.
  unfold exists_at, path_exists. destruct (pop_fault w) as [fault w1] eqn:Hp. apply pop_fault_fs in Hp.
  destruct fault; intros [= <- <-]; [done|]. split; [done|]. intros [n Hn]%bool_decide_eq_true.
  unfold content. rewrite <- Hp, Hn. done.
Qed.

(** A successful [ensure_leaf], whatever could not be looked at, leaves both
    files there and touches nothing else. *)
Lemma ensure_leaf_leaves {RL : RcgenLaws R} now drawn dir stem cn sans ca w paths w' :
  let kp := leaf_key (leaf_paths dir stem) in let cp := leaf_cert (leaf_paths dir stem) in
  has_char slash stem = false ->
  ensure_leaf now drawn dir stem cn sans ca w = (Ok paths, w') ->
  paths = leaf_paths dir stem /\ content (fs w') kp <> None /\ content (fs w') cp <> None /\
  forall q, q <> kp -> q <> cp -> q <> tmp_path kp -> q <> tmp_path cp -> fs w' !! q = fs w !! q.
Proof.
  intros kp cp Hstem. unfold ensure_leaf. destruct (leaf_names dir stem Hstem) as [-> ->]. fold kp cp.
  intros (c & w1 & [F1 C1]%exists_at_inv & H)%mbnd_Ok. apply mbnd_Ok in H as (k & w2 & [F2 C2]%exists_at_inv & H).
  apply mbnd_pure in H as (r0 & H & Hr). rewrite F1 in *. destruct c, k; [| | |].
  - injection H as <- <-. injection Hr as ->. rewrite F2. split_and!; auto.
  - by injection H as <- <-.
  - by injection H as <- <-.
  - apply mint_leaf_effect in H as [(e & -> & ->)|(key & p0 & cert & _ & _ & _ & O & _ & _ & Hok)]; [done|].
    fold kp cp in O, Hok. destruct r0 as [[]|]; [|done]. injection Hr as ->.
    destruct (Hok eq_refl) as (b & _ & Hcp & Hkp). unfold content. rewrite Hcp, Hkp, <- F2. by split_and!.
Qed.

(** With both files there nothing happens. *)
Lemma ensure_leaf_present now drawn dir stem cn sans ca w :
  has_char slash stem = false ->
  content (fs w) (leaf_key (leaf_paths dir stem)) <> None ->
  content (fs w) (leaf_cert (leaf_paths dir stem)) <> None ->
  ensure_leaf now drawn dir stem cn sans ca (no_faults w) = (Ok (leaf_paths dir stem), no_faults w).
Proof.
  intros Hstem Hk Hc. unfold ensure_leaf. destruct (leaf_names dir stem Hstem) as [-> ->].
  unfold mbnd at 1, exists_at at 1. rewrite path_exists_quiet.
  unfold mbnd at 1, exists_at at 1. rewrite path_exists_quiet. by rewrite !bool_decide_eq_true_2.
Qed.

(** *** CSR enrollment *)
Lemma sign_csr_issues {RL : RcgenLaws R} now ca pem out :
  sign_csr now ca pem = Ok out ->
  exists p k cert, csr_from_pem pem = Ok (p, k) /\ out = cert_pem cert /\
    issued_leaf now ca k (common_name p) (subject_alt_names p) NoCa cert.
Proof.
  unfold sign_csr. intros ([p k] & Hp%map_err_Ok & H)%rbind_Ok.
  apply rbind_Ok in H as (cert & Hc%map_err_Ok & [= <-]). exists p, k, cert. split_and!; [done..|].
  apply csr_signed_by_reads in Hc as (Hq & Hk & Hi). unfold issued_leaf. rewrite Hq. cbn.
  split_and!; try done. by apply csr_never_ca in Hp.
Qed.

(** A requester cannot ask for more than a leaf.  Whatever a CSR contains,
    what the CA signs carries the CSR's name, SANs and key, is not a CA, and
    has exactly the key usages, extended usages and validity of a leaf. *)
Theorem csr_policy_stamped {RL : RcgenLaws R} now ca pem out :
  sign_csr now ca pem = Ok out ->
  exists p k cert, csr_from_pem pem = Ok (p, k) /\ out = cert_pem cert /\
    issued_leaf now ca k (common_name p) (subject_alt_names p) NoCa cert.
Proof. apply sign_csr_issues. Qed.

Definition csr_paths (dir : path) (stem : string) : CsrPaths :=
  MkCsrPaths (dir ++ [String.append stem ".csr.pem"]) (dir ++ [String.append stem ".key.pem"]).

Lemma csr_distinct dir stem :
  let kp := req_key (csr_paths dir stem) in let cp := req_csr (csr_paths dir stem) in
  kp <> cp /\ kp <> tmp_path cp /\ cp <> tmp_path kp /\ tmp_path kp <> kp /\ tmp_path cp <> cp.
Proof.
  apply pair_distinct; [|by_length..]. intros E%append_cancel. discriminate E.
Qed.

Definition mint_csr (drawn : result rc_error KeyPair) (cp kp : path) (cn : string) (sans : list string) : C_ unit :=
  let! key := rc drawn in
  let! p := rc (params_new sans) in
  let p := push_cn cn p in
  let! csr := rc (serialize_request p key) in
  let! _ := store (write_atomic kp (serialize_pem key)) in
  let! pem := rc (csr_pem csr) in
  store (write_atomic_public cp pem).

Lemma mint_csr_effect drawn dir stem cn sans w r w' :
  let kp := req_key (csr_paths dir stem) in let cp := req_csr (csr_paths dir stem) in
  mint_csr drawn cp kp cn sans w = (r, w') ->
  (exists e, r = Err e /\ w' = w) \/
  exists key p0 csr, drawn = Ok key /\ params_new sans = Ok p0 /\
    serialize_request (push_cn cn p0) key = Ok csr /\
    pair_written kp cp (serialize_pem key) (map_err RcgenFailed (csr_pem csr)) (fs w) (fs w') r.
Proof.
  intros kp cp. unfold mint_csr. pose proof (csr_distinct dir stem) as (D1 & D2 & D3 & D4 & D5).
  intros [?|(key & Hkey & H)]%rc_bnd; [by left|]. apply rc_bnd in H as [?|(p0 & Hp & H)]; [by left|].
  apply rc_bnd in H as [?|(csr & Hc & H)]; [by left|]. right. exists key, p0, csr. split_and!; [done..|].
  by apply (write_pair_effect kp cp (serialize_pem key) (map_err RcgenFailed (csr_pem csr))).
Qed.

Lemma create_dir_steady n dir w r w' :
  steady (S n) w -> io dir (fs_create_dir_all dir) w = (r, w') ->
  steady n w' /\ forall name, content (fs w') (dir ++ [name]) = content (fs w) (dir ++ [name]).
Proof.
  intros Hs (r0 & H & _)%io_inv. split.
  - unfold fs_create_dir_all in H. destruct (pop_fault w) as [fault w1] eqn:Hp.
    apply (steady_pop _ _ _ _ Hs) in Hp as (-> & _ & Hs1). by destruct (mkdirs _ _ _); simplify_eq.
  - intros name. apply (fs_create_dir_all_spec _ _ _ _ H). apply snoc_not_prefix.
Qed.

(** Enrollment.  When a node generates its CSR and the CA signs the text
    of that file, the certificate is for the key that stayed on the node, with
    the name and SANs the node asked for and the policy of a leaf.  ([steady 3]:
    creating the directory and looking for the two files does not fail.) *)
Theorem csr_enrolment {RL : RcgenLaws R} now drawn dir stem cn sans ca w paths w' pem out :
  let kp := req_key (csr_paths dir stem) in let cp := req_csr (csr_paths dir stem) in
  has_char slash stem = false -> steady 3 w ->
  content (fs w) cp = None -> content (fs w) kp = None ->
  generate_csr drawn dir stem cn sans w = (Ok paths, w') ->
  content (fs w') cp = Some (Some pem) ->
  sign_csr now ca pem = Ok out ->
  paths = csr_paths dir stem /\
  exists key p0 cert, drawn = Ok key /\ params_new sans = Ok p0 /\
    fs w' !! kp = Some (File (serialize_pem key) 384) /\ out = cert_pem cert /\
    issued_leaf now ca (pub_of key) (Some (Utf8String cn)) (subject_alt_names p0) NoCa cert.
Proof.
  intros kp cp Hstem Hs Hc Hk. unfold generate_csr.
  rewrite !join_suffix by done. fold cp kp. intros ([] & w0 & H0 & H)%mbnd_Ok.
  destruct (create_dir_steady 2 dir w _ _ Hs H0) as [S0 C0].
  assert (content (fs w0) cp = None) as Hc0 by (rewrite <- Hc; apply C0).
  assert (content (fs w0) kp = None) as Hk0 by (rewrite <- Hk; apply C0).
  unfold mbnd at 1 in H. destruct (exists_at_steady 1 cp w0 S0) as (w1 & E1 & F1 & S1).
  change (dir ++ [String.append stem ".csr.pem"]) with cp in H.
  change (dir ++ [String.append stem ".key.pem"]) with kp in H. rewrite E1 in H.
  unfold mbnd at 1 in H. destruct (exists_at_steady 0 kp w1 S1) as (w2 & E2 & F2 & _). rewrite E2, F1 in H.
  rewrite Hc0, Hk0, !bool_decide_eq_false_2 in H by auto.
  apply mbnd_pure in H as (r0 & H & Hr). intros Hpem Hout.
  destruct r0 as [[]|]; [|done]. injection Hr as ->. split; [done|].
  apply mint_csr_effect in H as [(e & [=] & _)|(key & p0 & csr & Hd & Hp & Hreq & _ & _ & _ & Hok)].
  destruct (Hok eq_refl) as (b & Hb%map_err_Ok & Hcp & Hkp). fold cp in Hcp. fold kp in Hkp.
  unfold content in Hpem. rewrite Hcp in Hpem. injection Hpem as ->.
  destruct (csr_reads _ _ _ _ Hreq Hb) as (p' & Hp' & Hcn & Hsan).
  apply sign_csr_issues in Hout as (p & k & cert & Hfrom & -> & Hi).
  rewrite Hp' in Hfrom. injection Hfrom as -> <-. rewrite Hcn, Hsan in Hi. by exists key, p0, cert.
Qed.

(** *** The CA *)
Definition ca_cert_path (dir : path) : path := dir ++ [CA_CERT_FILE].
Definition ca_key_path (dir : path) : path := dir ++ [CA_KEY_FILE].

Lemma ca_names dir :
  State.join dir CA_CERT_FILE = ca_cert_path dir /\ State.join dir CA_KEY_FILE = ca_key_path dir.
Proof. split; by apply join_simple. Qed.

Lemma ca_distinct dir :
  let kp := ca_key_path dir in let cp := ca_cert_path dir in
  kp <> cp /\ kp <> tmp_path cp /\ cp <> tmp_path kp /\ tmp_path kp <> kp /\ tmp_path cp <> cp.
Proof. apply pair_distinct; discriminate. Qed.

Definition pem_leaf (name : string) : bool :=
  ends_with ".pem" name && negb (bool_decide (name = CA_CERT_FILE)) && negb (bool_decide (name = CA_KEY_FILE)).

Lemma fs_entry_fs w r w' : fs_entry w = (r, w') -> fs w' = fs w.
Proof.
  unfold fs_entry. destruct (pop_fault w) as [fault w1] eqn:Hp. apply pop_fault_fs in Hp.
  destruct fault; by intros [= _ <-].
Qed.

Lemma leaf_in_spec dir es w r w' :
  leaf_in dir es w = (r, w') ->
  fs w' = fs w /\ (r = Ok None -> forall name, name ∈ es -> pem_leaf name = false) /\
  (forall q, r = Ok (Some q) -> exists name, name ∈ es /\ pem_leaf name = true /\ q = dir ++ [name]).
Proof.
  revert w. induction es as [|e es IH]; intros w.
  - intros [= <- <-]. split_and!; [done|set_solver|done].
  - cbn [leaf_in]. fold (pem_leaf e). unfold mbnd. destruct (io dir fs_entry w) as [[u|err] w1] eqn:E.
    2:{ apply io_inv in E as (r0 & E & _). intros [= <- <-]. split_and!; [by apply fs_entry_fs in E|done|done]. }
    apply io_inv in E as (r0 & E%fs_entry_fs & _). destruct (pem_leaf e) eqn:He.
    + intros [= <- <-]. split_and!; [done|done|]. intros q [= <-]. exists e. split_and!; [by left|done|done].
    + intros (Hf & Hn & Hq)%IH. rewrite <- E. split_and!; [done| |].
      * intros Hr name [->|Hin]%elem_of_cons; [done|by apply Hn].
      * intros q Hr. destruct (Hq q Hr) as (n & ? & ? & ?). exists n. split_and!; [by right|done|done].
Qed.

Lemma any_leaf_spec listing dir w r w' :
  any_leaf listing dir w = (r, w') ->
  fs w' = fs w /\
  (lists_children listing -> r = Ok None -> forall name, is_Some (fs w !! (dir ++ [name])) -> pem_leaf name = false) /\
  (lists_children listing ->
   forall q, r = Ok (Some q) -> exists name, is_Some (fs w !! (dir ++ [name])) /\ pem_leaf name = true /\
     q = dir ++ [name]).
Proof.
  unfold any_leaf, mbnd. destruct (io dir (fs_read_dir listing dir) w) as [[es|e] w1] eqn:E.
  - apply io_inv in E as (r0 & E & Hr0). unfold fs_read_dir in E.
    destruct (pop_fault w) as [fault w0] eqn:Hp. apply pop_fault_fs in Hp.
    assert (fs w1 = fs w /\ es = listing (fs w) dir) as [Hf ->].
    { rewrite Hp in E. destruct fault, (fs w !! dir) as [[]|]; simplify_eq/=; done. }
    intros (H1 & H2 & H3)%leaf_in_spec. split_and!; [congruence| |]; intros Hl;
      destruct (Hl (fs w) dir) as [_ Hin].
    + intros Hr name Hn. apply H2; [done|by apply Hin].
    + intros q Hr. destruct (H3 q Hr) as (n & Hn%Hin & ? & ?). by exists n.
  - apply io_inv in E as (r0 & E & Hr0). intros [= <- <-]. unfold fs_read_dir in E.
    destruct (pop_fault w) as [fault w0] eqn:Hp. apply pop_fault_fs in Hp.
    assert (fs w1 = fs w) by (by destruct fault, (fs w0 !! dir) as [[]|]; simplify_eq/=). done.
Qed.

Lemma read_Ok p w b w' :
  read p w = (Ok b, w') -> fs w' = fs w /\ content (fs w) p = Some (Some b) /\ utf8_valid b = true.
Proof.
  unfold read, io, mmap_err, fs_read_to_string, fs_read. destruct (pop_fault w) as [fault w0] eqn:Hp. apply pop_fault_fs in Hp.
  unfold content. rewrite Hp. destruct fault, (fs w !! p) as [[c m|]|]; simpl; try done.
  destruct (utf8_valid c) eqn:Hu; [|done]. by intros [= -> <-].
Qed.

Lemma read_fs p w r w' : read p w = (r, w') -> fs w' = fs w.
Proof.
  unfold read, io, mmap_err, fs_read_to_string, fs_read. destruct (pop_fault w) as [fault w0] eqn:Hp. apply pop_fault_fs in Hp.
  destruct fault, (fs w0 !! p) as [[]|]; simpl; by intros [= _ <-].
Qed.

Lemma read_quiet p w b :
  content (fs w) p = Some (Some b) -> utf8_valid b = true -> read p (no_faults w) = (Ok b, no_faults w).
Proof. intros Hc Hu. unfold read, io, mmap_err, fs_read_to_string. by rewrite fs_read_quiet, Hc, Hu. Qed.

(** The two branches of [ensure_ca] that give a CA. *)
Definition load_ca (cp kp : path) : C_ Ca :=
  let! kb := read kp in
  let! key := rc (key_from_pem kb) in
  let! cb := read cp in
  let! iss := rc (issuer_from_ca_cert_pem cb key) in
  mpure (MkCa iss).

Definition ca_params (now : Z) : CertificateParams Rest :=
  set_validity (validity now CA_VALIDITY_DAYS)
    (set_usages [KeyCertSign; CrlSign] (extended_key_usages default_params)
       (push_cn "sovra-ca" (set_ca default_params))).

Definition mint_ca (now : Z) (drawn : result rc_error KeyPair) (cp kp : path) : C_ Ca :=
  let! key := rc drawn in
  let! cert := rc (self_signed (ca_params now) key) in
  let! _ := store (write_atomic kp (serialize_pem key)) in
  let! _ := store (write_atomic_public cp (cert_pem cert)) in
  mpure (MkCa (issuer_new (ca_params now) key)).

(** [f] holds the CA [ca]. *)
Definition holds_ca (f : gmap path node) (dir : path) (ca : Ca) : Prop :=
  exists kb key cb i, content f (ca_key_path dir) = Some (Some kb) /\ utf8_valid kb = true /\
    key_from_pem kb = Ok key /\ content f (ca_cert_path dir) = Some (Some cb) /\ utf8_valid cb = true /\
    issuer_from_ca_cert_pem cb key = Ok i /\ issuer_id i = issuer_id (issuer ca).

(** [f] holds the CA [ca] as it was minted. *)
Definition minted_ca (f : gmap path node) (dir : path) (ca : Ca) : Prop :=
  exists key cert i, content f (ca_key_path dir) = Some (Some (serialize_pem key)) /\
    content f (ca_cert_path dir) = Some (Some (cert_pem cert)) /\
    issuer_from_ca_cert_pem (cert_pem cert) key = Ok i /\ issuer_id i = issuer_id (issuer ca).

Lemma minted_holds {RL : RcgenLaws R} f dir ca : minted_ca f dir ca -> holds_ca f dir ca.
Proof.
  intros (key & cert & i & Ck & Cc & Hi & Hid). exists (serialize_pem key), key, (cert_pem cert), i.
  split_and!; [done|apply key_pem_utf8|apply key_roundtrip|done|apply cert_pem_utf8|done|done].
Qed.

Lemma load_ca_spec dir w r w' :
  load_ca (ca_cert_path dir) (ca_key_path dir) w = (r, w') ->
  fs w' = fs w /\ (forall ca, r = Ok ca -> holds_ca (fs w) dir ca).
Proof.
  unfold load_ca, mbnd. destruct (read (ca_key_path dir) w) as [[kb|e] w1] eqn:E1; apply read_fs in E1 as F1.
  2:{ by intros [= <- <-]. }
  apply read_Ok in E1 as (_ & Ck & Uk). unfold rc, mlift. destruct (key_from_pem kb) as [key|] eqn:Hk; simpl.
  2:{ by intros [= <- <-]. }
  destruct (read (ca_cert_path dir) w1) as [[cb|e] w2] eqn:E2; apply read_fs in E2 as F2.
  2:{ intros [= <- <-]. by rewrite F2, F1. }
  apply read_Ok in E2 as (_ & Cc & Uc). rewrite F1 in Cc.
  destruct (issuer_from_ca_cert_pem cb key) as [i|] eqn:Hi; simpl; intros [= <- <-]; rewrite F2, F1;
    (split; [done|]); [|done]. intros ca [= <-]. by exists kb, key, cb, i.
Qed.

Lemma mint_ca_spec {RL : RcgenLaws R} now drawn dir w r w' :
  let kp := ca_key_path dir in let cp := ca_cert_path dir in
  mint_ca now drawn cp kp w = (r, w') ->
  (forall q, q <> kp -> q <> cp -> q <> tmp_path kp -> q <> tmp_path cp -> fs w' !! q = fs w !! q) /\
  (forall ca, r = Ok ca -> minted_ca (fs w') dir ca /\
     exists key, drawn = Ok key /\ content (fs w') kp = Some (Some (serialize_pem key))).
Proof.
  intros kp cp. unfold mint_ca. pose proof (ca_distinct dir) as (D1 & D2 & D3 & D4 & D5).
  intros [(e & -> & ->)|(key & Hd & H)]%rc_bnd; [done|]. apply rc_bnd in H as [(e & -> & ->)|(cert & Hc & H)]; [done|].
  assert (exists r0, (let! _ := store (write_atomic kp (serialize_pem key)) in
             let! b := mlift (Ok (cert_pem cert)) in store (write_atomic_public cp b)) w = (r0, w') /\
             r = rmap (fun _ => MkCa (issuer_new (ca_params now) key)) r0) as (r0 & Hw & ->).
  { unfold mbnd, mlift, mpure in *. destruct (store _ w) as [[a|e] w1]; [|injection H as <- <-; eauto].
    destruct (store _ w1) as [[a'|e] w2]; injection H as <- <-; eauto. }
  apply write_pair_effect in Hw as (O & _ & _ & Hok); [|done..]. split; [done|].
  intros ca Hr. destruct r0 as [[]|]; [|done]. injection Hr as <-.
  destruct (Hok eq_refl) as (b & [= <-] & Hcp & Hkp). destruct (issuer_reloads _ _ _ Hc) as (i & Hi & Hid).
  unfold minted_ca, content. fold kp cp. rewrite Hkp, Hcp. split; [by exists key, cert, i|by exists key].
Qed.

(** [ensure_ca] up to its case analysis. *)
Lemma ensure_ca_inv listing now drawn dir w r w' :
  let kp := ca_key_path dir in let cp := ca_cert_path dir in
  ensure_ca listing now drawn dir w = (r, w') ->
  exists r0 w0, io dir (fs_create_dir_all dir) w = (r0, w0) /\
  match r0 with
  | Err e => r = Err e /\ w' = w0
  | Ok _ => exists c k w1 w2, exists_at cp w0 = (Ok c, w1) /\ exists_at kp w1 = (Ok k, w2) /\ fs w2 = fs w0 /\
      match c, k with
      | true, true => load_ca cp kp w2 = (r, w')
      | false, false => exists l w3, any_leaf listing dir w2 = (l, w3) /\
          match l with
          | Ok None => mint_ca now drawn cp kp w3 = (r, w')
          | Ok (Some q) => r = Err (StaleLeaf q) /\ w' = w3
          | Err e => r = Err e /\ w' = w3
          end
      | _, _ => (exists found missing, r = Err (HalfPresent dir found missing)) /\ w' = w2
      end
  end.
Proof.
  intros kp cp. unfold ensure_ca. destruct (ca_names dir) as [-> ->]. fold kp cp.
  unfold mbnd at 1. destruct (io dir _ w) as [[[]|e] w0]; intros H; eexists _, w0; (split; [done|]).
  2:{ by injection H as <- <-. }
  unfold mbnd at 1 in H. destruct (exists_at cp w0) as [[c|] w1] eqn:E1; [|by unfold exists_at in E1; destruct (path_exists _ _)].
  unfold mbnd at 1 in H. destruct (exists_at kp w1) as [[k|] w2] eqn:E2; [|by unfold exists_at in E2; destruct (path_exists _ _)].
  exists c, k, w1, w2. split_and!; [done|done| |].
  - unfold exists_at in E1, E2. destruct (path_exists cp w0) as [? ?] eqn:P1; apply path_exists_fs in P1.
    destruct (path_exists kp w1) as [? ?] eqn:P2; apply path_exists_fs in P2. simplify_eq. congruence.
  - destruct c, k; unfold half_present in *; [exact H|injection H as <- <-; eauto..|].
    unfold mbnd at 1 in H. destruct (any_leaf listing dir w2) as [l w3]. exists l, w3. split; [done|].
    destruct l as [[q|]|e]; [by injection H as <- <-|exact H|by injection H as <- <-].
Qed.

(** [dir] and everything above it are directories. *)
Definition dir_chain (f : gmap path node) (dir : path) : Prop :=
  forall k, k <> [] -> k `prefix_of` dir -> exists m, f !! k = Some (Dir m).

(** A CA that is there is loaded, and nothing changes. *)
Lemma ensure_ca_loads listing now drawn dir w ca :
  holds_ca (fs w) dir ca -> dir_chain (fs w) dir ->
  exists ca', ensure_ca listing now drawn dir (no_faults w) = (Ok ca', no_faults w) /\
    issuer_id (issuer ca') = issuer_id (issuer ca).
Proof.
  intros (kb & key & cb & i & Ck & Uk & Hk & Cc & Uc & Hi & Hid) Hd.
  unfold ensure_ca. destruct (ca_names dir) as [-> ->]. exists (MkCa i). split; [|exact Hid].
  assert (io dir (fs_create_dir_all dir) (no_faults w) = (Ok tt, no_faults w)) as E.
  { unfold io, mmap_err, fs_create_dir_all. simpl. rewrite (mkdirs_done _ [] dir); [done|].
    intros k' Hne Hp. cbn [app]. by apply Hd. }
  unfold mbnd at 1. rewrite E. unfold mbnd at 1, exists_at at 1. rewrite path_exists_quiet.
  unfold mbnd at 1, exists_at at 1. rewrite path_exists_quiet, Cc, Ck. cbn.
  unfold mbnd. rewrite (read_quiet _ _ _ Ck Uk). unfold rc, mlift. rewrite Hk. cbn [map_err].
  rewrite (read_quiet _ _ _ Cc Uc), Hi. done.
Qed.

(** After a successful [ensure_ca] the CA is on disk. *)
Lemma ensure_ca_holds {RL : RcgenLaws R} listing now drawn dir w ca w' :
  ensure_ca listing now drawn dir w = (Ok ca, w') -> holds_ca (fs w') dir ca /\ dir_chain (fs w') dir.
Proof.
  intros (r0 & w0 & H0 & H)%ensure_ca_inv. destruct r0 as [u|]; [|by destruct H].
  assert (forall k, k <> [] -> k `prefix_of` dir -> exists m, fs w0 !! k = Some (Dir m)) as Hd0.
  { intros k Hk Hp. apply io_inv in H0 as (r1 & H0 & Hr1). unfold fs_create_dir_all in H0.
    destruct (pop_fault w) as [fault wa]. destruct fault; [simplify_eq|].
    destruct (mkdirs (fs wa) [] dir) as [f|] eqn:Hm; simplify_eq/=. by apply (mkdirs_dir_at _ [] _ _ _ Hm). }
  destruct H as (c & k & w1 & w2 & _ & _ & F2 & H).
  assert (holds_ca (fs w') dir ca /\ forall k, k `prefix_of` dir -> fs w' !! k = fs w0 !! k)
    as [Hh Hd].
  { rewrite <- F2. destruct c, k; [|by destruct H as [(? & ? & ?) _]..|].
    - apply load_ca_spec in H as [Hf Hh]. rewrite Hf. split; [by apply Hh|done].
    - destruct H as (l & w3 & (Fa & _ & _)%any_leaf_spec & H). rewrite <- Fa.
      destruct l as [[q|]|e]; [by destruct H|apply mint_ca_spec in H as [Ho Hh]|by destruct H].
      split; [by apply minted_holds, Hh|]. intros d' Hk. apply Ho; intros ->;
        unfold ca_key_path, ca_cert_path in Hk; rewrite ?tmp_path_snoc in Hk; by apply snoc_not_prefix in Hk. }
  split; [done|]. intros k' Hne Hp. rewrite Hd by done. by apply Hd0.
Qed.

(** A CA once there is loaded by every later run. *)
Lemma ensure_ca_reloads {RL : RcgenLaws R} listing now drawn dir w ca w' :
  ensure_ca listing now drawn dir w = (Ok ca, w') ->
  forall listing' now' drawn', exists ca',
    ensure_ca listing' now' drawn' dir (no_faults w') = (Ok ca', no_faults w') /\
    issuer_id (issuer ca') = issuer_id (issuer ca).
Proof. intros [Hh Hd]%ensure_ca_holds listing' now' drawn'. by apply ensure_ca_loads. Qed.

(** The trust root survives provisioning.  After a successful [ensure_ca],
    whatever failed to be minted or loaded before, every later run reloads a
    CA that is the same issuer (the same name and key, so its leaves chain to
    the same root) and changes nothing on disk. *)
Theorem ca_reload_same {RL : RcgenLaws R} listing now drawn dir w ca w' :
  ensure_ca listing now drawn dir w = (Ok ca, w') ->
  forall listing' now' drawn', exists ca',
    ensure_ca listing' now' drawn' dir (no_faults w') = (Ok ca', no_faults w') /\
    issuer_id (issuer ca') = issuer_id (issuer ca).
Proof. apply ensure_ca_reloads. Qed.

(** In an empty place the CA is minted, and no leaf was there before it. *)
Lemma ensure_ca_mints {RL : RcgenLaws R} listing now drawn dir w ca w' :
  steady 3 w -> content (fs w) (ca_cert_path dir) = None -> content (fs w) (ca_key_path dir) = None ->
  ensure_ca listing now drawn dir w = (Ok ca, w') ->
  minted_ca (fs w') dir ca /\
  (lists_children listing -> forall name, pem_leaf name = true -> dir ++ [name] <> tmp_path (ca_cert_path dir) ->
     dir ++ [name] <> tmp_path (ca_key_path dir) -> content (fs w') (dir ++ [name]) = None).
Proof.
  intros Hs Hc Hk (r0 & w0 & H0 & H)%ensure_ca_inv.
  destruct (create_dir_steady 2 dir w _ _ Hs H0) as [S0 C0].
  destruct r0 as [u|e]; [|by destruct H]. destruct H as (c & k & w1 & w2 & E1 & E2 & F2 & H).
  destruct (exists_at_steady 1 (ca_cert_path dir) w0 S0) as (w1' & E1' & F1 & S1).
  rewrite E1' in E1. injection E1 as <- <-.
  destruct (exists_at_steady 0 (ca_key_path dir) w1' S1) as (w2' & E2' & _ & _).
  rewrite E2' in E2. injection E2 as <- <-.
  assert (content (fs w0) (ca_cert_path dir) = None) as Ec by (rewrite <- Hc; apply C0).
  assert (content (fs w1') (ca_key_path dir) = None) as Ek by (rewrite F1, <- Hk; apply C0).
  rewrite Ec, Ek, !bool_decide_eq_false_2 in H by auto.
  destruct H as (l & w3 & (F3 & Hn & _)%any_leaf_spec & H). destruct l as [[q|]|e]; [by destruct H| |by destruct H].
  apply mint_ca_spec in H as [Ho Hm]. split; [by apply Hm|]. intros Hl name Hp T1 T2.
  assert (forall n, n = CA_CERT_FILE \/ n = CA_KEY_FILE -> dir ++ [name] <> dir ++ [n]) as Hd.
  { intros n Hn' Heq%app_inv_head. injection Heq as ->. unfold pem_leaf in Hp. destruct Hn' as [->| ->]; done. }
  unfold content. rewrite Ho, F3 by (done || apply Hd; auto).
  destruct (fs w2' !! (dir ++ [name])) as [n|] eqn:E; [|done]. by rewrite (Hn Hl eq_refl name) in Hp.
Qed.

Lemma exists_at_exact p w :
  exists w1, exists_at p w = (Ok (bool_decide (content (fs w) p <> None) && negb (fails_at 0 w)), w1) /\
    fs w1 = fs w /\ forall i, fails_at i w1 = fails_at (S i) w.
Proof.
  unfold exists_at, path_exists, pop_fault, fails_at. destruct (faults w) as [|[k|] l] eqn:E; cbn.
  - exists w. rewrite E, andb_true_r. split_and!; [|done|done]. do 2 f_equal. apply bool_decide_ext.
    unfold content. destruct (fs w !! p); naive_solver.
  - exists (World (fs w) l). by rewrite andb_false_r.
  - exists (World (fs w) l). rewrite andb_true_r. split_and!; [|done|done]. do 2 f_equal. apply bool_decide_ext.
    unfold content. destruct (fs w !! p); naive_solver.
Qed.

(** Creating the directory is one call and changes nothing inside it. *)
Lemma create_dir_exact dir w r w' :
  io dir (fs_create_dir_all dir) w = (r, w') ->
  (forall q, grown dir (fs w) (fs w') q) /\ (forall name, fs w' !! (dir ++ [name]) = fs w !! (dir ++ [name])) /\
  forall i, fails_at i w' = fails_at (S i) w.
Proof.
  intros (r0 & H & _)%io_inv. split; [exact (fs_create_dir_all_spec _ _ _ _ H)|].
  assert (forall f f', mkdirs f [] dir = Some f' -> forall name, f' !! (dir ++ [name]) = f !! (dir ++ [name])) as Hm
    by (intros f f' Hm name; exact (mkdirs_frame _ [] _ _ (dir ++ [name]) Hm (snoc_not_prefix _ _))).
  unfold fs_create_dir_all, pop_fault in H. unfold fails_at. destruct (faults w) as [|[k|] l] eqn:E.
  - cbn in H. destruct (mkdirs _ [] dir) as [f'|] eqn:Hf; injection H as _ <-; [|by rewrite E].
    split; [by apply Hm|]. cbn. by rewrite E.
  - cbn in H. by injection H as _ <-.
  - cbn in H. destruct (mkdirs _ [] dir) as [f'|] eqn:Hf; injection H as _ <-; [|done].
    split; [by apply Hm|done].
Qed.

(** What [ensure_ca] looks for: the two CA files, each by a call of its own
    (the second and the third it makes) that takes a failure for absence, and
    then a leaf. *)
Definition cert_seen (dir : path) (w : world) : bool :=
  bool_decide (content (fs w) (ca_cert_path dir) <> None) && negb (fails_at 1 w).
Definition key_seen (dir : path) (w : world) : bool :=
  bool_decide (content (fs w) (ca_key_path dir) <> None) && negb (fails_at 2 w).
Definition leaf_there (dir : path) (f : gmap path node) : Prop :=
  exists name, is_Some (f !! (dir ++ [name])) /\ pem_leaf name = true.

(** [ensure_ca] once the directory is there: the two answers are exactly what
    is seen, and the disk is as it was. *)
Lemma ensure_ca_sees listing now drawn dir w r w' :
  ensure_ca listing now drawn dir w = (r, w') ->
  (exists e, r = Err e /\ forall q, grown dir (fs w) (fs w') q) \/
  exists w2, (forall q, grown dir (fs w) (fs w2) q) /\
    (forall name, fs w2 !! (dir ++ [name]) = fs w !! (dir ++ [name])) /\
    match cert_seen dir w, key_seen dir w with
    | true, true => load_ca (ca_cert_path dir) (ca_key_path dir) w2 = (r, w')
    | false, false => exists l w3, any_leaf listing dir w2 = (l, w3) /\
        match l with
        | Ok (Some q) => r = Err (StaleLeaf q) /\ w' = w3
        | Ok None => mint_ca now drawn (ca_cert_path dir) (ca_key_path dir) w3 = (r, w')
        | Err e => r = Err e /\ w' = w3
        end
    | _, _ => (exists found missing, r = Err (HalfPresent dir found missing)) /\ w' = w2
    end.
Proof.
  intros (r0 & w0 & H0 & H)%ensure_ca_inv. destruct (create_dir_exact _ _ _ _ H0) as (G & N & Fa).
  destruct r0 as [u|e]; [|left; exists e; by destruct H as [-> ->]]. right.
  destruct H as (c & k & w1 & w2 & E1 & E2 & F2 & H).
  destruct (exists_at_exact (ca_cert_path dir) w0) as (w1' & E1' & F1 & A1). rewrite E1' in E1. injection E1 as <- <-.
  destruct (exists_at_exact (ca_key_path dir) w1') as (w2' & E2' & F2' & _). rewrite E2' in E2. injection E2 as <- <-.
  exists w2'. rewrite F2. split; [done|]. split; [done|].
  assert (forall n, content (fs w0) (dir ++ [n]) = content (fs w) (dir ++ [n])) as Hc
    by (intros n; unfold content; by rewrite N).
  rewrite F1, A1, !Fa in H. unfold ca_cert_path, ca_key_path in H. rewrite !Hc in H. exact H.
Qed.

(** C18: when a trust root is replaced.  Whatever fails, as long as a CA file
    is seen or any leaf is in the directory, [ensure_ca] changes no file, and
    the CA it returns, if any, is the one the files hold: half a pair is an
    error, and so are leaves without their CA.  With no leaf there and neither
    CA file seen, success means a fresh root, written over whatever was there.
    A file is seen when it is there and the call that looks for it does not
    fail: a failing [Path::exists] answers "not there". *)
Theorem trust_root_never_replaced {RL : RcgenLaws R} listing now drawn dir w r w' :
  lists_children listing -> ensure_ca listing now drawn dir w = (r, w') ->
  let guarded := cert_seen dir w = true \/ key_seen dir w = true \/ leaf_there dir (fs w) in
  (guarded -> (forall q, grown dir (fs w) (fs w') q) /\ (forall ca, r = Ok ca -> holds_ca (fs w) dir ca)) /\
  (~ guarded -> forall ca, r = Ok ca -> minted_ca (fs w') dir ca /\
     exists key, drawn = Ok key /\ content (fs w') (ca_key_path dir) = Some (Some (serialize_pem key))).
Proof.
  intros Hl H guarded. unfold guarded. apply ensure_ca_sees in H as [(e & -> & G)|(w2 & G & N & H)]; [done|].
  assert (forall ca, holds_ca (fs w2) dir ca -> holds_ca (fs w) dir ca) as Hh
    by (intros ca; unfold holds_ca, content, ca_key_path, ca_cert_path; by rewrite !N).
  assert (leaf_there dir (fs w2) <-> leaf_there dir (fs w)) as Hleaf
    by (unfold leaf_there; by setoid_rewrite N).
  destruct (cert_seen dir w), (key_seen dir w).
  - apply load_ca_spec in H as [-> Hc]. split; [|intros []; by left]. intros _. split; [done|].
    intros ca Hr. by apply Hh, Hc.
  - destruct H as [(? & ? & ->) ->]. done.
  - destruct H as [(? & ? & ->) ->]. done.
  - destruct H as (l & w3 & (F3 & Hn & _)%any_leaf_spec & H).
    destruct l as [[q|]|e]; [destruct H as [-> ->]; by rewrite F3| |destruct H as [-> ->]; by rewrite F3].
    split; [|by apply mint_ca_spec in H as [_ Hm]].
    intros [?|[?|(name & Hname & Hpem)%Hleaf]]; [done..|]. by rewrite (Hn Hl eq_refl name Hname) in Hpem.
Qed.
End Proofs.

(** ** A concrete rcgen and witnesses *)
#[export] Instance SanType_eq_dec : EqDecision SanType.
Proof. solve_decision. Defined.

#[export] Instance DnValue_eq_dec : EqDecision DnValue.
Proof. solve_decision. Defined.

Definition cn_text {R} (p : CertificateParams R) : string :=
  match common_name p with Some (Utf8String s) => s | Some (OtherDn s) => s | None => "" end.
Definition toy_sans : list SanType := DnsName <$> default_sans.
Definition toy_params (cn : string) (sans : list SanType) : CertificateParams unit :=
  MkParams NoCa (Some (Utf8String cn)) sans [] [] 0 0 tt.
Definition toy_cert : Type := CertificateParams unit * bool * (string * bool).
Definition is_ascii (b : bytes) : bool := forallb (in_range 0 127) b.
Definition toy_key_pem (k : bool) : bytes := bstr (if k then "K1" else "K0").
Definition toy_cert_pem (c : toy_cert) : bytes :=
  let b := bstr (cn_text c.1.1) in if is_ascii b then b else [].
Definition toy_self_signed (p : CertificateParams unit) (k : bool) : result string toy_cert :=
  if is_ascii (bstr (cn_text p)) then Ok (p, k, (cn_text p, k)) else Err "name".
Definition toy_request (p : CertificateParams unit) (k : bool) : result string (CertificateParams unit * bool) :=
  if decide (subject_alt_names p = toy_sans)
  then if decide (common_name p = Some (Utf8String (cn_text p))) then Ok (p, k) else Err "name"
  else Err "sans".

#[export] Instance ToyRcgen : Rcgen := {|
  rc_error := string; Rest := unit; KeyPair := bool; PublicKey := bool;
  Issuer := string * bool; Certificate := toy_cert; Csr := CertificateParams unit * bool;
  pub_of k := k;
  key_from_pem b := if decide (b = toy_key_pem true) then Ok true
                    else if decide (b = toy_key_pem false) then Ok false else Err "key";
  serialize_pem := toy_key_pem;
  default_params := toy_params "rcgen self signed cert" [];
  params_new sans := Ok (toy_params "rcgen self signed cert" (DnsName <$> sans));
  issuer_new p k := (cn_text p, k);
  issuer_from_ca_cert_pem b k := Ok (str_of b, k);
  self_signed := toy_self_signed;
  signed_by p k i := Ok (p, k, i);
  cert_pem := toy_cert_pem;
  serialize_request := toy_request;
  csr_pem c := Ok (wmod 8 (if c.2 then 1 else 0) :: bstr (cn_text c.1));
  csr_from_pem b := match b with
                    | x :: b => Ok (toy_params (str_of b) toy_sans, N.eqb (wval x) 1)
                    | [] => Err "csr"
                    end;
  csr_signed_by pk i := Ok (pk.1, pk.2, i);
  IssuerId := string * bool;
  issuer_id i := i;
  cert_params c := c.1.1;
  cert_subject_key c := c.1.2;
  cert_issuer c := c.2;
|}.

#[export] Instance ToyRcgenLaws : RcgenLaws ToyRcgen.
Proof.
  constructor; cbn.
  - by intros [].
  - by intros [].
  - intros c. unfold toy_cert_pem. destruct (is_ascii _) eqn:E; [by apply utf8_valid_ascii|done].
  - intros p k c. unfold toy_self_signed. destruct (is_ascii _) eqn:E; [|done]. intros [= <-].
    eexists. split; [done|]. unfold toy_cert_pem. cbn. by rewrite E, str_of_bstr.
  - by intros p k i c [= <-].
  - by intros p k i c [= <-].
  - intros [|x b] p k; [done|]. by intros [= <- _].
  - intros p k c b. unfold toy_request. repeat case_decide; try done. intros [= <-] [= <-]. cbn.
    eexists. rewrite str_of_bstr. split_and!; [by destruct k|done|done].
Qed.

Definition demo_certs : world := World {[ ["certs"] := Dir 493 ]} [].
Definition demo_ca_run := ensure_ca (R := ToyRcgen) table_listing 0 (Ok true) ["certs"] demo_certs.
Definition demo_root_ca : Ca (R := ToyRcgen) := MkCa (R := ToyRcgen) ("sovra-ca", true).
Definition demo_other_ca : Ca (R := ToyRcgen) := MkCa (R := ToyRcgen) ("sovra-ca", false).

Lemma demo_ca_minted : fst demo_ca_run = Ok demo_root_ca.
Proof. vm_cast_no_check (eq_refl (fst demo_ca_run)). Qed.

Lemma ca_reload_same_witness :
  exists ca', ensure_ca table_listing 5 (Ok false) ["certs"] (no_faults (snd demo_ca_run))
      = (Ok ca', no_faults (snd demo_ca_run)) /\
    issuer_id (Rcgen := ToyRcgen) (issuer ca') = ("sovra-ca", true).
Proof.
  pose proof demo_ca_minted as Hm. destruct demo_ca_run as [r w'] eqn:E. cbn [fst snd] in *. subst r.
  exact (ca_reload_same (R := ToyRcgen) table_listing 0 (Ok true) ["certs"] demo_certs demo_root_ca w' E
           table_listing 5 (Ok false)).
Defined.

(** The CA key was deleted: provisioning refuses, and the root survives.  With
    both files in place and neither seen, it is replaced. *)
Definition demo_half : world := World (delete (ca_key_path ["certs"]) (fs (snd demo_ca_run))) [None; None; Some 0%nat].
Definition demo_blind : world := World (fs (snd demo_ca_run)) [None; Some 0%nat; Some 0%nat].
Definition demo_replaced := ensure_ca (R := ToyRcgen) table_listing 5 (Ok false) ["certs"] demo_blind.
Lemma demo_replaced_Ok : fst demo_replaced = Ok demo_other_ca.
Proof. vm_cast_no_check (eq_refl (fst demo_replaced)). Qed.

Lemma demo_no_leaf name : is_Some (fs demo_blind !! (["certs"] ++ [name])) -> pem_leaf name = false.
Proof.
  intros Hn. apply table_listing_children in Hn. revert Hn.
  assert (forallb (fun n => negb (pem_leaf n)) (table_listing (fs demo_blind) ["certs"]) = true) as Hf
    by (vm_compute; reflexivity).
  rewrite forallb_forall in Hf. intros Hn%list_elem_of_In. by apply negb_true_iff, Hf.
Qed.

Lemma trust_root_never_replaced_witness :
  (forall q, grown ["certs"] (fs demo_half)
     (fs (snd (ensure_ca (R := ToyRcgen) table_listing 5 (Ok false) ["certs"] demo_half))) q) /\
  content (fs demo_blind) (ca_key_path ["certs"]) = Some (Some (toy_key_pem true)) /\
  content (fs (snd demo_replaced)) (ca_key_path ["certs"]) = Some (Some (toy_key_pem false)).
Proof.
  split.
  - refine (proj1 (proj1 (trust_root_never_replaced (R := ToyRcgen) table_listing 5 (Ok false) ["certs"] demo_half
              (fst (ensure_ca (R := ToyRcgen) table_listing 5 (Ok false) ["certs"] demo_half))
              (snd (ensure_ca (R := ToyRcgen) table_listing 5 (Ok false) ["certs"] demo_half))
              table_listing_children _) _)).
    + apply surjective_pairing.
    + left. vm_compute. reflexivity.
  - split; [vm_compute; reflexivity|].
    destruct (trust_root_never_replaced (R := ToyRcgen) table_listing 5 (Ok false) ["certs"] demo_blind
                (fst demo_replaced) (snd demo_replaced) table_listing_children
                (surjective_pairing demo_replaced)) as [_ H].
    destruct (fun X => H X demo_other_ca demo_replaced_Ok) as (_ & key & [= <-] & Hk); [|exact Hk].
    intros [E|[E|(name & Hn & Hp)]]; [vm_compute in E; discriminate E..|].
    rewrite (demo_no_leaf name Hn) in Hp. discriminate Hp.
Defined.

Definition demo_leaf := ensure_leaf (R := ToyRcgen) 7 (Ok false) ["certs"] "cosigner0" "sovra-cosigner-0"
  default_sans demo_root_ca (World (fs (snd demo_ca_run)) [None; None; None; None; None; None; Some 0%nat]).
Lemma leaf_provisioned_witness :
  fs (snd demo_leaf) !! ["certs"; "cosigner0.key.pem"] = Some (File (toy_key_pem false) 384) /\
  content (fs (snd demo_leaf)) ["certs"; "cosigner0.cert.pem"] = None.
Proof.
  pose proof (leaf_provisioned (R := ToyRcgen) 7 (Ok false) ["certs"] "cosigner0" "sovra-cosigner-0"
    default_sans demo_root_ca (World (fs (snd demo_ca_run)) [None; None; None; None; None; None; Some 0%nat])
    (fst demo_leaf) (snd demo_leaf)) as H.
  cbv zeta in H. specialize (H eq_refl). assert (steady 2 (World (fs (snd demo_ca_run))
    [None; None; None; None; None; None; Some 0%nat])) as Hs by (repeat constructor).
  specialize (H Hs (surjective_pairing demo_leaf)).
  assert (content (fs (snd demo_ca_run)) (leaf_cert (leaf_paths ["certs"] "cosigner0")) = None) as E1
    by (vm_compute; reflexivity).
  assert (content (fs (snd demo_ca_run)) (leaf_key (leaf_paths ["certs"] "cosigner0")) = None) as E2
    by (vm_compute; reflexivity).
  cbn [fs] in H. rewrite E1, E2 in H. destruct H as (_ & Hk & _). split.
  - destruct Hk as (key & [= <-] & Hk); [|exact Hk]. vm_compute. discriminate.
  - vm_compute. reflexivity.
Defined.

Definition demo_csr := generate_csr (R := ToyRcgen) (Ok true) ["node"] "cosigner1" "sovra-cosigner-1"
  default_sans (World ∅ []).
Definition demo_csr_pem : bytes := wmod 8 1 :: bstr "sovra-cosigner-1".

Lemma demo_csr_ok : fst demo_csr = Ok (csr_paths ["node"] "cosigner1").
Proof. vm_cast_no_check (eq_refl (fst demo_csr)). Qed.

Lemma demo_csr_signed :
  sign_csr (R := ToyRcgen) 9 demo_root_ca demo_csr_pem = Ok (bstr "sovra-cosigner-1").
Proof. vm_cast_no_check (eq_refl (sign_csr (R := ToyRcgen) 9 demo_root_ca demo_csr_pem)). Qed.

Lemma csr_enrolment_witness :
  exists cert : toy_cert,
    sign_csr (R := ToyRcgen) 9 demo_root_ca demo_csr_pem = Ok (toy_cert_pem cert) /\
    issued_leaf (R := ToyRcgen) 9 demo_root_ca true (Some (Utf8String "sovra-cosigner-1")) toy_sans NoCa cert.
Proof.
  pose proof demo_csr_ok as Hok. destruct demo_csr as [r w'] eqn:E. cbn in Hok. subst r.
  assert (content (fs (snd demo_csr)) (req_csr (csr_paths ["node"] "cosigner1")) = Some (Some demo_csr_pem)) as Hpem
    by (vm_compute; reflexivity).
  rewrite E in Hpem. cbn [snd] in Hpem.
  assert (content ∅ (req_csr (csr_paths ["node"] "cosigner1")) = None) as N1 by (vm_compute; reflexivity).
  assert (content ∅ (req_key (csr_paths ["node"] "cosigner1")) = None) as N2 by (vm_compute; reflexivity).
  destruct (csr_enrolment (R := ToyRcgen) 9 (Ok true) ["node"] "cosigner1" "sovra-cosigner-1" default_sans
              demo_root_ca (World ∅ []) _ w' demo_csr_pem (bstr "sovra-cosigner-1")
              eq_refl (Forall_nil_2 _) N1 N2 E Hpem)
    as (_ & key & p0 & cert & [= <-] & [= <-] & _ & Hout & Hi).
  - exact demo_csr_signed.
  - exists cert. split; [|exact Hi].
    exact (eq_trans demo_csr_signed (f_equal Ok Hout)).
Defined.

Lemma csr_policy_stamped_witness :
  exists p k (cert : toy_cert), csr_from_pem (Rcgen := ToyRcgen) demo_csr_pem = Ok (p, k) /\
    issued_leaf (R := ToyRcgen) 9 demo_root_ca k (common_name p) (subject_alt_names p) NoCa cert.
Proof.
  destruct (csr_policy_stamped (R := ToyRcgen) 9 demo_root_ca demo_csr_pem (bstr "sovra-cosigner-1")
              demo_csr_signed) as (p & k & cert & Hp & _ & Hi).
  exists p, k, cert. split; [exact Hp|exact Hi].
Defined.
