(* ===== verification/Tls.v ===== *)
(** * TLS material ([crates/sovra-ipc/src/tls.rs])

    Loading the three PEM files of an mTLS peer, and the configurations built
    from them.  rustls and reqwest are an interface: what they parse, and what
    they build from a root store, a chain and a key.  [Bringup] composes this
    with [Certs]: what provisioning wrote is what the processes load. *)

From S2P Require Import Prelude Text Types State Certs.
From Stdlib Require Import String NArith ZArith.
From stdpp Require Import base decidable list gmap strings.
Open Scope string_scope. Open Scope list_scope.

Class Rustls : Type := {
  CertificateDer : Type;
  PrivateKeyDer : Type;
  pem_error : Type;
  NoItemsFound : pem_error;
  cert_from_pem_slice : bytes -> result pem_error CertificateDer;      (* the first certificate *)
  certs_in_pem_slice : bytes -> list (result pem_error CertificateDer);
  key_from_pem_slice : bytes -> result pem_error PrivateKeyDer;
  rustls_error : Type;
  RootCertStore : Type;
  roots_empty : RootCertStore;
  roots_add : RootCertStore -> CertificateDer -> result rustls_error RootCertStore;
  verifier_error : Type;
  ClientCertVerifier : Type;
  webpki_verifier : RootCertStore -> result verifier_error ClientCertVerifier;
  ServerConfig : Type;
  with_single_cert : ClientCertVerifier -> list CertificateDer -> PrivateKeyDer -> result rustls_error ServerConfig;
  ClientConfig : Type;
  with_client_auth_cert : RootCertStore -> list CertificateDer -> PrivateKeyDer -> result rustls_error ClientConfig;
  reqwest_error : Type;
  HttpCert : Type;
  http_cert_from_pem : bytes -> result reqwest_error HttpCert;
  HttpIdentity : Type;
  identity_from_pem : bytes -> result reqwest_error HttpIdentity;
  HttpClient : Type;
  http_build : N -> list HttpCert -> HttpIdentity -> result reqwest_error HttpClient;
}.

Section Tls.
Context {T : Rustls}.

(* src ipc/tls.rs:20-32 TlsMaterials *)
Record TlsMaterials : Type := MkMaterials {
  tm_ca : CertificateDer;
  cert_chain : list CertificateDer;
  tm_key : PrivateKeyDer;
  ca_pem : bytes;
  identity_pem : bytes;
}.

(* src ipc/tls.rs:34-61 TlsError *)
Inductive TlsError : Type :=
  | Load (p : path) (source : pem_error)
  | Read (p : path) (source : io_error)
  | Config (e : rustls_error)
  | Verifier (e : verifier_error)
  | Http (e : reqwest_error)
  | Serve (e : io_error)
  | PlainScheme (url expected : string).

(** The texts of the libraries' own errors. *)
Class TlsTexts : Type := {
  pem_error_text : pem_error -> string;
  rustls_error_text : rustls_error -> string;
  verifier_error_text : verifier_error -> string;
  reqwest_error_text : reqwest_error -> string;
}.
(* src ipc/tls.rs:34-61 <TlsError as Display>::fmt *)
Definition tls_error_text `{TlsTexts} (e : TlsError) : msg :=
  match e with
  | Load p source => [Lit "TLS material "; show_path p; Lit ": "; Txt (pem_error_text source)]
  | Read p _ => [Lit "TLS material "; show_path p; Lit ": "; Txt "io error"]
  | Config e => [Lit "building TLS config: "; Txt (rustls_error_text e)]
  | Verifier e => [Lit "building client-cert verifier: "; Txt (verifier_error_text e)]
  | Http e => [Lit "building HTTP client: "; Txt (reqwest_error_text e)]
  | Serve _ => [Lit "serving TLS: "; Txt "io error"]
  | PlainScheme url expected =>
      [Txt url; Lit ": internal peers must be reached over "; Txt expected; Lit " — plaintext is refused"]
  end.

(** The closures [read] and [parse_err]. *)
(* src ipc/tls.rs:73-78 TlsMaterials::load *)
Definition read_pem (p : path) : M world TlsError bytes := mmap_err (Read p) (fs_read p).
(* src ipc/tls.rs:79-82 TlsMaterials::load *)
Definition parsed {A} (p : path) (x : result pem_error A) : M world TlsError A := mlift (map_err (Load p) x).

(* src ipc/tls.rs:64-111 TlsMaterials::load *)
Definition load (ca cert key : path) : M world TlsError TlsMaterials :=
  let! ca_pem := read_pem ca in
  let! ca_der := parsed ca (cert_from_pem_slice ca_pem) in
  let! cert_pem := read_pem cert in
  let! cert_chain := parsed cert (collect (certs_in_pem_slice cert_pem)) in
  match cert_chain with
  | [] => mabort (Load cert NoItemsFound)
  | _ :: _ =>
      let! key_pem := read_pem key in
      let! key_der := parsed key (key_from_pem_slice key_pem) in
      mpure (MkMaterials ca_der cert_chain key_der ca_pem (cert_pem ++ key_pem))
  end.

Section Materials.
Variable m : TlsMaterials.

(* src ipc/tls.rs:113-117 TlsMaterials::root_store *)
Definition root_store : result TlsError RootCertStore := map_err Config (roots_add roots_empty (tm_ca m)).

(* src ipc/tls.rs:119-126 TlsMaterials::server_config *)
Definition server_config : result TlsError ServerConfig :=
  let? roots := root_store in
  let? verifier := map_err Verifier (webpki_verifier roots) in
  map_err Config (with_single_cert verifier (cert_chain m) (tm_key m)).

(* src ipc/tls.rs:128-136 TlsMaterials::ws_client_config *)
Definition ws_client_config : result TlsError ClientConfig :=
  let? roots := root_store in
  map_err Config (with_client_auth_cert roots (cert_chain m) (tm_key m)).

(* src ipc/tls.rs:138-147 TlsMaterials::http_client *)
Definition http_client (timeout : N) : result TlsError HttpClient :=
  let? cert := map_err Http (http_cert_from_pem (ca_pem m)) in
  let? identity := map_err Http (identity_from_pem (identity_pem m)) in
  map_err Http (http_build timeout [cert] identity).

(* src ipc/tls.rs:149-162 TlsMaterials::blocking_http_client *)
Definition blocking_http_client (timeout : N) : result TlsError HttpClient := http_client timeout.

(** [nonblocking] and [served] are the outcomes of switching the listener's
    mode and of serving with a configuration until the end. *)
(* src ipc/tls.rs:169-182 serve_mtls *)
Definition serve_mtls (nonblocking : result io_error unit) (served : ServerConfig -> result io_error unit)
  : result TlsError unit :=
  let? _ := map_err Serve nonblocking in
  let? config := server_config in
  map_err Serve (served config).
End Materials.

(** ** Loading is fail-closed *)
Lemma read_pem_spec p w r w' :
  read_pem p w = (r, w') ->
  fs w' = fs w /\
  match r with Ok c => content (fs w) p = Some (Some c) | Err e => exists s, e = Read p s end.
Proof.
  unfold read_pem, mmap_err, fs_read. destruct (pop_fault w) as [fault w1] eqn:E. apply pop_fault_fs in E.
  unfold content. rewrite E. destruct fault, (fs w !! p) as [[]|]; simpl; intros [= <- <-]; eauto.
Qed.

(** What the three files must hold for [m] to be loaded from them. *)
Definition material_of (f : gmap path node) (ca cert key : path) (m : TlsMaterials) : Prop :=
  exists cb kb, content f ca = Some (Some (ca_pem m)) /\ content f cert = Some (Some cb) /\
    content f key = Some (Some kb) /\
    cert_from_pem_slice (ca_pem m) = Ok (tm_ca m) /\ certs_in_pem_slice cb = Ok <$> cert_chain m /\
    cert_chain m <> [] /\ key_from_pem_slice kb = Ok (tm_key m) /\ identity_pem m = cb ++ kb.

Lemma load_Ok ca cert key w m w' :
  load ca cert key w = (Ok m, w') -> fs w' = fs w /\ material_of (fs w) ca cert key m.
Proof.
  unfold load. intros (b1 & w1 & [F1 C1]%read_pem_spec & H)%mbnd_Ok.
  apply mbnd_Ok in H as (d1 & ? & [H1%map_err_Ok <-]%pair_eq & H).
  apply mbnd_Ok in H as (b2 & w2 & [F2 C2]%read_pem_spec & H).
  apply mbnd_Ok in H as (ch & ? & [H2%map_err_Ok%collect_Ok <-]%pair_eq & H).
  destruct ch as [|c ch]; [done|].
  apply mbnd_Ok in H as (b3 & w3 & [F3 C3]%read_pem_spec & H).
  apply mbnd_Ok in H as (d3 & ? & [H3%map_err_Ok <-]%pair_eq & H). injection H as <- <-.
  split; [congruence|]. rewrite F2, F1 in C3. rewrite F1 in C2. by exists b2, b3.
Qed.

Lemma load_frame ca cert key w r w' : load ca cert key w = (r, w') -> fs w' = fs w.
Proof.
  unfold load. unfold mbnd. destruct (read_pem ca w) as [[b1|e] w1] eqn:E1; apply read_pem_spec in E1 as [F1 _];
    [|by intros [= _ <-]].
  destruct (parsed ca _ w1) as [[d1|e] w1'] eqn:E1'; injection E1' as _ <-; [|by intros [= _ <-]].
  destruct (read_pem cert w1) as [[b2|e] w2] eqn:E2; apply read_pem_spec in E2 as [F2 _];
    [|intros [= _ <-]; congruence].
  destruct (parsed cert _ w2) as [[ch|e] w2'] eqn:E2'; injection E2' as _ <-; [|intros [= _ <-]; congruence].
  destruct ch; [intros [= _ <-]; congruence|].
  destruct (read_pem key w2) as [[b3|e] w3] eqn:E3; apply read_pem_spec in E3 as [F3 _];
    [|intros [= _ <-]; congruence].
  destruct (parsed key _ w3) as [[d3|e] w3'] eqn:E3'; injection E3' as _ <-; intros [= _ <-]; congruence.
Qed.

Lemma load_runs ca cert key w m :
  material_of (fs w) ca cert key m -> load ca cert key (no_faults w) = (Ok m, no_faults w).
Proof.
  intros (cb & kb & C1 & C2 & C3 & H1 & H2 & Hne & H3 & Hi). unfold load, read_pem, parsed, mbnd, mmap_err, mlift.
  rewrite fs_read_quiet, C1. cbn [map_err]. rewrite H1. cbn [map_err].
  rewrite fs_read_quiet, C2. cbn [map_err]. rewrite (proj2 (collect_Ok _ _) H2). cbn [map_err].
  destruct m as [d ch k cp ip]. cbn in *. destruct ch; [done|].
  rewrite fs_read_quiet, C3. cbn [map_err]. rewrite H3. cbn. by rewrite Hi.
Qed.

(** TLS material is loaded whole or not at all.  [load] never touches the
    disk; it succeeds exactly with the material the three files hold, a
    non-empty chain and a key among them, and every failure names the one of
    the three paths that could not be read or parsed. *)
Theorem load_fail_closed ca cert key w r w' :
  load ca cert key w = (r, w') ->
  fs w' = fs w /\
  match r with
  | Ok m => material_of (fs w) ca cert key m
  | Err e => exists p, p ∈ [ca; cert; key] /\ ((exists s, e = Read p s) \/ exists s, e = Load p s)
  end /\
  (faults w = [] -> is_ok r = true <-> exists m, material_of (fs w) ca cert key m).
Proof.
  intros H. assert (is_ok r = true -> exists m, r = Ok m /\ material_of (fs w) ca cert key m) as Hok.
  { intros Hr. destruct r as [m|]; [|done]. exists m. split; [done|]. by apply load_Ok in H as [_ H]. }
  split; [|split].
  - by apply load_frame in H.
  - destruct r as [m|e]; [by apply load_Ok in H as [_ ?]|]. revert H. unfold load.
    assert (forall A (x : result pem_error A) p w e w', parsed p x w = (Err e, w') -> exists s, e = Load p s) as Hp.
    { intros A x p w1 e1 w2. unfold parsed, mlift. destruct x; [done|]. intros [= <- _]. eauto. }
    intros [[_ Hr]%read_pem_spec|(b1 & w1 & _ & H)]%mbnd_Err; [exists ca; set_solver|].
    apply mbnd_Err in H as [Hl%Hp|(d1 & w2 & _ & H)]; [exists ca; set_solver|].
    apply mbnd_Err in H as [[_ Hr]%read_pem_spec|(b2 & w3 & _ & H)]; [exists cert; set_solver|].
    apply mbnd_Err in H as [Hl%Hp|(ch & w4 & _ & H)]; [exists cert; set_solver|].
    destruct ch; [injection H as <- _; exists cert; split; [set_solver|eauto]|].
    apply mbnd_Err in H as [[_ Hr]%read_pem_spec|(b3 & w5 & _ & H)]; [exists key; set_solver|].
    apply mbnd_Err in H as [Hl%Hp|(d3 & w6 & _ & H)]; [exists key; set_solver|done].
  - intros Hf. split; [intros Hr; destruct (Hok Hr) as (m & _ & Hm); eauto|]. intros [m Hm%load_runs].
    assert (no_faults w = w) as Hw by (destruct w; cbn in *; by rewrite Hf). rewrite Hw, H in Hm. by injection Hm as ->.
Qed.
End Tls.

(** ** Between the two libraries *)
(** rustls reads what rcgen prints: the DER of a certificate and of a key. *)
Class PemBridge (R : Rcgen) (T : Rustls) : Type := {
  der : Certificate -> CertificateDer;
  key_der : KeyPair -> PrivateKeyDer;
  cert_pem_first c : cert_from_pem_slice (cert_pem c) = Ok (der c);
  cert_pem_all c : certs_in_pem_slice (cert_pem c) = [Ok (der c)];
  key_pem_first k : key_from_pem_slice (serialize_pem k) = Ok (key_der k);
}.

(** A root store takes any certificate that parses; a store that is not empty
    has a verifier; a certificate is presented with its own key. *)
Class RustlsAccepts {R : Rcgen} {T : Rustls} (B : PemBridge R T) : Prop := {
  accepts_root c : exists r v, roots_add roots_empty (der c) = Ok r /\ webpki_verifier r = Ok v;
  serves_pair v c k : cert_subject_key c = pub_of k -> exists s, with_single_cert v [der c] (key_der k) = Ok s;
  presents_pair r c k : cert_subject_key c = pub_of k -> exists s, with_client_auth_cert r [der c] (key_der k) = Ok s;
}.

(** ** A concrete rustls and witnesses *)
#[export] Instance ToyRustls : Rustls := {|
  CertificateDer := bytes; PrivateKeyDer := bool; pem_error := string; NoItemsFound := "no items";
  cert_from_pem_slice b := Ok b; certs_in_pem_slice b := [Ok b];
  key_from_pem_slice b := key_from_pem (Rcgen := ToyRcgen) b;
  rustls_error := string; RootCertStore := list bytes; roots_empty := [];
  roots_add r c := Ok (c :: r); verifier_error := string; ClientCertVerifier := list bytes;
  webpki_verifier r := Ok r;
  ServerConfig := list bytes * list bytes * bool; with_single_cert v ch k := Ok (v, ch, k);
  ClientConfig := list bytes * list bytes * bool; with_client_auth_cert r ch k := Ok (r, ch, k);
  reqwest_error := string; HttpCert := bytes; http_cert_from_pem b := Ok b;
  HttpIdentity := bytes; identity_from_pem b := Ok b; HttpClient := list bytes; http_build _ c _ := Ok c;
|}.

#[export] Instance ToyTexts : TlsTexts (T := ToyRustls) := {|
  pem_error_text e := e; rustls_error_text e := e; verifier_error_text e := e; reqwest_error_text e := e;
|}.

#[export] Instance ToyBridge : PemBridge ToyRcgen ToyRustls := {|
  der := toy_cert_pem; key_der := fun k => k;
  cert_pem_first _ := eq_refl; cert_pem_all _ := eq_refl;
  key_pem_first k := key_roundtrip (R := ToyRcgen) k;
|}.

#[export] Instance ToyAccepts : RustlsAccepts ToyBridge.
Proof. split; cbn; eauto. Qed.

Definition demo_ca_world : world := snd demo_ca_run.
Definition demo_paths : LeafPaths := leaf_paths ["certs"] "cosigner0".

Definition demo_load := load (T := ToyRustls) (ca_cert_path ["certs"]) (leaf_cert demo_paths) (leaf_key demo_paths).

Lemma load_fail_closed_witness : fs (snd (demo_load demo_ca_world)) = fs demo_ca_world.
Proof.
  exact (proj1 (load_fail_closed (T := ToyRustls) (ca_cert_path ["certs"]) (leaf_cert demo_paths) (leaf_key demo_paths)
                  demo_ca_world _ _ (surjective_pairing _))).
Defined.
