(* ===== verification/Startup.v ===== *)
(** * Cosigner startup ([crates/sovra-cosigner]: [config.rs], [identity.rs], [run.rs])

    Configuration bounds, the process identity on disk, the roster self-check,
    the sealer, the policy and the TLS material: everything that must hold
    before a cosigner serves its first request, and the serving itself up to
    what the listener does. *)

From S2P Require Import Prelude Text Types Mpc Envelope Network Policy State Control Remote Cosigner.
From S2P Require Certs Tls.
From Stdlib Require Import String Ascii NArith Lia.
From stdpp Require Import base decidable list gmap strings.
Open Scope string_scope. Open Scope list_scope.

(** ** Third-party and text interfaces *)
(** ed25519-dalek's key bytes. *)
Class KeyBytes (C : Crypto) : Type := {
  sk_from_bytes : array 32 -> SigningKey;
  sk_to_bytes : SigningKey -> array 32;
  vk_from_bytes : array 32 -> option VerifyingKey;    (* rejects invalid points *)
}.
Class KeyLaws {C : Crypto} (K : KeyBytes C) : Prop := {
  sk_bytes_roundtrip : forall k, sk_from_bytes (sk_to_bytes k) = k;
  vk_bytes_roundtrip : forall k, vk_from_bytes (vk_bytes (verifying_key k)) = Some (verifying_key k);
}.

(** The toml crate's reading of a file's bytes. *)
Class TomlLib : Type := { toml_from_str : bytes -> option table }.

(** ** Configuration *)
(** The values are those after layering and defaults, which the config crate
    does. *)
(* src cosigner/config.rs:17-48 Config *)
Record Config : Type := MkConfig {
  party_id : u8;
  threshold : u8;
  cfg_participants : option (list string);
  bind_addr : string;
  data_dir : path;
  policy_path : path;
  tls_ca_path : path;
  tls_cert_path : path;
  tls_key_path : path;
  seal_key_path : option path;
  relay_url : string;
  ttl_secs : u64;
}.

(* src cosigner/config.rs:50-52 default_bind_addr *)
Definition default_bind_addr : string := "127.0.0.1:4100".
(* src cosigner/config.rs:53-55 default_relay_url *)
Definition default_relay_url : string := "wss://127.0.0.1:3100/env".
(* src cosigner/config.rs:56-58 default_ttl_secs *)
Definition default_ttl_secs : u64 := wmod 64 60.
(* src cosigner/config.rs:59-61 default_threshold *)
Definition default_threshold : u8 := wmod 8 2.

(** What the roster, the sealer and the policy file can refuse with. *)
Inductive SetupError : Type := BadStart (m : msg) | StartPanic (what : string).

(* src cosigner/config.rs:83-104 Config::load *)
Definition validate_config (cfg : Config) : result msg unit :=
  match cfg_participants cfg with
  | None => Ok tt
  | Some ps =>
      let n := N.of_nat (length ps) in
      if N.ltb n 2 then
        Err [Lit "participants must list at least 2 parties, got "; Num n]
      else if N.leb n (wval (party_id cfg)) then
        Err [Lit "party_id "; Num (wval (party_id cfg)); Lit " out of range for "; Num n; Lit " participants"]
      else if negb (N.leb 2 (wval (threshold cfg)) && N.leb (wval (threshold cfg)) n) then
        Err [Lit "threshold "; Num (wval (threshold cfg)); Lit " out of bounds for "; Num n; Lit " participants"]
      else Ok tt
  end.

Section Startup.
Context {C : Crypto} {K : KeyBytes C} {X : HexCodec} {A : AlloyParse} {T : TomlLib}.

(** ** Identity *)
(* src cosigner/identity.rs:19-19 IDENTITY_FILE *)
Definition IDENTITY_FILE : string := "identity.key".

Definition at_c {B} (x : S_ B) : M world CosignerError B := mmap_err Cosigner.State x.

(** [fresh] is the key [SigningKey::generate] would draw. *)
(* src cosigner/identity.rs:21-42 load_or_generate *)
Definition load_or_generate (dir : path) (fresh : SigningKey) : M world CosignerError SigningKey :=
  fun w =>
    let p := dir ++ [IDENTITY_FILE] in
    let (found, w) := path_exists p w in
    if found then
      (let! b := at_c (at_ (fs_read p) p) in
       match to_array 32 b with
       | Some a => mpure (sk_from_bytes a)
       | None => mabort (Identity [show_path p; Lit " is "; Num (N.of_nat (length b));
                           Lit " bytes, expected 32 — refusing to regenerate a pinned identity"])
       end) w
    else
      (let! _ := at_c (at_ (fs_create_dir_all dir) dir) in
       let! _ := at_c (write_atomic p (arr (sk_to_bytes fresh))) in
       mpure fresh) w.

(** ** Roster, sealer, policy *)
(* src cosigner/run.rs:148-154 parse_vk *)
Definition parse_vk (h : string) : result SetupError VerifyingKey :=
  let? b := ok_or (BadStart [Txt "hex"]) (hex_decode h) in
  let? a := ok_or (BadStart [Lit "participant verifying key must be 32 bytes"]) (to_array 32 b) in
  ok_or (BadStart [Txt "invalid point"]) (vk_from_bytes a).

(* src cosigner/run.rs:45-67 run *)
Definition load_roster (cfg : Config) (key : SigningKey) : result SetupError (option (list VerifyingKey)) :=
  match cfg_participants cfg with
  | None => Ok None
  | Some hexes =>
      let? roster := collect (parse_vk <$> hexes) in
      match roster !! N.to_nat (wval (party_id cfg)) with
      | None => Err (StartPanic "roster[config.party_id]")
      | Some own =>
          if negb (if vk_eq_dec own (verifying_key key) then true else false) then
            Err (BadStart [Lit "config participants["; Num (wval (party_id cfg));
                           Lit "] does not match this cosigner's identity key"])
          else Ok (Some roster)
      end
  end.

(* src cosigner/run.rs:120-138 sealer *)
Definition load_sealer (cfg : Config) : M world SetupError ShardSealer :=
  match seal_key_path cfg with
  | None => mpure Passthrough
  | Some p =>
      let! raw := mmap_err (fun _ => BadStart [Lit "seal key "; show_path p; Lit ": "; Txt "read"]) (fs_read_to_string p) in
      let! b := mlift (ok_or (BadStart [Lit "seal key "; show_path p; Lit ": "; Txt "hex"]) (hex_decode (trim (str_of raw)))) in
      let! key := mlift (ok_or (BadStart [Lit "seal key "; show_path p; Lit ": must be 32 bytes (64 hex chars)"]) (to_array 32 b)) in
      mpure (XChaChaSealer key)
  end.

(* src cosigner/run.rs:140-146 load_policy *)
Definition load_policy (p : path) : M world SetupError Policy :=
  let! raw := mmap_err (fun _ => BadStart [Lit "policy file "; show_path p; Lit ": "; Txt "read"]) (fs_read_to_string p) in
  let! t := mlift (ok_or (BadStart [Lit "policy file "; show_path p; Lit ": "; Txt "toml"]) (toml_from_str raw)) in
  mlift (map_err (fun _ => BadStart [Lit "policy file "; show_path p; Lit ": "; Txt "policy"]) (policy_deserialize t)).

Fixpoint has_prefix (p s : string) : bool :=
  match p, s with
  | EmptyString, _ => true
  | String c p, String d s => bool_decide (c = d) && has_prefix p s
  | String _ _, EmptyString => false
  end.

(** ** Bringing the process up *)
Section Run.
Context {TL : Tls.Rustls}.

Inductive StartError : Type :=
  | BadConfig (m : msg)
  | BadSetup (e : SetupError)
  | StartCosigner (e : CosignerError)
  | StartState (e : StateError)
  | StartTls (e : Tls.TlsError)
  | StartBind (e : io_error).

(** What startup leaves for serving: the shared state, the relay's client
    configuration in it, and the material the listener presents. *)
Record Started : Type := MkStarted {
  st_state : CosignerState;
  st_relay_tls : Tls.ClientConfig;
  st_tls : Tls.TlsMaterials;
}.

(** Everything before the listener is bound. *)
(* src cosigner/run.rs:35-98 run *)
Definition start (cfg : Config) (fresh : SigningKey) : M world StartError Started :=
  let! _ := mlift (map_err BadConfig (validate_config cfg)) in
  let! key := mmap_err StartCosigner (load_or_generate (data_dir cfg) fresh) in
  let! roster := mlift (map_err BadSetup (load_roster cfg key)) in
  let! sl := mmap_err BadSetup (load_sealer cfg) in
  let! store := mmap_err StartState (open_with_sealer (data_dir cfg ++ ["store"]) sl) in
  let! policy := mmap_err BadSetup (load_policy (policy_path cfg)) in
  let! tls := mmap_err StartTls (Tls.load (tls_ca_path cfg) (tls_cert_path cfg) (tls_key_path cfg)) in
  if negb (has_prefix "wss://" (relay_url cfg)) then
    mabort (StartTls (Tls.PlainScheme (relay_url cfg) "wss"))
  else
    let! relay_tls := mlift (map_err StartTls (Tls.ws_client_config tls)) in
    mpure (MkStarted
      (MkCosigner (party_id cfg) key roster (threshold cfg) store (wval (ttl_secs cfg) * 1000)%N policy)
      relay_tls tls).

(** [bound] and [nonblocking] are the outcomes of binding the listener and of
    switching its mode; [served] serves a state with a TLS configuration until
    the end. *)
(* src cosigner/run.rs:35-103 run *)
Definition run (cfg : Config) (fresh : SigningKey) (bound : string -> result io_error unit)
    (nonblocking : result io_error unit) (served : CosignerState -> Tls.ServerConfig -> result io_error unit)
  : M world StartError unit :=
  let! b := start cfg fresh in
  let! _ := mlift (map_err StartBind (bound (bind_addr cfg))) in
  mlift (map_err StartTls (Tls.serve_mtls (st_tls b) nonblocking (served (st_state b)))).
End Run.

(** ** Properties *)
Lemma validate_config_Ok cfg ps :
  validate_config cfg = Ok tt -> cfg_participants cfg = Some ps ->
  (2 <= N.of_nat (length ps))%N /\ (wval (party_id cfg) < N.of_nat (length ps))%N /\
  (2 <= wval (threshold cfg) <= N.of_nat (length ps))%N.
Proof.
  intros H Hp. unfold validate_config in H. rewrite Hp in H.
  destruct (N.ltb _ 2) eqn:E1; [done|]. destruct (N.leb _ (wval (party_id cfg))) eqn:E2; [done|].
  destruct (N.leb 2 _ && _) eqn:E3; [|done]. apply N.ltb_ge in E1. apply N.leb_gt in E2.
  apply andb_true_iff in E3 as [?%N.leb_le ?%N.leb_le]. done.
Qed.

Lemma load_roster_Some cfg key roster :
  load_roster cfg key = Ok (Some roster) ->
  (exists ps, cfg_participants cfg = Some ps /\ length roster = length ps) /\
  roster !! N.to_nat (wval (party_id cfg)) = Some (verifying_key key).
Proof.
  unfold load_roster. destruct (cfg_participants cfg) as [ps|]; [|done].
  intros (r & Hc & H)%rbind_Ok. apply collect_Ok in Hc.
  destruct (r !! _) as [own|] eqn:Hl; [|done].
  destruct (vk_eq_dec own (verifying_key key)) as [->|]; [|done]. injection H as ->.
  split; [|done]. exists ps. split; [done|].
  apply (f_equal length) in Hc. by rewrite !length_fmap in Hc.
Qed.

(** Indexing the roster by the configured id does not panic. *)
Lemma load_roster_no_panic cfg key what :
  validate_config cfg = Ok tt -> load_roster cfg key <> Err (StartPanic what).
Proof.
  intros Hv. unfold load_roster. destruct (cfg_participants cfg) as [ps|] eqn:Hps; [|done].
  destruct (validate_config_Ok _ _ Hv Hps) as (_ & Hid & _).
  intros [Hc|(r & Hc & H)]%rbind_Err.
  - apply collect_Err in Hc. apply list_elem_of_fmap in Hc as (h & Hh & _). unfold parse_vk in Hh.
    destruct (hex_decode h); simpl in Hh; [|done].
    destruct (to_array 32 _); simpl in Hh; [|done]. by destruct (vk_from_bytes _).
  - apply collect_Ok in Hc. apply (f_equal length) in Hc. rewrite !length_fmap in Hc.
    destruct (lookup_lt_is_Some_2 r (N.to_nat (wval (party_id cfg)))) as [own Ho]; [lia|].
    rewrite Ho in H. by destruct (vk_eq_dec own _).
Qed.

Definition identity_path (dir : path) : path := dir ++ [IDENTITY_FILE].

Lemma write_identity dir b w w' :
  write_atomic (identity_path dir) b w = (Ok tt, w') -> content (fs w') (identity_path dir) = Some (Some b).
Proof.
  intros H. refine (proj2 (proj2 (write_atomic_mode_spec _ _ _ _ _ _ _ H)) eq_refl).
  unfold identity_path. rewrite tmp_path_snoc. intros Heq%app_inv_head. discriminate Heq.
Qed.

Lemma at_c_Ok {B} (x : S_ B) w b w' : at_c x w = (Ok b, w') <-> x w = (Ok b, w').
Proof.
  unfold at_c, mmap_err. destruct (x w) as [[|] w1]; simpl; naive_solver.
Qed.

Lemma at_Ok {B} (x : IO B) p w b w' : at_ x p w = (Ok b, w') <-> x w = (Ok b, w').
Proof. unfold at_, mmap_err. destruct (x w) as [[|] w1]; simpl; naive_solver. Qed.

(** Loading an identity that is on disk. *)
Lemma load_existing dir fresh w b :
  content (fs w) (identity_path dir) = Some (Some b) ->
  load_or_generate dir fresh (no_faults w) =
    (match to_array 32 b with
     | Some a => Ok (sk_from_bytes a)
     | None => Err (Identity [show_path (identity_path dir); Lit " is "; Num (N.of_nat (length b));
                      Lit " bytes, expected 32 — refusing to regenerate a pinned identity"])
     end, no_faults w).
Proof.
  intros Hc. unfold load_or_generate. fold (identity_path dir).
  rewrite path_exists_quiet, Hc. rewrite bool_decide_eq_true_2 by done.
  unfold mbnd, at_c, at_, mmap_err. rewrite fs_read_quiet, Hc. simpl.
  by destruct (to_array 32 b).
Qed.

(** The key once persisted is the one every later start loads. *)
Lemma identity_reloads {KL : KeyLaws K} dir fresh1 fresh2 w k w' :
  load_or_generate dir fresh1 w = (Ok k, w') ->
  load_or_generate dir fresh2 (no_faults w') = (Ok k, no_faults w').
Proof.
  unfold load_or_generate at 1. fold (identity_path dir). 
  destruct (path_exists _ w) as [[] w0] eqn:Hex.
  - intros (b & w1 & H1 & H2)%mbnd_Ok. apply at_c_Ok, at_Ok in H1.
    assert (content (fs w1) (identity_path dir) = Some (Some b)) as Hc.
    { unfold fs_read in H1. destruct (pop_fault w0) as [fault w2] eqn:Hp.
      destruct fault; [done|]. unfold content.
      destruct (fs w2 !! identity_path dir) as [[c m|m]|] eqn:Hf; try done.
      injection H1 as <- <-. by rewrite Hf. }
    destruct (to_array 32 b) as [a|] eqn:Ha; [|done]. injection H2 as <- <-.
    by rewrite (load_existing _ _ _ _ Hc), Ha.
  - intros ([] & w1 & _ & H)%mbnd_Ok. apply mbnd_Ok in H as ([] & w2 & Hw & H).
    injection H as <- <-. apply at_c_Ok, write_identity in Hw.
    by rewrite (load_existing _ _ _ _ Hw), to_array_arr, sk_bytes_roundtrip.
Qed.

(** The identity is generated once.  Whatever key a first start drew and
    persisted, every later start of the process, whatever it would draw,
    loads that same key and leaves the disk as it was. *)
Theorem identity_stable {KL : KeyLaws K} dir fresh1 fresh2 w k w' :
  load_or_generate dir fresh1 w = (Ok k, w') ->
  load_or_generate dir fresh2 (no_faults w') = (Ok k, no_faults w').
Proof. apply identity_reloads. Qed.

(** [Path::exists] also answers [false] when the file cannot be looked at.  If
    that one call fails and nothing else does, a pinned identity is replaced. *)
Theorem identity_replaced_on_stat_error {KL : KeyLaws K} dir fresh w k f :
  content (fs w) (identity_path dir) = Some (Some (arr (sk_to_bytes k))) ->
  mkdirs (fs w) [] dir = Some f -> dir <> [] ->
  not_dir f (identity_path dir) -> not_dir f (tmp_path (identity_path dir)) ->
  exists w', load_or_generate dir fresh (World (fs w) [Some 0%nat]) = (Ok fresh, w') /\
    content (fs w') (identity_path dir) = Some (Some (arr (sk_to_bytes fresh))).
Proof.
  intros _ Hmk Hne Hd Ht. destruct (mkdirs_is_dir _ _ _ _ Hmk Hne) as [m0 Hdir]. rewrite app_nil_l in Hdir.
  assert (forall n, parent_is_dir f (dir ++ [n]) = true) as Hpar.
  { intros n. rewrite parent_is_dir_snoc. rewrite Hdir. by destruct dir. }
  unfold identity_path in *. rewrite tmp_path_snoc in *.
  destruct (write_atomic_mode_runs dir IDENTITY_FILE (arr (sk_to_bytes fresh)) 384 f) as (f' & Hw & _);
    rewrite ?tmp_path_snoc; auto; [intros Heq%app_inv_head; discriminate Heq|].
  exists (World f' []). split.
  - unfold load_or_generate, path_exists. simpl. unfold mbnd, at_c, at_, mmap_err, fs_create_dir_all. simpl.
    rewrite Hmk. simpl. unfold write_atomic. by rewrite Hw.
  - by apply (write_identity dir _ (World f [])).
Qed.

(** A file of another length is an error, and nothing is written. *)
Lemma identity_never_regenerated dir fresh w b :
  content (fs w) (identity_path dir) = Some (Some b) -> length b <> 32%nat ->
  exists m, load_or_generate dir fresh (no_faults w) = (Err (Identity m), no_faults w).
Proof.
  intros Hc Hl. rewrite (load_existing _ _ _ _ Hc), (proj2 (to_array_None 32 b) Hl). eauto.
Qed.

(** ** When a party starts *)
Lemma mkdirs_keeps f dn todo f' q n : mkdirs f dn todo = Some f' -> f !! q = Some n -> f' !! q = Some n.
Proof.
  revert f dn. induction todo as [|c todo IH]; intros f dn; simpl; [by intros [= ->]|].
  destruct (f !! (dn ++ [c])) as [[]|] eqn:E; [done|apply IH|]. intros Hm Hq. apply (IH _ _ Hm).
  rewrite lookup_insert_ne; [done|]. congruence.
Qed.

(** Creating directories neither adds nor changes a file. *)
Lemma mkdirs_files f dn todo f' q b :
  mkdirs f dn todo = Some f' -> content f' q = Some (Some b) <-> content f q = Some (Some b).
Proof.
  intros Hm. split; intros Hc.
  - destruct (mkdirs_dirs _ _ _ _ q Hm) as [E|[_ E]]; congruence.
  - unfold content in *. destruct (f !! q) as [n|] eqn:E; [|done]. by rewrite (mkdirs_keeps _ _ _ _ _ _ Hm E).
Qed.

(** The sealer [cfg] names. *)
Definition sealer_of (f : gmap path node) (cfg : Config) (sl : ShardSealer) : Prop :=
  match seal_key_path cfg with
  | None => sl = Passthrough
  | Some p => exists raw b a, content f p = Some (Some raw) /\ utf8_valid raw = true /\
      hex_decode (trim (str_of raw)) = Some b /\ to_array 32 b = Some a /\ sl = XChaChaSealer a
  end.
Definition policy_of (f : gmap path node) (p : path) (pol : Policy) : Prop :=
  exists raw t, content f p = Some (Some raw) /\ utf8_valid raw = true /\ toml_from_str raw = Some t /\
    policy_deserialize t = Ok pol.

Lemma read_text_quiet p w :
  fs_read_to_string p (no_faults w) =
  (match content (fs w) p with
   | Some (Some b) => if utf8_valid b then Ok b else Err OtherKind
   | Some None => Err OtherKind
   | None => Err (absent (fs w) p)
   end, no_faults w).
Proof. unfold fs_read_to_string. rewrite fs_read_quiet. by destruct (content (fs w) p) as [[]|]. Qed.

Lemma mmap_err_Ok {W E F B} (g : E -> F) (x : M W E B) w b w' :
  mmap_err g x w = (Ok b, w') <-> x w = (Ok b, w').
Proof. unfold mmap_err. destruct (x w) as [[|] w1]; simpl; naive_solver. Qed.

Lemma load_sealer_exact cfg sl w w' :
  load_sealer cfg (no_faults w) = (Ok sl, w') <-> w' = no_faults w /\ sealer_of (fs w) cfg sl.
Proof.
  unfold load_sealer, sealer_of. destruct (seal_key_path cfg) as [p|]; [|split; [intros [= <- <-]|intros [-> ->]]; done].
  split.
  - intros (raw & w1 & H1%mmap_err_Ok & H)%mbnd_Ok. rewrite read_text_quiet in H1.
    destruct (content _ p) as [[r|]|] eqn:Hc; [|done..]. destruct (utf8_valid r) eqn:Hu; [|done]. injection H1 as -> <-.
    destruct (hex_decode _) as [b|] eqn:Hb; [|done]. destruct (to_array 32 b) as [a|] eqn:Ha; unfold mbnd in H; simpl in H; rewrite Ha in H; [|done].
    injection H as <- <-. split; [done|]. by exists raw, b, a.
  - intros (-> & raw & b & a & Hc & Hu & Hb & Ha & ->).
    unfold mbnd, mmap_err, mlift. rewrite read_text_quiet, Hc, Hu. simpl. rewrite Hb. simpl. by rewrite Ha.
Qed.

Lemma load_policy_exact p pol w w' :
  load_policy p (no_faults w) = (Ok pol, w') <-> w' = no_faults w /\ policy_of (fs w) p pol.
Proof.
  unfold load_policy, policy_of. split.
  - intros (raw & w1 & H1%mmap_err_Ok & H)%mbnd_Ok. rewrite read_text_quiet in H1.
    destruct (content _ p) as [[r|]|] eqn:Hc; [|done..]. destruct (utf8_valid r) eqn:Hu; [|done]. injection H1 as -> <-.
    destruct (toml_from_str raw) as [t|] eqn:Ht; [|done].
    unfold mbnd in H. simpl in H. injection H as Hp%map_err_Ok <-. split; [done|]. by exists raw, t.
  - intros (-> & raw & t & Hc & Hu & Ht & Hp).
    unfold mbnd, mmap_err, mlift. rewrite read_text_quiet, Hc, Hu. simpl. rewrite Ht. simpl. by rewrite Hp.
Qed.


Section Exact.
Context {TL : Tls.Rustls} {KL : KeyLaws K}.

(** What a disk [f] must hold for a party with configuration [cfg] and
    identity [key] to come up as [b]. *)
Definition startable (f : gmap path node) (cfg : Config) (key : SigningKey) (b : Started) : Prop :=
  let s := st_state b in
  validate_config cfg = Ok tt /\ load_roster cfg key = Ok (cs_roster s) /\
  root (cs_store s) = data_dir cfg ++ ["store"] /\ sealer_of f cfg (sealer (cs_store s)) /\
  policy_of f (policy_path cfg) (cs_policy s) /\
  Tls.material_of f (tls_ca_path cfg) (tls_cert_path cfg) (tls_key_path cfg) (st_tls b) /\
  has_prefix "wss://" (relay_url cfg) = true /\ Tls.ws_client_config (st_tls b) = Ok (st_relay_tls b) /\
  cs_party_id s = party_id cfg /\ cs_signing_key s = key /\ cs_threshold s = threshold cfg /\
  cs_ttl s = (wval (ttl_secs cfg) * 1000)%N.

Definition identity_on (f : gmap path node) (dir : path) (key : SigningKey) : Prop :=
  content f (identity_path dir) = Some (Some (arr (sk_to_bytes key))).

Lemma load_identity dir fresh w key :
  identity_on (fs w) dir key -> load_or_generate dir fresh (no_faults w) = (Ok key, no_faults w).
Proof. intros H. by rewrite (load_existing _ _ _ _ H), to_array_arr, sk_bytes_roundtrip. Qed.

(** The files of [f] at [q] are there in [f'] too. *)
Definition keeps (f f' : gmap path node) (q : path) : Prop :=
  forall b, content f q = Some (Some b) -> content f' q = Some (Some b).

Lemma policy_of_keeps f f' p pol : keeps f f' p -> policy_of f p pol -> policy_of f' p pol.
Proof. intros Hc (raw & t & H%Hc & Hr). by exists raw, t. Qed.

Lemma sealer_of_keeps f f' cfg sl :
  (forall p, seal_key_path cfg = Some p -> keeps f f' p) -> sealer_of f cfg sl -> sealer_of f' cfg sl.
Proof.
  unfold sealer_of. destruct (seal_key_path cfg) as [p|]; [|done].
  intros Hc (raw & b & a & H%(Hc p eq_refl) & Hr). by exists raw, b, a.
Qed.

Lemma material_of_keeps f f' ca cert key m :
  keeps f f' ca -> keeps f f' cert -> keeps f f' key ->
  Tls.material_of f ca cert key m -> Tls.material_of f' ca cert key m.
Proof. intros H1 H2 H3 (cb & kb & E1%H1 & E2%H2 & E3%H3 & Hr). by exists cb, kb. Qed.

Lemma open_store_exact r sl w st w' :
  open_with_sealer r sl (no_faults w) = (Ok st, w') <->
  st = MkStore r sl /\ exists f', mkdirs (fs w) [] r = Some f' /\ w' = World f' [].
Proof.
  unfold open_with_sealer, mbnd, at_, mmap_err, fs_create_dir_all. simpl.
  destruct (mkdirs (fs w) [] r) as [f1|]; cbn.
  - split; [intros [= <- <-]; eauto|]. by intros (-> & f' & [= ->] & ->).
  - split; [done|]. by intros (_ & f' & ? & _).
Qed.

Lemma startable_runs w cfg fresh key b f' :
  identity_on (fs w) (data_dir cfg) key -> startable (fs w) cfg key b ->
  mkdirs (fs w) [] (data_dir cfg ++ ["store"]) = Some f' ->
  start cfg fresh (no_faults w) = (Ok b, World f' []).
Proof.
  intros Hk (Hv & Hr & Hroot & Hs & Hp & Hm & Hu & Hc & E1 & E2 & E3 & E4) Hmk. unfold start.
  assert (forall q, keeps (fs w) f' q /\ keeps f' (fs w) q) as Hf
    by (intros q; split; intros b0; by apply (mkdirs_files _ _ _ _ q b0 Hmk)).
  apply mbnd_Ok. exists tt, (no_faults w). split; [unfold mlift; by rewrite Hv|].
  apply mbnd_Ok. exists key, (no_faults w). split; [by apply mmap_err_Ok, load_identity|].
  apply mbnd_Ok. exists (cs_roster (st_state b)), (no_faults w). split; [unfold mlift; by rewrite Hr|].
  apply mbnd_Ok. exists (sealer (cs_store (st_state b))), (no_faults w).
  split; [by apply mmap_err_Ok, load_sealer_exact|].
  apply mbnd_Ok. exists (cs_store (st_state b)), (World f' []).
  split; [apply mmap_err_Ok, open_store_exact; destruct (cs_store (st_state b)); cbn in *; subst; eauto|].
  apply mbnd_Ok. exists (cs_policy (st_state b)), (World f' []).
  split; [apply mmap_err_Ok, (load_policy_exact _ _ (World f' [])); split; [done|]; by apply (policy_of_keeps _ _ _ _ (proj1 (Hf _)))|].
  apply mbnd_Ok. exists (st_tls b), (World f' []).
  split; [apply mmap_err_Ok, (Tls.load_runs _ _ _ (World f' [])); by apply (material_of_keeps _ _ _ _ _ _ (proj1 (Hf _)) (proj1 (Hf _)) (proj1 (Hf _)))|].
  rewrite Hu. unfold mbnd, mlift. simpl. rewrite Hc. simpl. destruct b as [[] cc m]. cbn in *. by subst.
Qed.

Lemma start_startable w cfg fresh key b w' :
  identity_on (fs w) (data_dir cfg) key -> start cfg fresh (no_faults w) = (Ok b, w') ->
  startable (fs w) cfg key b /\
  exists f', mkdirs (fs w) [] (data_dir cfg ++ ["store"]) = Some f' /\ w' = World f' [].
Proof.
  intros Hk H. unfold start in H.
  apply mbnd_Ok in H as ([] & w1 & [Hv%map_err_Ok <-]%pair_eq & H).
  apply mbnd_Ok in H as (k & w1 & H1%mmap_err_Ok & H). rewrite (load_identity _ _ _ _ Hk) in H1. injection H1 as <- <-.
  apply mbnd_Ok in H as (ro & w1 & [Hr%map_err_Ok <-]%pair_eq & H).
  apply mbnd_Ok in H as (sl & w1 & [-> Hs]%mmap_err_Ok%load_sealer_exact & H).
  apply mbnd_Ok in H as (store & w1 & (-> & f' & Hmk & ->)%mmap_err_Ok%open_store_exact & H).
  assert (forall q, keeps (fs w) f' q /\ keeps f' (fs w) q) as Hf
    by (intros q; split; intros b0; by apply (mkdirs_files _ _ _ _ q b0 Hmk)).
  apply mbnd_Ok in H as (pol & w1 & [-> Hp]%mmap_err_Ok%(load_policy_exact _ _ (World f' [])) & H).
  apply mbnd_Ok in H as (m & w1 & H1%mmap_err_Ok & H). pose proof H1 as [_ Hm]%Tls.load_Ok.
  apply (material_of_keeps _ _ _ _ _ _ (proj2 (Hf _)) (proj2 (Hf _)) (proj2 (Hf _))) in Hm.
  rewrite (Tls.load_runs _ _ _ (World f' []) m) in H1 by (by apply (material_of_keeps _ _ _ _ _ _ (proj1 (Hf _)) (proj1 (Hf _)) (proj1 (Hf _)))). injection H1 as <-.
  destruct (has_prefix _ _) eqn:Hu; [|done]. simpl in H.
  apply mbnd_Ok in H as (cc & w2 & [Hc%map_err_Ok <-]%pair_eq & H). injection H as <- <-.
  split; [|by exists f']. unfold startable. cbn. apply (policy_of_keeps _ _ _ _ (proj2 (Hf _))) in Hp. by split_and!.
Qed.

Lemma startable_roster f cfg key b roster :
  startable f cfg key b -> cs_roster (st_state b) = Some roster ->
  roster !! N.to_nat (wval (cs_party_id (st_state b))) = Some (verifying_key (cs_signing_key (st_state b))) /\
  (2 <= wval (cs_threshold (st_state b)) <= N.of_nat (length roster))%N.
Proof.
  intros (Hv & Hr & _ & _ & _ & _ & _ & _ & -> & -> & -> & _) E. rewrite E in Hr.
  apply load_roster_Some in Hr as ((ps & Hps & Hlen) & Hown).
  destruct (validate_config_Ok _ _ Hv Hps) as (_ & _ & Ht). split; [done|lia].
Qed.

(** C28: a cosigner starts exactly when everything it needs is there, and
    starts consistently.  On a disk where nothing fails and that holds the
    party's identity, startup succeeds with [b] if and only if the
    configuration is valid, the roster parses and holds this identity in the
    party's own slot, the sealing key and the policy file are what [b] runs
    with, the three TLS files hold [b]'s material, from which the relay's
    client configuration is built, the relay is reached over [wss://], and the
    store's directory can be created.  Then, with a roster: the threshold is
    within it, and every ceremony context the party builds is one whose other
    members accept its envelopes. *)
Theorem startup_consistent {CL : CryptoLaws C} cfg fresh w key b w' :
  identity_on (fs w) (data_dir cfg) key ->
  (start cfg fresh (no_faults w) = (Ok b, w') <->
   startable (fs w) cfg key b /\
   exists f', mkdirs (fs w) [] (data_dir cfg ++ ["store"]) = Some f' /\ w' = World f' []) /\
  (start cfg fresh (no_faults w) = (Ok b, w') -> forall roster, cs_roster (st_state b) = Some roster ->
   roster !! N.to_nat (wval (cs_party_id (st_state b))) = Some (verifying_key (cs_signing_key (st_state b))) /\
   (2 <= wval (cs_threshold (st_state b)) <= N.of_nat (length roster))%N /\
   forall i, exists ctx, mk_ctx (st_state b) i = Ok ctx /\
     forall e, from e = Mpc.party_id ctx ->
       verify (Envelope.sign e (Mpc.signing_key ctx)) (party_vks ctx) = Ok tt).
Proof.
  intros Hk. split; [split; [by apply start_startable|intros (Hs & f' & Hm & ->); by apply (startable_runs w cfg fresh key)]|].
  intros [H _]%(start_startable _ _ _ key) roster Hr; [|done].
  destruct (startable_roster _ _ _ _ _ H Hr) as [Hown Ht]. split_and!; try done; [lia|lia|].
  intros i. unfold mk_ctx. rewrite Hr. eexists. split; [reflexivity|]. intros e He. simpl in *.
  apply sign_verifies. by rewrite He.
Qed.

(** A start adds no file and changes none. *)
Lemma start_frame cfg fresh w key b w' q c :
  identity_on (fs w) (data_dir cfg) key -> start cfg fresh (no_faults w) = (Ok b, w') ->
  content (fs w') q = Some (Some c) <-> content (fs w) q = Some (Some c).
Proof. intros Hk (_ & f' & Hm & ->)%(start_startable _ _ _ key); [|done]. by apply (mkdirs_files _ _ _ _ _ _ Hm). Qed.
End Exact.
End Startup.

(** ** Witnesses: a first start of party 0 of a 2-of-2 fleet. *)
#[export] Instance ToyKeys : KeyBytes ToyCrypto := {|
  sk_from_bytes (a : array 32) := (a : @SigningKey ToyCrypto);
  sk_to_bytes (k : @SigningKey ToyCrypto) := (k : array 32);
  vk_from_bytes (a : array 32) := Some (a : @VerifyingKey ToyCrypto);
|}.
#[export] Instance ToyKeyLaws : KeyLaws ToyKeys.
Proof. constructor; intros k; exact eq_refl. Qed.
#[export] Instance ToyToml : TomlLib := {|
  toml_from_str _ := Some [("allowed_chain_ids", TArr [TInt 1%Z]); ("allowed_recipients", TArr [TStr "*"]);
                           ("max_value_wei", TStr "5"); ("allow_calldata", TBool false)];
|}.

#[local] Existing Instance Tls.ToyRustls.

Definition toy_sk (b : N) : @SigningKey ToyCrypto := (toy_key b : array 32).
Definition demo_cfg : Config :=
  MkConfig (wmod 8 0) (wmod 8 2)
    (Some [hex_encode (arr (toy_key 1)); hex_encode (arr (toy_key 2))]) default_bind_addr
    ["data"] ["policy.toml"] ["ca.pem"] ["crt.pem"] ["key.pem"] None default_relay_url default_ttl_secs.
Definition demo_disk : world := World (list_to_map [
  ([], Dir 493%N); (["policy.toml"], File [] 420%N); (["ca.pem"], File (bstr "ca") 420%N);
  (["crt.pem"], File (bstr "crt") 420%N); (["key.pem"], File (Certs.serialize_pem (Rcgen := Certs.ToyRcgen) true) 384%N)]) [].
(** The disk after [sovra identity], or after a first start in bootstrap mode. *)
Definition demo_seeded : world :=
  World (<[["data"; "identity.key"] := File (arr (toy_key 1)) 384%N]> (<[["data"] := Dir 493%N]> (fs demo_disk))) [].
Definition demo_start : result (StartError) Started * world :=
  start (A := ToyParse) demo_cfg (toy_sk 2) (no_faults demo_seeded).
Definition start_roster (r : result (StartError) (Started (C := ToyCrypto)))
  : option (list (array 32)) :=
  match r with Ok b => cs_roster (st_state b) | Err _ => None end.

Example demo_start_roster : start_roster (fst demo_start) = Some [toy_key 1; toy_key 2].
Proof. vm_compute. reflexivity. Qed.

(** A plain relay, a missing TLS file and a missing policy refuse. *)
Definition refuses (r : result (StartError) (Started (C := ToyCrypto)) * world) : bool :=
  match fst r with
  | Err (StartTls (Tls.PlainScheme _ _)) => true
  | Err (StartTls (Tls.Read p NotFoundKind)) => bool_decide (p = ["crt.pem"])
  | Err (BadSetup (BadStart _)) => true
  | _ => false
  end.
Example demo_plain_relay : refuses (start (A := ToyParse)
  (MkConfig (wmod 8 0) (wmod 8 2) None default_bind_addr ["data"] ["policy.toml"] ["ca.pem"] ["crt.pem"] ["key.pem"] None
     "ws://relay" default_ttl_secs) (toy_sk 2) demo_seeded) = true.
Proof. vm_compute. reflexivity. Qed.
Example demo_no_tls : refuses (start (A := ToyParse) demo_cfg (toy_sk 2)
  (World (delete ["crt.pem"] (fs demo_seeded)) [])) = true.
Proof. vm_compute. reflexivity. Qed.
Example demo_no_policy : refuses (start (A := ToyParse) demo_cfg (toy_sk 2)
  (World (delete ["policy.toml"] (fs demo_seeded)) [])) = true.
Proof. vm_compute. reflexivity. Qed.

Lemma start_is_ok : is_ok (fst demo_start) = true.
Proof. vm_compute. reflexivity. Qed.

Lemma demo_identity : identity_on (fs demo_seeded) ["data"] (toy_sk 1).
Proof. vm_compute. reflexivity. Qed.

Lemma startup_consistent_witness :
  exists b w', demo_start = (Ok b, w') /\
    [toy_key 1; toy_key 2] !! N.to_nat (wval (cs_party_id (st_state b)))
      = Some (verifying_key (Crypto := ToyCrypto) (cs_signing_key (st_state b))).
Proof.
  pose proof demo_start_roster as Hr. pose proof start_is_ok as Hok.
  destruct demo_start as [[b|e] w'] eqn:E; [|discriminate Hok].
  exists b, w'. split; [reflexivity|].
  exact (proj1 (proj2 (startup_consistent demo_cfg (toy_sk 2) demo_seeded (toy_sk 1) b w' demo_identity)
    E [toy_key 1; toy_key 2] Hr)).
Defined.

Lemma identity_stable_witness :
  exists w', load_or_generate ["data"] (toy_sk 1) demo_disk = (Ok (toy_sk 1), w') /\
    load_or_generate ["data"] (toy_sk 2) (no_faults w') = (Ok (toy_sk 1), no_faults w').
Proof.
  assert (fst (load_or_generate ["data"] (toy_sk 1) demo_disk) = Ok (toy_sk 1)) as Hf
    by (vm_compute; reflexivity).
  destruct (load_or_generate ["data"] (toy_sk 1) demo_disk) as [r w'] eqn:E. simpl in Hf. subst r.
  exists w'. split; [reflexivity|].
  exact (identity_stable ["data"] (toy_sk 1) (toy_sk 2) demo_disk (toy_sk 1) w' E).
Defined.
