(* ===== verification/Eth.v ===== *)
(** * The Ethereum pipeline ([crates/sovra-eth])

    Building, validating, encoding, decoding and finalizing the supported
    transaction types, and broadcasting.  alloy (RLP, hashing, signer
    recovery, the RPC provider) is the interface [Alloy]; [AlloyLaws] states
    what its codecs document: each decoder inverts its encoder and accepts
    nothing else.  The module ends with the [Network] instance every other
    component is written against. *)

From S2P Require Import Prelude Types Mpc Network.
From Stdlib Require Import String NArith Lia.
From stdpp Require Import base decidable list strings.
Open Scope string_scope. Open Scope list_scope.

(** ** Transactions *)
(** alloy's [TxKind]: [None] is [TxKind::Create]. *)
Abbreviation TxKind := (option Address).

(** alloy's three transaction structs. *)
Record TxLegacy : Type := MkLegacy {
  lg_chain_id : option u64; lg_nonce : u64; lg_gas_price : u128; lg_gas_limit : u64;
  lg_to : TxKind; lg_value : U256; lg_input : bytes }.

Section Txs.
Context {AccessList : Type}.
Record TxEip2930 : Type := Mk2930 {
  e0_chain_id : u64; e0_nonce : u64; e0_gas_price : u128; e0_gas_limit : u64;
  e0_to : TxKind; e0_value : U256; e0_access_list : AccessList; e0_input : bytes }.
Record TxEip1559 : Type := Mk1559 {
  e9_chain_id : u64; e9_nonce : u64; e9_gas_limit : u64; e9_max_fee_per_gas : u128;
  e9_max_priority_fee_per_gas : u128; e9_to : TxKind; e9_value : U256;
  e9_access_list : AccessList; e9_input : bytes }.

(* src eth/types.rs:31-43 EthTx *)
Inductive EthTx : Type :=
  | Legacy (tx : TxLegacy)
  | Eip2930 (tx : TxEip2930)
  | Eip1559 (tx : TxEip1559).
End Txs.
Arguments TxEip2930 : clear implicits.
Arguments TxEip1559 : clear implicits.
Arguments EthTx : clear implicits.

(* src eth/types.rs:250-255 PubkeyError *)
Inductive PubkeyError : Type := NotAPoint.
(* src eth/types.rs:257-266 FinalizeError *)
Inductive FinalizeError : Type :=
  | FinalizeRecovery
  | AddressMismatch (expected recovered : Address).
(* src eth/types.rs:225-248 PrepareError *)
Inductive PrepareError : Type :=
  | ZeroChainId
  | MissingChainId
  | MaxPriorityFeeExceedsMaxFee
  | ZeroGasLimit
  | AccessListUnsupported
  | Enrich (rpc : string).
(* src eth/types.rs:281-295 DecodeError *)
Inductive DecodeError : Type :=
  | Empty
  | UnsupportedType (b : u8)
  | Rlp (e : string)
  | TrailingBytes
  | Recovery.

(** ** alloy *)
Class Alloy : Type := {
  AccessList : Type;
  al_eq_dec :: EqDecision AccessList;
  al_is_empty : AccessList -> bool;
  (* RLP encoders *)
  rlp_list_header : nat -> bytes;
  rlp_u64 : u64 -> bytes;
  rlp_u8 : u8 -> bytes;
  legacy_fields : TxLegacy -> bytes;                    (* the six tx fields *)
  rlp_2930 : TxEip2930 AccessList -> bytes;
  rlp_1559 : TxEip1559 AccessList -> bytes;
  (* RLP decoders: the value and the rest of the input *)
  header_decode : bytes -> result string (bool * nat * bytes);
  u64_decode : bytes -> result string (u64 * bytes);
  u8_decode : bytes -> result string (u8 * bytes);
  rlp_decode_fields : bytes -> result string (TxLegacy * bytes);
  rlp_decode_2930 : bytes -> result string (TxEip2930 AccessList * bytes);
  rlp_decode_1559 : bytes -> result string (TxEip1559 AccessList * bytes);
  (* signed forms: decoding yields the transaction's hash and its signer *)
  rlp_decode_signed_legacy : bytes -> result string ((B256 * option Address) * bytes);
  rlp_decode_signed_2930 : bytes -> result string ((B256 * option Address) * bytes);
  rlp_decode_signed_1559 : bytes -> result string ((B256 * option Address) * bytes);
  (* hashing, recovery and the signed envelope *)
  eth_keccak256 : bytes -> B256;
  recover_address_from_prehash : U256 -> U256 -> bool -> B256 -> option Address;
  encoded_2718 : EthTx AccessList -> U256 -> U256 -> bool -> bytes;
  from_public_key : array 33 -> option Address;         (* k256 parse, then the address *)
  display_address : Address -> string;                  (* [{:#x}] *)
}.

Section Encoding.
Context {Al : Alloy}.
Abbreviation Tx := (EthTx AccessList).

(** ** Accessors *)
(* src eth/types.rs:54-57 EthTx::chain_id *)
Definition chain_id (tx : Tx) : option u64 :=
  match tx with
  | Legacy tx => lg_chain_id tx
  | Eip2930 tx => Some (e0_chain_id tx)
  | Eip1559 tx => Some (e9_chain_id tx)
  end.
(* src eth/types.rs:59-61 EthTx::nonce *)
Definition nonce (tx : Tx) : u64 :=
  match tx with Legacy tx => lg_nonce tx | Eip2930 tx => e0_nonce tx | Eip1559 tx => e9_nonce tx end.
(* src eth/types.rs:63-65 EthTx::gas_limit *)
Definition gas_limit (tx : Tx) : u64 :=
  match tx with
  | Legacy tx => lg_gas_limit tx | Eip2930 tx => e0_gas_limit tx | Eip1559 tx => e9_gas_limit tx
  end.
(* src eth/types.rs:67-70 EthTx::to *)
Definition tx_to (tx : Tx) : option Address :=
  match tx with Legacy tx => lg_to tx | Eip2930 tx => e0_to tx | Eip1559 tx => e9_to tx end.
(* src eth/types.rs:72-74 EthTx::value *)
Definition value (tx : Tx) : U256 :=
  match tx with Legacy tx => lg_value tx | Eip2930 tx => e0_value tx | Eip1559 tx => e9_value tx end.
(* src eth/types.rs:76-78 EthTx::input *)
Definition input (tx : Tx) : bytes :=
  match tx with Legacy tx => lg_input tx | Eip2930 tx => e0_input tx | Eip1559 tx => e9_input tx end.

(** The EIP-155 signing preimage of a legacy transaction (without a chain id,
    the pre-155 one). *)
Definition legacy_payload (tx : TxLegacy) : bytes :=
  legacy_fields tx ++
  match lg_chain_id tx with
  | Some c => rlp_u64 c ++ rlp_u8 (wmod 8 0) ++ rlp_u8 (wmod 8 0)
  | None => []
  end.

(* src eth/types.rs:88-95 EthTx::encoded_for_signing *)
Definition encoded_for_signing (tx : Tx) : bytes :=
  match tx with
  | Legacy tx => rlp_list_header (length (legacy_payload tx)) ++ legacy_payload tx
  | Eip2930 tx => wmod 8 1 :: rlp_2930 tx
  | Eip1559 tx => wmod 8 2 :: rlp_1559 tx
  end.

(* src eth/types.rs:80-86 EthTx::signature_hash *)
Definition signature_hash (tx : Tx) : B256 := eth_keccak256 (encoded_for_signing tx).

(* src eth/types.rs:151-156 PreparedTx *)
Record PreparedTx : Type := MkPrepared { ptx : Tx; signing_hash : B256 }.
(* src eth/types.rs:202-211 SignedTx *)
Record SignedTx : Type := MkSignedTx { stx_raw : bytes; tx_hash : B256; stx_from : Address }.

(** ** Wire format *)
(* src eth/encoding.rs:24-26 encode_unsigned *)
Definition encode_unsigned (tx : Tx) : bytes := encoded_for_signing tx.

(* src eth/encoding.rs:28-39 decode_strict *)
Definition decode_strict {T} (payload : bytes) (decode : bytes -> result string (T * bytes))
  : result DecodeError T :=
  let? (tx, rest) := map_err Rlp (decode payload) in
  if negb (Nat.eqb (length rest) 0) then Err TrailingBytes else Ok tx.

(* src eth/encoding.rs:41-60 decode_dispatch *)
Definition decode_dispatch {T} (raw : bytes)
    (legacy eip2930 eip1559 : bytes -> result DecodeError T) : result DecodeError T :=
  match raw with
  | [] => Err Empty
  | first :: payload =>
      if N.eqb (wval first) 1 then eip2930 payload
      else if N.eqb (wval first) 2 then eip1559 payload
      else if N.leb 192 (wval first) then legacy raw
      else Err (UnsupportedType first)
  end.

Definition with_chain_id (tx : TxLegacy) (c : u64) : TxLegacy :=
  MkLegacy (Some c) (lg_nonce tx) (lg_gas_price tx) (lg_gas_limit tx) (lg_to tx) (lg_value tx) (lg_input tx).

(* src eth/encoding.rs:62-95 decode_legacy_unsigned *)
Definition decode_legacy_unsigned (raw : bytes) : result DecodeError TxLegacy :=
  let? (is_list, payload_length, buf) := map_err Rlp (header_decode raw) in
  if negb is_list then Err (Rlp "unexpected string")
  else if Nat.ltb (length buf) payload_length then Err (Rlp "input too short")
  else if Nat.ltb payload_length (length buf) then Err TrailingBytes
  else
    let? (tx, payload) := map_err Rlp (rlp_decode_fields buf) in
    if Nat.eqb (length payload) 0 then Ok tx
    else
      let? (c, payload) := map_err Rlp (u64_decode payload) in
      let? (zero_r, payload) := map_err Rlp (u8_decode payload) in
      let? (zero_s, payload) := map_err Rlp (u8_decode payload) in
      if negb (N.eqb (wval zero_r) 0) || negb (N.eqb (wval zero_s) 0) || negb (Nat.eqb (length payload) 0)
      then Err (Rlp "malformed EIP-155 signing preimage")
      else Ok (with_chain_id tx c).

(* src eth/encoding.rs:97-106 decode_unsigned *)
Definition decode_unsigned (raw : bytes) : result DecodeError PreparedTx :=
  let? tx := decode_dispatch raw
    (fun p => rmap Legacy (decode_legacy_unsigned p))
    (fun p => rmap Eip2930 (decode_strict p rlp_decode_2930))
    (fun p => rmap Eip1559 (decode_strict p rlp_decode_1559)) in
  Ok (MkPrepared tx (signature_hash tx)).

(* src eth/encoding.rs:109-120 decode_signed *)
Definition to_signed_tx (raw : bytes) (signed : B256 * option Address) : result DecodeError SignedTx :=
  let? from := ok_or Recovery (snd signed) in
  Ok (MkSignedTx raw (fst signed) from).

(* src eth/encoding.rs:108-128 decode_signed *)
Definition decode_signed (raw : bytes) : result DecodeError SignedTx :=
  decode_dispatch raw
    (fun p => let? s := decode_strict p rlp_decode_signed_legacy in to_signed_tx raw s)
    (fun p => let? s := decode_strict p rlp_decode_signed_2930 in to_signed_tx raw s)
    (fun p => let? s := decode_strict p rlp_decode_signed_1559 in to_signed_tx raw s).

(** ** Preparation *)
(* src eth/types.rs:109-117 EthTxType *)
Inductive EthTxType : Type := TLegacy | TEip2930 | TEip1559.

(* src eth/types.rs:119-136 TxParams *)
Inductive TxParams : Type :=
  | PLegacy (gas_price : u128)
  | PEip2930 (gas_price : u128) (access_list : AccessList)
  | PEip1559 (max_fee_per_gas max_priority_fee_per_gas : u128) (access_list : AccessList).

(* src eth/types.rs:138-149 TxIntent *)
Record TxIntent : Type := MkIntent {
  i_chain_id : u64; i_nonce : u64; i_kind : TxKind; i_value : U256; i_gas_limit : u64;
  i_data : bytes; i_params : TxParams }.

(* src eth/types.rs:213-223 TxRequest *)
Record TxRequest : Type := MkTxRequest {
  q_to : option Address; q_value : U256; q_data : bytes; q_tx_type : EthTxType;
  q_access_list : AccessList }.

(* src eth/types.rs:158-200 <EthTx as From>::from *)
Definition of_intent (i : TxIntent) : Tx :=
  match i_params i with
  | PLegacy gas_price =>
      Legacy (MkLegacy (Some (i_chain_id i)) (i_nonce i) gas_price (i_gas_limit i) (i_kind i)
                (i_value i) (i_data i))
  | PEip2930 gas_price access_list =>
      Eip2930 (Mk2930 (i_chain_id i) (i_nonce i) gas_price (i_gas_limit i) (i_kind i)
                 (i_value i) access_list (i_data i))
  | PEip1559 max_fee max_prio access_list =>
      Eip1559 (Mk1559 (i_chain_id i) (i_nonce i) (i_gas_limit i) max_fee max_prio (i_kind i)
                 (i_value i) access_list (i_data i))
  end.

(* src eth/prepare.rs:51-74 validate_unsigned *)
Definition validate_unsigned (tx : Tx) : result PrepareError unit :=
  match chain_id tx with
  | None => Err MissingChainId
  | Some c =>
      if N.eqb (wval c) 0 then Err ZeroChainId
      else if N.eqb (wval (gas_limit tx)) 0 then Err ZeroGasLimit
      else match tx with
           | Eip1559 tx =>
               if N.ltb (wval (e9_max_fee_per_gas tx)) (wval (e9_max_priority_fee_per_gas tx))
               then Err MaxPriorityFeeExceedsMaxFee else Ok tt
           | _ => Ok tt
           end
  end.

(* src eth/prepare.rs:42-49 prepare *)
Definition prepare (i : TxIntent) : result PrepareError PreparedTx :=
  let tx := of_intent i in
  let? _ := validate_unsigned tx in
  Ok (MkPrepared tx (signature_hash tx)).

(** The RPC node's answers. *)
Record Provider : Type := MkProvider {
  get_chain_id : result string u64;
  get_transaction_count : Address -> result string u64;      (* pending *)
  get_gas_price : result string u128;
  estimate_eip1559_fees : result string (u128 * u128);
  estimate_gas : Address -> TxKind -> U256 -> bytes -> option AccessList -> result string u64;
}.

(* src eth/prepare.rs:76-137 enrich *)
Definition enrich (q : TxRequest) (from : Address) (p : Provider) : result string TxIntent :=
  let kind := q_to q in
  let? c := get_chain_id p in
  let? n := get_transaction_count p from in
  let? params := match q_tx_type q with
                 | TLegacy => rmap PLegacy (get_gas_price p)
                 | TEip2930 => rmap (fun g => PEip2930 g (q_access_list q)) (get_gas_price p)
                 | TEip1559 => rmap (fun f => PEip1559 (fst f) (snd f) (q_access_list q))
                                    (estimate_eip1559_fees p)
                 end in
  let? g := estimate_gas p from kind (q_value q) (q_data q)
              (if al_is_empty (q_access_list q) then None else Some (q_access_list q)) in
  Ok (MkIntent c n kind (q_value q) g (q_data q) params).

(* src eth/prepare.rs:26-40 prepare_from_rpc_impl *)
Definition prepare_from_rpc_impl (q : TxRequest) (from : Address) (p : Provider)
  : result PrepareError PreparedTx :=
  if match q_tx_type q with TLegacy => negb (al_is_empty (q_access_list q)) | _ => false end
  then Err AccessListUnsupported
  else let? i := map_err Enrich (enrich q from p) in prepare i.

(** ** Finalization *)
(* src eth/types.rs:97-106 EthTx::into_envelope *)
Definition into_envelope (tx : Tx) (r s : U256) (y_parity : bool) : bytes * B256 :=
  let raw := encoded_2718 tx r s y_parity in (raw, eth_keccak256 raw).

(* src eth/finalize.rs:15-54 finalize_impl *)
Definition finalize_impl (p : PreparedTx) (r s : U256) (y_parity : bool) (expected_from : Address)
  : result FinalizeError SignedTx :=
  let? recovered := ok_or FinalizeRecovery
                      (recover_address_from_prehash r s y_parity (signing_hash p)) in
  if negb (bool_decide (recovered = expected_from)) then Err (AddressMismatch expected_from recovered)
  else let (raw, h) := into_envelope (ptx p) r s y_parity in Ok (MkSignedTx raw h recovered).

(* src eth/lib.rs:84-90 address_from_sec1 *)
Definition address_from_sec1 (pk : PubkeySec1) : result PubkeyError Address :=
  ok_or NotAPoint (from_public_key (pk_bytes pk)).

(** ** The [Network] instance *)
(* src eth/types.rs:281-295 <DecodeError as Display>::fmt *)
Definition decode_msg (e : DecodeError) : msg :=
  match e with
  | Empty => [Lit "empty transaction bytes"]
  | UnsupportedType b => [Lit "unsupported transaction type: "; Hex [wval b];
      Lit ", expected legacy (RLP list), 0x01 (EIP-2930) or 0x02 (EIP-1559)"]
  | Rlp _ => [Lit "invalid rlp encoding"]
  | TrailingBytes => [Lit "trailing bytes after transaction"]
  | Recovery => [Lit "could not recover signer from signed transaction"]
  end.
(* src eth/types.rs:225-248 <PrepareError as Display>::fmt *)
Definition prepare_msg (e : PrepareError) : msg :=
  match e with
  | ZeroChainId => [Lit "chain id must not be zero"]
  | MissingChainId => [Lit "legacy transaction without EIP-155 chain id"]
  | MaxPriorityFeeExceedsMaxFee => [Lit "max priority fee per gas must not exceed max fee per gas"]
  | ZeroGasLimit => [Lit "gas limit must not be zero"]
  | AccessListUnsupported => [Lit "legacy transactions do not support access lists"]
  | Enrich rpc => [Lit "failed to enrich transaction from RPC: rpc call failed: "; Txt rpc]
  end.
(* src eth/types.rs:257-266 <FinalizeError as Display>::fmt *)
Definition finalize_msg (e : FinalizeError) : msg :=
  match e with
  | FinalizeRecovery => [Lit "could not recover signer from signature"]
  | AddressMismatch expected recovered =>
      [Lit "recovered signer "; Hex (wval <$> arr recovered); Lit " does not match expected ";
       Hex (wval <$> arr expected)]
  end.
(* src eth/types.rs:250-255 <PubkeyError as Display>::fmt *)
Definition pubkey_msg (_ : PubkeyError) : msg := [Lit "public key is not a valid secp256k1 point"].

(* src eth/network.rs:36-45 <Ethereum as Network>::policy_view *)
Definition eth_policy_view (tx : Tx) : TxView :=
  TxViewEthereum (MkEthTxView (default (wmod 64 0) (chain_id tx)) (tx_to tx) (value tx) (input tx)).

(* src eth/network.rs:47-73 <Ethereum as Network>::finalize *)
Definition eth_finalize (tx : Tx) (sigs : list EcdsaParts) (signer : PubkeySec1)
  : result TxError SignedArtifacts :=
  match sigs with
  | [sig] =>
      let? expected_from := map_err (fun e => TxPubkey (pubkey_msg e)) (address_from_sec1 signer) in
      let? signed := map_err (fun e => TxFinalize (finalize_msg e))
                       (finalize_impl (MkPrepared tx (signature_hash tx)) (r sig) (s sig) (y_parity sig)
                          expected_from) in
      Ok (MkArtifacts (stx_raw signed) (tx_hash signed))
  | _ => Err (TxFinalize [Lit "ethereum signs exactly one digest, got "; Num (N.of_nat (length sigs));
                          Lit " signatures"])
  end.

(* src eth/network.rs:17-83 <Ethereum as Network> *)
#[export] Instance EthereumNetwork : Network := {|
  ID := Ethereum;
  Unsigned := Tx;
  Network.decode_unsigned b := map_err (fun e => TxDecode (decode_msg e)) (rmap ptx (decode_unsigned b));
  validate tx := map_err (fun e => TxValidate (prepare_msg e)) (validate_unsigned tx);
  signing_digests tx := [signature_hash tx];
  policy_view := eth_policy_view;
  finalize := eth_finalize;
  derive_address pk := rmap display_address (map_err (fun e => TxPubkey (pubkey_msg e)) (address_from_sec1 pk));
|}.

(** ** Broadcasting *)
(* src eth/types.rs:297-307 BroadcastOutcome *)
Inductive BroadcastOutcome (R : Type) : Type := Confirmed (receipt : R) | Pending.
(* src eth/types.rs:309-322 BroadcastError *)
Inductive BroadcastError : Type :=
  | Rejected (node : string)
  | Rpc (e : string)
  | HashMismatch (local node : B256).
(* src eth/types.rs:309-322 <BroadcastError as Display>::fmt *)
Definition broadcast_msg (e : BroadcastError) : msg :=
  match e with
  | Rejected node => [Lit "node rejected transaction: "; Txt node]
  | Rpc e => [Lit "rpc call failed: "; Txt e]
  | HashMismatch local node =>
      [Lit "node returned tx hash "; Hex (wval <$> arr node); Lit ", locally computed "; Hex (wval <$> arr local)]
  end.
Arguments Confirmed {R} receipt.
Arguments Pending {R}.

(** What submitting yields: the hash the node echoes, its refusal, or a
    transport failure. *)
Inductive submit : Type := Submitted (node_hash : B256) | ErrorResp (payload : string) | SubmitFailed (e : string).

Section Broadcast.
Context {R : Type}.
(** The [k]-th receipt request, and whether the deadline has passed after it. *)
Variable receipt : nat -> result string (option R).
Variable late : nat -> bool.

(** The polling loop; [None] is running out of fuel. *)
(* src eth/broadcast.rs:56-67 broadcast_via_rpc_impl *)
Fixpoint poll_loop (fuel k : nat) : option (result BroadcastError (BroadcastOutcome R)) :=
  match fuel with
  | O => None
  | S fuel =>
      match receipt k with
      | Err e => Some (Err (Rpc e))
      | Ok (Some rc) => Some (Ok (Confirmed rc))
      | Ok None => if late k then Some (Ok Pending) else poll_loop fuel (S k)
      end
  end.

(* src eth/broadcast.rs:24-68 broadcast_via_rpc_impl *)
Definition broadcast_via_rpc_impl (fuel : nat) (sent : submit) (expected_hash : B256)
  : option (result BroadcastError (BroadcastOutcome R)) :=
  match sent with
  | ErrorResp payload =>
      Some match receipt 0 with
           | Err e => Err (Rpc e)
           | Ok (Some rc) => Ok (Confirmed rc)
           | Ok None => Err (Rejected payload)
           end
  | SubmitFailed e => Some (Err (Rpc e))
  | Submitted node_hash =>
      if negb (bool_decide (node_hash = expected_hash)) then
        Some (Err (HashMismatch expected_hash node_hash))
      else poll_loop fuel 0
  end.
End Broadcast.
End Encoding.
Arguments Confirmed {R} receipt.
Arguments Pending {R}.

(** ** What alloy's codecs document *)
Class AlloyLaws (Al : Alloy) : Prop := {
  (* canonical RLP: each decoder accepts exactly its encoder's output, and
     leaves what follows *)
  (* a header that announces more than what follows is an error *)
  header_exact : forall b n rest,
    header_decode b = Ok (true, n, rest) <-> b = rlp_list_header n ++ rest /\ (n <= length rest)%nat;
  header_first : forall n, exists b tl, rlp_list_header n = b :: tl /\ (192 <= wval b)%N;
  u64_exact : forall b c rest, u64_decode b = Ok (c, rest) <-> b = rlp_u64 c ++ rest;
  u64_nonempty : forall c, rlp_u64 c <> [];
  u8_exact : forall b c rest, u8_decode b = Ok (c, rest) <-> b = rlp_u8 c ++ rest;
  fields_exact : forall b tx rest,
    rlp_decode_fields b = Ok (tx, rest) <-> lg_chain_id tx = None /\ b = legacy_fields tx ++ rest;
  (* the chain id is not one of the six fields *)
  fields_chain : forall tx c, legacy_fields (with_chain_id tx c) = legacy_fields tx;
  e0_exact : forall b tx rest, rlp_decode_2930 b = Ok (tx, rest) <-> b = rlp_2930 tx ++ rest;
  e9_exact : forall b tx rest, rlp_decode_1559 b = Ok (tx, rest) <-> b = rlp_1559 tx ++ rest;
}.

Section EthLemmas.
Context {Al : Alloy} {AL : AlloyLaws Al}.

Lemma decode_strict_Ok {T} payload (decode : bytes -> result string (T * bytes)) x :
  decode_strict payload decode = Ok x <-> decode payload = Ok (x, []).
Proof.
  unfold decode_strict. rewrite rbind_Ok. setoid_rewrite map_err_Ok. split.
  - intros ([y rest] & Hd & H). destruct rest as [|b rest]; [|done]. simpl in H. by injection H as ->.
  - intros Hd. exists (x, []). done.
Qed.

Lemma fields_no_chain tx :
  legacy_fields (MkLegacy None (lg_nonce tx) (lg_gas_price tx) (lg_gas_limit tx) (lg_to tx) (lg_value tx)
                   (lg_input tx)) = legacy_fields tx.
Proof.
  destruct tx as [[c|] n gp gl t v d]; [|done].
  symmetry. exact (fields_chain (MkLegacy None n gp gl t v d) c).
Qed.

Lemma decode_legacy_exact raw tx :
  decode_legacy_unsigned raw = Ok tx <-> raw = encoded_for_signing (Legacy tx).
Proof.
  unfold decode_legacy_unsigned. cbn [encoded_for_signing]. split.
  - intros ([[l n] buf] & Hh & H)%rbind_Ok. apply map_err_Ok in Hh.
    destruct l; simpl in H; [|done]. apply header_exact in Hh as [-> _].
    destruct (Nat.ltb (length buf) n) eqn:E1; [done|]. destruct (Nat.ltb n (length buf)) eqn:E2; [done|].
    apply Nat.ltb_ge in E1, E2. assert (length buf = n) as <- by lia. clear E1 E2.
    apply rbind_Ok in H as ([tx0 payload] & Hf & H). apply map_err_Ok, fields_exact in Hf as [Hc ->].
    destruct payload as [|b payload]; simpl in H.
    + injection H as ->. unfold legacy_payload. by rewrite Hc.
    + apply rbind_Ok in H as ([c p1] & H1 & H). apply map_err_Ok, u64_exact in H1.
      apply rbind_Ok in H as ([zr p2] & H2 & H). apply map_err_Ok, u8_exact in H2 as ->.
      apply rbind_Ok in H as ([zs p3] & H3 & H). apply map_err_Ok, u8_exact in H3 as ->.
      destruct (negb _ || _ || _) eqn:E; [done|]. injection H as <-.
      apply orb_false_iff in E as [[Ezr Ezs]%orb_false_iff Ep].
      apply negb_false_iff, N.eqb_eq in Ezr, Ezs. apply negb_false_iff, Nat.eqb_eq in Ep.
      destruct p3; [|done].
      assert (zr = wmod 8 0) as -> by (by apply word_eq). assert (zs = wmod 8 0) as -> by (by apply word_eq).
      rewrite H1. unfold legacy_payload. rewrite fields_chain. simpl. by rewrite app_nil_r.
  - intros ->. rewrite (proj2 (header_exact _ _ _) (conj eq_refl (le_n _))). cbn [map_err rbind negb].
    rewrite Nat.ltb_irrefl. unfold legacy_payload.
    set (tx0 := MkLegacy None (lg_nonce tx) (lg_gas_price tx) (lg_gas_limit tx) (lg_to tx) (lg_value tx)
                  (lg_input tx)).
    rewrite (proj2 (fields_exact _ tx0 _) (conj eq_refl (f_equal (fun x => x ++ _) (eq_sym (fields_no_chain tx))))).
    cbn [map_err rbind]. destruct (lg_chain_id tx) as [c|] eqn:Hc.
    + destruct (Nat.eqb _ 0) eqn:E.
      { apply Nat.eqb_eq, nil_length_inv, app_eq_nil in E as [E _]. by apply u64_nonempty in E. }
      rewrite (proj2 (u64_exact _ c _) eq_refl). cbn [map_err rbind].
      rewrite (proj2 (u8_exact _ (wmod 8 0) _) eq_refl). cbn [map_err rbind].
      rewrite (proj2 (u8_exact (rlp_u8 (wmod 8 0)) (wmod 8 0) []) (eq_sym (app_nil_r _))). cbn [map_err rbind].
      f_equal. unfold tx0. destruct tx; simpl in *; subst; done.
    + f_equal. unfold tx0. destruct tx; simpl in *; subst; done.
Qed.

Lemma decode_unsigned_exact raw tx h :
  decode_unsigned raw = Ok (MkPrepared tx h) <-> raw = encode_unsigned tx /\ h = signature_hash tx.
Proof.
  unfold decode_unsigned, encode_unsigned. rewrite rbind_Ok.
  assert (forall tx, decode_dispatch raw
    (fun p => rmap Legacy (decode_legacy_unsigned p))
    (fun p => rmap Eip2930 (decode_strict p rlp_decode_2930))
    (fun p => rmap Eip1559 (decode_strict p rlp_decode_1559)) = Ok tx <-> raw = encoded_for_signing tx) as Hd.
  { clear tx h. intros tx. unfold decode_dispatch. split.
    - destruct raw as [|b p]; [done|].
      destruct (N.eqb (wval b) 1) eqn:E1; [|destruct (N.eqb (wval b) 2) eqn:E2; [|destruct (N.leb 192 (wval b))]].
      + intros (x & Hx & ->)%rmap_Ok. apply decode_strict_Ok, e0_exact in Hx as ->.
        apply N.eqb_eq in E1. cbn. rewrite app_nil_r. f_equal. by apply word_eq.
      + intros (x & Hx & ->)%rmap_Ok. apply decode_strict_Ok, e9_exact in Hx as ->.
        apply N.eqb_eq in E2. cbn. rewrite app_nil_r. f_equal. by apply word_eq.
      + intros (x & Hx & ->)%rmap_Ok. by apply decode_legacy_exact in Hx.
      + done.
    - intros ->. destruct tx as [tx|tx|tx].
      + pose proof (proj2 (decode_legacy_exact _ tx) eq_refl) as Hl.
        cbn [encoded_for_signing] in *.
        destruct (header_first (length (legacy_payload tx))) as (b & tl & Hb & Hge).
        rewrite Hb in *. simpl in *. rewrite (proj2 (N.eqb_neq _ _)), (proj2 (N.eqb_neq _ _)) by lia.
        rewrite (proj2 (N.leb_le _ _) Hge). by rewrite Hl.
      + cbn. rewrite (proj2 (decode_strict_Ok _ _ tx)); [done|]. apply e0_exact. by rewrite app_nil_r.
      + cbn. rewrite (proj2 (decode_strict_Ok _ _ tx)); [done|]. apply e9_exact. by rewrite app_nil_r. }
  split.
  - intros (tx' & H%Hd & Heq). by injection Heq as -> <-.
  - intros [-> ->]. exists tx. split; [|done]. by apply Hd.
Qed.

Lemma validate_unsigned_Ok (tx : EthTx AccessList) :
  validate_unsigned tx = Ok tt <->
  (exists c, chain_id tx = Some c /\ wval c <> 0%N) /\ wval (gas_limit tx) <> 0%N /\
  match tx with
  | Eip1559 tx => (wval (e9_max_priority_fee_per_gas tx) <= wval (e9_max_fee_per_gas tx))%N
  | _ => True
  end.
Proof.
  unfold validate_unsigned. destruct (chain_id tx) as [c|].
  2:{ split; [done|]. by intros ((c & ? & _) & _). }
  destruct (N.eqb (wval c) 0) eqn:E1.
  { apply N.eqb_eq in E1. split; [done|]. intros ((c' & [= <-] & ?) & _). congruence. }
  apply N.eqb_neq in E1. destruct (N.eqb (wval (gas_limit tx)) 0) eqn:E2.
  { apply N.eqb_eq in E2. split; [done|]. tauto. }
  apply N.eqb_neq in E2. destruct tx as [tx|tx|tx]; [naive_solver..|].
  destruct (N.ltb _ _) eqn:E3; [apply N.ltb_lt in E3|apply N.ltb_ge in E3].
  - split; [done|]. intros (_ & _ & ?). lia.
  - split; [|done]. intros _. eauto.
Qed.
End EthLemmas.

(** ** Properties *)
Section EthProperties.
Context {Al : Alloy} {AL : AlloyLaws Al}.

(** C22: the unsigned wire form is exact.  Bytes decode to a transaction
    exactly when they are its signing preimage: every encoded transaction
    decodes to itself, nothing else decodes (unsupported types, trailing
    bytes, malformed EIP-155 tails included), and the digest that will be
    signed is the Keccak hash of the very bytes received. *)
Theorem unsigned_wire_exact raw p :
  decode_unsigned raw = Ok p <->
  raw = encode_unsigned (ptx p) /\ signing_hash p = eth_keccak256 raw.
Proof.
  destruct p as [tx h]. rewrite decode_unsigned_exact. simpl. split.
  - intros [-> ->]. done.
  - intros [-> ->]. done.
Qed.

(** What the orchestrator prepares, every cosigner accepts.  A prepared
    transaction is the intent's, with a nonzero chain id and gas limit and
    consistent fees; and its encoding goes through a cosigner's pipeline
    (decode, validate, digests, policy view) to exactly that transaction and
    the digest prepared. *)
Lemma prepare_signable i p :
  prepare i = Ok p ->
  ptx p = of_intent i /\ wval (i_chain_id i) <> 0%N /\ wval (i_gas_limit i) <> 0%N /\
  Network.decode_unsigned (encode_unsigned (ptx p)) = Ok (ptx p) /\
  Network.validate (ptx p) = Ok tt /\
  Network.signing_digests (ptx p) = [signing_hash p] /\
  Network.policy_view (ptx p) =
    TxViewEthereum (MkEthTxView (i_chain_id i) (i_kind i) (i_value i) (i_data i)).
Proof.
  unfold prepare. intros ([] & Hv & [= <-])%rbind_Ok. simpl.
  assert (chain_id (of_intent i) = Some (i_chain_id i) /\ gas_limit (of_intent i) = i_gas_limit i /\
          tx_to (of_intent i) = i_kind i /\ value (of_intent i) = i_value i /\
          input (of_intent i) = i_data i) as (Hc & Hg & Ht & Hval & Hin)
    by (unfold of_intent; by destruct (i_params i)).
  pose proof (proj1 (validate_unsigned_Ok _) Hv) as ((c & Hc' & Hnz) & Hgas & _).
  split_and!; try done.
  - congruence.
  - by rewrite <- Hg.
  - by rewrite (proj2 (decode_unsigned_exact _ _ _) (conj eq_refl eq_refl)).
  - by rewrite Hv.
  - unfold eth_policy_view. by rewrite Hc, Ht, Hval, Hin.
Qed.

(** What the RPC node contributes to a prepared transaction. *)
Lemma prepare_from_rpc_Ok q from p pr :
  prepare_from_rpc_impl q from p = Ok pr ->
  exists i c, get_chain_id p = Ok c /\ i_chain_id i = c /\ i_kind i = q_to q /\ i_value i = q_value q /\
    i_data i = q_data q /\ prepare i = Ok pr.
Proof.
  unfold prepare_from_rpc_impl. destruct (match q_tx_type q with TLegacy => _ | _ => _ end); [done|].
  intros (i & He & Hp)%rbind_Ok. apply map_err_Ok in He. unfold enrich in He.
  apply rbind_Ok in He as (c & Hc & H). apply rbind_Ok in H as (n & _ & H).
  apply rbind_Ok in H as (ps & _ & H). apply rbind_Ok in H as (g & _ & [= Hi]).
  exists i, c. by rewrite <- Hi in *.
Qed.

(** The decoded signed transaction keeps the bytes it came from. *)
Lemma decode_signed_raw b s : decode_signed b = Ok s -> stx_raw s = b.
Proof.
  unfold decode_signed, decode_dispatch, to_signed_tx. destruct b as [|x b]; [done|].
  repeat match goal with |- context [if ?c then _ else _] => destruct c end; try done;
    intros (y & _ & H)%rbind_Ok; apply rbind_Ok in H as (f & _ & [= <-]); done.
Qed.

(** C29: finalization is sound and complete.  It succeeds exactly when there is
    one signature, the signer's key is a curve point, and the signature
    recovers over the transaction's own digest to that key's address; then the
    artifacts are the signed envelope and its hash. *)
Theorem finalize_exact (tx : EthTx AccessList) sigs signer out :
  eth_finalize tx sigs signer = Ok out <->
  exists sig a, sigs = [sig] /\ address_from_sec1 signer = Ok a /\
    recover_address_from_prehash (r sig) (s sig) (y_parity sig) (signature_hash tx) = Some a /\
    out = MkArtifacts (encoded_2718 tx (r sig) (s sig) (y_parity sig))
            (eth_keccak256 (encoded_2718 tx (r sig) (s sig) (y_parity sig))).
Proof.
  unfold eth_finalize. split.
  - destruct sigs as [|sig [|]]; [done| |done]. intros (a & Ha & H)%rbind_Ok. apply map_err_Ok in Ha.
    apply rbind_Ok in H as (sg & Hf & [= <-]). apply map_err_Ok in Hf. unfold finalize_impl in Hf.
    apply rbind_Ok in Hf as (rc & Hrc & H). apply ok_or_Ok in Hrc. simpl in Hrc.
    case_bool_decide as Heq; simpl in H; [|done]. injection H as <-. subst rc.
    exists sig, a. done.
  - intros (sig & a & -> & -> & Hrc & ->). simpl. unfold finalize_impl. simpl. rewrite Hrc. simpl.
    by rewrite bool_decide_eq_true_2.
Qed.

Lemma first_false (f : nat -> bool) n :
  f n = false -> exists m, (m <= n)%nat /\ (forall j, (j < m)%nat -> f j = true) /\ f m = false.
Proof.
  assert (forall n, (forall j, (j < n)%nat -> f j = true) \/
            exists m, (m < n)%nat /\ (forall j, (j < m)%nat -> f j = true) /\ f m = false) as H.
  { clear n. induction n as [|n [IH|(m & Hm & H)]].
    - left. lia.
    - destruct (f n) eqn:E.
      + left. intros j Hj. destruct (decide (j = n)) as [->|]; [done|]. apply IH. lia.
      + right. exists n. split_and!; [lia|done|done].
    - right. exists m. split_and!; [lia|apply H|apply H]. }
  intros Hn. destruct (H n) as [Hall|(m & Hm & Hq & Hf)].
  - exists n. split_and!; [lia|done|done].
  - exists m. split_and!; [lia|done|done].
Qed.

(** The polling loop, by its first settling poll. *)
Lemma poll_loop_spec {R} (receipt : nat -> result string (option R)) late fuel k m :
  (forall j, (j < m)%nat -> receipt (k + j)%nat = Ok None /\ late (k + j)%nat = false) ->
  (m < fuel)%nat ->
  poll_loop receipt late fuel k = poll_loop receipt late (fuel - m) (k + m).
Proof.
  revert fuel k; induction m as [|m IH]; intros fuel k Hq Hf.
  - by rewrite Nat.sub_0_r, Nat.add_0_r.
  - destruct fuel as [|fuel]; [lia|]. simpl.
    destruct (Hq 0%nat) as [H1 H2]; [lia|]. rewrite Nat.add_0_r in H1, H2. rewrite H1, H2.
    rewrite (IH fuel (S k)); [|intros j Hj|lia].
    + f_equal; lia.
    + replace (S k + j)%nat with (k + S j)%nat by lia. apply Hq. lia.
Qed.

(** The first request that is not quietly pending decides. *)
Lemma poll_settles {R} (receipt : nat -> result string (option R)) late expected deadline :
  late deadline = true ->
  exists m, (m <= deadline)%nat /\
    (forall j, (j < m)%nat -> receipt j = Ok None /\ late j = false) /\
    (receipt m = Ok None -> late m = true) /\
    forall fuel, (deadline < fuel)%nat ->
      broadcast_via_rpc_impl receipt late fuel (Submitted expected) expected =
        match receipt m with
        | Err e => Some (Err (Rpc e))
        | Ok (Some rc) => Some (Ok (Confirmed rc))
        | Ok None => Some (Ok Pending)
        end.
Proof.
  intros Hlate. set (quiet j := match receipt j with Ok None => negb (late j) | _ => false end).
  assert (exists m, (m <= deadline)%nat /\ (forall j, (j < m)%nat -> quiet j = true) /\ quiet m = false)
    as (m & Hm & Hq & Hnq).
  { assert (quiet deadline = false) as Hd.
    { unfold quiet. destruct (receipt deadline) as [[]|]; try done. by rewrite Hlate. }
    by apply first_false. }
  assert (forall j, (j < m)%nat -> receipt j = Ok None /\ late j = false) as Hquiet.
  { intros j Hj. specialize (Hq j Hj). unfold quiet in Hq.
    destruct (receipt j) as [[]|]; try done. split; [done|]. by apply negb_true_iff. }
  unfold quiet in Hnq. exists m. split_and!; [done|done| |].
  { intros Hr. rewrite Hr in Hnq. by apply negb_false_iff. }
  intros fuel Hf. unfold broadcast_via_rpc_impl. rewrite bool_decide_eq_true_2 by done. cbn [negb].
  rewrite (poll_loop_spec receipt late fuel 0 m) by (done || lia).
  destruct (fuel - m)%nat as [|fuel'] eqn:E; [lia|]. cbn [poll_loop Nat.add].
  destruct (receipt m) as [[rc|]|e]; [done| |done]. apply negb_false_iff in Hnq. by rewrite Hnq.
Qed.

(** Broadcasting settles.  Once some poll is past the deadline, the call
    returns within that many polls, and what it returns is decided by the
    first poll that is not quietly pending: the receipt it found, the
    transport error it met, or the deadline with no receipt.  A transaction
    the node refuses is reported confirmed exactly when its receipt exists. *)
Theorem broadcast_settles {R} (receipt : nat -> result string (option R)) late expected deadline :
  late deadline = true ->
  (exists m, (m <= deadline)%nat /\
     (forall j, (j < m)%nat -> receipt j = Ok None /\ late j = false) /\
     forall fuel, (deadline < fuel)%nat ->
       broadcast_via_rpc_impl receipt late fuel (Submitted expected) expected =
         match receipt m with
         | Err e => Some (Err (Rpc e))
         | Ok (Some rc) => Some (Ok (Confirmed rc))
         | Ok None => Some (Ok Pending)
         end) /\
  (forall fuel payload rc,
     broadcast_via_rpc_impl receipt late fuel (ErrorResp payload) expected = Some (Ok (Confirmed rc)) <->
     receipt 0%nat = Ok (Some rc)) /\
  (forall fuel node, node <> expected ->
     broadcast_via_rpc_impl receipt late fuel (Submitted node) expected
       = Some (Err (HashMismatch expected node))).
Proof.
  intros Hlate. split_and!.
  - destruct (poll_settles receipt late expected deadline Hlate) as (m & Hm & Hq & _ & Hr). by exists m.
  - intros fuel payload rc. simpl. destruct (receipt 0%nat) as [[]|]; naive_solver.
  - intros fuel node Hne. simpl. by rewrite bool_decide_eq_false_2.
Qed.
End EthProperties.

(** Ethereum keeps the network seam's contract. *)
#[export] Instance EthereumContract {Al : Alloy} {AL : AlloyLaws Al} : NetworkContract EthereumNetwork.
Proof.
  refine {| recovers d sg pk := exists a, address_from_sec1 pk = Ok a /\
              recover_address_from_prehash (r sg) (s sg) (y_parity sg) d = Some a |}.
  - intros tx. simpl. discriminate.
  - intros tx sigs signer out H. simpl in H.
    destruct sigs as [|sig [|]]; [done| |done]. unfold eth_finalize in H.
    apply rbind_Ok in H as (a & Ha & H). apply map_err_Ok in Ha.
    apply rbind_Ok in H as (sg & Hf & _). apply map_err_Ok in Hf. unfold finalize_impl in Hf.
    apply rbind_Ok in Hf as (rc & Hrc & H). apply ok_or_Ok in Hrc.
    case_bool_decide as Heq; simpl in H; [|done]. subst rc.
    repeat constructor. by exists a.
Defined.

(** ** A concrete alloy: exact codecs from fixed-width and self-delimiting
    pieces. *)
Module ToyCodec.
Record codec (A : Type) : Type := MkCodec {
  enc : A -> bytes;
  dec : bytes -> option (A * bytes);
  dec_exact : forall b a rest, dec b = Some (a, rest) <-> b = enc a ++ rest;
}.
Arguments MkCodec {A}.
Arguments enc {A}.
Arguments dec {A}.
Arguments dec_exact {A}.

Definition dec_word (w : N) (k : nat) (b : bytes) : option (word w * bytes) :=
  if Nat.leb k (length b) then Some (wmod w (be_val (take k b)), drop k b) else None.

Lemma dec_word_exact (k : nat) b a rest :
  dec_word (8 * N.of_nat k) k b = Some (a, rest) <-> b = be_bytes k (wval a) ++ rest.
Proof.
  unfold dec_word. destruct (Nat.leb k (length b)) eqn:E.
  - apply Nat.leb_le in E. split.
    + intros [= <- <-].
      assert (length (take k b) = k) as Hl by (rewrite length_take; lia).
      pose proof (be_val_lt (take k b)) as Hlt. rewrite Hl in Hlt. rewrite wmod_small by done.
      rewrite <- Hl at 1. rewrite be_bytes_val. by rewrite take_drop.
    + intros ->. rewrite take_app_length', drop_app_length' by (by rewrite be_bytes_length).
      rewrite be_val_bytes. do 2 f_equal. apply word_eq. rewrite wval_wmod.
      rewrite N.Div0.mod_mod. apply N.mod_small, word_lt.
  - apply Nat.leb_gt in E. split; [done|]. intros ->. rewrite length_app, be_bytes_length in E. lia.
Qed.

Definition c_word (k : nat) : codec (word (8 * N.of_nat k)) :=
  MkCodec (fun a => be_bytes k (wval a)) (dec_word _ k) (dec_word_exact k).

Fixpoint enc_list (l : bytes) : bytes :=
  match l with [] => [wmod 8 0] | x :: l => wmod 8 1 :: x :: enc_list l end.
Fixpoint dec_list (b : bytes) : option (bytes * bytes) :=
  match b with
  | [] => None
  | t :: b =>
      if decide (t = wmod 8 0) then Some ([], b)
      else if decide (t = wmod 8 1) then
        match b with
        | [] => None
        | x :: b => match dec_list b with Some (l, r) => Some (x :: l, r) | None => None end
        end
      else None
  end.

Lemma dec_list_enc l rest : dec_list (enc_list l ++ rest) = Some (l, rest).
Proof. induction l as [|x l IH]; simpl; [done|]. by rewrite IH. Qed.

Lemma dec_list_sound n b l rest : (length b <= n)%nat -> dec_list b = Some (l, rest) -> b = enc_list l ++ rest.
Proof.
  revert b l; induction n as [|n IH]; intros [|t b] l; simpl; try done; [lia|]. intros Hn.
  case_decide as H0; [intros [= <- <-]; by subst|].
  case_decide as H1; [|done]. destruct b as [|x b]; [done|].
  destruct (dec_list b) as [[l' r]|] eqn:E; [|done]. intros [= <- <-]. simpl in *. subst t.
  do 2 f_equal. apply IH; [lia|done].
Qed.

Definition c_list : codec bytes.
Proof.
  refine (MkCodec enc_list dec_list _). intros b a rest. split.
  - by apply (dec_list_sound (length b)).
  - intros ->. apply dec_list_enc.
Defined.

Definition enc_kind (a : option Address) : bytes :=
  match a with None => [wmod 8 0] | Some a => wmod 8 1 :: arr a end.
Definition dec_kind (b : bytes) : option (option Address * bytes) :=
  match b with
  | [] => None
  | t :: b =>
      if decide (t = wmod 8 0) then Some (None, b)
      else if decide (t = wmod 8 1) then
        match to_array 20 (take 20 b) with Some a => Some (Some a, drop 20 b) | None => None end
      else None
  end.
Definition c_kind : codec (option Address).
Proof.
  refine (MkCodec enc_kind dec_kind _). intros b a rest. split.
  - destruct b as [|t b]; [done|]. simpl. case_decide as H0; [intros [= <- <-]; by subst|].
    case_decide as H1; [|done]. destruct (to_array 20 (take 20 b)) as [x|] eqn:E; [|done].
    intros [= <- <-]. apply to_array_Some in E. simpl. rewrite E, take_drop. by subst.
  - intros ->. destruct a as [a|]; simpl; [|done].
    rewrite take_app_length', drop_app_length' by (by rewrite array_len). by rewrite to_array_arr.
Defined.

Definition c_pair {A B} (c : codec A) (d : codec B) : codec (A * B).
Proof.
  refine (MkCodec (fun x => enc c (fst x) ++ enc d (snd x))
    (fun b => match dec c b with
              | Some (x, b) => match dec d b with Some (y, b) => Some ((x, y), b) | None => None end
              | None => None end) _).
  intros b [x y] rest. simpl. split.
  - destruct (dec c b) as [[x' b']|] eqn:Ec; [|done]. destruct (dec d b') as [[y' b'']|] eqn:Ed; [|done].
    intros [= -> -> ->]. apply dec_exact in Ec as ->. apply dec_exact in Ed as ->. by rewrite <- app_assoc.
  - intros ->. rewrite <- app_assoc. rewrite (proj2 (dec_exact c _ x _) eq_refl).
    by rewrite (proj2 (dec_exact d _ y _) eq_refl).
Defined.

Definition c_iso {A B} (f : A -> B) (g : B -> A) (fg : forall b, f (g b) = b) (gf : forall a, g (f a) = a)
    (c : codec A) : codec B.
Proof.
  refine (MkCodec (fun b => enc c (g b))
    (fun b => match dec c b with Some (x, b) => Some (f x, b) | None => None end) _).
  intros b y rest. split.
  - destruct (dec c b) as [[x b']|] eqn:Ec; [|done]. intros [= <- <-]. rewrite gf. by apply dec_exact.
  - intros ->. rewrite (proj2 (dec_exact c _ (g y) _) eq_refl). by rewrite fg.
Defined.

Definition c_u8 : codec u8 := c_word 1.
Definition c_u64 : codec u64 := c_word 8.
Definition c_u128 : codec u128 := c_word 16.
Definition c_u256 : codec U256 := c_word 32.

Definition six : Type := u64 * (u128 * (u64 * (option Address * (U256 * bytes)))).
Definition c_six : codec six := c_pair c_u64 (c_pair c_u128 (c_pair c_u64 (c_pair c_kind (c_pair c_u256 c_list)))).
Definition six_of (t : TxLegacy) : six :=
  (lg_nonce t, (lg_gas_price t, (lg_gas_limit t, (lg_to t, (lg_value t, lg_input t))))).
Definition of_six (x : six) : TxLegacy :=
  let '(n, (gp, (gl, (t, (v, d))))) := x in MkLegacy None n gp gl t v d.

Definition c_2930 : codec (TxEip2930 bytes).
Proof.
  refine (c_iso (fun x : u64 * (bytes * six) => let '(c, (al, (n, (gp, (gl, (t, (v, d))))))) := x in
                   Mk2930 c n gp gl t v al d)
    (fun t => (e0_chain_id t, (e0_access_list t, (e0_nonce t, (e0_gas_price t, (e0_gas_limit t,
                (e0_to t, (e0_value t, e0_input t)))))))) _ _ (c_pair c_u64 (c_pair c_list c_six))).
  - by intros [].
  - by intros (c & al & n & gp & gl & t & v & d).
Defined.

Definition c_1559 : codec (TxEip1559 bytes).
Proof.
  refine (c_iso (fun x : u64 * (bytes * (u128 * six)) =>
                   let '(c, (al, (mp, (n, (mf, (gl, (t, (v, d)))))))) := x in Mk1559 c n gl mf mp t v al d)
    (fun t => (e9_chain_id t, (e9_access_list t, (e9_max_priority_fee_per_gas t, (e9_nonce t,
        (e9_max_fee_per_gas t, (e9_gas_limit t, (e9_to t, (e9_value t, e9_input t)))))))))
    _ _ (c_pair c_u64 (c_pair c_list (c_pair c_u128 c_six)))).
  - by intros [].
  - by intros (c & al & mp & n & mf & gl & t & v & d).
Defined.

(** A list header: a marker byte and the length in unary. *)
Definition enc_header (n : nat) : bytes := wmod 8 192 :: enc_list (replicate n (wmod 8 0)).
Definition dec_header (b : bytes) : option (bool * nat * bytes) :=
  match b with
  | [] => None
  | t :: b =>
      if decide (t = wmod 8 192) then
        match dec_list b with
        | Some (l, r) => if decide (l = replicate (length l) (wmod 8 0) /\ (length l <= length r)%nat)
                         then Some (true, length l, r) else None
        | None => None
        end
      else None
  end.
Lemma dec_header_exact b n rest :
  dec_header b = Some (true, n, rest) <-> b = enc_header n ++ rest /\ (n <= length rest)%nat.
Proof.
  split.
  - destruct b as [|t b]; [done|]. simpl. case_decide as Ht; [|done].
    destruct (dec_list b) as [[l r]|] eqn:E; [|done]. case_decide as Hl; [|done]. destruct Hl as [Hl Hn].
    intros [= <- <-]. apply (dec_list_sound _ _ _ _ (le_n _)) in E as ->. unfold enc_header.
    rewrite <- Hl. by subst.
  - intros [-> Hn]. simpl. rewrite dec_list_enc, length_replicate. by rewrite decide_True.
Qed.

Definition lift {A} (x : option (A * bytes)) : result string (A * bytes) := ok_or "rlp" x.
Lemma lift_exact {A} (c : codec A) b a rest : lift (dec c b) = Ok (a, rest) <-> b = enc c a ++ rest.
Proof. unfold lift. by rewrite ok_or_Ok, dec_exact. Qed.
End ToyCodec.

(** The signed forms: the unsigned fields, then [r] and [s]. *)
Definition toy_address (r : N) : Address := array_of 20 (be_bytes 20 r).
Definition toy_signed {A} (ty : bytes) (c : ToyCodec.codec A) (b : bytes)
  : result string ((B256 * option Address) * bytes) :=
  let? (tx, rest) := ToyCodec.lift (ToyCodec.dec c b) in
  if Nat.ltb (length rest) 64 then Err "input too short"
  else Ok (toy_hash 32 (ty ++ ToyCodec.enc c tx ++ take 64 rest),
           Some (toy_address (be_val (take 32 rest))), drop 64 rest).

(** Recovery: a signature "recovers" to the address its [r] spells; keys and
    addresses share their low bytes. *)
#[export] Instance ToyAlloy : Alloy := {|
  AccessList := bytes;
  al_is_empty l := Nat.eqb (length l) 0;
  rlp_list_header := ToyCodec.enc_header;
  rlp_u64 := ToyCodec.enc ToyCodec.c_u64;
  rlp_u8 := ToyCodec.enc ToyCodec.c_u8;
  legacy_fields t := ToyCodec.enc ToyCodec.c_six (ToyCodec.six_of t);
  rlp_2930 := ToyCodec.enc ToyCodec.c_2930;
  rlp_1559 := ToyCodec.enc ToyCodec.c_1559;
  header_decode b := ok_or "rlp" (ToyCodec.dec_header b);
  u64_decode b := ToyCodec.lift (ToyCodec.dec ToyCodec.c_u64 b);
  u8_decode b := ToyCodec.lift (ToyCodec.dec ToyCodec.c_u8 b);
  rlp_decode_fields b := rmap (fun x => (ToyCodec.of_six (fst x), snd x)) (ToyCodec.lift (ToyCodec.dec ToyCodec.c_six b));
  rlp_decode_2930 b := ToyCodec.lift (ToyCodec.dec ToyCodec.c_2930 b);
  rlp_decode_1559 b := ToyCodec.lift (ToyCodec.dec ToyCodec.c_1559 b);
  rlp_decode_signed_legacy := toy_signed [] ToyCodec.c_six;
  rlp_decode_signed_2930 := toy_signed [wmod 8 1] ToyCodec.c_2930;
  rlp_decode_signed_1559 := toy_signed [wmod 8 2] ToyCodec.c_1559;
  eth_keccak256 b := toy_hash 32 b;
  recover_address_from_prehash r s y h := Some (toy_address (wval r));
  encoded_2718 tx r s y :=
    (match tx with
     | Legacy t => ToyCodec.enc ToyCodec.c_six (ToyCodec.six_of t)
     | Eip2930 t => wmod 8 1 :: ToyCodec.enc ToyCodec.c_2930 t
     | Eip1559 t => wmod 8 2 :: ToyCodec.enc ToyCodec.c_1559 t
     end) ++ be_bytes 32 (wval r) ++ be_bytes 32 (wval s);
  from_public_key pk := Some (array_of 20 (take 20 (drop 1 (arr pk))));
  display_address a := toy_hex_encode (arr a);
|}.

#[export] Instance ToyAlloyLaws : AlloyLaws ToyAlloy.
Proof.
  constructor.
  - intros. cbn [header_decode ToyAlloy rlp_list_header]. rewrite ok_or_Ok. apply ToyCodec.dec_header_exact.
  - intros n. eexists _, _. split; [reflexivity|]. done.
  - intros. apply (ToyCodec.lift_exact ToyCodec.c_u64).
  - intros c Hc. apply (f_equal length) in Hc. discriminate Hc.
  - intros. apply (ToyCodec.lift_exact ToyCodec.c_u8).
  - intros b tx rest. cbn [rlp_decode_fields ToyAlloy legacy_fields]. rewrite rmap_Ok. split.
    + intros ([x b'] & H & Heq). apply ToyCodec.lift_exact in H as ->. injection Heq as -> ->.
      by destruct x as (n & gp & gl & t & v & d).
    + intros [Hc ->]. exists (ToyCodec.six_of tx, rest). split; [by apply ToyCodec.lift_exact|].
      simpl. f_equal. by destruct tx; simpl in *; subst.
  - done.
  - intros. apply (ToyCodec.lift_exact ToyCodec.c_2930).
  - intros. apply (ToyCodec.lift_exact ToyCodec.c_1559).
Qed.

(** ** Witnesses *)
Definition demo_intent : TxIntent :=
  MkIntent (wmod 64 11155111) (wmod 64 7) (Some (array_repeat 20 (wmod 8 17))) (wmod 256 1000) (wmod 64 21000) []
    (PEip1559 (wmod 128 30) (wmod 128 2) []).
Definition demo_tx : EthTx AccessList := of_intent demo_intent.
Definition demo_prepared : PreparedTx := MkPrepared demo_tx (signature_hash demo_tx).

Lemma unsigned_wire_exact_witness :
  decode_unsigned (encode_unsigned demo_tx) = Ok demo_prepared.
Proof.
  exact (proj2 (unsigned_wire_exact (encode_unsigned demo_tx) demo_prepared) (conj eq_refl eq_refl)).
Defined.

Lemma broadcast_settles_witness :
  exists m, (m <= 2)%nat /\ forall fuel, (2 < fuel)%nat ->
    broadcast_via_rpc_impl (fun _ => Ok (@None nat)) (Nat.leb 2) fuel (Submitted (array_repeat 32 (wmod 8 1)))
      (array_repeat 32 (wmod 8 1)) = Some (Ok Pending).
Proof.
  destruct (proj1 (broadcast_settles (fun _ => Ok (@None nat)) (Nat.leb 2) (array_repeat 32 (wmod 8 1)) 2 eq_refl))
    as (m & Hm & _ & H).
  exists m. split; [exact Hm|exact H].
Defined.

(** The decoder, evaluated on an encoded transaction and on a blob one. *)
Definition decodes_with_nonce (b : bytes) (n : N) : bool :=
  match decode_unsigned b with Ok p => N.eqb (wval (nonce (ptx p))) n | Err _ => false end.
Definition refuses_type (b : bytes) (ty : u8) : bool :=
  match decode_unsigned b with Err (UnsupportedType t) => N.eqb (wval t) (wval ty) | _ => false end.
Example demo_roundtrip : decodes_with_nonce (encode_unsigned demo_tx) 7 = true.
Proof. vm_compute. reflexivity. Qed.
Example blob_tx_refused : refuses_type [wmod 8 3; wmod 8 0] (wmod 8 3) = true.
Proof. vm_compute. reflexivity. Qed.
