(* ===== verification/Orchestrator.v ===== *)
(** * Orchestrator startup ([crates/sovra-api]: [config.rs], [orchestrator.rs], [run.rs])

    The cosigner list from the configuration, and the recovery of the active
    public key from the cosigners' stores, with its bounded retries. *)

From S2P Require Import Prelude Text Types Mpc Control Remote.
From Stdlib Require Import String Ascii NArith Lia.
From stdpp Require Import base decidable list strings.
Open Scope string_scope. Open Scope list_scope.

(** ** Configuration *)
(* src api/config.rs:18-25 CosignerEntry *)
Record CosignerEntry : Type := MkEntry { entry_id : u8; entry_url : string }.

(** The values after the config crate's layering and defaults. *)
(* src api/config.rs:27-48 Config *)
Record Config : Type := MkConfig {
  rpc_url : string;
  bind_addr : string;
  cfg_cosigners : list CosignerEntry;
  cfg_threshold : u8;
  relay_bind : string;
  tls_ca_path : string;
  tls_cert_path : string;
  tls_key_path : string;
}.

(* src api/config.rs:49-59 default_bind_addr *)
Definition default_bind_addr : string := "127.0.0.1:3000".
Definition default_relay_bind : string := "127.0.0.1:3100".
Definition default_threshold : u8 := wmod 8 2.

(** The offending pair and what is wrong with it. *)
Inductive url_error : Type :=
  | NoEquals (pair : string)
  | BadPartyId (pair : string) (e : IntErrorKind).

(* src api/config.rs:108-120 parse_cosigner_urls *)
Definition parse_pair (p : string) : result url_error CosignerEntry :=
  let pair := trim p in
  let? (id, url) := ok_or (NoEquals pair) (split_once "="%char pair) in
  let? party_id := map_err (BadPartyId pair) (parse_u8 (trim id)) in
  Ok (MkEntry party_id (trim url)).

(* src api/config.rs:104-122 parse_cosigner_urls *)
Definition parse_cosigner_urls (s : string) : result url_error (list CosignerEntry) :=
  collect (parse_pair <$> split_on ","%char EmptyString s).

Inductive ConfigError : Type :=
  | Layered (e : string)
  | BadUrls (e : url_error)
  | NoCosigners.

Definition set_cosigners (c : Config) (l : list CosignerEntry) : Config :=
  MkConfig (rpc_url c) (bind_addr c) l (cfg_threshold c) (relay_bind c)
    (tls_ca_path c) (tls_cert_path c) (tls_key_path c).

(** [layered] is what the config crate built from file and environment;
    [urls] the variable [SOVRA_COSIGNER_URLS], when set to valid text. *)
(* src api/config.rs:66-101 Config::load *)
Definition load_config (layered : result string Config) (urls : option string) : result ConfigError Config :=
  let? config := map_err Layered layered in
  let? config :=
    match urls with
    | Some urls =>
        if bool_decide (trim urls = EmptyString) then Ok config
        else rmap (set_cosigners config) (map_err BadUrls (parse_cosigner_urls urls))
    | None => Ok config
    end in
  match cfg_cosigners config with
  | [] => Err NoCosigners
  | _ => Ok config
  end.

(** ** Recovery *)
(* src api/orchestrator.rs:19-35 RecoverError *)
Inductive RecoverError : Type :=
  | Inconsistent (reports : list (u8 * option PubkeySec1))
  | Transport (reachable required : N) (detail : list (u8 * IpcError)).
(* src api/orchestrator.rs:19-35 <RecoverError as Display>::fmt *)
Definition recover_error_text (e : RecoverError) : msg :=
  match e with
  | Inconsistent reports =>
      [Lit "reachable shard stores disagree ("] ++ dbg_reports ((fun r => (wval (fst r), snd r)) <$> reports)
      ++ [Lit "); partial dkg state — wipe the store dirs and re-run dkg"]
  | Transport reachable required detail =>
      [Lit "startup recovery needs "; Num required; Lit " reachable cosigners, got "; Num reachable; Lit ": "]
      ++ join_msgs "; " ((fun x => [Lit "cosigner"; Num (wval (fst x)); Lit ": "] ++ ipc_error_text (snd x)) <$> detail)
  end.

Section Recovery.
Context `{JsonLib}.

Definition reports_of (results : list (u8 * result IpcError (option PubkeySec1)))
  : list (u8 * option PubkeySec1) :=
  results ≫= fun x => match snd x with Ok pk => [(fst x, pk)] | Err _ => [] end.
Definition unreachable_of (results : list (u8 * result IpcError (option PubkeySec1)))
  : list (u8 * IpcError) :=
  results ≫= fun x => match snd x with Ok _ => [] | Err e => [(fst x, e)] end.
Definition somes_of (reports : list (u8 * option PubkeySec1)) : list (u8 * PubkeySec1) :=
  reports ≫= fun x => match snd x with Some pk => [(fst x, pk)] | None => [] end.

(** [probe] is each cosigner's reply to [GET /signer]. *)
(* src api/orchestrator.rs:37-97 recover_active *)
Definition recover_active (probe : u8 -> Url -> reply) (cosigners : list (u8 * Url)) (threshold : N)
  : result RecoverError (option PubkeySec1) :=
  let results := (fun c => (fst c, fetch_signer (probe (fst c) (snd c)))) <$> cosigners in
  let reports := reports_of results in
  if N.ltb (N.of_nat (length reports)) threshold then
    Err (Transport (N.of_nat (length reports)) threshold (unreachable_of results))
  else
    match somes_of reports with
    | [] => Ok None
    | ((_, consensus) :: _) as somes =>
        if N.ltb (N.of_nat (length somes)) threshold
           || existsb (fun x => negb (bool_decide (snd x = consensus))) somes
        then Err (Inconsistent reports)
        else Ok (Some consensus)
    end.

(** The [k]-th attempt's probes; [tries] attempts are retried after a second,
    one more is final. *)
(* src api/run.rs:116-131 recover_with_retry *)
Fixpoint retry (tries k : nat) (probe : nat -> u8 -> Url -> reply) (cosigners : list (u8 * Url))
    (threshold : N) : result RecoverError (option PubkeySec1) :=
  match tries with
  | O => recover_active (probe k) cosigners threshold
  | S tries =>
      match recover_active (probe k) cosigners threshold with
      | Err (Transport _ _ _) => retry tries (S k) probe cosigners threshold
      | other => other
      end
  end.
(* src api/run.rs:116-131 recover_with_retry *)
Definition recover_with_retry := retry 9 0.

(** ** Process start, up to serving *)
Inductive StartError : Type :=
  | StartConfig (e : ConfigError)
  | StartUrl (url : string)
  | StartIo (what : string)
  | StartTls (e : IpcError)
  | StartBackend (e : IpcError)
  | StartRecover (e : RecoverError).

(** What the libraries answer during startup. *)
Record boot : Type := MkBoot {
  layered_config : result string Config;
  urls_variable : option string;
  http_provider : string -> result string unit;
  url_parse : string -> option Url;
  bind_relay : string -> result string unit;
  tls_load : result IpcError unit;
  backend_client : result IpcError unit;
  probe_client : result IpcError unit;
  signer_probe : nat -> u8 -> Url -> reply;
}.

(** The backend and the active key the application state starts from. *)
(* src api/run.rs:33-69 run *)
Definition start (b : boot) : result StartError (RemoteBackend * option PubkeySec1) :=
  let? config := map_err StartConfig (load_config (layered_config b) (urls_variable b)) in
  let? _ := map_err StartIo (http_provider b (rpc_url config)) in
  let? cosigners := collect ((fun e => rmap (pair (entry_id e))
                       (ok_or (StartUrl (entry_url e)) (url_parse b (entry_url e)))) <$> cfg_cosigners config) in
  let threshold := wval (cfg_threshold config) in
  let? _ := map_err StartIo (bind_relay b (relay_bind config)) in
  let? _ := map_err StartTls (tls_load b) in
  let? backend := map_err StartBackend (remote_new cosigners threshold (backend_client b)) in
  let? _ := map_err StartTls (probe_client b) in
  let? active := map_err StartRecover (recover_with_retry (signer_probe b) cosigners threshold) in
  Ok (backend, active).

(** ** Lemmas *)
Implicit Types reports : list (u8 * option PubkeySec1).

Definition holds (probe : u8 -> Url -> reply) (c : u8 * Url) (x : option PubkeySec1) : Prop :=
  fetch_signer (probe (fst c) (snd c)) = Ok x.

Lemma somes_nil reports : somes_of reports = [] <-> Forall (fun x => snd x = None) reports.
Proof.
  induction reports as [|[p [pk|]] reports IH]; simpl.
  - split; [by constructor|done].
  - split; [done|]. by intros [? _]%Forall_cons.
  - rewrite Forall_cons, <- IH. naive_solver.
Qed.

Lemma somes_elem reports p pk : (p, pk) ∈ somes_of reports <-> (p, Some pk) ∈ reports.
Proof.
  unfold somes_of. rewrite list_elem_of_bind. split.
  - intros ([q [pk'|]] & Hin & Hr); simpl in *; [|by apply not_elem_of_nil in Hin].
    apply list_elem_of_singleton in Hin. by injection Hin as -> ->.
  - intros Hr. exists (p, Some pk). simpl. split; [by apply list_elem_of_singleton|done].
Qed.

Lemma existsb_agree (l : list (u8 * PubkeySec1)) pk :
  existsb (fun x => negb (bool_decide (snd x = pk))) l = false <-> Forall (fun x => snd x = pk) l.
Proof.
  induction l as [|x l IH]; simpl; [by split; [constructor|]|].
  rewrite orb_false_iff, IH, Forall_cons, negb_false_iff, bool_decide_eq_true. done.
Qed.

(** What the stores that hold a shard can say. *)
Lemma consensus_cases (t : N) (somes : list (u8 * PubkeySec1)) :
  (0 < t)%N ->
  let refuses c0 := N.ltb (N.of_nat (length somes)) t
                    || existsb (fun x => negb (bool_decide (snd x = c0))) somes in
  somes = [] \/
  (exists c0 p0 l, somes = (p0, c0) :: l /\ refuses c0 = true /\
     ~ ((t <= N.of_nat (length somes))%N /\ exists pk, Forall (fun x => snd x = pk) somes)) \/
  (exists c0 p0 l, somes = (p0, c0) :: l /\ refuses c0 = false /\
     (t <= N.of_nat (length somes))%N /\ Forall (fun x => snd x = c0) somes).
Proof.
  intros Ht refuses. destruct somes as [|[p0 c0] l]; [by left|right].
  destruct (refuses c0) eqn:Hr; [left|right]; exists c0, p0, l; (split; [done|]); (split; [done|]);
    unfold refuses in Hr.
  - intros (Hl & pk & Hf). assert (pk = c0) as -> by (by apply Forall_cons in Hf as [<- _]).
    apply existsb_agree in Hf. apply orb_true_iff in Hr as [Hr%N.ltb_lt|Hr]; [lia|congruence].
  - apply orb_false_iff in Hr as [Hr%N.ltb_ge Hf]. split; [done|]. by apply existsb_agree.
Qed.
End Recovery.

(** ** Properties *)
Section OrchestratorProperties.
Context `{JsonLib}.

Definition reports_at (probe : u8 -> Url -> reply) (cosigners : list (u8 * Url)) :=
  reports_of ((fun c => (fst c, fetch_signer (probe (fst c) (snd c)))) <$> cosigners).

(** What a successful recovery found (shared by the theorems below). *)
Lemma recover_quorum probe cs t active :
  (0 < t)%N -> recover_active probe cs t = Ok active ->
  (t <= N.of_nat (length (reports_at probe cs)))%N /\
  match active with
  | Some pk => (t <= N.of_nat (length (somes_of (reports_at probe cs))))%N /\
               Forall (fun x => snd x = pk) (somes_of (reports_at probe cs))
  | None => Forall (fun x => snd x = None) (reports_at probe cs)
  end.
Proof.
  intros Ht. unfold recover_active. change (reports_of _) with (reports_at probe cs).
  destruct (N.ltb_spec (N.of_nat (length (reports_at probe cs))) t) as [|Hge]; [done|].
  destruct (consensus_cases t (somes_of (reports_at probe cs)) Ht)
    as [Hs|[(c0 & p0 & l & Hs & Hr & _)|(c0 & p0 & l & Hs & Hr & Hl & Hf)]]; rewrite Hs in *.
  - intros [= <-]. split; [done|]. by apply somes_nil.
  - by rewrite Hr.
  - rewrite Hr. intros [= <-]. done.
Qed.

(** C31: recovery never guesses.  A key is adopted exactly when at least [t]
    cosigners answered, at least [t] of them hold a shard, and all that hold
    one report that very key; a fresh install is concluded exactly when at
    least [t] answered and none holds a shard; too few answers is the only
    retryable failure; and anything else refuses to start. *)
Theorem recover_active_exact probe cosigners t :
  (0 < t)%N ->
  let reports := reports_at probe cosigners in
  let somes := somes_of reports in
  let enough := (t <= N.of_nat (length reports))%N in
  (forall pk, recover_active probe cosigners t = Ok (Some pk) <->
     enough /\ (t <= N.of_nat (length somes))%N /\ Forall (fun x => snd x = pk) somes) /\
  (recover_active probe cosigners t = Ok None <-> enough /\ Forall (fun x => snd x = None) reports) /\
  ((exists r q d, recover_active probe cosigners t = Err (Transport r q d)) <-> ~ enough) /\
  (recover_active probe cosigners t = Err (Inconsistent reports) <->
     enough /\ somes <> [] /\
     ~ ((t <= N.of_nat (length somes))%N /\ exists pk, Forall (fun x => snd x = pk) somes)).
Proof.
  intros Ht reports somes enough. unfold recover_active.
  change (reports_of _) with reports. fold somes. rewrite <- (somes_nil reports). fold somes.
  destruct (N.ltb_spec (N.of_nat (length reports)) t) as [Hlt|Hge].
  { assert (~ enough) by (unfold enough; lia). naive_solver. }
  assert enough as Hen by exact Hge.
  clearbody somes.
  destruct (consensus_cases t somes Ht) as [->|[(c0 & p0 & l & -> & Hr & Hno)|(c0 & p0 & l & -> & Hr & Hl & Hf)]].
  - simpl. assert (~ (t <= 0)%N) by lia. naive_solver.
  - rewrite Hr. naive_solver.
  - rewrite Hr. split_and!; [|naive_solver|naive_solver|naive_solver].
    intros pk. split; [naive_solver|]. intros (_ & _ & Hpk). by apply Forall_cons in Hpk as [<- _].
Qed.

(** The attempts of [recover_with_retry], by the first that is not worth
    retrying. *)
Definition retryable (r : result RecoverError (option PubkeySec1)) : bool :=
  match r with Err (Transport _ _ _) => true | _ => false end.

Lemma retry_spec tries k probe cs t :
  exists m, (m <= tries)%nat /\
    (forall j, (j < m)%nat -> retryable (recover_active (probe (k + j)%nat) cs t) = true) /\
    retry tries k probe cs t = recover_active (probe (k + m)%nat) cs t /\
    (m = tries \/ retryable (recover_active (probe (k + m)%nat) cs t) = false).
Proof.
  revert k; induction tries as [|tries IH]; intros k; simpl.
  - exists 0%nat. rewrite Nat.add_0_r. split_and!; [done|lia|done|by left].
  - destruct (retryable (recover_active (probe k) cs t)) eqn:Hr.
    + destruct (IH (S k)) as (m & Hm & Hq & He & Hs). exists (S m).
      rewrite <- Nat.add_succ_comm. split_and!; [lia| | |].
      * intros [|j] Hj; [by rewrite Nat.add_0_r|]. rewrite <- Nat.add_succ_comm. apply Hq. lia.
      * rewrite <- He. unfold retryable in Hr. by destruct (recover_active _ _ _) as [|[]].
      * destruct Hs as [->|Hs]; [by left|by right].
    + exists 0%nat. rewrite Nat.add_0_r. split_and!; [lia|lia| |by right].
      unfold retryable in Hr. by destruct (recover_active _ _ _) as [|[]].
Qed.

(** Does a cosigner's probe report holding a shard of [pk]. *)
Definition holds_key (probe : u8 -> Url -> reply) (pk : PubkeySec1) (c : u8 * Url) : bool :=
  match fetch_signer (probe (fst c) (snd c)) with
  | Ok (Some pk') => bool_decide (pk' = pk)
  | _ => false
  end.

Lemma somes_cons probe c cs :
  somes_of (reports_at probe (c :: cs)) =
  match fetch_signer (probe (fst c) (snd c)) with Ok (Some pk) => [(fst c, pk)] | _ => [] end
  ++ somes_of (reports_at probe cs).
Proof.
  unfold reports_at, reports_of, somes_of. cbn [fmap list_fmap mbind list_bind snd fst].
  by destruct (fetch_signer _) as [[]|].
Qed.

Lemma somes_holders probe pk cs :
  Forall (fun x => snd x = pk) (somes_of (reports_at probe cs)) ->
  length (somes_of (reports_at probe cs)) = length (filter (fun c => holds_key probe pk c = true) cs).
Proof.
  induction cs as [|c cs IH]; [done|]. rewrite somes_cons.
  destruct (fetch_signer _) as [[pk'|]|] eqn:E; cbn [app].
  - intros [Hpk Hf]%Forall_cons. simpl in Hpk. subst pk'.
    rewrite filter_cons_True by (unfold holds_key; rewrite E; by apply bool_decide_eq_true).
    cbn [length]. f_equal. by apply IH.
  - rewrite filter_cons_False by (unfold holds_key; by rewrite E). exact IH.
  - rewrite filter_cons_False by (unfold holds_key; by rewrite E). exact IH.
Qed.

Lemma somes_says probe cs c pk :
  c ∈ cs -> fetch_signer (probe (fst c) (snd c)) = Ok (Some pk) ->
  (fst c, pk) ∈ somes_of (reports_at probe cs).
Proof.
  intros Hin Hf. apply somes_elem. unfold reports_at, reports_of. apply list_elem_of_bind.
  exists (fst c, fetch_signer (probe (fst c) (snd c))). cbn [fst snd]. rewrite Hf. split.
  - by apply list_elem_of_singleton.
  - apply list_elem_of_fmap. exists c. by rewrite Hf.
Qed.

(** When whoever answers holds [pk], and a quorum answers, [pk] is recovered. *)
Lemma recover_agreeing probe cs t pk :
  (0 < t)%N ->
  Forall (fun c => (exists e, fetch_signer (probe (fst c) (snd c)) = Err e) \/
                   fetch_signer (probe (fst c) (snd c)) = Ok (Some pk)) cs ->
  (t <= N.of_nat (length (filter (fun c => holds_key probe pk c = true) cs)))%N ->
  recover_active probe cs t = Ok (Some pk).
Proof.
  intros Ht Hall Hlen.
  assert (reports_at probe cs = (fun x => (fst x, Some (snd x))) <$> somes_of (reports_at probe cs) /\
          Forall (fun x => snd x = pk) (somes_of (reports_at probe cs))) as [Hrep Hf].
  { clear Hlen. induction Hall as [|c cs Hc _ [IH1 IH2]]; [done|]. rewrite somes_cons.
    unfold reports_at, reports_of in *. cbn [fmap list_fmap mbind list_bind snd fst].
    destruct Hc as [[e ->]| ->]; cbn [app]; [done|]. rewrite fmap_cons, <- IH1. split; [done|by constructor]. }
  rewrite <- (somes_holders _ _ _ Hf) in Hlen. unfold recover_active.
  change (reports_of _) with (reports_at probe cs).
  assert (length (reports_at probe cs) = length (somes_of (reports_at probe cs))) as Hr
    by (rewrite Hrep at 1; apply length_fmap).
  rewrite Hr, (proj2 (N.ltb_ge _ _) Hlen).
  destruct (somes_of (reports_at probe cs)) as [|[p0 c0] l]; [simpl in Hlen; lia|].
  assert (c0 = pk) as -> by (by apply Forall_cons in Hf as [? _]).
  rewrite (proj2 (N.ltb_ge _ _) Hlen), (proj2 (existsb_agree _ _) Hf). done.
Qed.

(** C14: an orchestrator that starts has a quorum behind its key.  Its backend
    has distinct https cosigners and a threshold within 2 and their number; and
    at some attempt, at most the tenth, all earlier ones having failed for want
    of answers: if it starts with a key, at least [t] distinct cosigners
    reported holding a shard of that key and none reported another; if it
    starts without one, at least [t] answered and none reported any key. *)
Theorem start_has_quorum b backend active :
  start b = Ok (backend, active) ->
  valid_backend backend /\
  exists k, (k <= 9)%nat /\
    (forall j, (j < k)%nat ->
       retryable (recover_active (signer_probe b j) (cosigners backend) (threshold backend)) = true) /\
    let probe := signer_probe b k in
    let says c x := fetch_signer (probe (fst c) (snd c)) = Ok x in
    (threshold backend <= N.of_nat (length (reports_at probe (cosigners backend))))%N /\
    match active with
    | Some pk => exists holders, sublist holders (cosigners backend) /\ NoDup holders.*1 /\
        (threshold backend <= N.of_nat (length holders))%N /\
        Forall (fun c => says c (Some pk)) holders /\
        forall c pk', c ∈ cosigners backend -> says c (Some pk') -> pk' = pk
    | None => forall c pk', c ∈ cosigners backend -> ~ says c (Some pk')
    end.
Proof.
  unfold start. intros (cfg & _ & H1)%rbind_Ok. apply rbind_Ok in H1 as ([] & _ & H1).
  apply rbind_Ok in H1 as (cs & _ & H1). apply rbind_Ok in H1 as ([] & _ & H1).
  apply rbind_Ok in H1 as ([] & _ & H1). apply rbind_Ok in H1 as (be & Hbe & H1).
  apply rbind_Ok in H1 as ([] & _ & H1). apply rbind_Ok in H1 as (act & Hrec & [= -> ->]).
  apply map_err_Ok in Hbe, Hrec. apply remote_new_Ok in Hbe as (-> & Hv & _).
  split; [done|]. cbn [cosigners threshold]. destruct Hv as (_ & Hnd & Ht & _). simpl in Hnd, Ht.
  destruct (retry_spec 9 0 (signer_probe b) cs (wval (cfg_threshold cfg))) as (k & Hk & Hq & He & _).
  unfold recover_with_retry in Hrec. rewrite He in Hrec. simpl in Hq, Hrec.
  exists k. split; [done|]. split; [done|].
  pose proof (recover_quorum (signer_probe b k) cs (wval (cfg_threshold cfg)) active) as Hx.
  specialize (Hx ltac:(lia) Hrec) as [Hen Hx]. split; [done|]. destruct active as [pk|].
  - destruct Hx as [Hl Hf]. exists (filter (fun c => holds_key (signer_probe b k) pk c = true) cs).
    pose proof (sublist_filter (fun c => holds_key (signer_probe b k) pk c = true) cs) as Hsub.
    split_and!; [done| | | |].
    + eapply sublist_NoDup; [|by apply fmap_sublist]. done.
    + by rewrite <- somes_holders.
    + apply Forall_forall. intros c [Hc _]%list_elem_of_filter. unfold holds_key in Hc.
      destruct (fetch_signer _) as [[pk'|]|]; [|done|done]. by apply bool_decide_eq_true in Hc as ->.
    + intros c pk' Hin Hs. rewrite Forall_forall in Hf. by apply (Hf _ (somes_says _ _ _ _ Hin Hs)).
  - intros c pk' Hin Hs. pose proof (somes_says _ _ _ _ Hin Hs) as Hm. apply somes_elem in Hm.
    rewrite Forall_forall in Hx. by apply Hx in Hm.
Qed.
End OrchestratorProperties.

(** ** The cosigner list, rendered *)
Definition render_pair (e : CosignerEntry) : string :=
  String.append (show_u8 (entry_id e)) (String "="%char (entry_url e)).
Fixpoint render (es : list CosignerEntry) : string :=
  match es with
  | [] => EmptyString
  | [e] => render_pair e
  | e :: es => String.append (render_pair e) (String ","%char (render es))
  end.

(** A URL the list format can carry: no comma, no white space at its ends. *)
Definition plain_url (u : string) : Prop :=
  has_char ","%char u = false /\ trimmed (list_ascii_of_string u).

Lemma parse_render_pair e : plain_url (entry_url e) -> parse_pair (render_pair e) = Ok e.
Proof.
  intros [_ Hu]. destruct (show_u8_spec (entry_id e)) as (Hp & Heq & _ & c & l & Hl & Hv).
  assert (trim (show_u8 (entry_id e)) = show_u8 (entry_id e)) as Hid.
  { apply trim_trimmed. rewrite Hl. by apply visible_trimmed. }
  assert (trim (render_pair e) = render_pair e) as Hpair.
  { apply trim_trimmed. unfold render_pair. rewrite list_ascii_app. simpl.
    apply trimmed_mid; [vm_compute; reflexivity| |apply Hu]. rewrite Hl. by apply visible_trimmed. }
  unfold parse_pair. rewrite Hpair. unfold render_pair. rewrite split_once_app by done. cbn [ok_or rbind].
  rewrite Hid, Hp. cbn [map_err rbind]. rewrite trim_trimmed by done. by destruct e.
Qed.

Lemma render_pair_no_comma e : plain_url (entry_url e) -> has_char ","%char (render_pair e) = false.
Proof.
  intros [Hu _]. destruct (show_u8_spec (entry_id e)) as (_ & _ & Hc & _).
  unfold render_pair. rewrite has_char_app, Hc. exact Hu.
Qed.

(** The cosigner list survives the environment variable.  Any non-empty
    list of cosigners, whatever the ids (even repeated or out of order), is
    read back from its [id=url,...] form exactly, in the same preference
    order; only URLs holding a comma or ending in white space cannot be
    carried. *)
Theorem cosigner_urls_roundtrip es :
  es <> [] -> Forall (fun e => plain_url (entry_url e)) es ->
  parse_cosigner_urls (render es) = Ok es.
Proof.
  intros Hne Hf. unfold parse_cosigner_urls. apply collect_Ok.
  induction es as [|e es IH]; [done|]. apply Forall_cons in Hf as [He Hf].
  pose proof (render_pair_no_comma e He) as Hc. destruct es as [|e' es].
  - cbn [render]. rewrite split_on_none by done. rewrite list_fmap_singleton. change (String.append EmptyString (render_pair e)) with (render_pair e).
    by rewrite parse_render_pair.
  - change (render (e :: e' :: es)) with (String.append (render_pair e) (String ","%char (render (e' :: es)))).
    rewrite split_on_app by done. rewrite fmap_cons.
    change (String.append EmptyString (render_pair e)) with (render_pair e). rewrite parse_render_pair, IH by done. reflexivity.
Qed.

(** ** Witnesses: a 2-of-3 fleet whose first cosigner never answers, and that
    needs a second attempt. *)
Definition demo_entries : list CosignerEntry :=
  [MkEntry (wmod 8 2) "https://c:4102"; MkEntry (wmod 8 0) "https://a:4100"; MkEntry (wmod 8 1) "https://b:4101"].

Lemma cosigner_urls_roundtrip_witness :
  render demo_entries = "2=https://c:4102,0=https://a:4100,1=https://b:4101" /\
  parse_cosigner_urls "2=https://c:4102,0=https://a:4100,1=https://b:4101" = Ok demo_entries.
Proof.
  split; [vm_compute; reflexivity|].
  refine (cosigner_urls_roundtrip demo_entries _ _); [discriminate|].
  repeat (apply Forall_cons; split; [split; [vm_compute; reflexivity|split; vm_compute; reflexivity]|]).
  apply Forall_nil; exact I.
Defined.

Definition demo_config : Config :=
  MkConfig "http://rpc" default_bind_addr demo_entries default_threshold default_relay_bind "ca" "crt" "key".
Definition demo_pk_text : string := "0x02aaaaaaaaaaaaaaaaaaaaaaaaaaaaaaaaaaaaaaaaaaaaaaaaaaaaaaaaaaaaaaaa".
Definition demo_signers (k : nat) (p : u8) (u : Url) : reply :=
  if N.eqb (wval p) 0 then SendFailed "connection refused"
  else match k with
       | O => SendFailed "timed out"
       | S _ => Reply 200 (Some demo_pk_text)
       end.
Definition demo_boot : boot :=
  MkBoot (Ok demo_config) None (fun _ => Ok tt) (fun u => Some (MkUrl "https" u)) (fun _ => Ok tt)
    (Ok tt) (Ok tt) (Ok tt) demo_signers.
Definition demo_active : option PubkeySec1 :=
  match pk_from_str demo_pk_text with Ok pk => Some pk | Err _ => None end.
Definition demo_cosigners : list (u8 * Url) :=
  (fun e => (entry_id e, MkUrl "https" (entry_url e))) <$> demo_entries.

Lemma start_has_quorum_witness :
  start demo_boot = Ok (MkRemote demo_cosigners 2, demo_active) /\
  valid_backend (MkRemote demo_cosigners 2).
Proof.
  assert (start demo_boot = Ok (MkRemote demo_cosigners 2, demo_active)) as E by (vm_compute; reflexivity).
  split; [exact E|]. exact (proj1 (start_has_quorum demo_boot _ _ E)).
Defined.

Lemma recover_active_exact_witness :
  recover_active (demo_signers 1) demo_cosigners 2 = Ok demo_active /\
  recover_active (demo_signers 1) demo_cosigners 3 <> Ok None.
Proof.
  split; [vm_compute; reflexivity|]. intros E.
  refine (let '(conj _ (conj H _)) := recover_active_exact (demo_signers 1) demo_cosigners 3 eq_refl in _).
  apply H in E as [E _]. vm_compute in E. exact (E eq_refl).
Defined.
