(* ===== verification/Api.v ===== *)
(** * The orchestrator's API ([crates/sovra-api]: [api.rs], [errors.rs], [state.rs])

    The public handlers.  Those that change the signer cell or run a
    ceremony ([/v1/dkg], [/v1/recover], [/v1/sign]) run concurrently over
    shared memory, so they are a transition system: one task per request,
    one step per access to the cell or to the operation lock, the backend's
    answers, and requests whose client hangs up, interleaved in any order.
    The handlers that only read ([/v1/prepare], [/v1/broadcast],
    [GET /v1/dkg]) are functions of what they read. *)

From S2P Require Import Prelude Types Mpc State Network Eth.
From Stdlib Require Import String NArith Lia.
From stdpp Require Import base decidable list gmap strings.
Open Scope string_scope. Open Scope list_scope.

(** ** Responses *)
(* src api/api.rs:263-270 SignatureParts *)
Record SignatureParts : Type := MkSigParts { sig_r : U256; sig_s : U256; sig_y_parity : bool }.
(* src api/api.rs:272-285 SignResponse *)
Record SignResponse : Type := MkSignResponse {
  sr_network : NetworkId;
  signed_transaction : bytes;
  sr_signatures : list SignatureParts;
  signer_address : string;
  sr_digest : B256;
}.
(* src api/api.rs:365-373 DkgResponse *)
Record DkgResponse : Type := MkDkgResponse {
  dr_public_key : PubkeySec1;
  addresses : list (NetworkId * string);     (* a BTreeMap, by key *)
}.
(* src api/api.rs:253-261 PrepareResponse *)
Record PrepareResponse : Type := MkPrepareResponse {
  pr_from : Address; pr_unsigned : bytes; pr_digest : B256 }.
(* src api/api.rs:412-417 BroadcastStatus *)
Inductive BroadcastStatus : Type := StConfirmed | StPending.
(* src api/api.rs:419-432 BroadcastResponse *)
Record BroadcastResponse : Type := MkBroadcastResponse {
  br_tx_hash : B256;
  br_status : BroadcastStatus;
  br_block_number : option u64;
  br_gas_used : option u64;
  br_execution_success : option bool;
}.

(* src api/api.rs:266-270 SignatureParts *)
Definition sig_parts_of (p : EcdsaParts) : SignatureParts := MkSigParts (r p) (s p) (y_parity p).

(** ** Errors *)
(* src api/errors.rs:23-67 ApiError *)
Inductive ApiError : Type :=
  | Prepare (e : PrepareError)
  | InvalidTxBytes (e : DecodeError)
  | Tx (e : TxError)
  | DkgAlreadyInitialized
  | DkgNotInitialized
  | DkgNotFound
  | SigningInProgress
  | Mpc (e : MpcError)
  | State (e : StateError)
  | Finalize (e : FinalizeError)
  | Pubkey (e : PubkeyError)
  | Broadcast (e : BroadcastError)
  | BroadcastSignerMismatch (recovered active : Address).

Definition hex_of (a : Address) : frag := Hex (wval <$> arr a).

(* src api/errors.rs:23-67 <ApiError as Display>::fmt *)
Definition show_error (e : ApiError) : msg :=
  match e with
  | Prepare e => prepare_msg e
  | InvalidTxBytes e => Lit "invalid transaction bytes: " :: decode_msg e
  | Tx e => tx_error_text e
  | DkgAlreadyInitialized => [Lit "dkg already initialized"]
  | DkgNotInitialized => [Lit "dkg not initialized"]
  | DkgNotFound => [Lit "no active dkg generation"]
  | SigningInProgress => [Lit "another signing operation is in progress"]
  | Mpc e => mpc_error_text e
  | State e => state_error_text e
  | Finalize e => finalize_msg e
  | Pubkey e => pubkey_msg e
  | Broadcast e => broadcast_msg e
  | BroadcastSignerMismatch recovered active =>
      [Lit "signed transaction recovers to "; hex_of recovered; Lit ", active signer is "; hex_of active]
  end.

(* src api/errors.rs:71-132 <ApiError as IntoResponse>::into_response *)
Definition status_message (e : ApiError) : N * msg :=
  match e with
  | Prepare (Enrich _) => (502%N, [Lit "rpc enrichment failed"])
  | Prepare _ | InvalidTxBytes _ | Tx (TxDecode _ | TxValidate _) => (400%N, show_error e)
  | Tx (TxFinalize _) => (500%N, [Lit "signature verification failed"])
  | Tx (TxPubkey _) => (500%N, [Lit "active public key is invalid"])
  | DkgAlreadyInitialized | DkgNotInitialized | SigningInProgress => (409%N, show_error e)
  | DkgNotFound => (404%N, show_error e)
  | Mpc Deserialize | State _ => (500%N, [Lit "internal storage error"])
  | Mpc (PartyMismatch _) => (500%N, [Lit "cosigner cross-check failed"])
  | Mpc (Mpc.Rejected _) => (403%N, [Lit "policy denied"])
  | Mpc _ => (502%N, [Lit "mpc protocol failed"])
  | Finalize _ => (500%N, [Lit "signature verification failed"])
  | Pubkey _ => (500%N, [Lit "active public key is invalid"])
  | Broadcast (Rejected _) | BroadcastSignerMismatch _ _ => (400%N, show_error e)
  | Broadcast (Rpc _) => (502%N, [Lit "rpc broadcast failed"])
  | Broadcast (HashMismatch _ _) => (500%N, [Lit "broadcast verification failed"])
  end.

(** The JSON body: the message, and a veto list for a policy refusal. *)
Record ErrorBody : Type := MkErrorBody { body_error : msg; body_vetoes : option (list Veto) }.

(* src api/errors.rs:69-152 <ApiError as IntoResponse>::into_response *)
Definition into_response (e : ApiError) : N * ErrorBody :=
  let (status, message) := status_message e in
  (status, MkErrorBody message match e with Mpc (Mpc.Rejected vetoes) => Some vetoes | _ => None end).

Definition tx_err {A} (x : result TxError A) : result ApiError A := map_err Tx x.

(** ** Handlers that only read *)
Section Readers.
Context {Al : Alloy}.

(* src api/api.rs:375-388 DkgResponse::new *)
Definition dkg_response (public_key : PubkeySec1) : result ApiError DkgResponse :=
  let? a := map_err Pubkey (address_from_sec1 public_key) in
  Ok (MkDkgResponse public_key [(Ethereum, display_address a)]).

(* src api/api.rs:136-143 dkg_get *)
Definition dkg_get (active : option PubkeySec1) : result ApiError DkgResponse :=
  let? public_key := ok_or DkgNotFound active in dkg_response public_key.

(* src api/api.rs:227-251 PrepareRequest *)
Record PrepareRequest : Type := MkPrepareRequest {
  p_network : NetworkId; p_to : option Address; p_value : U256; p_data : bytes;
  p_tx_type : EthTxType; p_access_list : AccessList }.

(* src api/api.rs:33-69 prepare *)
Definition prepare (active : option PubkeySec1) (body : PrepareRequest) (p : Provider)
  : result ApiError PrepareResponse :=
  let 'Ethereum := p_network body in
  let? active := ok_or DkgNotInitialized active in
  let? from := map_err Pubkey (address_from_sec1 active) in
  let q := MkTxRequest (p_to body) (p_value body) (p_data body) (p_tx_type body) (p_access_list body) in
  let? prepared := map_err Prepare (prepare_from_rpc_impl q from p) in
  Ok (MkPrepareResponse from (encode_unsigned (ptx prepared)) (signing_hash prepared)).

(** What a receipt says. *)
Record Receipt : Type := MkReceipt { block_number : option u64; gas_used : u64; receipt_status : bool }.

(* src api/api.rs:400-410 BroadcastRequest *)
Record BroadcastRequest : Type := MkBroadcastRequest { b_network : NetworkId; b_signed : bytes }.

(** [submit] sends raw bytes to the node; [receipt], [late] and [fuel] are
    the polling's. *)
(* src api/api.rs:287-363 broadcast *)
Definition broadcast (fuel : nat) (active : option PubkeySec1) (body : BroadcastRequest)
    (submit : bytes -> submit) (receipt : nat -> result string (option Receipt)) (late : nat -> bool)
  : option (result ApiError (N * BroadcastResponse)) :=
  let 'Ethereum := b_network body in
  match ok_or DkgNotInitialized active with
  | Err e => Some (Err e)
  | Ok active =>
      match map_err InvalidTxBytes (decode_signed (b_signed body)) with
      | Err e => Some (Err e)
      | Ok decoded =>
          match map_err Pubkey (address_from_sec1 active) with
          | Err e => Some (Err e)
          | Ok active =>
              if negb (bool_decide (stx_from decoded = active)) then
                Some (Err (BroadcastSignerMismatch (stx_from decoded) active))
              else
                outcome ← broadcast_via_rpc_impl receipt late fuel (submit (stx_raw decoded)) (tx_hash decoded);
                Some (rmap (fun o =>
                  match o with
                  | Confirmed rc =>
                      (200%N, MkBroadcastResponse (tx_hash decoded) StConfirmed (block_number rc)
                                (Some (gas_used rc)) (Some (receipt_status rc)))
                  | Pending => (202%N, MkBroadcastResponse (tx_hash decoded) StPending None None None)
                  end) (map_err Broadcast outcome))
          end
      end
  end.
End Readers.

(** ** The signer cell and its tasks *)
Section Cell.
Context {Al : Alloy} {N : Network}.

(** A request that takes the operation lock. *)
Inductive request : Type :=
  | PostDkg
  | PostRecover
  | PostSign (network : NetworkId) (unsigned : bytes).

Inductive response : Type :=
  | DkgOk (d : DkgResponse)
  | SignOk (s : SignResponse).

(** How a task ends: with a response, by a panic, or dropped with its
    client's connection. *)
Inductive outcome : Type :=
  | Answered (r : result ApiError response)
  | Panicked (what : string)
  | Dropped.

(** Where a task is between two accesses to shared state. *)
Inductive phase : Type :=
  | Start
  | SignReady (tx : Unsigned) (digest : B256) (a : PubkeySec1)
  | SignLocked (tx : Unsigned) (digest : B256) (a : PubkeySec1)
  | SignRunning (tx : Unsigned) (digest : B256) (a : PubkeySec1)
  | DkgLocked
  | DkgRunning
  | RecoverLocked
  | RecoverRunning (a : PubkeySec1)
  | Releasing (out : outcome)
  | Done (out : outcome).

(** What is asked of the MPC backend. *)
Inductive call : Type :=
  | CallDkg
  | CallRefresh
  | CallSign (network : NetworkId) (unsigned : bytes).

(* src api/state.rs:74-90 SignerCell *)
Record api : Type := MkApi {
  active : option PubkeySec1;
  signed : gmap B256 SignResponse;
  op : bool;
  tasks : gmap nat (request * phase);
  calls : list (nat * call);
}.

(* src api/state.rs:58-73 AppState::new *)
Definition api_new (a : option PubkeySec1) : api := MkApi a ∅ false ∅ [].

Definition set_phase (id : nat) (rq : request) (p : phase) (h : api) : api :=
  MkApi (active h) (signed h) (op h) (<[id := (rq, p)]> (tasks h)) (calls h).
Definition set_op (b : bool) (h : api) : api := MkApi (active h) (signed h) b (tasks h) (calls h).
Definition set_active (pk : PubkeySec1) (h : api) : api :=
  MkApi (Some pk) (signed h) (op h) (tasks h) (calls h).
Definition cache (d : B256) (r : SignResponse) (h : api) : api :=
  MkApi (active h) (<[d := r]> (signed h)) (op h) (tasks h) (calls h).
Definition ask (id : nat) (c : call) (h : api) : api :=
  MkApi (active h) (signed h) (op h) (tasks h) (calls h ++ [(id, c)]).

Definition failed (e : ApiError) : outcome := Answered (Err e).

(** [state.signer.op.try_lock()]: busy is an answer, never a wait. *)
Definition try_lock (id : nat) (rq : request) (locked : phase) (h : api) : api :=
  if op h then set_phase id rq (Done (failed SigningInProgress)) h
  else set_phase id rq locked (set_op true h).

(** Decoding, validation and the digests. *)
(* src api/api.rs:163-166 sign_via *)
Definition vet_tx (unsigned : bytes) : result ApiError (Unsigned * list B256) :=
  let? tx := tx_err (Network.decode_unsigned unsigned) in
  let? _ := tx_err (validate tx) in
  Ok (tx, signing_digests tx).

(** The first access: the cache, then the active key. *)
(* src api/api.rs:159-179 sign_via *)
Definition sign_enter (unsigned : bytes) (h : api) : phase :=
  match vet_tx unsigned with
  | Err e => Done (failed e)
  | Ok (tx, digests) =>
      match digests with
      | [] => Done (Panicked "digests[0]")
      | tx_digest :: _ =>
          match signed h !! tx_digest with
          | Some cached => Done (Answered (Ok (SignOk cached)))
          | None =>
              match ok_or DkgNotInitialized (active h) with
              | Err e => Done (failed e)
              | Ok a => SignReady tx tx_digest a
              end
          end
      end
  end.

(** The verified response of a finished protocol run. *)
(* src api/api.rs:195-214 sign_via *)
Definition sign_response (tx : Unsigned) (digest : B256) (a : PubkeySec1)
    (backend : result MpcError (list EcdsaParts)) : result ApiError SignResponse :=
  let? parts := map_err Mpc backend in
  let? signed := tx_err (finalize tx parts a) in
  let? addr := tx_err (derive_address a) in
  Ok (MkSignResponse ID (raw signed) (sig_parts_of <$> parts) addr digest).

(* src api/api.rs:159-225 sign_via *)
Definition sign_step (id : nat) (rq : request) (unsigned : bytes) (p : phase) (h : api) : api :=
  match p with
  | Start => set_phase id rq (sign_enter unsigned h) h
  | SignReady tx d a => try_lock id rq (SignLocked tx d a) h
  | SignLocked tx d a =>
      match signed h !! d with
      | Some cached => set_phase id rq (Releasing (Answered (Ok (SignOk cached)))) h
      | None => set_phase id rq (SignRunning tx d a) (ask id (CallSign ID unsigned) h)
      end
  | _ => h
  end.

(* src api/api.rs:159-225 sign_via *)
Definition sign_finish (id : nat) (rq : request) (tx : Unsigned) (d : B256) (a : PubkeySec1)
    (backend : result MpcError (list EcdsaParts)) (h : api) : api :=
  match sign_response tx d a backend with
  | Err e => set_phase id rq (Releasing (failed e)) h
  | Ok resp => set_phase id rq (Releasing (Answered (Ok (SignOk resp)))) (cache d resp h)
  end.

(* src api/api.rs:79-98 dkg_create *)
Definition dkg_step (id : nat) (rq : request) (p : phase) (h : api) : api :=
  match p with
  | Start => try_lock id rq DkgLocked h
  | DkgLocked =>
      match active h with
      | Some _ => set_phase id rq (Releasing (failed DkgAlreadyInitialized)) h
      | None => set_phase id rq DkgRunning (ask id CallDkg h)
      end
  | _ => h
  end.
(* src api/api.rs:93-97 dkg_create *)
Definition dkg_finish (id : nat) (rq : request) (backend : result MpcError PubkeySec1) (h : api) : api :=
  match map_err Mpc backend with
  | Err e => set_phase id rq (Releasing (failed e)) h
  | Ok public_key =>
      set_phase id rq (Releasing (Answered (rmap DkgOk (dkg_response public_key)))) (set_active public_key h)
  end.

Definition show_key (pk : PubkeySec1) : frag := Hex (wval <$> arr (pk_bytes pk)).

(* src api/api.rs:107-123 recover *)
Definition recover_step (id : nat) (rq : request) (p : phase) (h : api) : api :=
  match p with
  | Start => try_lock id rq RecoverLocked h
  | RecoverLocked =>
      match ok_or DkgNotInitialized (active h) with
      | Err e => set_phase id rq (Releasing (failed e)) h
      | Ok a => set_phase id rq (RecoverRunning a) (ask id CallRefresh h)
      end
  | _ => h
  end.
(* src api/api.rs:125-134 recover *)
Definition recover_finish (id : nat) (rq : request) (a : PubkeySec1)
    (backend : result MpcError PubkeySec1) (h : api) : api :=
  let out :=
    let? public_key := map_err Mpc backend in
    if negb (bool_decide (public_key = a)) then
      Err (Mpc (PartyMismatch [Lit "refresh returned "; show_key public_key;
                               Lit ", active generation is "; show_key a]))
    else rmap DkgOk (dkg_response public_key) in
  set_phase id rq (Releasing (Answered out)) h.

(** Does this phase own the lock's guard. *)
Definition holding (p : phase) : bool :=
  match p with
  | SignLocked _ _ _ | SignRunning _ _ _ | DkgLocked | DkgRunning | RecoverLocked | RecoverRunning _
  | Releasing _ => true
  | Start | SignReady _ _ _ | Done _ => false
  end.

(** A future is only dropped where it awaits: before its first poll, and
    while the backend runs. *)
Definition suspended (p : phase) : bool :=
  match p with
  | Start | SignRunning _ _ _ | DkgRunning | RecoverRunning _ => true
  | _ => false
  end.

Inductive event : Type :=
  | Arrive (id : nat) (rq : request)
  | Step (id : nat)
  | BackendKey (id : nat) (r : result MpcError PubkeySec1)
  | BackendSigs (id : nat) (r : result MpcError (list EcdsaParts))
  | HangUp (id : nat).

(** One step of one task; an event that does not apply changes nothing. *)
(* src api/api.rs:144-157 sign *)
Definition task_step (id : nat) (rq : request) (p : phase) (h : api) : api :=
  match p with
  | Done _ => h
  | Releasing out => set_phase id rq (Done out) (set_op false h)
  | _ => match rq with
         | PostDkg => dkg_step id rq p h
         | PostRecover => recover_step id rq p h
         | PostSign Ethereum unsigned => sign_step id rq unsigned p h
         end
  end.

Definition api_step (h : api) (e : event) : api :=
  match e with
  | Arrive id rq => match tasks h !! id with None => set_phase id rq Start h | Some _ => h end
  | Step id => match tasks h !! id with Some (rq, p) => task_step id rq p h | None => h end
  | BackendKey id r =>
      match tasks h !! id with
      | Some (rq, DkgRunning) => dkg_finish id rq r h
      | Some (rq, RecoverRunning a) => recover_finish id rq a r h
      | _ => h
      end
  | BackendSigs id r =>
      match tasks h !! id with
      | Some (rq, SignRunning tx d a) => sign_finish id rq tx d a r h
      | _ => h
      end
  | HangUp id =>
      match tasks h !! id with
      | None => h
      | Some (rq, p) =>
          if suspended p then set_phase id rq (Done Dropped) (if holding p then set_op false h else h)
          else h
      end
  end.
Definition api_run (h : api) (es : list event) : api := foldl api_step h es.

Inductive reachable (a0 : option PubkeySec1) : api -> Prop :=
  | reach_new : reachable a0 (api_new a0)
  | reach_step h e : reachable a0 h -> reachable a0 (api_step h e).
End Cell.

(** ** The invariant of the cell *)
Section Invariant.
Context {Al : Alloy} {N : Network}.

(** The request's bytes decode to a valid transaction whose first digest is [d]. *)
Definition asks_for (rq : request) (tx : Unsigned) (d : B256) : Prop :=
  exists net u ds, rq = PostSign net u /\ Network.decode_unsigned u = Ok tx /\ validate tx = Ok tt /\
    signing_digests tx = d :: ds.

(** A response the network's own verification produced under key [a]. *)
Definition verified (a : PubkeySec1) (d : B256) (resp : SignResponse) : Prop :=
  exists tx ds parts out, signing_digests tx = d :: ds /\ finalize tx parts a = Ok out /\
    derive_address a = Ok (signer_address resp) /\ sr_network resp = ID /\
    signed_transaction resp = raw out /\ sr_signatures resp = sig_parts_of <$> parts /\ sr_digest resp = d.

Definition out_ok (a : option PubkeySec1) (m : gmap B256 SignResponse) (rq : request) (out : outcome) : Prop :=
  match out with
  | Answered (Ok (SignOk resp)) => exists tx d, asks_for rq tx d /\ m !! d = Some resp
  | Answered (Ok (DkgOk resp)) => a = Some (dr_public_key resp)
  | Panicked _ => exists tx, signing_digests tx = []
  | _ => True
  end.

Definition phase_ok (a : option PubkeySec1) (m : gmap B256 SignResponse) (rq : request) (p : phase) : Prop :=
  match p with
  | Start => True
  | SignReady tx d k | SignLocked tx d k => asks_for rq tx d /\ a = Some k
  | SignRunning tx d k => asks_for rq tx d /\ a = Some k /\ m !! d = None
  | DkgLocked => rq = PostDkg
  | DkgRunning => rq = PostDkg /\ a = None
  | RecoverLocked => rq = PostRecover
  | RecoverRunning k => rq = PostRecover /\ a = Some k
  | Releasing out | Done out => out_ok a m rq out
  end.

Record inv (h : api) : Prop := {
  inv_op : op h = true <-> exists id rq p, tasks h !! id = Some (rq, p) /\ holding p = true;
  inv_unique : forall id1 id2 rq1 rq2 p1 p2,
    tasks h !! id1 = Some (rq1, p1) -> tasks h !! id2 = Some (rq2, p2) ->
    holding p1 = true -> holding p2 = true -> id1 = id2;
  inv_tasks : forall id rq p, tasks h !! id = Some (rq, p) -> phase_ok (active h) (signed h) rq p;
  inv_cache : forall d resp, signed h !! d = Some resp -> exists a, active h = Some a /\ verified a d resp;
}.

(** Keys are set once and cached responses never change. *)
Definition extends (h h' : api) : Prop :=
  (forall a, active h = Some a -> active h' = Some a) /\
  (forall d resp, signed h !! d = Some resp -> signed h' !! d = Some resp).

Lemma out_ok_extends h h' rq out :
  extends h h' -> out_ok (active h) (signed h) rq out -> out_ok (active h') (signed h') rq out.
Proof.
  intros [Ha Hm]. destruct out as [[[d|resp]|e]|w|]; simpl; auto.
  intros (tx & d & Hr & Hl). exists tx, d. auto.
Qed.

(** Only the lock's holder changes the cell, and other tasks rely on nothing
    it can change. *)
Lemma phase_ok_extends h h' rq p :
  extends h h' -> holding p = false ->
  phase_ok (active h) (signed h) rq p -> phase_ok (active h') (signed h') rq p.
Proof.
  intros He. destruct p; simpl; try done.
  - intros _ [? ?]. split; [done|by apply He].
  - intros _. by apply out_ok_extends.
Qed.

Lemma inv_new a0 : inv (api_new a0).
Proof.
  constructor; simpl.
  - split; [done|]. by intros (id & rq & p & H & _).
  - intros * H. by rewrite lookup_empty in H.
  - intros * H. by rewrite lookup_empty in H.
  - intros * H. by rewrite lookup_empty in H.
Qed.

(** One task moving from [p] to [p']. *)
Lemma inv_move h h' id rq p p' :
  inv h -> tasks h !! id = Some (rq, p) -> tasks h' = <[id := (rq, p')]> (tasks h) ->
  (holding p = true \/ active h' = active h /\ signed h' = signed h) -> extends h h' ->
  op h' = (if holding p then holding p' else op h || holding p') ->
  (holding p = false -> holding p' = true -> op h = false) ->
  phase_ok (active h') (signed h') rq p' ->
  (forall d resp, signed h' !! d = Some resp -> exists a, active h' = Some a /\ verified a d resp) ->
  inv h'.
Proof.
  intros [Hop Hun Hts Hc] Hid Htasks Hch Hext Hop' Hnew Hok Hc'.
  assert (forall id2 rq2 p2, tasks h' !! id2 = Some (rq2, p2) ->
            (id2 = id /\ rq2 = rq /\ p2 = p') \/ (id2 <> id /\ tasks h !! id2 = Some (rq2, p2))) as Hlk.
  { intros id2 rq2 p2 H. rewrite Htasks in H. apply lookup_insert_Some in H as [[-> [= -> ->]]|[? ?]]; auto. }
  assert (holding p' = true -> forall id2 rq2 p2, id2 <> id -> tasks h !! id2 = Some (rq2, p2) ->
            holding p2 = false) as Hothers.
  { intros Hp' id2 rq2 p2 Hne H2. destruct (holding p2) eqn:Hh2; [|done]. exfalso.
    destruct (holding p) eqn:Hp; [by apply Hne, (Hun id2 id rq2 rq p2 p)|].
    rewrite (proj2 Hop) in Hnew by eauto. naive_solver. }
  constructor.
  - rewrite Hop'. split.
    + intros H. destruct (holding p') eqn:Hp'.
      * exists id, rq, p'. rewrite Htasks, lookup_insert_eq. done.
      * destruct (holding p) eqn:Hp; [done|]. rewrite orb_false_r in H.
        apply Hop in H as (id2 & rq2 & p2 & H2 & Hh2). exists id2, rq2, p2.
        rewrite Htasks, lookup_insert_ne; [done|]. intros ->. congruence.
    + intros (id2 & rq2 & p2 & H2 & Hh2). apply Hlk in H2 as [(-> & -> & ->)|[Hne H2]].
      * rewrite Hh2. destruct (holding p); [done|]. by rewrite orb_true_r.
      * destruct (holding p) eqn:Hp; [by destruct Hne; apply (Hun id2 id rq2 rq p2 p)|].
        rewrite (proj2 Hop) by eauto. done.
  - intros id1 id2 rq1 rq2 p1 p2 H1 H2 Hh1 Hh2.
    apply Hlk in H1 as [(-> & -> & ->)|[Hne1 H1]], H2 as [(-> & -> & ->)|[Hne2 H2]]; [done| | |eauto].
    + rewrite (Hothers Hh1 _ _ _ Hne2 H2) in Hh2. done.
    + rewrite (Hothers Hh2 _ _ _ Hne1 H1) in Hh1. done.
  - intros id2 rq2 p2 [(-> & -> & ->)|[Hne H2]]%Hlk; [done|]. destruct Hch as [Hp|[-> ->]]; [|eauto].
    apply (phase_ok_extends h); [done| |eauto]. destruct (holding p2) eqn:Hh2; [|done].
    destruct Hne. by apply (Hun id2 id rq2 rq p2 p).
  - done.
Qed.

Lemma extends_refl h h' : active h' = active h -> signed h' = signed h -> extends h h'.
Proof. intros Ha Hs. by split; intros *; rewrite ?Ha, ?Hs. Qed.
End Invariant.

Lemma holder_op `{Al : Alloy} {N : Network} h id rq p :
  inv h -> tasks h !! id = Some (rq, p) -> holding p = true -> op h = true.
Proof. intros Hinv Hid Hp. apply (inv_op h Hinv). eauto. Qed.

(** One task's move that leaves the key and the cache alone. *)
Ltac quiet_move Hinv Hid :=
  eapply inv_move; [exact Hinv|exact Hid|reflexivity|by right|by apply extends_refl
                   |simpl; try first [by rewrite ?orb_false_r, ?orb_true_r | by apply (holder_op _ _ _ _ Hinv Hid)] | simpl; try done | simpl | simpl; by apply (inv_cache _ Hinv)].

Section Steps.
Context {Al : Alloy} {N : Network}.

Lemma inv_arrive h id rq : inv h -> tasks h !! id = None -> inv (set_phase id rq Start h).
Proof.
  intros [Hop Hun Hts Hc] Hid.
  assert (forall id2 rq2 p2, tasks (set_phase id rq Start h) !! id2 = Some (rq2, p2) ->
            p2 = Start \/ tasks h !! id2 = Some (rq2, p2)) as Hlk.
  { intros id2 rq2 p2 H. simpl in H. apply lookup_insert_Some in H as [[-> [= <- <-]]|[_ ?]]; auto. }
  constructor.
  - simpl. rewrite Hop. split; intros (id2 & rq2 & p2 & H2 & Hh).
    + exists id2, rq2, p2. rewrite lookup_insert_ne; [done|]. intros ->. congruence.
    + apply Hlk in H2 as [->|H2]; [done|]. by exists id2, rq2, p2.
  - intros id1 id2 rq1 rq2 p1 p2 [->|H1]%Hlk [->|H2]%Hlk Hh1 Hh2; [done..|]. eauto.
  - intros id2 rq2 p2 [->|H2]%Hlk; [done|]. eauto.
  - done.
Qed.

Lemma inv_try_lock h id rq p locked :
  inv h -> tasks h !! id = Some (rq, p) -> holding p = false -> holding locked = true ->
  phase_ok (active h) (signed h) rq locked -> inv (try_lock id rq locked h).
Proof.
  intros Hinv Hid Hp Hl Hok. unfold try_lock. destruct (op h) eqn:Hop.
  - quiet_move Hinv Hid; [by rewrite Hp, Hop|done].
  - quiet_move Hinv Hid; [by rewrite Hp, Hop, Hl|done].
Qed.

Lemma vet_tx_Ok u tx ds :
  vet_tx u = Ok (tx, ds) <-> Network.decode_unsigned u = Ok tx /\ validate tx = Ok tt /\ ds = signing_digests tx.
Proof.
  unfold vet_tx, tx_err. rewrite rbind_Ok. setoid_rewrite rbind_Ok. setoid_rewrite map_err_Ok. split.
  - intros (tx' & Hd & [] & Hv & [= -> ->]). done.
  - intros (Hd & Hv & ->). eauto.
Qed.

Lemma sign_enter_ok h net u :
  phase_ok (active h) (signed h) (PostSign net u) (sign_enter u h) /\ holding (sign_enter u h) = false.
Proof.
  unfold sign_enter. destruct (vet_tx u) as [[tx ds]|e] eqn:Hv; [|done].
  apply vet_tx_Ok in Hv as (Hd & Hvalid & ->).
  destruct (signing_digests tx) as [|d ds] eqn:Hds; [split; [by exists tx|done]|].
  assert (asks_for (PostSign net u) tx d) as Hasks by (exists net, u, ds; done).
  destruct (signed h !! d) as [resp|] eqn:Hs; [split; [by exists tx, d|done]|].
  destruct (active h) as [a|] eqn:Ha; [|done]. simpl. split; [|done]. by rewrite ?Ha.
Qed.

Lemma sign_response_Ok tx d ds a backend resp :
  signing_digests tx = d :: ds -> sign_response tx d a backend = Ok resp -> verified a d resp.
Proof.
  intros Hds. unfold sign_response, tx_err. intros (parts & _ & H)%rbind_Ok.
  apply rbind_Ok in H as (out & Hf & H). apply rbind_Ok in H as (addr & Hd & [= <-]).
  apply map_err_Ok in Hf, Hd. exists tx, ds, parts, out. done.
Qed.

Lemma dkg_response_key pk d : dkg_response pk = Ok d -> dr_public_key d = pk.
Proof. unfold dkg_response. by intros (a & _ & [= <-])%rbind_Ok. Qed.

Lemma inv_sign_step h id u p :
  inv h -> tasks h !! id = Some (PostSign Ethereum u, p) ->
  inv (sign_step id (PostSign Ethereum u) u p h).
Proof.
  intros Hinv Hid. pose proof (inv_tasks h Hinv id _ _ Hid) as Hok. destruct p; simpl; try exact Hinv.
  - destruct (sign_enter_ok h Ethereum u) as [Hok' Hh].
    quiet_move Hinv Hid; [by rewrite Hh, orb_false_r|by rewrite Hh|done].
  - by apply (inv_try_lock _ _ _ (SignReady tx digest a)).
  - destruct Hok as [Hasks Ha]. destruct (signed h !! digest) as [cached|] eqn:Hs.
    + quiet_move Hinv Hid. by exists tx, digest.
    + quiet_move Hinv Hid. done.
Qed.

Lemma inv_sign_finish h id rq tx d a backend :
  inv h -> tasks h !! id = Some (rq, SignRunning tx d a) -> inv (sign_finish id rq tx d a backend h).
Proof.
  intros Hinv Hid. destruct (inv_tasks h Hinv id _ _ Hid) as (Hasks & Ha & Hnone). unfold sign_finish.
  destruct (sign_response tx d a backend) as [resp|e] eqn:Hr.
  2:{ quiet_move Hinv Hid. done. }
  assert (verified a d resp) as Hv.
  { destruct Hasks as (net & u & ds & _ & _ & _ & Hds). by eapply sign_response_Ok. }
  eapply inv_move; [exact Hinv|exact Hid|reflexivity|by left| |by apply (holder_op _ _ _ _ Hinv Hid)|done| |].
  - split; [done|]. intros d' resp' Hs. simpl. rewrite lookup_insert_ne; [done|]. intros <-. congruence.
  - simpl. exists tx, d. by rewrite lookup_insert_eq.
  - simpl. intros d' resp' Hs. apply lookup_insert_Some in Hs as [[<- <-]|[_ Hs]]; [by exists a|].
    by apply (inv_cache h Hinv).
Qed.

Lemma inv_dkg_step h id p :
  inv h -> tasks h !! id = Some (PostDkg, p) -> inv (dkg_step id PostDkg p h).
Proof.
  intros Hinv Hid. destruct p; simpl; try exact Hinv.
  - by apply (inv_try_lock _ _ _ Start).
  - destruct (active h) as [a|] eqn:Ha; quiet_move Hinv Hid; done.
Qed.

Lemma inv_dkg_finish h id rq backend :
  inv h -> tasks h !! id = Some (rq, DkgRunning) -> inv (dkg_finish id rq backend h).
Proof.
  intros Hinv Hid. destruct (inv_tasks h Hinv id _ _ Hid) as [-> Hnone]. unfold dkg_finish.
  destruct (map_err Mpc backend) as [pk|e]; [|quiet_move Hinv Hid; done].
  eapply inv_move; [exact Hinv|exact Hid|reflexivity|by left| |by apply (holder_op _ _ _ _ Hinv Hid)|done| |].
  - split; simpl; intros *; [rewrite Hnone; done|done].
  - simpl. destruct (dkg_response pk) as [d|e] eqn:Hd; [|done]. simpl. by rewrite (dkg_response_key _ _ Hd).
  - simpl. intros d resp Hs. apply (inv_cache h Hinv) in Hs as (a & Ha & _). congruence.
Qed.

Lemma inv_recover_step h id p :
  inv h -> tasks h !! id = Some (PostRecover, p) -> inv (recover_step id PostRecover p h).
Proof.
  intros Hinv Hid. destruct p; simpl; try exact Hinv.
  - by apply (inv_try_lock _ _ _ Start).
  - destruct (active h) as [a|] eqn:Ha; simpl; quiet_move Hinv Hid; done.
Qed.

Lemma inv_recover_finish h id rq a backend :
  inv h -> tasks h !! id = Some (rq, RecoverRunning a) -> inv (recover_finish id rq a backend h).
Proof.
  intros Hinv Hid. destruct (inv_tasks h Hinv id _ _ Hid) as [-> Ha]. unfold recover_finish.
  quiet_move Hinv Hid. destruct (map_err Mpc backend) as [pk|e]; [|done]. simpl.
  case_bool_decide as Heq; [|done]. subst pk. simpl.
  destruct (dkg_response a) as [d|e] eqn:Hd; [|done]. simpl. by rewrite (dkg_response_key _ _ Hd).
Qed.

Lemma inv_task_step h id rq p :
  inv h -> tasks h !! id = Some (rq, p) -> inv (task_step id rq p h).
Proof.
  intros Hinv Hid. pose proof (inv_tasks h Hinv id _ _ Hid) as Hok. unfold task_step. destruct p; try exact Hinv.
  all: try (destruct rq as [| |[] u];
            [by apply inv_dkg_step|by apply inv_recover_step|by apply inv_sign_step]).
  quiet_move Hinv Hid. done.
Qed.

Lemma inv_step h e : inv h -> inv (api_step h e).
Proof.
  intros Hinv. destruct e as [id rq|id|id r|id r|id]; simpl.
  - destruct (tasks h !! id) as [x|] eqn:Hid; [exact Hinv|]. by apply inv_arrive.
  - destruct (tasks h !! id) as [[rq p]|] eqn:Hid; [|exact Hinv]. by apply inv_task_step.
  - destruct (tasks h !! id) as [[rq []]|] eqn:Hid; try exact Hinv.
    + by apply inv_dkg_finish.
    + by apply inv_recover_finish.
  - destruct (tasks h !! id) as [[rq []]|] eqn:Hid; try exact Hinv. by apply inv_sign_finish.
  - destruct (tasks h !! id) as [[rq p]|] eqn:Hid; [|exact Hinv].
    destruct (suspended p) eqn:Hs; [|exact Hinv].
    destruct (holding p) eqn:Hp; quiet_move Hinv Hid; rewrite ?Hp, ?orb_false_r; done.
Qed.

Lemma step_extends h e : inv h -> extends h (api_step h e).
Proof.
  intros Hinv. assert (extends h h) as Hrefl by by apply extends_refl.
  destruct e as [id rq|id|id r|id r|id]; cbn [api_step]; destruct (tasks h !! id) as [[rq1 p]|] eqn:Hid;
    try exact Hrefl; try by apply extends_refl.
  - destruct p; try (by apply extends_refl); destruct rq1 as [| |[] u]; simpl; unfold try_lock;
      repeat match goal with |- context [match ?x with _ => _ end] => destruct x eqn:? end; by apply extends_refl.
  - destruct p; try exact Hrefl; try by apply extends_refl. unfold dkg_finish.
    destruct (map_err Mpc r) as [pk|e]; [|by apply extends_refl]. split; [|done].
    destruct (inv_tasks h Hinv _ _ _ Hid) as [_ Hn]. simpl. congruence.
  - destruct p; try exact Hrefl. unfold sign_finish.
    destruct (sign_response tx digest a r) as [resp|e]; [|by apply extends_refl]. split; [done|].
    destruct (inv_tasks h Hinv _ _ _ Hid) as (_ & _ & Hn). simpl. intros d resp' Hs.
    rewrite lookup_insert_ne; [done|]. intros <-. congruence.
  - destruct (suspended p); [|exact Hrefl]. destruct (holding p); exact Hrefl || by apply extends_refl.
Qed.

Lemma api_reachable_inv a0 h : reachable a0 h -> inv h.
Proof. induction 1; [apply inv_new|by apply inv_step]. Qed.
End Steps.

(** ** Progress of one task *)
Section Progress.
Context {Al : Alloy} {N : Network}.

Definition stage (p : phase) : nat :=
  match p with
  | Start => 0
  | SignReady _ _ _ => 1
  | SignLocked _ _ _ | DkgLocked | RecoverLocked => 2
  | SignRunning _ _ _ | DkgRunning | RecoverRunning _ => 3
  | Releasing _ => 4
  | Done _ => 5
  end.

(** The task [id] of request [rq] is at stage [k] or later. *)
Definition at_least (k : nat) (id : nat) (rq : request) (h : api) : Prop :=
  exists p, tasks h !! id = Some (rq, p) /\ (k <= stage p)%nat.

Lemma at_set_phase k id rq p h : (k <= stage p)%nat -> at_least k id rq (set_phase id rq p h).
Proof. intros Hk. exists p. simpl. by rewrite lookup_insert_eq. Qed.

Lemma at_set_phase' k id rq p h h1 :
  tasks h1 = tasks (set_phase id rq p h) -> (k <= stage p)%nat -> at_least k id rq h1.
Proof. intros Ht Hk. exists p. rewrite Ht. simpl. by rewrite lookup_insert_eq. Qed.

Lemma stage_keeps k id rq p h : tasks h !! id = Some (rq, p) -> (k <= stage p)%nat -> at_least k id rq h.
Proof. by exists p. Qed.

Lemma try_lock_stage k id rq locked h : (k <= stage locked)%nat -> (k <= 5)%nat -> at_least k id rq (try_lock id rq locked h).
Proof. intros Hl H5. unfold try_lock. destruct (op h); by apply at_set_phase. Qed.

Lemma sign_enter_stage u h : (1 <= stage (sign_enter u h))%nat.
Proof.
  unfold sign_enter. destruct (vet_tx u) as [[tx [|d ds]]|e]; simpl; try lia.
  destruct (signed h !! d); simpl; [lia|]. destruct (active h); simpl; lia.
Qed.

Definition next_stage (k : nat) : nat :=
  match k with 0 => 1 | 1 => 2 | 2 => 3 | 3 => 3 | _ => 5 end.

(** A step moves a task on, unless it waits for the backend or is over. *)
Lemma step_stage k id rq h :
  inv h -> at_least k id rq h ->
  at_least (next_stage k) id rq (api_step h (Step id)).
Proof.
  intros Hinv (p & Hid & Hk). pose proof (inv_tasks h Hinv id _ _ Hid) as Hok. simpl. rewrite Hid.
  destruct p; simpl in Hk, Hok.
  - destruct k; [|lia]. destruct rq as [| |[] u]; simpl; [apply try_lock_stage; simpl; lia..|].
    apply at_set_phase, sign_enter_stage.
  - destruct Hok as [(net & u & ds & -> & _) _]. destruct net. simpl.
    apply try_lock_stage; destruct k as [|[|[|]]]; simpl; lia.
  - destruct Hok as [(net & u & ds & -> & _) _]. destruct net. simpl.
    destruct (signed h !! digest); apply at_set_phase; destruct k as [|[|[|]]]; simpl; lia.
  - destruct Hok as [(net & u & ds & -> & _) _]. destruct net.
    eapply stage_keeps; [exact Hid|]. destruct k as [|[|[|[|]]]]; simpl; lia.
  - subst rq. simpl. destruct (active h); apply at_set_phase; destruct k as [|[|[|]]]; simpl; lia.
  - destruct Hok as [-> _]. eapply stage_keeps; [exact Hid|]. destruct k as [|[|[|[|]]]]; simpl; lia.
  - subst rq. simpl. destruct (active h); apply at_set_phase; destruct k as [|[|[|]]]; simpl; lia.
  - destruct Hok as [-> _]. eapply stage_keeps; [exact Hid|]. destruct k as [|[|[|[|]]]]; simpl; lia.
  - eapply at_set_phase'; [reflexivity|]. destruct k as [|[|[|[|]]]]; simpl; lia.
  - eapply stage_keeps; [exact Hid|]. destruct k as [|[|[|[|]]]]; simpl; lia.
Qed.

(** Once past the locks, the two possible backend answers settle it. *)
Lemma backend_stage id rq rk rs h :
  at_least 3 id rq h -> at_least 4 id rq (api_step (api_step h (BackendKey id rk)) (BackendSigs id rs)).
Proof.
  intros (p & Hid & Hk).
  assert (at_least 4 id rq (api_step h (BackendKey id rk)) \/
          (exists tx d a, api_step h (BackendKey id rk) = h /\ p = SignRunning tx d a)) as [H4|(tx & d & a & -> & ->)].
  { simpl. rewrite Hid. destruct p; simpl in Hk; try lia.
    - right. eauto.
    - left. unfold dkg_finish. destruct (map_err Mpc rk); eapply at_set_phase'; reflexivity || simpl; lia.
    - left. unfold recover_finish. apply at_set_phase. simpl; lia.
    - left. exists (Releasing out). simpl. split; [done|lia].
    - left. exists (Done out). simpl. split; [done|lia]. }
  - destruct H4 as (p4 & H4 & Hk4). revert H4. generalize (api_step h (BackendKey id rk)). intros h4 H4.
    cbn [api_step]. rewrite H4.
    destruct p4; simpl in Hk4; try lia; (eapply stage_keeps; [exact H4|simpl; lia]).
  - cbn [api_step]. rewrite Hid. unfold sign_finish.
    destruct (sign_response tx d a rs); eapply at_set_phase'; reflexivity || simpl; lia.
Qed.

Definition about (id : nat) (e : event) : Prop :=
  match e with Arrive i _ | Step i | BackendKey i _ | BackendSigs i _ | HangUp i => i = id end.

Lemma others_untouched id id2 e h :
  about id e -> id2 <> id -> tasks (api_step h e) !! id2 = tasks h !! id2.
Proof.
  assert (forall rq p h1, tasks h1 = tasks h -> id2 <> id ->
            tasks (set_phase id rq p h1) !! id2 = tasks h !! id2) as Hset.
  { intros rq p h1 Ht Hne. simpl. rewrite Ht, lookup_insert_ne by done. done. }
  intros Hab Hne. destruct e; simpl in Hab; subst; cbn [api_step].
  all: destruct (tasks h !! id) as [[rq1 p]|]; try done; try by apply Hset.
  - destruct p; [|..|by apply Hset|done]; destruct rq1 as [| |[] u]; simpl; unfold try_lock.
    all: try done; try (destruct (op h); by apply Hset); try (destruct (active h); by apply Hset).
    all: try by apply Hset. destruct (signed h !! digest); by apply Hset.
  - destruct p; try done; [unfold dkg_finish; destruct (map_err _ _)|unfold recover_finish]; by apply Hset.
  - destruct p; try done. unfold sign_finish. destruct (sign_response _ _ _ _); by apply Hset.
  - destruct (suspended p); [|done]. apply Hset; [by destruct (holding p)|done].
Qed.

Lemma run_untouched id id2 es h :
  Forall (about id) es -> id2 <> id -> tasks (api_run h es) !! id2 = tasks h !! id2.
Proof.
  intros Hes Hne. revert h; induction Hes as [|e es He _ IH]; intros h; [done|].
  simpl. rewrite IH. by apply (others_untouched id).
Qed.

Lemma run_inv es h : inv h -> inv (api_run h es).
Proof. revert h; induction es as [|e es IH]; intros h H; [done|]. by apply IH, inv_step. Qed.
End Progress.

(** ** Properties *)
Section ApiProperties.
Context {Al : Alloy} {N : Network}.

Definition answered (h : api) (id : nat) (rq : request) (r : result ApiError response) : Prop :=
  tasks h !! id = Some (rq, Done (Answered r)).

(** C3: every signature returned is verified.  However requests, backend
    answers and hang-ups interleaved, a [/v1/sign] answered 200 is for bytes
    that decode to a valid transaction; the response, cached or fresh, is for
    that transaction's first digest, names the active key's address, and its
    first signature recovers to the active key over that digest. *)
Theorem signature_verified {NC : NetworkContract N} a0 h id net u resp :
  reachable a0 h -> answered h id (PostSign net u) (Ok (SignOk resp)) ->
  exists tx a ds sg sgs,
    Network.decode_unsigned u = Ok tx /\ validate tx = Ok tt /\ signing_digests tx = sr_digest resp :: ds /\
    active h = Some a /\ derive_address a = Ok (signer_address resp) /\
    sr_signatures resp = sig_parts_of <$> (sg :: sgs) /\ recovers (sr_digest resp) sg a.
Proof.
  intros Hinv%api_reachable_inv Hid. destruct (inv_tasks h Hinv _ _ _ Hid) as (tx & d & (n' & u' & ds & [= <- <-] & Hd & Hv & Hds) & Hs).
  apply (inv_cache h Hinv) in Hs as (a & Ha & tx' & ds' & parts & out & Hds' & Hf & Haddr & _ & _ & Hsigs & Hdig).
  apply finalize_sound in Hf. rewrite Hds' in Hf. apply Forall2_cons_inv_l in Hf as (sg & sgs & Hrec & _ & ->).
  exists tx, a, ds, sg, sgs. rewrite Hdig. done.
Qed.

(** Signing is idempotent.  Two [/v1/sign] requests answered 200 whose
    transactions have the same first digest got the same response, the same
    bytes, however they raced: a digest is never signed twice. *)
Theorem sign_idempotent a0 h id1 id2 net1 net2 u1 u2 resp1 resp2 tx1 tx2 d ds1 ds2 :
  reachable a0 h ->
  answered h id1 (PostSign net1 u1) (Ok (SignOk resp1)) ->
  answered h id2 (PostSign net2 u2) (Ok (SignOk resp2)) ->
  Network.decode_unsigned u1 = Ok tx1 -> Network.decode_unsigned u2 = Ok tx2 ->
  signing_digests tx1 = d :: ds1 -> signing_digests tx2 = d :: ds2 ->
  resp1 = resp2.
Proof.
  intros Hinv%api_reachable_inv H1 H2 Hd1 Hd2 Hs1 Hs2.
  destruct (inv_tasks h Hinv _ _ _ H1) as (t1 & d1 & (? & ? & ? & [= <- <-] & Ht1 & _ & Hx1) & Hc1).
  destruct (inv_tasks h Hinv _ _ _ H2) as (t2 & d2 & (? & ? & ? & [= <- <-] & Ht2 & _ & Hx2) & Hc2).
  congruence.
Qed.

(** C9: ceremonies are exclusive and a generation is forever.  At most one
    task holds the operation lock, and the lock is taken exactly when one
    does, so a dropped client never leaves it stuck; at most one backend
    operation is in flight; a key generation only runs while no generation is
    active; and an active key is never replaced, nor a cached response. *)
Theorem operations_exclusive a0 h :
  reachable a0 h ->
  (forall id1 id2 rq1 rq2 p1 p2, tasks h !! id1 = Some (rq1, p1) -> tasks h !! id2 = Some (rq2, p2) ->
     holding p1 = true -> holding p2 = true -> id1 = id2) /\
  (op h = true <-> exists id rq p, tasks h !! id = Some (rq, p) /\ holding p = true) /\
  (forall id rq, tasks h !! id = Some (rq, DkgRunning) -> active h = None) /\
  (forall e, extends h (api_step h e)).
Proof.
  intros Hr. pose proof (api_reachable_inv _ _ Hr) as Hinv. split_and!.
  - apply (inv_unique h Hinv).
  - apply (inv_op h Hinv).
  - intros id rq Hid. apply (inv_tasks h Hinv _ _ _ Hid).
  - intros e. by apply step_extends.
Qed.

(** C32: every request is answered, and nothing queues.  Whatever else is in
    flight, a task that is given its steps and the backend's answer ends; no
    other task need move; and the lock is then held only if another task
    already held it. *)
Theorem every_request_ends a0 h id rq p rk rs :
  reachable a0 h -> tasks h !! id = Some (rq, p) ->
  let h' := api_run h [Step id; Step id; Step id; BackendKey id rk; BackendSigs id rs; Step id] in
  (exists out, tasks h' !! id = Some (rq, Done out)) /\
  (op h' = true -> exists id2 rq2 p2, id2 <> id /\ tasks h !! id2 = Some (rq2, p2) /\ holding p2 = true).
Proof.
  intros Hinv%api_reachable_inv Hid.
  set (es := [Step id; Step id; Step id; BackendKey id rk; BackendSigs id rs; Step id]). intros h'.
  assert (exists out, tasks h' !! id = Some (rq, Done out)) as Hdone.
  { assert (at_least 0 id rq h) as H0 by (exists p; split; [done|lia]).
    pose proof (step_stage 0 id rq _ Hinv H0) as H1.
    pose proof (step_stage 1 id rq _ (inv_step _ _ Hinv) H1) as H2.
    pose proof (step_stage 2 id rq _ (run_inv [Step id; Step id] _ Hinv) H2) as H3.
    pose proof (backend_stage id rq rk rs _ H3) as H4.
    destruct (step_stage 4 id rq _ (run_inv [Step id; Step id; Step id; BackendKey id rk; BackendSigs id rs] _ Hinv) H4)
      as (p' & Hp' & Hk).
    destruct p'; simpl in Hk; try lia. by exists out. }
  split; [done|]. destruct Hdone as [out Hout].
  assert (inv h') as Hinv' by by apply run_inv.
  intros (id2 & rq2 & p2 & H2 & Hh2)%(inv_op h' Hinv'). exists id2, rq2, p2.
  assert (id2 <> id) as Hne by (intros ->; by simplify_eq). split; [done|]. split; [|done].
  unfold h' in H2. rewrite (run_untouched id) in H2; [done| |done]. by repeat constructor.
Qed.
End ApiProperties.

(** What a client learns from an error.  Server-side failures (5xx) are
    answered with one of seven fixed messages and nothing of the error's own
    detail; only a policy refusal is a 403, and it alone carries the list of
    vetoes; and no other status is ever answered. *)
Theorem error_responses e :
  let (status, body) := into_response e in
  ((500 <= status)%N -> body_vetoes body = None /\
     body_error body ∈ ((fun m => [Lit m]) <$>
       ["rpc enrichment failed"; "signature verification failed"; "active public key is invalid";
        "internal storage error"; "cosigner cross-check failed"; "mpc protocol failed";
        "rpc broadcast failed"; "broadcast verification failed"])) /\
  (status = 403%N <-> exists vetoes, e = Mpc (Mpc.Rejected vetoes)) /\
  (forall vetoes, body_vetoes body = Some vetoes <-> e = Mpc (Mpc.Rejected vetoes)) /\
  status ∈ [400; 403; 404; 409; 500; 502]%N.
Proof.
  unfold into_response.
  destruct e as [[]| |[]| | | | |[]| | | |[]|]; cbn [status_message body_vetoes body_error].
  all: rewrite !list_elem_of_In; simpl.
  all: split; [first [intros; exfalso; lia|intros _; split; [done|tauto]]|].
  all: split; [split; [discriminate || (intros _; eauto)|by intros [? [=]]]|].
  all: split; [intros vs; split; congruence|tauto].
Qed.

Section ReaderProperties.
Context {Al : Alloy}.

(** The broadcast endpoint is no open relay.  The node is sent nothing
    (the answer does not depend on it) unless the bytes decode as a signed
    transaction whose recovered signer is the active key's own address; and
    then it is sent those very bytes and the answer is the node's. *)
Theorem broadcast_only_own fuel act body submit receipt late r :
  broadcast fuel act body submit receipt late = Some r ->
  (forall submit' receipt' late', broadcast fuel act body submit' receipt' late' = Some r) \/
  exists pk signed a outcome,
    act = Some pk /\ address_from_sec1 pk = Ok a /\ decode_signed (b_signed body) = Ok signed /\
    stx_from signed = a /\ stx_raw signed = b_signed body /\
    broadcast_via_rpc_impl receipt late fuel (submit (b_signed body)) (tx_hash signed) = Some outcome /\
    match outcome, r with
    | Ok (Confirmed rc), Ok (status, resp) =>
        status = 200%N /\ br_tx_hash resp = tx_hash signed /\ br_execution_success resp = Some (receipt_status rc)
    | Ok Pending, Ok (status, resp) => status = 202%N /\ br_tx_hash resp = tx_hash signed
    | Err e, Err e' => e' = Broadcast e
    | _, _ => False
    end.
Proof.
  unfold broadcast. destruct (b_network body). destruct act as [pk|]; simpl; [|auto].
  destruct (decode_signed (b_signed body)) as [signed|e] eqn:Hd; simpl; [|auto].
  destruct (address_from_sec1 pk) as [a|e] eqn:Ha; simpl; [|auto].
  case_bool_decide as Hf; simpl; [|auto].
  pose proof (decode_signed_raw _ _ Hd) as Hraw. rewrite Hraw.
  destruct (broadcast_via_rpc_impl _ _ _ _ _) as [out|] eqn:Ho; [|done]. intros [= <-]. right.
  exists pk, signed, a, out. split_and!; try done.
  destruct out as [[rc|]|e]; simpl; split_and?; done.
Qed.

(** The bytes [/v1/prepare] answers are decoded, validated and hashed by
    [/v1/sign] to the digest it announced; what a policy will see is what the
    caller asked for; and the sender is the active key's address. *)
Lemma prepared_signs {AL : AlloyLaws Al} pk body p resp :
  prepare (Some pk) body p = Ok resp ->
  address_from_sec1 pk = Ok (pr_from resp) /\
  exists (tx : Network.Unsigned (Network := EthereumNetwork)) c,
    vet_tx (pr_unsigned resp) = Ok (tx, [pr_digest resp]) /\ get_chain_id p = Ok c /\
    Network.policy_view tx = TxViewEthereum (MkEthTxView c (p_to body) (p_value body) (p_data body)).
Proof.
  unfold prepare. destruct (p_network body). simpl. intros (from & Hf & H)%rbind_Ok.
  apply map_err_Ok in Hf. apply rbind_Ok in H as (pr & Hp & [= <-]). apply map_err_Ok in Hp.
  split; [done|]. apply prepare_from_rpc_Ok in Hp as (i & c & Hc & Hi1 & Hi2 & Hi3 & Hi4 & Hp).
  destruct (prepare_signable _ _ Hp) as (_ & _ & _ & Hd & Hv & Hg & Hpv).
  exists (ptx pr), c. cbn [pr_unsigned pr_digest]. split_and!; [|done|].
  - apply (vet_tx_Ok (N := EthereumNetwork)). split; [exact Hd|]. split; [exact Hv|]. symmetry. exact Hg.
  - rewrite Hi1, Hi2, Hi3, Hi4 in Hpv. exact Hpv.
Qed.
End ReaderProperties.

(** ** Witnesses: two requests for one transaction, over the concrete alloy *)
Definition demo_pk : PubkeySec1 := MkPubkey (array_of 33 (wmod 8 2 :: replicate 32 (wmod 8 170))) eq_refl.
Definition demo_raw : bytes := encode_unsigned demo_tx.
Definition demo_sig : EcdsaParts :=
  MkEcdsaParts (wmod 256 (be_val (replicate 20 (wmod 8 170)))) (wmod 256 5) false.
(** Both requests pass the first cache read before either has signed. *)
Definition demo_events : list event :=
  [Arrive 0 (PostSign Ethereum demo_raw); Arrive 1 (PostSign Ethereum demo_raw);
   Step 0; Step 1; Step 0; Step 0; BackendSigs 0 (Ok [demo_sig]); Step 0; Step 1; Step 1; Step 1].
Definition demo_start : api (N := EthereumNetwork) := api_new (Some demo_pk).
Definition demo_run : api (N := EthereumNetwork) := api_run demo_start demo_events.

Definition answered_sign {Al : Alloy} {N : Network} (u : bytes) (h : api) (id : nat) : bool :=
  match tasks h !! id with
  | Some (PostSign Ethereum u', Done (Answered (Ok (SignOk _)))) => bool_decide (u' = u)
  | _ => false
  end.

Lemma answered_sign_inv {Al : Alloy} {N : Network} u (h : api) id :
  answered_sign u h id = true -> exists resp, answered h id (PostSign Ethereum u) (Ok (SignOk resp)).
Proof.
  unfold answered_sign, answered.
  destruct (tasks h !! id) as [[[| |[] u'] [| | | | | | | | |[[[d|resp]|e]|w|]]]|]; try done.
  intros ->%bool_decide_eq_true. by exists resp.
Qed.

Lemma run_reachable {Al : Alloy} {N : Network} a0 h es : reachable a0 h -> reachable a0 (api_run h es).
Proof. revert h; induction es as [|e es IH]; intros h H; [done|]. apply IH. by constructor. Qed.

Lemma demo_run_reachable : reachable (Some demo_pk) demo_run.
Proof. apply run_reachable. constructor. Qed.

Example demo_answers : answered_sign demo_raw demo_run 0 && answered_sign demo_raw demo_run 1 = true.
Proof. vm_compute. reflexivity. Qed.
Example demo_calls : length (calls demo_run) = 1%nat.
Proof. vm_compute. reflexivity. Qed.

Lemma signature_verified_witness :
  exists resp a, answered demo_run 0 (PostSign Ethereum demo_raw) (Ok (SignOk resp)) /\
    active demo_run = Some a /\ derive_address (Network := EthereumNetwork) a = Ok (signer_address resp).
Proof.
  destruct (answered_sign_inv _ _ _ (proj1 (andb_prop _ _ demo_answers))) as [resp Hr].
  destruct (signature_verified (Some demo_pk) demo_run 0 Ethereum demo_raw resp demo_run_reachable Hr)
    as (tx & a & ds & sg & sgs & _ & _ & _ & Ha & Hd & _).
  exists resp, a. split; [exact Hr|]. split; [exact Ha|exact Hd].
Defined.

Lemma sign_idempotent_witness :
  exists resp, answered demo_run 0 (PostSign Ethereum demo_raw) (Ok (SignOk resp)) /\
               answered demo_run 1 (PostSign Ethereum demo_raw) (Ok (SignOk resp)).
Proof.
  destruct (answered_sign_inv _ _ _ (proj1 (andb_prop _ _ demo_answers))) as [r0 H0].
  destruct (answered_sign_inv _ _ _ (proj2 (andb_prop _ _ demo_answers))) as [r1 H1].
  assert (Network.decode_unsigned (Network := EthereumNetwork) demo_raw = Ok demo_tx) as Hd
    by exact (proj1 (proj2 (proj2 (proj2 (prepare_signable demo_intent demo_prepared eq_refl))))).
  exists r0. split; [exact H0|].
  rewrite (sign_idempotent (Some demo_pk) demo_run 0 1 Ethereum Ethereum demo_raw demo_raw r0 r1 demo_tx demo_tx
             (signature_hash demo_tx) [] [] demo_run_reachable H0 H1 Hd Hd eq_refl eq_refl).
  exact H1.
Defined.

Lemma operations_exclusive_witness : extends demo_run (api_step demo_run (HangUp 1)).
Proof. exact (proj2 (proj2 (proj2 (operations_exclusive (Some demo_pk) demo_run demo_run_reachable))) (HangUp 1)). Defined.

Definition demo_arrived : api (N := EthereumNetwork) := api_step demo_start (Arrive 0 PostRecover).
Lemma every_request_ends_witness :
  exists out, tasks (api_run demo_arrived
    [Step 0; Step 0; Step 0; BackendKey 0 (Ok demo_pk); BackendSigs 0 (Err Deserialize); Step 0]) !! 0%nat
    = Some (PostRecover, Done out).
Proof.
  exact (proj1 (every_request_ends (Some demo_pk) demo_arrived 0 PostRecover Start (Ok demo_pk) (Err Deserialize)
                  (reach_step _ _ _ (reach_new _)) eq_refl)).
Defined.

(** A signed transaction of the active key, and one of another key. *)
Definition demo_signed : bytes := encoded_2718 demo_tx (r demo_sig) (s demo_sig) false.
Definition demo_receipt : Receipt := MkReceipt (Some (wmod 64 9)) (wmod 64 21000) true.
Definition demo_broadcast (raw : bytes) : option (result ApiError (N * BroadcastResponse)) :=
  broadcast 3 (Some demo_pk) (MkBroadcastRequest Ethereum raw)
    (fun b => Submitted (toy_hash 32 b)) (fun k => Ok (if Nat.eqb k 1 then Some demo_receipt else None))
    (fun k => Nat.leb 5 k).
Definition broadcast_status (x : option (result ApiError (N * BroadcastResponse))) : N :=
  match x with
  | Some (Ok (st, _)) => st
  | Some (Err e) => fst (into_response e)
  | None => 0
  end.
Example demo_broadcast_ok : broadcast_status (demo_broadcast demo_signed) = 200%N.
Proof. vm_compute. reflexivity. Qed.
Example demo_broadcast_foreign :
  broadcast_status (demo_broadcast (encoded_2718 demo_tx (wmod 256 7) (s demo_sig) false)) = 400%N.
Proof. vm_compute. reflexivity. Qed.

Lemma broadcast_only_own_witness : exists r, demo_broadcast demo_signed = Some r /\ broadcast_status (Some r) = 200%N.
Proof.
  pose proof demo_broadcast_ok as Hs. destruct (demo_broadcast demo_signed) as [r|] eqn:E; [|discriminate Hs].
  destruct (broadcast_only_own _ _ _ _ _ _ _ E) as [H|H]; exists r; (split; [reflexivity|exact Hs]).
Defined.

Definition demo_provider : Provider :=
  MkProvider (Ok (wmod 64 1)) (fun _ => Ok (wmod 64 4)) (Ok (wmod 128 30)) (Ok (wmod 128 30, wmod 128 2))
    (fun _ _ _ _ _ => Ok (wmod 64 21000)).
Definition demo_prepare_request : PrepareRequest :=
  MkPrepareRequest Ethereum (Some (array_repeat 20 (wmod 8 17))) (wmod 256 1000) [] TEip1559 [].
Definition demo_prepare : result ApiError PrepareResponse := prepare (Some demo_pk) demo_prepare_request demo_provider.
Example demo_prepare_ok : is_ok demo_prepare = true.
Proof. vm_compute. reflexivity. Qed.

