(* ===== verification/Linear.v ===== *)
(** * The public API is linearizable ([crates/sovra-api/src/api.rs])

    The signer as a client may think of it: a key that is set once and a book
    of signed digests, on which every request acts in one atomic step.  Under
    any interleaving of tasks, backend answers and hang-ups, the handlers of
    [Api] do what some sequence of these atomic steps does. *)

From S2P Require Import Prelude Types Mpc Network Eth Api.
From Stdlib Require Import String.
From stdpp Require Import base decidable list gmap.
Open Scope string_scope. Open Scope list_scope.

Section Linear.
Context {Al : Alloy} {N : Network}.

(** ** The atomic signer *)
Record wallet : Type := MkWallet { w_key : option PubkeySec1; w_book : gmap B256 SignResponse }.

Definition record (d : B256) (resp : SignResponse) (w : wallet) : wallet := MkWallet (w_key w) (<[d := resp]> (w_book w)).

(** A request served alone; [rk] and [rs] are what the backend would answer. *)
Definition serve (rq : request) (rk : result MpcError PubkeySec1) (rs : result MpcError (list EcdsaParts)) (w : wallet)
  : outcome * wallet :=
  match rq with
  | PostDkg =>
      match w_key w, rk with
      | Some _, _ => (failed DkgAlreadyInitialized, w)
      | None, Err e => (failed (Api.Mpc e), w)
      | None, Ok pk => (Answered (rmap DkgOk (dkg_response pk)), MkWallet (Some pk) (w_book w))
      end
  | PostRecover =>
      match w_key w, rk with
      | None, _ => (failed DkgNotInitialized, w)
      | Some a, Err e => (failed (Api.Mpc e), w)
      | Some a, Ok pk =>
          if bool_decide (pk = a) then (Answered (rmap DkgOk (dkg_response pk)), w)
          else (failed (Api.Mpc (PartyMismatch [Lit "refresh returned "; show_key pk;
                                                Lit ", active generation is "; show_key a])), w)
      end
  | PostSign _ u =>
      match vet_tx u with
      | Err e => (failed e, w)
      | Ok (_, []) => (Panicked "digests[0]", w)
      | Ok (tx, d :: _) =>
          match w_book w !! d, w_key w with
          | Some resp, _ => (Answered (Ok (SignOk resp)), w)
          | None, None => (failed DkgNotInitialized, w)
          | None, Some a =>
              match sign_response tx d a rs with
              | Err e => (failed e, w)
              | Ok resp => (Answered (Ok (SignOk resp)), record d resp w)
              end
          end
      end
  end.

(** One request's effect: the atomic step, or none at all when it was turned
    away because another operation runs ([busy]), or its client hung up. *)
Definition acts (busy : bool) (w : wallet) (rq : request) (out : outcome) (w' : wallet) : Prop :=
  (exists rk rs, serve rq rk rs w = (out, w')) \/
  (w' = w /\ (out = failed SigningInProgress /\ busy = true \/ out = Dropped)).

Definition entry : Type := nat * request * outcome.
Inductive executes : wallet -> list entry -> wallet -> Prop :=
  | executes_nil w : executes w [] w
  | executes_cons w id rq out busy w1 l w2 : acts busy w rq out w1 -> executes w1 l w2 -> executes w ((id, rq, out) :: l) w2.

Lemma executes_app w l w1 l' w2 : executes w l w1 -> executes w1 l' w2 -> executes w (l ++ l') w2.
Proof. induction 1; [done|]. intros Hl. econstructor; [eassumption|]. by apply IHexecutes. Qed.

Lemma executes_one w id rq out busy w' : acts busy w rq out w' -> executes w [(id, rq, out)] w'.
Proof. intros H. econstructor; [exact H|constructor]. Qed.

(** ** The sequence a run amounts to *)
Definition wallet_of (h : api) : wallet := MkWallet (active h) (signed h).

(** The outcome of a task, from the step that determines it on. *)
Definition settled (p : phase) : option outcome :=
  match p with Releasing out | Done out => Some out | _ => None end.
Definition decided (h : api) (id : nat) : option (request * outcome) :=
  '(rq, p) ← tasks h !! id; out ← settled p; Some (rq, out).

Definition subject (e : event) : nat :=
  match e with Arrive i _ | Step i | BackendKey i _ | BackendSigs i _ | HangUp i => i end.

(** What an event settles. *)
Definition decision (h : api) (e : event) : list entry :=
  match decided h (subject e), decided (api_step h e) (subject e) with
  | None, Some (rq, out) => [(subject e, rq, out)]
  | _, _ => []
  end.

Fixpoint history (h : api) (es : list event) : list entry :=
  match es with [] => [] | e :: es => decision h e ++ history (api_step h e) es end.

(** ** Every step is at most one atomic step *)
(** A task other than [id] holds the lock. *)
Definition others_hold (h : api) (id : nat) : bool :=
  op h && negb (match tasks h !! id with Some (_, p) => holding p | None => false end).

Definition simulates (h : api) (e : event) : Prop :=
  (decision h e = [] /\ wallet_of (api_step h e) = wallet_of h) \/
  exists rq out, decision h e = [(subject e, rq, out)] /\ acts (others_hold h (subject e)) (wallet_of h) rq out (wallet_of (api_step h e)).

Lemma decided_set id rq p h1 : decided (set_phase id rq p h1) id = (fun out => (rq, out)) <$> settled p.
Proof. unfold decided. simpl. rewrite lookup_insert_eq. simpl. by destruct (settled p). Qed.

Lemma decided_at h id rq p : tasks h !! id = Some (rq, p) -> decided h id = (fun out => (rq, out)) <$> settled p.
Proof. unfold decided. intros ->. simpl. by destruct (settled p). Qed.

(** A task moving from an open phase to [p]. *)
Lemma decision_move h e rq p0 p h1 :
  tasks h !! subject e = Some (rq, p0) -> settled p0 = None -> api_step h e = set_phase (subject e) rq p h1 ->
  decision h e = match settled p with Some out => [(subject e, rq, out)] | None => [] end.
Proof.
  intros Hid Hp0 Hs. unfold decision. rewrite Hs, decided_set, (decided_at _ _ _ _ Hid), Hp0. by destruct (settled p).
Qed.

Lemma move_simulates h e rq p0 p h1 :
  tasks h !! subject e = Some (rq, p0) -> settled p0 = None -> api_step h e = set_phase (subject e) rq p h1 ->
  match settled p with
  | Some out => acts (others_hold h (subject e)) (wallet_of h) rq out (wallet_of h1)
  | None => wallet_of h1 = wallet_of h
  end ->
  simulates h e.
Proof.
  intros Hid Hp0 Hs Hact. pose proof (decision_move _ _ _ _ _ _ Hid Hp0 Hs) as Hd.
  destruct (settled p) as [out|]; [right; exists rq, out|left]; rewrite Hs; by split.
Qed.

Lemma settled_simulates h e :
  (decided h (subject e) <> None \/ api_step h e = h) -> wallet_of (api_step h e) = wallet_of h ->
  simulates h e.
Proof.
  intros Hd Hw. left. split; [|done]. unfold decision.
  destruct Hd as [Hd| ->]; [by destruct (decided h _)|]. by destruct (decided h _) as [[]|].
Qed.

Lemma acts_serve b w rq out w' rk rs : serve rq rk rs w = (out, w') -> acts b w rq out w'.
Proof. intros H. left. by exists rk, rs. Qed.

Lemma acts_busy w rq : acts true w rq (failed SigningInProgress) w.
Proof. right. auto. Qed.

Lemma vet_asks net u tx d : asks_for (PostSign net u) tx d -> exists ds, vet_tx u = Ok (tx, d :: ds).
Proof.
  intros (net' & u' & ds & [= <- <-] & Hd & Hv & Hs). exists ds. unfold vet_tx, tx_err.
  rewrite Hd. cbn. rewrite Hv. cbn. by rewrite Hs.
Qed.

(** The answer of the backend in these steps is not looked at. *)
Definition no_key : result MpcError PubkeySec1 := Err (Mpc.Sign []).
Definition no_sigs : result MpcError (list EcdsaParts) := Err (Mpc.Sign []).

Lemma sign_enter_acts net u h b :
  match settled (sign_enter u h) with
  | Some out => acts b (wallet_of h) (PostSign net u) out (wallet_of h)
  | None => True
  end.
Proof.
  unfold sign_enter. destruct (vet_tx u) as [[tx [|d ds]]|e] eqn:Hv.
  - apply (acts_serve _ _ _ _ _ no_key no_sigs). cbn. by rewrite Hv.
  - destruct (signed h !! d) as [resp|] eqn:Hd.
    + apply (acts_serve _ _ _ _ _ no_key no_sigs). cbn. by rewrite Hv, Hd.
    + destruct (active h) as [a|] eqn:Ha; [done|]. apply (acts_serve _ _ _ _ _ no_key no_sigs). cbn. by rewrite Hv, Hd, Ha.
  - apply (acts_serve _ _ _ _ _ no_key no_sigs). cbn. by rewrite Hv.
Qed.

(** Taking the lock settles a request only by turning it away. *)
Lemma try_lock_simulates h e rq p0 locked :
  tasks h !! subject e = Some (rq, p0) -> settled p0 = None -> holding p0 = false -> settled locked = None ->
  api_step h e = try_lock (subject e) rq locked h ->
  simulates h e.
Proof.
  intros Hid Hp0 Hh Hl Hs. unfold try_lock in Hs. destruct (op h) eqn:Hop.
  - eapply (move_simulates _ _ _ _ (Done (failed SigningInProgress))); [done..|]. unfold others_hold. rewrite Hop, Hid, Hh. apply acts_busy.
  - eapply (move_simulates _ _ _ _ locked); [done..|]. by rewrite Hl.
Qed.

(** A move whose outcome is one atomic step. *)
Lemma serve_simulates h e rq p0 out h1 rk rs :
  tasks h !! subject e = Some (rq, p0) -> settled p0 = None ->
  api_step h e = set_phase (subject e) rq (Releasing out) h1 -> serve rq rk rs (wallet_of h) = (out, wallet_of h1) ->
  simulates h e.
Proof. intros Hid Hp0 Hs Hv. eapply move_simulates; [done..|]. by apply (acts_serve _ _ _ _ _ rk rs). Qed.

Lemma sign_step_simulates h id net u p :
  inv h -> tasks h !! id = Some (PostSign net u, p) -> settled p = None ->
  simulates h (Step id).
Proof.
  intros Hinv Hid Hp. pose proof (inv_tasks h Hinv _ _ _ Hid) as Hok. destruct net.
  assert (api_step h (Step id) = sign_step id (PostSign Ethereum u) u p h) as Hs by (simpl; rewrite Hid; by destruct p).
  destruct p; try done; cbn [sign_step] in Hs; try (apply settled_simulates; [by right|by rewrite Hs]).
  - eapply (move_simulates h (Step id)); [done|done|exact Hs|]. pose proof (sign_enter_acts Ethereum u h (others_hold h id)) as Ha.
    by destruct (settled (sign_enter u h)).
  - by apply (try_lock_simulates h (Step id) (PostSign Ethereum u) (SignReady tx digest a) (SignLocked tx digest a)).
  - destruct Hok as [Hask Ha]. destruct (vet_asks _ _ _ _ Hask) as [ds Hv].
    destruct (signed h !! digest) as [resp|] eqn:Hd.
    + eapply (serve_simulates h (Step id) _ _ _ _ no_key no_sigs); [done|done|exact Hs|]. cbn. by rewrite Hv, Hd.
    + eapply (move_simulates h (Step id)); [done|done|exact Hs|]. done.
Qed.

Lemma dkg_step_simulates h id p :
  inv h -> tasks h !! id = Some (PostDkg, p) -> settled p = None ->
  simulates h (Step id).
Proof.
  intros Hinv Hid Hp.
  assert (api_step h (Step id) = dkg_step id PostDkg p h) as Hs by (simpl; rewrite Hid; by destruct p).
  destruct p; try done; cbn [dkg_step] in Hs; try (apply settled_simulates; [by right|by rewrite Hs]).
  - by apply (try_lock_simulates h (Step id) PostDkg Start DkgLocked).
  - destruct (active h) as [a|] eqn:Ha.
    + eapply (serve_simulates h (Step id) _ _ _ _ no_key no_sigs); [done|done|exact Hs|]. cbn. by rewrite Ha.
    + by eapply (move_simulates h (Step id)); [done|done|exact Hs|].
Qed.

Lemma recover_step_simulates h id p :
  inv h -> tasks h !! id = Some (PostRecover, p) -> settled p = None ->
  simulates h (Step id).
Proof.
  intros Hinv Hid Hp.
  assert (api_step h (Step id) = recover_step id PostRecover p h) as Hs by (simpl; rewrite Hid; by destruct p).
  destruct p; try done; cbn [recover_step] in Hs; try (apply settled_simulates; [by right|by rewrite Hs]).
  - by apply (try_lock_simulates h (Step id) PostRecover Start RecoverLocked).
  - destruct (active h) as [a|] eqn:Ha.
    + by eapply (move_simulates h (Step id)); [done|done|exact Hs|].
    + eapply (serve_simulates h (Step id) _ _ _ _ no_key no_sigs); [done|done|exact Hs|]. cbn. by rewrite Ha.
Qed.

Lemma key_simulates h id r :
  inv h -> simulates h (BackendKey id r).
Proof.
  intros Hinv. destruct (tasks h !! id) as [[rq p]|] eqn:Hid.
  2:{ apply settled_simulates; [right|]; cbn [api_step]; by rewrite Hid. }
  assert (api_step h (BackendKey id r) = match p with
    | DkgRunning => dkg_finish id rq r h | RecoverRunning a => recover_finish id rq a r h | _ => h end) as Hs
    by (cbn [api_step]; rewrite Hid; by destruct p).
  pose proof (inv_tasks h Hinv _ _ _ Hid) as Hok.
  destruct p; try (apply settled_simulates; [by right|by rewrite Hs]).
  - destruct Hok as [-> Ha]. unfold dkg_finish in Hs. destruct r as [pk|e]; cbn [map_err] in Hs.
    + eapply (serve_simulates h (BackendKey id _) _ _ _ _ (Ok pk) no_sigs); [done|done|exact Hs|]. cbn. by rewrite Ha.
    + eapply (serve_simulates h (BackendKey id _) _ _ _ _ (Err e) no_sigs); [done|done|exact Hs|]. cbn. by rewrite Ha.
  - destruct Hok as [-> Ha]. unfold recover_finish in Hs.
    eapply (serve_simulates h (BackendKey id _) _ _ _ _ r no_sigs); [done|done|exact Hs|]. cbn. rewrite Ha.
    destruct r as [pk|e]; cbn; [|done]. by destruct (bool_decide (pk = a)).
Qed.

Lemma sigs_simulates h id r :
  inv h -> simulates h (BackendSigs id r).
Proof.
  intros Hinv. destruct (tasks h !! id) as [[rq p]|] eqn:Hid.
  2:{ apply settled_simulates; [right|]; cbn [api_step]; by rewrite Hid. }
  assert (api_step h (BackendSigs id r) = match p with SignRunning tx d a => sign_finish id rq tx d a r h | _ => h end)
    as Hs by (cbn [api_step]; rewrite Hid; by destruct p).
  pose proof (inv_tasks h Hinv _ _ _ Hid) as Hok.
  destruct p; try (apply settled_simulates; [by right|by rewrite Hs]).
  destruct Hok as (Hask & Ha & Hd). pose proof Hask as (net & u & _ & -> & _).
  destruct (vet_asks _ _ _ _ Hask) as [ds Hv]. unfold sign_finish in Hs.
  destruct (sign_response tx digest a r) as [resp|e] eqn:Hr;
    (eapply (serve_simulates h (BackendSigs id _) _ _ _ _ no_key r); [done|done|exact Hs|]);
    cbn; rewrite Hv, Hd, Ha, Hr; reflexivity.
Qed.

(** ** Every event *)
Lemma step_keeps_decided h e id x : decided h id = Some x -> decided (api_step h e) id = Some x.
Proof.
  intros Hd. destruct (decide (id = subject e)) as [->|Hne].
  2:{ unfold decided. rewrite (others_untouched (subject e)); [done|by destruct e|done]. }
  unfold decided in Hd. destruct (tasks h !! subject e) as [[rq p]|] eqn:Hid; [|done]. cbn in Hd.
  assert (api_step h e = h \/ exists out, p = Releasing out /\ e = Step (subject e)) as [->|(out & -> & He)].
  { destruct e; cbn [api_step subject] in *; rewrite Hid; destruct p; try done; auto; right; by exists out. }
  - unfold decided. by rewrite Hid.
  - rewrite He. cbn [api_step]. rewrite Hid. cbn [task_step].
    change (decided (set_phase (subject e) rq (Done out) (set_op false h)) (subject e) = Some x).
    by rewrite decided_set.
Qed.

Lemma step_simulates h e : inv h -> simulates h e.
Proof.
  intros Hinv. destruct (decided h (subject e)) as [[rq out]|] eqn:Hd.
  { left. split; [unfold decision; by rewrite Hd|]. unfold decided in Hd.
    destruct (tasks h !! subject e) as [[rq1 p]|] eqn:Hid; [|done]. cbn in Hd.
    destruct e; cbn [api_step subject] in *; rewrite Hid; by destruct p. }
  destruct e as [id rq|id|id r|id r|id]; [| |by apply key_simulates|by apply sigs_simulates|]; cbn [subject] in Hd.
  - destruct (tasks h !! id) as [x|] eqn:Hid.
    + apply settled_simulates; [right|]; cbn [api_step]; by rewrite Hid.
    + left. unfold decision. cbn [subject api_step]. rewrite Hid, Hd, decided_set. done.
  - destruct (tasks h !! id) as [[rq p]|] eqn:Hid.
    2:{ apply settled_simulates; [right|]; cbn [api_step]; by rewrite Hid. }
    assert (settled p = None) as Hp by (rewrite (decided_at _ _ _ _ Hid) in Hd; by destruct (settled p)).
    destruct rq; [by eapply dkg_step_simulates|by eapply recover_step_simulates|by eapply sign_step_simulates].
  - destruct (tasks h !! id) as [[rq p]|] eqn:Hid.
    2:{ apply settled_simulates; [right|]; cbn [api_step]; by rewrite Hid. }
    assert (settled p = None) as Hp by (rewrite (decided_at _ _ _ _ Hid) in Hd; by destruct (settled p)).
    destruct (suspended p) eqn:Hs.
    2:{ apply settled_simulates; [right|]; cbn [api_step]; by rewrite Hid, Hs. }
    eapply (move_simulates h (HangUp id) rq p (Done Dropped)); [done|done|cbn [api_step subject]; by rewrite Hid, Hs|].
    cbn [settled]. right. split; [by destruct (holding p)|by right].
Qed.

Lemma history_app es1 es2 h : history h (es1 ++ es2) = history h es1 ++ history (api_run h es1) es2.
Proof. revert h; induction es1 as [|e es1 IH]; intros h; simpl; [done|]. by rewrite IH, app_assoc. Qed.

Lemma history_executes es h : inv h -> executes (wallet_of h) (history h es) (wallet_of (api_run h es)).
Proof.
  revert h; induction es as [|e es IH]; intros h Hinv; simpl; [constructor|].
  pose proof (IH _ (inv_step _ e Hinv)) as Hrest.
  destruct (step_simulates h e Hinv) as [[-> Hw]|(rq & out & -> & Ha)]; simpl; [by rewrite Hw in Hrest|by econstructor].
Qed.

Lemma decision_spec h e id rq out :
  (id, rq, out) ∈ decision h e <->
  id = subject e /\ decided h id = None /\ decided (api_step h e) id = Some (rq, out).
Proof.
  unfold decision. destruct (decided h (subject e)) as [x|] eqn:E1.
  - split; [set_solver|]. intros (-> & ? & _). congruence.
  - destruct (decided (api_step h e) (subject e)) as [[rq0 out0]|] eqn:E2.
    + rewrite list_elem_of_singleton. split; [by intros [= -> -> ->]|]. intros (-> & _ & E). congruence.
    + split; [set_solver|]. intros (-> & _ & ?). congruence.
Qed.

Lemma run_keeps_decided es h id x : decided h id = Some x -> decided (api_run h es) id = Some x.
Proof. revert h; induction es as [|e es IH]; intros h H; [done|]. by apply IH, step_keeps_decided. Qed.

(** The history holds exactly what was settled on the way. *)
Lemma history_spec es h id rq out :
  (id, rq, out) ∈ history h es <-> decided h id = None /\ decided (api_run h es) id = Some (rq, out).
Proof.
  revert h; induction es as [|e es IH]; intros h; cbn [history api_run foldl].
  - split; [set_solver|]. intros [? ?]. congruence.
  - rewrite elem_of_app, decision_spec, IH. fold (api_run (api_step h e) es). split.
    + intros [(-> & Hn & Hd)|[Hn Hd]]; [split; [done|by apply run_keeps_decided]|].
      split; [|done]. destruct (decided h id) as [x|] eqn:E; [|done].
      apply (step_keeps_decided _ e) in E. congruence.
    + intros [Hn Hd]. destruct (decided (api_step h e) id) as [[rq0 out0]|] eqn:E; [left|by right].
      pose proof (run_keeps_decided es _ _ _ E) as E'. split; [|split; [done|congruence]].
      destruct (decide (id = subject e)) as [->|Hne]; [done|]. exfalso. unfold decided in *.
      rewrite (others_untouched (subject e)) in E; [congruence|by destruct e|done].
Qed.

Lemma history_NoDup es h : NoDup (history h es).*1.*1.
Proof.
  revert h; induction es as [|e es IH]; intros h; simpl; [constructor|]. rewrite !fmap_app. apply NoDup_app.
  split; [|split; [|apply IH]].
  - unfold decision. destruct (decided h _); [constructor|]. destruct (decided (api_step h e) _) as [[]|];
      [apply NoDup_singleton|constructor].
  - intros id (x & -> & (y & -> & Hy)%list_elem_of_fmap)%list_elem_of_fmap (x' & Hx & (z & -> & Hz)%list_elem_of_fmap)%list_elem_of_fmap.
    destruct y as [[id rq] out], z as [[id' rq'] out']. cbn in Hx. subst id'.
    apply decision_spec in Hy as (_ & _ & Hy). apply history_spec in Hz as [Hz _]. congruence.
Qed.

(** ** Busy answers *)
Lemma tx_err_busy {A} (x : result TxError A) : tx_err x <> Err SigningInProgress.
Proof. by destruct x. Qed.

Lemma dkg_response_busy pk : rmap DkgOk (dkg_response pk) <> Err SigningInProgress.
Proof. unfold dkg_response. by destruct (address_from_sec1 pk). Qed.

Lemma sign_response_busy tx d a rs : sign_response tx d a rs <> Err SigningInProgress.
Proof.
  unfold sign_response. destruct rs; [|done]. cbn. destruct (finalize _ _ _); [|done]. cbn.
  by destruct (derive_address a).
Qed.

Lemma serve_busy rq rk rs w : (serve rq rk rs w).1 <> failed SigningInProgress.
Proof.
  destruct rq as [| |net u]; cbn.
  - destruct (w_key w), rk; try done. cbn. intros [= E]. by apply dkg_response_busy in E.
  - destruct (w_key w), rk; try done. case_bool_decide; [|done]. cbn. intros [= E]. by apply dkg_response_busy in E.
  - destruct (vet_tx u) as [[tx [|d ds]]|e] eqn:Hv; [done| |].
    + destruct (w_book w !! d), (w_key w); try done. pose proof (sign_response_busy tx d p rs) as Hb.
      destruct (sign_response _ _ _ _); cbn; unfold failed; congruence.
    + cbn. unfold vet_tx in Hv. intros [= ->]. apply rbind_Err in Hv as [Hv|(tx & _ & Hv)]; [by apply tx_err_busy in Hv|].
      apply rbind_Err in Hv as [Hv|(? & _ & Hv)]; [by apply tx_err_busy in Hv|done].
Qed.

(** A request is turned away only at a moment when the lock is taken. *)
Lemma history_busy es h id rq :
  inv h -> (id, rq, failed SigningInProgress) ∈ history h es ->
  exists es1, es1 `prefix_of` es /\ others_hold (api_run h es1) id = true.
Proof.
  revert h; induction es as [|e es IH]; intros h Hinv; cbn [history]; [set_solver|]. intros [Hin|Hin]%elem_of_app.
  - exists []. split; [apply prefix_nil|]. cbn. pose proof Hin as (-> & _ & _)%decision_spec.
    destruct (step_simulates h e Hinv) as [[Hd _]|(rq1 & out & Hd & Ha)]; rewrite Hd in Hin; [set_solver|].
    apply list_elem_of_singleton in Hin. injection Hin as -> <-.
    destruct Ha as [(rk & rs & Hs)|[_ [[_ ?]|?]]]; [|done|done].
    pose proof (serve_busy rq1 rk rs (wallet_of h)) as Hb. by rewrite Hs in Hb.
  - destruct (IH _ (inv_step _ e Hinv) Hin) as (es1 & Hp & Ho). exists (e :: es1). split; [by apply prefix_cons|done].
Qed.

(** C10: the API is linearizable.  However requests, backend answers and
    hang-ups interleave, the run amounts to serving the requests one at a time,
    each at once and alone, on a signer that holds one key and a book of signed
    digests: every request that was answered is in this sequence once and with
    its answer, it takes effect after it arrived and before its answer was
    given (so the order of requests that did not overlap is kept), and what the
    API holds at any time is what the sequence so far makes.  A request has no
    effect only if its client hung up or it was turned away, at a moment when
    another one held the lock. *)
Theorem linearizable a0 es1 es2 :
  let h1 := api_run (api_new a0) es1 in let h2 := api_run h1 es2 in
  exists before after,
    executes (MkWallet a0 ∅) before (wallet_of h1) /\ executes (wallet_of h1) after (wallet_of h2) /\
    NoDup (before ++ after).*1.*1 /\
    (forall id rq out, tasks h2 !! id = Some (rq, Done out) -> (id, rq, out) ∈ before ++ after) /\
    (forall id rq out, (id, rq, out) ∈ before -> exists p, tasks h1 !! id = Some (rq, p)) /\
    (forall id rq out, (id, rq, out) ∈ after -> forall rq' out', tasks h1 !! id <> Some (rq', Done out')) /\
    (forall id rq, (id, rq, failed SigningInProgress) ∈ before ++ after ->
       exists es, es `prefix_of` es1 ++ es2 /\
         exists id' rq' p', id' <> id /\ tasks (api_run (api_new a0) es) !! id' = Some (rq', p') /\ holding p' = true).
Proof.
  intros h1 h2. set (h0 := api_new a0) in *. assert (inv h0) as Hinv by apply inv_new.
  assert (history h0 (es1 ++ es2) = history h0 es1 ++ history h1 es2) as Happ by apply history_app.
  assert (forall id rq p, decided h1 id = Some (rq, p) -> exists p', tasks h1 !! id = Some (rq, p')) as Hdec.
  { intros id rq p H. unfold decided in H. destruct (tasks h1 !! id) as [[rq1 p1]|]; [|done]. cbn in H.
    destruct (settled p1); [|done]. injection H as -> _. eauto. }
  exists (history h0 es1), (history h1 es2). rewrite <- Happ. split_and!.
  - exact (history_executes es1 h0 Hinv).
  - exact (history_executes es2 h1 (run_inv es1 h0 Hinv)).
  - apply history_NoDup.
  - intros id rq out H. apply history_spec. split; [done|].
    unfold api_run. rewrite foldl_app. fold (api_run h0 es1) h1. fold (api_run h1 es2) h2.
    unfold decided. by rewrite H.
  - intros id rq out [_ H]%history_spec. by apply Hdec in H.
  - intros id rq out [H _]%history_spec rq' out' E. unfold decided in H. by rewrite E in H.
  - intros id rq H. apply history_busy in H as (es & Hp & [Ho Hn]%andb_true_iff); [|done]. exists es. split; [done|].
    apply (inv_op _ (run_inv es _ Hinv)) in Ho as (id' & rq' & p' & Hid & Hh). exists id', rq', p'. split_and!; [|done|done].
    intros ->. by rewrite Hid, Hh in Hn.
Qed.
End Linear.

(** ** Two racing requests for one digest *)
Example demo_history : (fun x => x.1.1) <$> history demo_start demo_events = [0; 1]%nat.
Proof. vm_compute. reflexivity. Qed.

Definition demo_middle : api (N := EthereumNetwork) := api_run demo_start (take 6 demo_events).

Lemma demo_split : api_run demo_middle (drop 6 demo_events) = demo_run.
Proof. unfold demo_middle, demo_run, api_run. by rewrite <- foldl_app, take_drop. Qed.

Lemma demo_answered_1 : exists resp, answered demo_run 1 (PostSign Ethereum demo_raw) (Ok (SignOk resp)).
Proof. apply answered_sign_inv. vm_compute. reflexivity. Qed.

Lemma linearizable_witness :
  exists before after,
    executes (MkWallet (Some demo_pk) ∅) before (wallet_of demo_middle) /\
    executes (wallet_of demo_middle) after (wallet_of demo_run) /\
    exists resp, (1%nat, PostSign Ethereum demo_raw, Answered (Ok (SignOk resp))) ∈ before ++ after.
Proof.
  destruct (linearizable (N := EthereumNetwork) (Some demo_pk) (take 6 demo_events) (drop 6 demo_events))
    as (before & after & H1 & H2 & _ & H3 & _).
  change (api_run (api_new (Some demo_pk)) (take 6 demo_events)) with demo_middle in H1, H2, H3.
  rewrite demo_split in H2, H3. destruct demo_answered_1 as [resp Hr].
  exists before, after. split; [exact H1|]. split; [exact H2|]. exists resp. apply H3. exact Hr.
Defined.
