(* ===== verification/Carbon.v ===== *)
(** * The DKLs23 adapter ([crates/sovra-mpc-dkls23-carbon])

    The per-party ceremonies over the third-party DKLs23 library: its
    session phases mapped onto envelope rounds, the shard codec, the routing
    of per-recipient payloads, and the checks made before the relay is
    touched and after the protocol ends.  The library (its types, phases and
    bincode encodings) and k256 are the interface [Dkls]; a ceremony runs
    over the exchange of [Exchange], an outgoing relay and the traffic that
    arrives. *)

From S2P Require Import Prelude Types Mpc Envelope Exchange.
From Stdlib Require Import String NArith Lia.
From stdpp Require Import base decidable list strings.
Open Scope string_scope. Open Scope list_scope.

(** A serde type's bincode form. *)
Record Bin (A : Type) : Type := MkBin { ser : A -> bytes; de_opt : bytes -> option A }.
Arguments MkBin {A} _ _.
Arguments ser {A} _ _.
Arguments de_opt {A} _ _.
Definition bin_ok {A} (b : Bin A) : Prop := forall a, de_opt b (ser b a) = Some a.

(** ** The library.  Coins are the randomness a session draws. *)
Class Dkls : Type := {
  Coins : Type;
  (* parameters and indices *)
  Parameters : Type;
  params_new : u8 -> u8 -> result string Parameters;
  par_threshold : Parameters -> u8;
  par_share_count : Parameters -> u8;
  PartyIndex : Type;
  index_eq_dec :: EqDecision PartyIndex;
  index_new : u8 -> option PartyIndex;
  index_u8 : PartyIndex -> u8;
  (* aborts *)
  Abort : Type;
  ban_counterparty : Abort -> option PartyIndex;   (* AbortKind::BanCounterparty *)
  description : Abort -> string;
  (* a party's shard *)
  Party : Type;
  party_index : Party -> PartyIndex;
  parameters : Party -> Parameters;
  AffinePoint : Type;
  party_pk : Party -> AffinePoint;
  sec1_compressed : AffinePoint -> bytes;
  (* messages *)
  Scalar : Type; ProofCommitment : Type; Bip2 : Type; Bip3 : Type;
  Zero2 : Type; Zero3 : Type; Mul3 : Type;
  Transmit1 : Type; Transmit2 : Type; Broadcast3 : Type;
  zero2_receiver : Zero2 -> PartyIndex;
  zero3_receiver : Zero3 -> PartyIndex;
  mul3_receiver : Mul3 -> PartyIndex;
  t1_receiver : Transmit1 -> PartyIndex;
  t2_receiver : Transmit2 -> PartyIndex;
  bin_party : Bin Party;
  bin_scalar : Bin Scalar;
  bin_zero2s : Bin (list Zero2);
  bin_proof_bip2 : Bin (ProofCommitment * Bip2);
  bin_proof : Bin ProofCommitment;
  bin_bip3 : Bin Bip3;
  bin_zero_mul : Bin (list Zero3 * list Mul3);
  bin_t1s : Bin (list Transmit1);
  bin_t2s : Bin (list Transmit2);
  bin_broadcast3 : Bin Broadcast3;
  (* key generation *)
  DkgSession : Type;
  dkg_new : Parameters -> PartyIndex -> bytes -> Coins -> DkgSession;
  dkg_phase1 : DkgSession -> list Scalar * DkgSession;
  dkg_phase2 : DkgSession -> list Scalar ->
    result Abort (ProofCommitment * list Zero2 * Bip2 * DkgSession);
  dkg_phase3 : DkgSession -> result Abort (list Zero3 * list Mul3 * Bip3 * DkgSession);
  dkg_phase4 : DkgSession -> list ProofCommitment -> list Zero2 -> list Zero3 -> list Mul3 ->
    BTree.t Bip2 -> BTree.t Bip3 -> result Abort Party;
  (* refresh *)
  Correction : Type; ZeroKeep2 : Type; ZeroKeep3 : Type; MulKeep : Type;
  refresh_phase1 : Party -> Coins -> list Scalar;
  refresh_phase2 : Party -> Coins -> bytes -> list Scalar ->
    Correction * ProofCommitment * ZeroKeep2 * list Zero2;
  refresh_phase3 : Party -> Coins -> bytes -> ZeroKeep2 -> ZeroKeep3 * list Zero3 * MulKeep * list Mul3;
  refresh_phase4 : Party -> bytes -> Correction -> list ProofCommitment -> ZeroKeep3 -> list Zero2 ->
    list Zero3 -> MulKeep -> list Mul3 -> result Abort Party;
  (* signing: the session id, the counterparties and the digest *)
  SignSession : Type;
  sign_new : Party -> bytes * list PartyIndex * B256 -> Coins -> result Abort (SignSession * list Transmit1);
  sign_phase2 : SignSession -> list Transmit1 -> result Abort (list Transmit2 * SignSession);
  sign_phase3 : SignSession -> list Transmit2 -> result Abort (Broadcast3 * SignSession);
  sign_phase4 : SignSession -> list Broadcast3 -> bool -> result Abort (array 32 * array 32);
  (* k256: a signature's 64 bytes, and recovery *)
  Signature : Type;
  signature_from_slice : bytes -> result string Signature;
  WalletKey : Type;
  wallet_eq_dec :: EqDecision WalletKey;
  wallet_from_sec1 : bytes -> option WalletKey;
  recover_from_prehash : B256 -> Signature -> bool -> option WalletKey;
}.

(** What the library documents and the code relies on. *)
Class DklsLaws (D : Dkls) : Prop := {
  (* an index is a nonzero u8 *)
  index_new_some : forall x, wval x <> 0%N -> exists i, index_new x = Some i /\ index_u8 i = x;
  index_u8_inj : forall i j, index_u8 i = index_u8 j -> i = j;
  (* the scheme bounds are checked at construction *)
  params_bounds : forall t n p, params_new t n = Ok p ->
    par_threshold p = t /\ par_share_count p = n /\ (2 <= wval t <= wval n)%N;
  (* points compress to 33-byte SEC1 keys that parse back: the model's points
     are those other than the identity, which k256 compresses to one byte; the
     code assumes the same where it says that a curve point always compresses
     to 33 bytes (convert.rs, [compress_pk]) *)
  sec1_wellformed : forall pk, exists k, from_slice (sec1_compressed pk) = Ok k;
  sec1_parses : forall pk, exists k, wallet_from_sec1 (sec1_compressed pk) = Some k;
  (* bincode round-trips *)
  bin_party_ok : bin_ok bin_party;
  bin_scalar_ok : bin_ok bin_scalar;
  bin_zero_mul_ok : bin_ok bin_zero_mul;
  bin_zero2s_ok : bin_ok bin_zero2s;
  bin_proof_bip2_ok : bin_ok bin_proof_bip2;
  bin_proof_ok : bin_ok bin_proof;
  bin_bip3_ok : bin_ok bin_bip3;
  bin_t1s_ok : bin_ok bin_t1s;
  bin_t2s_ok : bin_ok bin_t2s;
  bin_broadcast3_ok : bin_ok bin_broadcast3;
  (* one fragment per party *)
  dkg_fragments : forall p i sid c, length (fst (dkg_phase1 (dkg_new p i sid c))) = N.to_nat (wval (par_share_count p));
  refresh_fragments : forall p c, length (refresh_phase1 p c) = N.to_nat (wval (par_share_count (parameters p)));
}.

Section Carbon.
Context {C : Crypto} {D : Dkls}.

(** ** Errors *)
(* src carbon/lib.rs:32-40 fail *)
Definition fail (op : u8) : msg -> MpcError :=
  if bool_decide (op = op_SIGN) then Mpc.Sign else Mpc.Dkg.

(* src carbon/lib.rs:47-56 de *)
Definition de {A} (b : Bin A) (raw : bytes) (from : u8) (what : string) (op : u8) : result MpcError A :=
  ok_or (fail op [Lit "party "; Num (wval from); Lit " sent an undecodable "; Lit what]) (de_opt b raw).

(** ** Indices and keys *)
(** [PartyIndex::new(id.wrapping_add(1)).expect(..)]. *)
(* src carbon/convert.rs:33-40 cidx *)
Definition cidx (party_id : u8) : result stop PartyIndex :=
  ok_or (Panic "party id 255 cannot exist in a valid roster") (index_new (wmod 8 (wval party_id + 1))).

(* src carbon/convert.rs:42-45 sidx *)
Definition sidx (index : PartyIndex) : u8 := wmod 8 (wval (index_u8 index) - 1).

(* src carbon/lib.rs:58-77 map_abort *)
Definition map_abort (op : u8) (a : Abort) : MpcError :=
  match ban_counterparty a with
  | Some p => fail op [Lit "aborted; party "; Num (wval (sidx p));
                       Lit " must be permanently banned before any retry: "; Txt (description a)]
  | None => fail op [Txt (description a)]
  end.

(* src carbon/convert.rs:47-52 compress_pk *)
Definition compress_pk (pk : AffinePoint) : result stop PubkeySec1 :=
  map_err (fun _ => Panic "a curve point always compresses to a valid 33-byte SEC1 key")
          (from_slice (sec1_compressed pk)).

(* src carbon/convert.rs:11-31 scheme *)
Definition scheme (ctx : PartyContext) : result stop (Parameters * PartyIndex) :=
  let n := N.of_nat (length (party_vks ctx)) in
  if negb (N.leb 2 n && N.leb n 255) then
    Err (Fail (Mpc.Dkg [Lit "roster must have 2..=255 parties, has "; Num n]))
  else if N.leb n (wval (party_id ctx)) then
    Err (Fail (Mpc.Dkg [Lit "party id "; Num (wval (party_id ctx)); Lit " out of range for "; Num n; Lit " parties"]))
  else
    let? parameters := map_err (fun e => Fail (Mpc.Dkg [Lit "invalid scheme "; Num (wval (threshold ctx));
                          Lit "-of-"; Num n; Lit ": "; Txt e]))
                         (params_new (threshold ctx) (wmod 8 n)) in
    let? i := cidx (party_id ctx) in
    Ok (parameters, i).

(** ** The shard codec *)
(* src carbon/shard.rs:20-21 MAGIC *)
Definition MAGIC : bytes := bstr "SVRC".
Definition VERSION : u8 := wmod 8 1.

(* src carbon/shard.rs:23-30 encode *)
Definition shard_encode (p : Party) : KeyShare := MAGIC ++ [VERSION] ++ ser bin_party p.

(* src carbon/shard.rs:32-42 decode *)
Definition shard_decode (share : KeyShare) : result MpcError Party :=
  let? rest := ok_or Deserialize (strip_pfx MAGIC share) in
  match rest with
  | [] => Err Deserialize
  | version :: body =>
      if negb (bool_decide (version = VERSION)) then Err Deserialize
      else ok_or Deserialize (de_opt bin_party body)
  end.

(* src carbon/shard.rs:44-68 decode_for *)
Definition decode_for (share : KeyShare) (party_id threshold share_count op : u8) : result stop Party :=
  let? party := map_err Fail (shard_decode share) in
  let? me := cidx party_id in
  if negb (bool_decide (party_index party = me))
     || negb (bool_decide (par_threshold (parameters party) = threshold))
     || negb (bool_decide (par_share_count (parameters party) = share_count))
  then Err (Fail (fail op [Lit "keyshare/scheme mismatch: shard is party "; Num (wval (sidx (party_index party)));
         Lit " of "; Num (wval (par_threshold (parameters party))); Lit "-of-";
         Num (wval (par_share_count (parameters party))); Lit ", ceremony runs as party ";
         Num (wval party_id); Lit " of "; Num (wval threshold); Lit "-of-"; Num (wval share_count)]))
  else Ok party.

(* src carbon/lib.rs:114-116 CarbonRunner::public_key_of *)
Definition shard_public_key (share : KeyShare) : result stop PubkeySec1 :=
  let? party := map_err Fail (shard_decode share) in compress_pk (party_pk party).

(** ** Routing *)
(** [grouped.entry(k).or_default()], updated. *)
Definition entry {V} (d : V) (k : u8) (f : V -> V) (m : BTree.t V) : BTree.t V :=
  BTree.insert k (f (default d (BTree.get k m))) m.

Definition grouped {T} (receiver : T -> u8) (items : list T) : BTree.t (list T) :=
  foldl (fun m item => entry [] (receiver item) (fun l => l ++ [item]) m) [] items.

Definition values {V W} (f : V -> W) (m : BTree.t V) : BTree.t W := prod_map id f <$> m.

(* src carbon/rounds.rs:47-58 route *)
Definition route {T} (b : Bin (list T)) (items : list T) (receiver : T -> u8) : BTree.t bytes :=
  values (ser b) (grouped receiver items).

(* src carbon/rounds.rs:60-72 gather *)
Fixpoint gather {T} (b : Bin (list T)) (p2p : BTree.t bytes) (what : string) (op : u8)
  : result MpcError (list T) :=
  match p2p with
  | [] => Ok []
  | (p, raw) :: p2p =>
      let? l := de b raw p what op in
      let? rest := gather b p2p what op in
      Ok (l ++ rest)
  end.

(* src carbon/rounds.rs:74-101 route_zero_mul *)
Definition route_zero_mul (zero : list Zero3) (mul : list Mul3) : BTree.t bytes :=
  let with_zero := foldl (fun m z => entry ([], []) (sidx (zero3_receiver z))
                            (fun v => (fst v ++ [z], snd v)) m) [] zero in
  let with_mul := foldl (fun m x => entry ([], []) (sidx (mul3_receiver x))
                            (fun v => (fst v, snd v ++ [x])) m) with_zero mul in
  values (ser bin_zero_mul) with_mul.

(* src carbon/rounds.rs:109-121 gather_zero_mul *)
Fixpoint gather_zero_mul (p2p : BTree.t bytes) (what : string) (op : u8)
  : result MpcError (list Zero3 * list Mul3) :=
  match p2p with
  | [] => Ok ([], [])
  | (p, raw) :: p2p =>
      let? (z, m) := de bin_zero_mul raw p what op in
      let? (zs, ms) := gather_zero_mul p2p what op in
      Ok (z ++ zs, m ++ ms)
  end.

(** ** Ceremonies: the exchange, the outgoing relay and the incoming traffic. *)
Section Ceremony.
Context {R : Type}.
Variable relay_send : SignedEnvelope -> M R MpcError unit.
(** The randomness drawn to seal each round's payload to each recipient. *)
Variable rng : u8 -> u8 -> array 32 * array 24.

Record net : Type := MkNet { ex : Exchange; out : R; incoming : list event }.
Definition Run (A : Type) : Type := M net stop A.

Definition send_round_ (rnd : u8) (ob : RoundOutbox) : Run unit :=
  fun s => let (x, o) := send_round relay_send (rng rnd) (ex s) rnd ob (out s) in
           (x, MkNet (ex s) o (incoming s)).
Definition recv_round_ (rnd : u8) (expect : Expect) : Run RoundInbox :=
  fun s => match recv_round (ex s) rnd expect (incoming s) with
           | Ok (inbox, ex', rest) => (Ok inbox, MkNet ex' (out s) rest)
           | Err e => (Err (Fail e), s)
           end.
Definition try_ {A} (x : result MpcError A) : Run A := mlift (map_err Fail x).
Definition lib {A} (op : u8) (x : result Abort A) : Run A := try_ (map_err (map_abort op) x).

(** [(0..n).collect::<Vec<u8>>()]. *)
Definition ids (n : nat) : list u8 := (fun k => wmod 8 (N.of_nat k)) <$> seq 0 n.

(** The p2p half of round 1: fragment [j] for party [j], except our own. *)
(* src carbon/rounds.rs:28-33 share_fragments *)
Fixpoint fragment_outbox (me : u8) (j : nat) (fragments : list Scalar) : BTree.t bytes -> BTree.t bytes :=
  match fragments with
  | [] => id
  | fragment :: fragments => fun m =>
      let to := wmod 8 (N.of_nat j) in
      fragment_outbox me (S j) fragments
        (if bool_decide (to = me) then m else BTree.insert to (ser bin_scalar fragment) m)
  end.

(** Indexing an inbox: [inbox[&p]]. *)
Definition at_key (m : BTree.t bytes) (p : u8) : result stop bytes :=
  ok_or (Panic "no entry found for key") (BTree.get p m).

(* src carbon/rounds.rs:36-43 share_fragments *)
Definition fragment_of (me : u8) (fragments : list Scalar) (inbox : RoundInbox) (what : string) (op p : u8)
  : result stop Scalar :=
  if bool_decide (p = me) then
    ok_or (Panic "index out of bounds") (fragments !! N.to_nat (wval p))
  else
    let? raw := at_key (p2p inbox) p in
    map_err Fail (de bin_scalar raw p what op).

(* src carbon/rounds.rs:17-45 share_fragments *)
Definition share_fragments (me : u8) (fragments : list Scalar) (what : string) (op : u8) : Run (list Scalar) :=
  let! _ := send_round_ (wmod 8 1) (MkOutbox None (fragment_outbox me 0 fragments [])) in
  let! inbox := recv_round_ (wmod 8 1) P2p in
  mlift (collect (fragment_of me fragments inbox what op <$>
                  ids (N.to_nat (wval (wmod 8 (N.of_nat (length fragments))))))).

(** *** Key generation *)
(** Everyone's round-2 broadcast, by id; our own is not sent to ourselves. *)
(* src carbon/keygen.rs:68-83 keygen_party *)
Fixpoint round2_broadcasts (me : u8) (mine : ProofCommitment * Bip2) (inbox : RoundInbox) (all : list u8)
  : result stop (list ProofCommitment * BTree.t Bip2) :=
  match all with
  | [] => Ok ([], [])
  | p :: all =>
      let? (proof, bip) :=
        if bool_decide (p = me) then Ok mine
        else let? raw := at_key (broadcasts inbox) p in
             map_err Fail (de bin_proof_bip2 raw p "dkg round-2 broadcast" op_DKG) in
      let? i := cidx p in
      let? (proofs, bips) := round2_broadcasts me mine inbox all in
      Ok (proof :: proofs, BTree.insert (index_u8 i) bip bips)
  end.

(* src carbon/keygen.rs:99-104 keygen_party *)
Fixpoint round3_broadcasts (l : BTree.t bytes) (m : BTree.t Bip3) : result stop (BTree.t Bip3) :=
  match l with
  | [] => Ok m
  | (p, raw) :: l =>
      let? i := cidx p in
      let? b := map_err Fail (de bin_bip3 raw p "dkg round-3 broadcast" op_DKG) in
      round3_broadcasts l (BTree.insert (index_u8 i) b m)
  end.

(** The exchange opened on a ceremony's participants. *)
Definition open_exchange (ctx : PartyContext) (op : u8) (participants : list u8) : Run unit :=
  fun s => (Ok tt, MkNet (exchange_new ctx op participants) (out s) (incoming s)).

(* src carbon/keygen.rs:35-120 keygen_party *)
Definition keygen_party (ctx : PartyContext) (coins : Coins) : Run (KeyShare * PubkeySec1) :=
  let! (params, my_index) := mlift (scheme ctx) in
  let me := party_id ctx in
  let all := ids (N.to_nat (wval (par_share_count params))) in
  let! _ := open_exchange ctx op_DKG all in
  let (fragments, session) := dkg_phase1 (dkg_new params my_index (arr (Mpc.instance ctx)) coins) in
  let! poly_fragments := share_fragments me fragments "dkg round-1 fragment" op_DKG in
  let! (my_proof, zero2_out, my_bip2, session) := lib op_DKG (dkg_phase2 session poly_fragments) in
  let! _ := send_round_ (wmod 8 2) (MkOutbox (Some (ser bin_proof_bip2 (my_proof, my_bip2)))
              (route bin_zero2s zero2_out (fun m => sidx (zero2_receiver m)))) in
  let! inbox := recv_round_ (wmod 8 2) Both in
  let! (proofs, bip2) := mlift (round2_broadcasts me (my_proof, my_bip2) inbox all) in
  let! zero2_in := try_ (gather bin_zero2s (p2p inbox) "dkg round-2 zero-share" op_DKG) in
  let! (zero3_out, mul3_out, my_bip3, session) := lib op_DKG (dkg_phase3 session) in
  let! _ := send_round_ (wmod 8 3) (MkOutbox (Some (ser bin_bip3 my_bip3)) (route_zero_mul zero3_out mul3_out)) in
  let! inbox := recv_round_ (wmod 8 3) Both in
  let! bip3 := mlift (round3_broadcasts (broadcasts inbox) [(index_u8 my_index, my_bip3)]) in
  let! (zero3_in, mul3_in) := try_ (gather_zero_mul (p2p inbox) "dkg round-3 transmits" op_DKG) in
  let! party := lib op_DKG (dkg_phase4 session proofs zero2_in zero3_in mul3_in bip2 bip3) in
  let! pk := mlift (compress_pk (party_pk party)) in
  mpure (shard_encode party, pk).

(** *** Refresh *)
(* src carbon/refresh.rs:71-83 refresh_party *)
Definition round2_proof (me : u8) (mine : ProofCommitment) (inbox : RoundInbox) (p : u8)
  : result stop ProofCommitment :=
  if bool_decide (p = me) then Ok mine
  else let? raw := at_key (broadcasts inbox) p in
       map_err Fail (de bin_proof raw p "refresh round-2 proof" op_REFRESH).

(* src carbon/refresh.rs:35-44 refresh_party *)
Definition refresh_checks (ctx : PartyContext) (share : KeyShare) (public_key : PubkeySec1)
  : result stop (Parameters * Party) :=
  let? (params, _) := scheme ctx in
  let? party := decode_for share (party_id ctx) (threshold ctx) (par_share_count params) op_REFRESH in
  let? pk := compress_pk (party_pk party) in
  if negb (bool_decide (pk = public_key)) then
    Err (Fail (PartyMismatch [Lit "expected public key does not match this party's shard"]))
  else Ok (params, party).

(* src carbon/refresh.rs:29-124 refresh_party *)
Definition refresh_party (ctx : PartyContext) (share : KeyShare) (public_key : PubkeySec1) (coins : Coins)
  : Run (KeyShare * PubkeySec1) :=
  let! (params, party) := mlift (refresh_checks ctx share public_key) in
  let me := party_id ctx in
  let sid := arr (Mpc.instance ctx) in
  let all := ids (N.to_nat (wval (par_share_count params))) in
  let! _ := open_exchange ctx op_REFRESH all in
  let! poly_fragments := share_fragments me (refresh_phase1 party coins) "refresh round-1 fragment" op_REFRESH in
  let '(correction, my_proof, zero_keep23, zero2_out) := refresh_phase2 party coins sid poly_fragments in
  let! _ := send_round_ (wmod 8 2) (MkOutbox (Some (ser bin_proof my_proof))
              (route bin_zero2s zero2_out (fun m => sidx (zero2_receiver m)))) in
  let! inbox := recv_round_ (wmod 8 2) Both in
  let! proofs := mlift (collect (round2_proof me my_proof inbox <$> all)) in
  let! zero2_in := try_ (gather bin_zero2s (p2p inbox) "refresh round-2 zero-share" op_REFRESH) in
  let '(zero_keep34, zero3_out, mul_keep, mul3_out) := refresh_phase3 party coins sid zero_keep23 in
  let! _ := send_round_ (wmod 8 3) (MkOutbox None (route_zero_mul zero3_out mul3_out)) in
  let! inbox := recv_round_ (wmod 8 3) P2p in
  let! (zero3_in, mul3_in) := try_ (gather_zero_mul (p2p inbox) "refresh round-3 transmits" op_REFRESH) in
  let! new_party := lib op_REFRESH (refresh_phase4 party sid correction proofs zero_keep34 zero2_in zero3_in
                                      mul_keep mul3_in) in
  let! pk := mlift (compress_pk (party_pk new_party)) in
  if negb (bool_decide (pk = public_key)) then
    mabort (Fail (PartyMismatch [Lit "refresh produced a different public key"]))
  else mpure (shard_encode new_party, pk).

(** *** Signing *)
(** The subset and shard checks, before the relay is touched. *)
(* src carbon/sign.rs:42-60 sign_party *)
Definition sign_checks (ctx : PartyContext) (share : KeyShare) (subset : list u8) : result stop Party :=
  let n := N.of_nat (length (party_vks ctx)) in
  if negb (ascending (wval <$> subset)) || existsb (fun p => N.leb n (wval p)) subset then
    Err (Fail (Mpc.Sign [Lit "invalid signing subset "; Nums (wval <$> subset);
                         Lit ": must be strictly ascending party ids < "; Num n]))
  else if negb (contains (party_id ctx) subset) then
    Err (Fail (Mpc.Sign [Lit "party "; Num (wval (party_id ctx)); Lit " is not in signing subset ";
                         Nums (wval <$> subset)]))
  else decode_for share (party_id ctx) (wmod 8 (N.of_nat (length subset))) (wmod 8 n) op_SIGN.

(* src carbon/sign.rs:121-128 sign_party *)
Fixpoint round3_shares (l : BTree.t bytes) : result MpcError (list Broadcast3) :=
  match l with
  | [] => Ok []
  | (p, raw) :: l =>
      let? b := de bin_broadcast3 raw p "sign round-3 broadcast" op_SIGN in
      let? rest := round3_shares l in
      Ok (b :: rest)
  end.

(** Trial recovery: the parity that recovers to the wallet key. *)
(* src carbon/sign.rs:134-158 sign_party *)
Definition finish_signature (party : Party) (digest : B256) (r s : array 32) : result stop EcdsaParts :=
  let? signature := map_err (fun e => Fail (Mpc.Sign [Lit "protocol produced a malformed signature: "; Txt e]))
                      (signature_from_slice (arr r ++ arr s)) in
  let? pk := compress_pk (party_pk party) in
  let? wallet := ok_or (Panic "a shard's public key is a valid curve point")
                   (wallet_from_sec1 (arr (as_bytes pk))) in
  let recovers odd := bool_decide (recover_from_prehash digest signature odd = Some wallet) in
  let? y_parity := if recovers false then Ok false
                   else if recovers true then Ok true
                   else Err (Fail (Mpc.Sign [Lit "signature does not recover to the wallet public key"])) in
  Ok (to_ecdsa_parts r s y_parity).

(* src carbon/sign.rs:35-158 sign_party *)
Definition sign_party (ctx : PartyContext) (share : KeyShare) (digest : B256) (subset : list u8)
    (coins : Coins) : Run EcdsaParts :=
  let! party := mlift (sign_checks ctx share subset) in
  let! counterparties := mlift (collect (cidx <$> filter (fun p => p <> party_id ctx) subset)) in
  let! (session, t1_out) := lib op_SIGN (sign_new party (arr (Mpc.instance ctx), counterparties, digest) coins) in
  let! _ := open_exchange ctx op_SIGN subset in
  let! _ := send_round_ (wmod 8 1) (MkOutbox None (route bin_t1s t1_out (fun m => sidx (t1_receiver m)))) in
  let! inbox := recv_round_ (wmod 8 1) P2p in
  let! received1 := try_ (gather bin_t1s (p2p inbox) "sign round-1 transmit" op_SIGN) in
  let! (t2_out, session) := lib op_SIGN (sign_phase2 session received1) in
  let! _ := send_round_ (wmod 8 2) (MkOutbox None (route bin_t2s t2_out (fun m => sidx (t2_receiver m)))) in
  let! inbox := recv_round_ (wmod 8 2) P2p in
  let! received2 := try_ (gather bin_t2s (p2p inbox) "sign round-2 transmit" op_SIGN) in
  let! (my_broadcast, session) := lib op_SIGN (sign_phase3 session received2) in
  let! _ := send_round_ (wmod 8 3) (MkOutbox (Some (ser bin_broadcast3 my_broadcast)) []) in
  let! inbox := recv_round_ (wmod 8 3) Broadcasts in
  let! others := try_ (round3_shares (broadcasts inbox)) in
  let! (r, s) := lib op_SIGN (sign_phase4 session (my_broadcast :: others) true) in
  mlift (finish_signature party digest r s).
End Ceremony.
End Carbon.

(** ** Reasoning about a run: it never panics, and what it returns satisfies
    the postcondition. *)
Section Safe.
Context {C : Crypto} {D : Dkls} {R : Type}.
Implicit Types s : net (R := R).

Definition safe {A} (m : Run (R := R) A) s (Q : A -> net -> Prop) : Prop :=
  match m s with
  | (Ok a, s') => Q a s'
  | (Err (Fail _), _) => True
  | (Err (Panic _), _) => False
  end.
Definition no_panic {A} (x : result stop A) : Prop := forall w, x <> Err (Panic w).

Lemma safe_bind {A B} (m : Run A) (f : A -> Run B) s Q :
  safe m s (fun a s' => safe (f a) s' Q) -> safe (mbnd m f) s Q.
Proof. unfold safe, mbnd. by destruct (m s) as [[a|[]] s']. Qed.

Lemma safe_pure {A} (a : A) s (Q : A -> net -> Prop) : Q a s -> safe (mpure a) s Q.
Proof. done. Qed.

Lemma safe_lift {A} (x : result stop A) s (Q : A -> net -> Prop) :
  no_panic x -> (forall a, x = Ok a -> Q a s) -> safe (mlift x) s Q.
Proof. unfold safe, mlift. destruct x as [a|[e|w]]; intros Hn HQ; [by apply HQ|done|by destruct (Hn w)]. Qed.

Lemma safe_try {A} (x : result MpcError A) s (Q : A -> net -> Prop) :
  (forall a, x = Ok a -> Q a s) -> safe (try_ x) s Q.
Proof. intros HQ. apply safe_lift; [by destruct x|]. intros a. rewrite map_err_Ok. apply HQ. Qed.

Lemma safe_lib {A} op (x : result Abort A) s (Q : A -> net -> Prop) :
  (forall a, x = Ok a -> Q a s) -> safe (lib op x) s Q.
Proof. intros HQ. apply safe_try. intros a. rewrite map_err_Ok. apply HQ. Qed.

(** The exchange of a ceremony among [ps], whose members are on the roster. *)
Definition exchanging (c : PartyContext) (ps : list u8) s : Prop :=
  Exchange.ctx (ex s) = c /\ peers (ex s) = filter (fun p => p <> party_id c) ps /\
  (forall p, p ∈ ps -> (N.to_nat (wval p) < length (party_vks c))%nat).

Lemma safe_open c op ps s (Q : unit -> net -> Prop) :
  (forall p, p ∈ ps -> (N.to_nat (wval p) < length (party_vks c))%nat) ->
  (forall s', exchanging c ps s' -> Q tt s') -> safe (open_exchange c op ps) s Q.
Proof. intros Hr HQ. apply HQ. done. Qed.

Lemma safe_send relay_send rng rnd ob c ps s (Q : unit -> net -> Prop) :
  exchanging c ps s -> (forall s', exchanging c ps s' -> Q tt s') ->
  safe (send_round_ relay_send rng rnd ob) s Q.
Proof.
  intros (Hc & Hp & Hr) HQ. unfold safe, send_round_.
  destruct (send_round relay_send (rng rnd) (ex s) rnd ob (out s)) as [[[]|[e|w]] o] eqn:E; [|done|].
  - by apply HQ.
  - apply send_round_no_panic in E; [done|]. rewrite Hc, Hp.
    intros p [_ Hin]%list_elem_of_filter. by apply Hr.
Qed.

Lemma safe_recv rnd expect c ps s (Q : RoundInbox -> net -> Prop) :
  exchanging c ps s ->
  (forall inbox s', exchanging c ps s' ->
     (forall k p, wanted expect k = true -> p ∈ ps -> p <> party_id c ->
        is_Some (BTree.get p (slot k inbox))) ->
     (forall k p, is_Some (BTree.get p (slot k inbox)) -> p ∈ ps) -> Q inbox s') ->
  safe (recv_round_ rnd expect) s Q.
Proof.
  intros (Hc & Hp & Hr) HQ. unfold safe, recv_round_.
  destruct (recv_round (ex s) rnd expect (incoming s)) as [[[inbox ex'] rest]|e] eqn:E; [|done].
  apply recv_round_spec in E as (pre & _ & (Hc' & _ & Hp') & _ & Hmail & Hcol & Hall). apply HQ.
  - unfold exchanging; simpl. rewrite Hc', Hp'. done.
  - intros k p Hw Hin Hne. apply Hall; [done|]. rewrite Hp. by apply list_elem_of_filter.
  - intros k p [b Hb]. rewrite Hcol in Hb. apply collected_Some in Hb as (sv & _ & Hcur & _ & <- & _).
    unfold current, genuine, foreign in Hcur.
    apply andb_true_iff in Hcur as [[Hf%negb_true_iff _]%andb_true_iff _].
    apply orb_false_iff in Hf as [_ Hin%negb_false_iff%contains_true].
    rewrite Hp in Hin. by apply list_elem_of_filter in Hin as [_ Hin].
Qed.

(** *** Pure pieces *)
Lemma collect_no_panic {A} (l : list (result stop A)) :
  (forall x, x ∈ l -> no_panic x) -> no_panic (collect l).
Proof.
  intros Hl w Hw. apply collect_Err in Hw. by apply (Hl _ Hw w).
Qed.

Lemma map_err_no_panic {A} (x : result MpcError A) : no_panic (map_err Fail x).
Proof. by destruct x. Qed.

Lemma rbind_no_panic {A B} (x : result stop A) (f : A -> result stop B) :
  no_panic x -> (forall a, x = Ok a -> no_panic (f a)) -> no_panic (rbind x f).
Proof. intros Hx Hf w. destruct x as [a|e]; simpl; [by apply Hf|]. intros [= ->]. by apply (Hx w). Qed.

Lemma elem_of_ids p n : (n <= 256)%nat -> p ∈ ids n <-> (wval p < N.of_nat n)%N.
Proof.
  intros Hn. unfold ids. rewrite list_elem_of_fmap. split.
  - intros (k & -> & Hk%elem_of_seq). rewrite wmod_small by (change (2 ^ 8)%N with 256%N; lia). lia.
  - intros Hp. exists (N.to_nat (wval p)). split; [|apply elem_of_seq; lia].
    by rewrite N2Nat.id, wmod_wval.
Qed.

Lemma cidx_Ok {DL : DklsLaws D} p :
  (wval p < 255)%N -> exists i, cidx p = Ok i /\ wval (index_u8 i) = (wval p + 1)%N.
Proof.
  intros Hp. assert (wval (wmod 8 (wval p + 1)) = (wval p + 1)%N) as Hw.
  { apply wmod_small. change (2 ^ 8)%N with 256%N. lia. }
  destruct (index_new_some (wmod 8 (wval p + 1))) as (i & Hi & Hu); [lia|].
  exists i. unfold cidx. by rewrite Hi, Hu.
Qed.

Lemma cidx_no_panic {DL : DklsLaws D} p : (wval p < 255)%N -> no_panic (cidx p).
Proof. intros Hp w. by destruct (cidx_Ok p Hp) as (i & -> & _). Qed.

Lemma compress_pk_total {DL : DklsLaws D} a :
  exists k, compress_pk a = Ok k /\ arr (as_bytes k) = sec1_compressed a.
Proof.
  destruct (sec1_wellformed a) as [k Hk]. exists k. unfold compress_pk. rewrite Hk. split; [done|].
  by apply from_slice_spec in Hk.
Qed.

Lemma shard_roundtrip {DL : DklsLaws D} p : shard_decode (shard_encode p) = Ok p.
Proof.
  unfold shard_decode, shard_encode. rewrite (proj2 (strip_pfx_Some MAGIC _ ([VERSION] ++ ser bin_party p))) by done.
  cbn [ok_or rbind app]. rewrite bool_decide_eq_true_2 by done. cbn [negb]. by rewrite bin_party_ok.
Qed.

Lemma shard_public_key_encode {DL : DklsLaws D} p k :
  compress_pk (party_pk p) = Ok k -> shard_public_key (shard_encode p) = Ok k.
Proof. intros Hk. unfold shard_public_key. by rewrite shard_roundtrip. Qed.

Lemma scheme_Ok {DL : DklsLaws D} ctx params i :
  scheme ctx = Ok (params, i) ->
  let n := length (party_vks ctx) in
  (2 <= n <= 255)%nat /\ (N.to_nat (wval (party_id ctx)) < n)%nat /\
  N.to_nat (wval (par_share_count params)) = n /\ par_threshold params = threshold ctx /\
  cidx (party_id ctx) = Ok i.
Proof.
  intros H. unfold scheme in H. destruct (N.leb 2 _ && _) eqn:Hn; [|done]. cbn [negb] in H.
  apply andb_true_iff in Hn as [H2%N.leb_le H255%N.leb_le].
  destruct (N.leb_spec (N.of_nat (length (party_vks ctx))) (wval (party_id ctx))) as [|Hlt]; [done|].
  apply rbind_Ok in H as (ps & Hps & H). apply map_err_Ok in Hps. apply rbind_Ok in H as (j & Hj & [= -> ->]).
  apply params_bounds in Hps as (Ht & Hc & _). rewrite Hc, wmod_small by (change (2 ^ 8)%N with 256%N; lia).
  split_and!; try done; lia.
Qed.

Lemma scheme_no_panic {DL : DklsLaws D} ctx : no_panic (scheme ctx).
Proof.
  unfold scheme. destruct (negb _) eqn:Hn; [done|]. destruct (N.leb_spec (N.of_nat (length (party_vks ctx))) (wval (party_id ctx))); [done|].
  apply negb_false_iff, andb_true_iff in Hn as [_ Hn%N.leb_le].
  apply rbind_no_panic; [by destruct (params_new _ _)|]. intros ps _.
  apply rbind_no_panic; [apply cidx_no_panic; lia|done].
Qed.

Lemma decode_for_no_panic {DL : DklsLaws D} share p t n op : (wval p < 255)%N -> no_panic (decode_for share p t n op).
Proof.
  intros Hp. apply rbind_no_panic; [apply map_err_no_panic|]. intros party _.
  apply rbind_no_panic; [by apply cidx_no_panic|]. intros i _. by destruct (_ || _).
Qed.

(** What a shard accepted for a ceremony is. *)
Lemma decode_for_Ok share p t n op party :
  decode_for share p t n op = Ok party <->
  shard_decode share = Ok party /\ cidx p = Ok (party_index party) /\
  par_threshold (parameters party) = t /\ par_share_count (parameters party) = n.
Proof.
  unfold decode_for. rewrite rbind_Ok. setoid_rewrite map_err_Ok. split.
  - intros (q & Hq & H). apply rbind_Ok in H as (i & Hi & H). destruct (_ || _) eqn:E; [done|].
    injection H as ->. apply orb_false_iff in E as [[H1 H2]%orb_false_iff H3].
    apply negb_false_iff, bool_decide_eq_true in H1, H2, H3. by rewrite H1.
  - intros (Hq & Hi & Ht & Hn). exists party. split; [done|]. rewrite Hi. cbn [rbind].
    by rewrite !bool_decide_eq_true_2.
Qed.
End Safe.

(** ** The ceremonies, verified *)
Section Ceremonies.
Context {C : Crypto} {D : Dkls} {DL : DklsLaws D} {R : Type}.
Variable relay_send : SignedEnvelope -> M R MpcError unit.
Variable rng : u8 -> u8 -> array 32 * array 24.

Abbreviation exchanging := (exchanging (R := R)).

Lemma fragments_count {A} (l : list A) :
  (length l <= 255)%nat -> N.to_nat (wval (wmod 8 (N.of_nat (length l)))) = length l.
Proof. intros Hl. rewrite wmod_small by (change (2 ^ 8)%N with 256%N; lia). lia. Qed.

Lemma at_key_no_panic m p : is_Some (BTree.get p m) -> no_panic (at_key m p).
Proof. intros [b Hb] w. unfold at_key. by rewrite Hb. Qed.

Lemma share_fragments_safe c fragments what op s (Q : list Scalar -> net -> Prop) :
  let n := length fragments in
  (n <= 255)%nat -> (N.to_nat (wval (party_id c)) < n)%nat -> exchanging c (ids n) s ->
  (forall fs s', exchanging c (ids n) s' -> Q fs s') ->
  safe (share_fragments relay_send rng (party_id c) fragments what op) s Q.
Proof.
  intros n Hn Hme Hex HQ. unfold share_fragments. rewrite (fragments_count fragments Hn). fold n.
  apply safe_bind, (safe_send _ _ _ _ c (ids n)); [done|]. intros s1 Hex1.
  apply safe_bind, (safe_recv _ _ c (ids n)); [done|]. intros inbox s2 Hex2 Hall _.
  apply safe_lift; [|intros fs _; by apply HQ]. apply collect_no_panic.
  intros x (p & -> & Hp)%list_elem_of_fmap. pose proof (proj1 (elem_of_ids p n ltac:(lia)) Hp) as Hlt.
  unfold fragment_of. case_bool_decide as Hpm.
  - intros w. destruct (lookup_lt_is_Some_2 fragments (N.to_nat (wval p))) as [f Hf]; [unfold n in *; lia|].
    by rewrite Hf.
  - apply rbind_no_panic; [|intros b _; apply map_err_no_panic].
    apply at_key_no_panic. by apply (Hall true).
Qed.

Lemma round2_broadcasts_safe me mine inbox all :
  (forall p, p ∈ all -> (wval p < 255)%N) ->
  (forall p, p ∈ all -> p <> me -> is_Some (BTree.get p (broadcasts inbox))) ->
  no_panic (round2_broadcasts me mine inbox all).
Proof.
  induction all as [|p all IH]; intros Hlt Hall; [done|]. cbn [round2_broadcasts].
  apply rbind_no_panic.
  { case_bool_decide; [done|]. apply rbind_no_panic; [|intros b _; apply map_err_no_panic].
    apply at_key_no_panic, Hall; [left|done]. }
  intros [proof bip] _. apply rbind_no_panic; [apply cidx_no_panic, Hlt; left|]. intros i _.
  apply rbind_no_panic; [|by intros [] _]. apply IH; intros; [apply Hlt|apply Hall]; by try right.
Qed.

Lemma round3_broadcasts_safe l m :
  (forall p, p ∈ l.*1 -> (wval p < 255)%N) -> no_panic (round3_broadcasts l m).
Proof.
  revert m; induction l as [|[p raw] l IH]; intros m Hlt; [done|]. cbn [round3_broadcasts].
  apply rbind_no_panic; [apply cidx_no_panic, Hlt; left|]. intros i _.
  apply rbind_no_panic; [apply map_err_no_panic|]. intros b _. apply IH. intros q Hq. apply Hlt. by right.
Qed.

Lemma keygen_party_safe ctx coins s :
  safe (keygen_party relay_send rng ctx coins) s (fun x _ => shard_public_key (fst x) = Ok (snd x)).
Proof.
  unfold keygen_party. apply safe_bind, safe_lift; [apply scheme_no_panic|].
  intros [params i] Hs. apply scheme_Ok in Hs as (Hn & Hme & Hcount & _ & Hi).
  pose proof (dkg_fragments params i (arr (Mpc.instance ctx)) coins) as Hlen.
  destruct (dkg_phase1 _) as [fragments session]. cbn [fst] in Hlen. rewrite Hcount in *.
  set (n := length (party_vks ctx)) in *.
  assert (forall p, p ∈ ids n -> (N.to_nat (wval p) < n)%nat) as Hids.
  { intros p Hp%elem_of_ids; lia. }
  apply safe_bind, safe_open; [done|]. intros s1 Hex.
  apply safe_bind, share_fragments_safe; rewrite ?Hlen; [lia|done|done|]. intros fs s2 Hex2.
  apply safe_bind, safe_lib. intros [[[proof z2] bip2] session2] _.
  apply safe_bind, (safe_send _ _ _ _ ctx (ids n)); [done|]. intros s3 Hex3.
  apply safe_bind, (safe_recv _ _ ctx (ids n)); [done|]. intros inbox2 s4 Hex4 Hall _.
  apply safe_bind, safe_lift.
  { apply round2_broadcasts_safe; [intros p Hp%Hids; lia|]. intros p Hp Hne. by apply (Hall false). }
  intros [proofs bips] _. apply safe_bind, safe_try. intros z2in _.
  apply safe_bind, safe_lib. intros [[[z3 m3] bip3] session3] _.
  apply safe_bind, (safe_send _ _ _ _ ctx (ids n)); [done|]. intros s5 Hex5.
  apply safe_bind, (safe_recv _ _ ctx (ids n)); [done|]. intros inbox3 s6 Hex6 _ Hkeys.
  apply safe_bind, safe_lift.
  { apply round3_broadcasts_safe. intros p Hp%BTree.elem_of_keys.
    apply (Hkeys false), Hids in Hp. lia. }
  intros bip3s _. apply safe_bind, safe_try. intros [z3in m3in] _.
  apply safe_bind, safe_lib. intros party _.
  destruct (compress_pk_total (party_pk party)) as (k & Hk & _).
  apply safe_bind, safe_lift; [by rewrite Hk|]. intros k' Hk'. apply safe_pure. simpl.
  by apply shard_public_key_encode.
Qed.

Lemma refresh_checks_Ok ctx share pk params party :
  refresh_checks ctx share pk = Ok (params, party) ->
  shard_public_key share = Ok pk /\ shard_decode share = Ok party /\
  (exists i, scheme ctx = Ok (params, i)) /\ par_share_count (parameters party) = par_share_count params.
Proof.
  unfold refresh_checks. intros ([ps i] & Hs & H)%rbind_Ok. apply rbind_Ok in H as (q & Hq & H).
  apply decode_for_Ok in Hq as (Hd & _ & _ & Hc). apply rbind_Ok in H as (k & Hk & H).
  case_bool_decide as He; simpl in H; [|done]. injection H as -> ->. subst k.
  split_and!; [|done|by exists i|done]. unfold shard_public_key. by rewrite Hd.
Qed.

Lemma refresh_checks_no_panic ctx share pk : no_panic (refresh_checks ctx share pk).
Proof.
  apply rbind_no_panic; [apply scheme_no_panic|]. intros [ps i] Hs. apply scheme_Ok in Hs as (Hn & Hme & _).
  apply rbind_no_panic; [apply decode_for_no_panic; lia|]. intros q _.
  destruct (compress_pk_total (party_pk q)) as (k & Hk & _). rewrite Hk. simpl. by case_bool_decide.
Qed.

Lemma refresh_party_safe ctx share pk coins s :
  safe (refresh_party relay_send rng ctx share pk coins) s
    (fun x _ => snd x = pk /\ shard_public_key share = Ok pk /\ shard_public_key (fst x) = Ok pk).
Proof.
  unfold refresh_party. apply safe_bind, safe_lift; [apply refresh_checks_no_panic|].
  intros [params party] (Hold & _ & (i & Hs) & Hcount)%refresh_checks_Ok.
  apply scheme_Ok in Hs as (Hn & Hme & Hc & _ & Hi).
  pose proof (refresh_fragments party coins) as Hlen. rewrite Hcount, Hc in Hlen. rewrite Hc.
  set (n := length (party_vks ctx)) in *.
  assert (forall p, p ∈ ids n -> (N.to_nat (wval p) < n)%nat) as Hids.
  { intros p Hp%elem_of_ids; lia. }
  apply safe_bind, safe_open; [done|]. intros s1 Hex.
  apply safe_bind, share_fragments_safe; rewrite ?Hlen; [lia|done|done|]. intros fs s2 Hex2.
  destruct (refresh_phase2 _ _ _ _) as [[[corr proof] zk] z2].
  apply safe_bind, (safe_send _ _ _ _ ctx (ids n)); [done|]. intros s3 Hex3.
  apply safe_bind, (safe_recv _ _ ctx (ids n)); [done|]. intros inbox2 s4 Hex4 Hall _.
  apply safe_bind, safe_lift.
  { apply collect_no_panic. intros x (p & -> & Hp)%list_elem_of_fmap. unfold round2_proof.
    case_bool_decide; [done|]. apply rbind_no_panic; [|intros b _; apply map_err_no_panic].
    apply at_key_no_panic. by apply (Hall false). }
  intros proofs _. apply safe_bind, safe_try. intros z2in _.
  destruct (refresh_phase3 _ _ _ _) as [[[zk34 z3] mk] m3].
  apply safe_bind, (safe_send _ _ _ _ ctx (ids n)); [done|]. intros s5 Hex5.
  apply safe_bind, (safe_recv _ _ ctx (ids n)); [done|]. intros inbox3 s6 Hex6 _ _.
  apply safe_bind, safe_try. intros [z3in m3in] _.
  apply safe_bind, safe_lib. intros party' _.
  destruct (compress_pk_total (party_pk party')) as (k & Hk & _).
  apply safe_bind, safe_lift; [by rewrite Hk|]. intros k' Hk'.
  case_bool_decide as He; simpl; [|done]. subst k'. split_and!; [done|done|]. simpl.
  by apply shard_public_key_encode.
Qed.

(** The signature assembled recovers to the shard's own public key. *)
Definition recovers_to (party : Party) (digest : B256) (parts : EcdsaParts) : Prop :=
  exists pk wallet signature,
    compress_pk (party_pk party) = Ok pk /\ wallet_from_sec1 (arr (as_bytes pk)) = Some wallet /\
    signature_from_slice (be_bytes 32 (wval (r parts)) ++ be_bytes 32 (wval (s parts))) = Ok signature /\
    recover_from_prehash digest signature (y_parity parts) = Some wallet.

Lemma finish_signature_Ok party digest r0 s0 parts :
  finish_signature party digest r0 s0 = Ok parts -> recovers_to party digest parts.
Proof.
  unfold finish_signature. intros (sg & Hsg & H)%rbind_Ok. apply map_err_Ok in Hsg.
  apply rbind_Ok in H as (pk & Hpk & H). apply rbind_Ok in H as (w & Hw & H). apply ok_or_Ok in Hw.
  apply rbind_Ok in H as (odd & Hodd & [= <-]).
  destruct (to_ecdsa_parts_lossless r0 s0 odd) as (Hr & Hs & Hy).
  exists pk, w, sg. rewrite Hr, Hs, Hy. split_and!; try done.
  destruct (bool_decide (recover_from_prehash digest sg false = Some w)) eqn:E0.
  { injection Hodd as <-. by apply bool_decide_eq_true in E0. }
  destruct (bool_decide (recover_from_prehash digest sg true = Some w)) eqn:E1; [|done].
  injection Hodd as <-. by apply bool_decide_eq_true in E1.
Qed.

Lemma finish_signature_no_panic party digest r0 s0 : no_panic (finish_signature party digest r0 s0).
Proof.
  apply rbind_no_panic; [by destruct (signature_from_slice _)|]. intros sg _.
  destruct (compress_pk_total (party_pk party)) as (k & Hk & Hb). rewrite Hk. cbn [rbind].
  rewrite Hb. destruct (sec1_parses (party_pk party)) as [w ->]. cbn [ok_or rbind].
  by repeat case_bool_decide.
Qed.

Lemma sign_checks_Ok ctx share subset party :
  sign_checks ctx share subset = Ok party ->
  ascending (wval <$> subset) = true /\ Forall (fun p => (wval p < N.of_nat (length (party_vks ctx)))%N) subset /\
  party_id ctx ∈ subset /\ shard_decode share = Ok party /\ cidx (party_id ctx) = Ok (party_index party) /\
  par_threshold (parameters party) = wmod 8 (N.of_nat (length subset)) /\
  par_share_count (parameters party) = wmod 8 (N.of_nat (length (party_vks ctx))).
Proof.
  unfold sign_checks. destruct (negb (ascending _) || existsb _ _) eqn:E; [done|].
  apply orb_false_iff in E as [Ha%negb_false_iff Hx]. destruct (contains _ _) eqn:Hc; [|done]. cbn [negb].
  intros (Hd & Hi & Ht & Hn)%decode_for_Ok. apply contains_true in Hc. split_and!; try done.
  apply Forall_forall. intros p Hp. apply N.lt_nge. intros Hle.
  apply not_true_iff_false in Hx. apply Hx, existsb_exists. exists p.
  split; [by apply list_elem_of_In|by apply N.leb_le].
Qed.

Lemma sign_checks_no_panic ctx share subset :
  (length (party_vks ctx) <= 255)%nat -> no_panic (sign_checks ctx share subset).
Proof.
  intros Hn. unfold sign_checks. destruct (negb (ascending _) || existsb _ _) eqn:E; [done|].
  destruct (contains _ _) eqn:Hc; [|done]. apply contains_true in Hc. cbn [negb].
  apply decode_for_no_panic. apply orb_false_iff in E as [_ Hx].
  apply N.lt_nge. intros Hle. apply not_true_iff_false in Hx. apply Hx, existsb_exists.
  exists (party_id ctx). split; [by apply list_elem_of_In|apply N.leb_le; lia].
Qed.

Lemma sign_party_safe ctx share digest subset coins s :
  (length (party_vks ctx) <= 255)%nat ->
  safe (sign_party relay_send rng ctx share digest subset coins) s
    (fun parts _ => exists party, sign_checks ctx share subset = Ok party /\ recovers_to party digest parts).
Proof.
  intros Hn. unfold sign_party. apply safe_bind, safe_lift; [by apply sign_checks_no_panic|].
  intros party Hc. pose proof (sign_checks_Ok _ _ _ _ Hc) as (_ & Hf & Hme & _). rewrite Forall_forall in Hf.
  assert (forall p, p ∈ subset -> (N.to_nat (wval p) < length (party_vks ctx))%nat) as Hroster.
  { intros p Hp%Hf. lia. }
  apply safe_bind, safe_lift.
  { apply collect_no_panic. intros x (p & -> & [_ Hp]%list_elem_of_filter)%list_elem_of_fmap.
    apply cidx_no_panic. apply Hroster in Hp. lia. }
  intros cps _. apply safe_bind, safe_lib. intros [session t1] _.
  apply safe_bind, safe_open; [done|]. intros s1 H1.
  apply safe_bind, (safe_send _ _ _ _ ctx subset); [done|]. intros s2 H2.
  apply safe_bind, (safe_recv _ _ ctx subset); [done|]. intros ib1 s3 H3 _ _.
  apply safe_bind, safe_try. intros r1 _. apply safe_bind, safe_lib. intros [t2 session2] _.
  apply safe_bind, (safe_send _ _ _ _ ctx subset); [done|]. intros s4 H4.
  apply safe_bind, (safe_recv _ _ ctx subset); [done|]. intros ib2 s5 H5 _ _.
  apply safe_bind, safe_try. intros r2 _. apply safe_bind, safe_lib. intros [mine session3] _.
  apply safe_bind, (safe_send _ _ _ _ ctx subset); [done|]. intros s6 H6.
  apply safe_bind, (safe_recv _ _ ctx subset); [done|]. intros ib3 s7 H7 _ _.
  apply safe_bind, safe_try. intros others _. apply safe_bind, safe_lib. intros [r0 s0] _.
  apply safe_lift; [apply finish_signature_no_panic|]. intros parts Hp.
  exists party. split; [done|]. by eapply finish_signature_Ok.
Qed.

Lemma safe_elim {A} (m : Run (R := R) A) st (Q : A -> net -> Prop) :
  safe m st Q ->
  (forall w st', m st <> (Err (Panic w), st')) /\ (forall a st', m st = (Ok a, st') -> Q a st').
Proof. unfold safe. destruct (m st) as [[a|[e|w]] st1]; naive_solver. Qed.

(** C4: a signing run is sound.  On any roster of at most 255 parties and
    whatever arrives, it never panics; if the subset or the shard does not
    fit the ceremony it fails before anything is sent; and a signature it
    returns was made with a shard of this very party and scheme, and recovers,
    over the requested digest and with the parity returned, to that shard's
    public key. *)
Theorem sign_party_sound ctx share digest subset coins st r st' :
  (length (party_vks ctx) <= 255)%nat ->
  sign_party relay_send rng ctx share digest subset coins st = (r, st') ->
  (forall w, r <> Err (Panic w)) /\
  ((forall party, sign_checks ctx share subset <> Ok party) -> st' = st /\ forall parts, r <> Ok parts) /\
  (forall parts, r = Ok parts -> exists party,
     ascending (wval <$> subset) = true /\ party_id ctx ∈ subset /\
     shard_decode share = Ok party /\ cidx (party_id ctx) = Ok (party_index party) /\
     par_threshold (parameters party) = wmod 8 (N.of_nat (length subset)) /\
     par_share_count (parameters party) = wmod 8 (N.of_nat (length (party_vks ctx))) /\
     recovers_to party digest parts).
Proof.
  intros Hn Hr. destruct (safe_elim _ _ _ (sign_party_safe ctx share digest subset coins st Hn)) as [Hp Hq].
  split_and!.
  - intros w ->. by apply (Hp w st').
  - intros Hc. unfold sign_party, mbnd at 1, mlift at 1 in Hr.
    destruct (sign_checks ctx share subset) as [party|e]; [by destruct (Hc party)|].
    injection Hr as <- <-. done.
  - intros parts ->. destruct (Hq parts st' Hr) as (party & Hc & Hrec).
    apply sign_checks_Ok in Hc as (Ha & _ & Hin & Hd & Hi & Ht & Hcount). by exists party.
Qed.

(** C15: ceremonies hand out the key their shards hold.  A key generation or a
    refresh, whatever arrives, never panics; the shard it returns holds the
    public key it returns, which for a refresh is the anchor it was given, the
    key of the old shard; and a refresh whose anchor is not its shard's key,
    or whose shard is of another party or scheme, fails before anything is
    sent. *)
Theorem ceremonies_keep_key ctx coins st :
  (forall w st', keygen_party relay_send rng ctx coins st <> (Err (Panic w), st')) /\
  (forall share pk st', keygen_party relay_send rng ctx coins st = (Ok (share, pk), st') ->
     shard_public_key share = Ok pk) /\
  forall old anchor,
    (forall w st', refresh_party relay_send rng ctx old anchor coins st <> (Err (Panic w), st')) /\
    (forall share pk st', refresh_party relay_send rng ctx old anchor coins st = (Ok (share, pk), st') ->
       pk = anchor /\ shard_public_key old = Ok anchor /\ shard_public_key share = Ok anchor) /\
    (forall r st', (forall x, refresh_checks ctx old anchor <> Ok x) ->
       refresh_party relay_send rng ctx old anchor coins st = (r, st') -> st' = st).
Proof.
  destruct (safe_elim _ _ _ (keygen_party_safe ctx coins st)) as [Hp Hq].
  split; [done|]. split; [intros share pk st' H; by apply (Hq (share, pk) st')|]. intros old anchor.
  destruct (safe_elim _ _ _ (refresh_party_safe ctx old anchor coins st)) as [Hp' Hq'].
  split; [done|]. split.
  - intros share pk st' H. destruct (Hq' (share, pk) st' H) as (H1 & H2 & H3). done.
  - intros r st' Hc Hr. unfold refresh_party, mbnd at 1, mlift at 1 in Hr.
    destruct (refresh_checks ctx old anchor) as [x|e]; [by destruct (Hc x)|]. by injection Hr as _ <-.
Qed.
End Ceremonies.

(** ** The [PartyRunner] this crate provides *)
Section Runner.
Context {C : Crypto} {D : Dkls} {R : Type}.

Record traffic : Type := MkTraffic {
  tr_out : R; tr_in : list event; tr_rng : u8 -> u8 -> array 32 * array 24; tr_coins : Coins }.

Definition start_net (ctx : PartyContext) (tr : traffic) : net := MkNet (exchange_new ctx op_DKG []) (tr_out tr) (tr_in tr).

(** A panicking task never answers ([ceremonies_keep_key] shows none does). *)
Definition settle {A} (x : result stop A * net (R := R)) : option (result MpcError A) :=
  match fst x with
  | Ok a => Some (Ok a)
  | Err (Fail e) => Some (Err e)
  | Err (Panic _) => None
  end.

(* src carbon/lib.rs:79-117 CarbonRunner *)
Definition CarbonRunner (relay_send : SignedEnvelope -> M R MpcError unit) : PartyRunner := {|
  Traffic := traffic;
  keygen ctx tr := settle (keygen_party relay_send (tr_rng tr) ctx (tr_coins tr) (start_net ctx tr));
  run_sign ctx share digest subset tr :=
    settle (sign_party relay_send (tr_rng tr) ctx share digest subset (tr_coins tr) (start_net ctx tr));
  run_refresh ctx share pk tr :=
    settle (refresh_party relay_send (tr_rng tr) ctx share pk (tr_coins tr) (start_net ctx tr));
  public_key_of share :=
    match shard_public_key share with
    | Ok pk => Ok pk
    | Err (Fail e) => Err e
    | Err (Panic _) => Err Deserialize
    end;
|}.
End Runner.

(** It keeps the promise the cosigner's store relies on. *)
#[export] Instance CarbonRunnerLaws {C : Crypto} {D : Dkls} {DL : DklsLaws D} {R} relay_send :
  RunnerLaws (CarbonRunner (R := R) relay_send).
Proof.
  constructor.
  - intros ctx tr share pk H. simpl in H. unfold settle in H.
    destruct (keygen_party _ _ _ _ _) as [[x|[]] s'] eqn:E; simpl in H; try done. injection H as ->.
    destruct (safe_elim _ _ _ (keygen_party_safe relay_send (tr_rng tr) ctx (tr_coins tr) (start_net ctx tr))) as [_ Hq].
    apply Hq in E. simpl in E. simpl. by rewrite E.
  - intros ctx share pk tr share' pk' H. simpl in H. unfold settle in H.
    destruct (refresh_party _ _ _ _ _ _ _) as [[x|[]] s'] eqn:E; simpl in H; try done. injection H as ->.
    destruct (safe_elim _ _ _ (refresh_party_safe relay_send (tr_rng tr) ctx share pk (tr_coins tr) (start_net ctx tr)))
      as [_ Hq].
    apply Hq in E. cbn [fst snd] in E. destruct E as (-> & Hold & Hnew). simpl. by rewrite Hold, Hnew.
Qed.

(** ** A concrete library: fragments are one coin dealt to everyone, the key
    is their sum, and a signature "recovers" to the key its [r] spells. *)
Record ToyParty : Type := MkToyParty { tp_index : u8; tp_par : u8 * u8; tp_pk : array 32 }.

Definition toy_party_bin : Bin ToyParty :=
  MkBin (fun p => [tp_index p; fst (tp_par p); snd (tp_par p)] ++ arr (tp_pk p))
        (fun b => match b with
                  | i :: t :: n :: rest => MkToyParty i (t, n) <$> to_array 32 rest
                  | _ => None
                  end).
Definition toy_byte_bin : Bin u8 :=
  MkBin (fun x => [x]) (fun b => match b with [x] => Some x | _ => None end).
Definition toy_unit_bin : Bin unit := MkBin (fun _ => []) (fun _ => Some tt).
Definition toy_list_bin : Bin (list u8) := MkBin id Some.

(** A pair of lists: a one before each element of the first, then a zero. *)
Definition toy_pair_ser (x : list u8 * list u8) : bytes :=
  (fst x ≫= fun b => [wmod 8 1; b]) ++ [wmod 8 0] ++ snd x.
Fixpoint toy_pair_de (fuel : nat) (b : bytes) : option (list u8 * list u8) :=
  match fuel, b with
  | S fuel, t :: rest =>
      if N.eqb (wval t) 0 then Some ([], rest)
      else match rest with
           | x :: rest => prod_map (cons x) id <$> toy_pair_de fuel rest
           | [] => None
           end
  | _, _ => None
  end.
Definition toy_pair_bin : Bin (list u8 * list u8) := MkBin toy_pair_ser (fun b => toy_pair_de (length b) b).

Lemma toy_pair_ser_cons x z m : toy_pair_ser (x :: z, m) = wmod 8 1 :: x :: toy_pair_ser (z, m).
Proof. done. Qed.

Lemma toy_pair_ok : bin_ok toy_pair_bin.
Proof.
  intros [z m]. cbn [ser de_opt toy_pair_bin].
  assert (forall fuel, (length (toy_pair_ser (z, m)) <= fuel)%nat ->
    toy_pair_de fuel (toy_pair_ser (z, m)) = Some (z, m)) as H; [|by apply H].
  induction z as [|x z IH]; intros [|fuel] Hf; try (simpl in Hf; lia); [done|].
  rewrite toy_pair_ser_cons in *. cbn [length] in Hf. cbn [toy_pair_de].
  change (N.eqb (wval (wmod 8 1)) 0) with false. cbv iota. rewrite IH by lia. done.
Qed.

(** Everyone of [0..n) but [me], by index. *)
Definition toy_others (n me : u8) : list u8 :=
  filter (fun p => p <> me) ((fun k => wmod 8 (N.of_nat k)) <$> seq 0 (N.to_nat (wval n))).

#[export] Instance ToyDkls : Dkls := {|
  Coins := u8;
  Parameters := u8 * u8;
  params_new t n := if N.leb 2 (wval t) && N.leb (wval t) (wval n) then Ok (t, n) else Err "bounds";
  par_threshold := fst;
  par_share_count := snd;
  PartyIndex := u8;                                     (* the id itself *)
  index_new x := if N.eqb (wval x) 0 then None else Some (wmod 8 (wval x - 1));
  index_u8 i := wmod 8 (wval i + 1);
  Abort := string;
  ban_counterparty _ := None;
  description := id;
  Party := ToyParty;
  party_index := tp_index;
  parameters := tp_par;
  AffinePoint := array 32;
  party_pk := tp_pk;
  sec1_compressed a := wmod 8 2 :: arr a;
  Scalar := u8; ProofCommitment := unit; Bip2 := unit; Bip3 := unit;
  Zero2 := u8; Zero3 := u8; Mul3 := u8; Transmit1 := u8; Transmit2 := u8; Broadcast3 := unit;
  zero2_receiver := id; zero3_receiver := id; mul3_receiver := id; t1_receiver := id; t2_receiver := id;
  bin_party := toy_party_bin; bin_scalar := toy_byte_bin; bin_zero2s := toy_list_bin;
  bin_proof_bip2 := MkBin (fun _ => []) (fun _ => Some (tt, tt));
  bin_proof := toy_unit_bin; bin_bip3 := toy_unit_bin; bin_zero_mul := toy_pair_bin;
  bin_t1s := toy_list_bin; bin_t2s := toy_list_bin; bin_broadcast3 := toy_unit_bin;
  (* a session is its parameters, its index and the sum so far *)
  DkgSession := (u8 * u8) * u8 * u8;
  dkg_new p i sid c := (p, i, c);
  dkg_phase1 x := (replicate (N.to_nat (wval (snd (fst (fst x))))) (snd x), x);
  dkg_phase2 x fs :=
    let sum := wmod 8 (foldr (fun f acc => wval f + acc) 0 fs)%N in
    Ok (tt, toy_others (snd (fst (fst x))) (snd (fst x)), tt, (fst x, sum));
  dkg_phase3 x :=
    Ok (toy_others (snd (fst (fst x))) (snd (fst x)), toy_others (snd (fst (fst x))) (snd (fst x)), tt, x);
  dkg_phase4 x _ _ _ _ _ _ := Ok (MkToyParty (snd (fst x)) (fst (fst x)) (array_repeat 32 (snd x)));
  Correction := unit; ZeroKeep2 := unit; ZeroKeep3 := unit; MulKeep := unit;
  refresh_phase1 p _ := replicate (N.to_nat (wval (snd (tp_par p)))) (wmod 8 0);
  refresh_phase2 p _ _ _ := (tt, tt, tt, toy_others (snd (tp_par p)) (tp_index p));
  refresh_phase3 p _ _ _ := (tt, toy_others (snd (tp_par p)) (tp_index p), tt, []);
  refresh_phase4 p _ _ _ _ _ _ _ _ := Ok p;
  (* a session is the counterparties, the key and the digest *)
  SignSession := list u8 * array 32 * B256;
  sign_new p d _ := Ok ((snd (fst d), tp_pk p, snd d), snd (fst d));
  sign_phase2 x _ := Ok (fst (fst x), x);
  sign_phase3 x _ := Ok (tt, x);
  sign_phase4 x _ _ := Ok (snd (fst x), snd x);
  Signature := bytes;
  signature_from_slice := Ok;
  WalletKey := bytes;
  wallet_from_sec1 := Some;
  recover_from_prehash d sg odd := if odd : bool then Some (wmod 8 2 :: take 32 sg) else None;
|}.

#[export] Instance ToyDklsLaws : DklsLaws ToyDkls.
Proof.
  constructor; simpl.
  - intros x Hx. exists (wmod 8 (wval x - 1)). rewrite (proj2 (N.eqb_neq _ _) Hx). split; [done|].
    apply word_eq. pose proof (word_lt x) as Hlt. change (2 ^ 8)%N with 256%N in *.
    rewrite (wmod_small 8 (wval x - 1)) by (change (2 ^ 8)%N with 256%N; lia).
    replace (wval x - 1 + 1)%N with (wval x) by lia. by apply wmod_small.
  - intros i j H. apply (f_equal wval) in H. rewrite !wval_wmod in H. apply word_eq.
    pose proof (word_lt i) as Hi. pose proof (word_lt j) as Hj. change (2 ^ 8)%N with 256%N in *.
    destruct (decide (wval i = 255)%N) as [Ei|Ei], (decide (wval j = 255)%N) as [Ej|Ej].
    + lia.
    + rewrite Ei, (N.mod_small (wval j + 1)) in H by lia. change ((255 + 1) mod 256)%N with 0%N in H. lia.
    + rewrite Ej, (N.mod_small (wval i + 1)) in H by lia. change ((255 + 1) mod 256)%N with 0%N in H. lia.
    + rewrite !N.mod_small in H by lia. lia.
  - intros t n p. destruct (N.leb 2 (wval t) && _) eqn:E; [|done]. intros [= <-].
    apply andb_true_iff in E as [?%N.leb_le ?%N.leb_le]. done.
  - intros a. destruct (is_ok (from_slice (wmod 8 2 :: arr a))) eqn:E.
    + destruct (from_slice _) as [k|]; [by exists k|done].
    + apply not_true_iff_false in E. destruct E. apply from_slice_accepts. simpl. by rewrite array_len.
  - intros a. by eexists.
  - intros [i [t n] pk]. simpl. by rewrite to_array_arr.
  - by intros x.
  - apply toy_pair_ok.
  - done.
  - by intros [[] []].
  - by intros [].
  - by intros [].
  - done.
  - done.
  - by intros [].
  - intros p i sid c. by rewrite length_replicate.
  - intros p c. by rewrite length_replicate.
Qed.

(** ** Witnesses: two parties run whole ceremonies.  Each round of mail is
    what the other sent so far; three exchanges settle. *)
Definition demo_net (i : N) (mail : list SignedEnvelope) : net (R := list SignedEnvelope) :=
  MkNet (demo_ex i) [] (Arrived <$> mail).
Fixpoint settle_mail (k : nat) (run : N -> list SignedEnvelope -> list SignedEnvelope)
    (m0 m1 : list SignedEnvelope) : list SignedEnvelope * list SignedEnvelope :=
  match k with
  | O => (m0, m1)
  | S k => settle_mail k run (run 1%N m1) (run 0%N m0)
  end.
Definition demo_seal (_ _ : u8) : array 32 * array 24 := (toy_key 9, array_repeat 24 (wmod 8 4)).
Definition demo_keygen (i : N) (mail : list SignedEnvelope) :=
  keygen_party push demo_seal (demo_ctx i) (wmod 8 (5 + i)) (demo_net i mail).
Definition demo_keygen_mail : list SignedEnvelope * list SignedEnvelope :=
  settle_mail 4 (fun i mail => out (snd (demo_keygen i mail))) [] [].

Definition keys_agree (x y : result stop (KeyShare * PubkeySec1)) : bool :=
  match x, y with
  | Ok (_, pk), Ok (_, pk') => bool_decide (pk = pk') && N.eqb (first_byte (drop 1 (arr (pk_bytes pk)))) 11
  | _, _ => false
  end.
Example demo_keygen_agrees :
  keys_agree (fst (demo_keygen 0 (fst demo_keygen_mail))) (fst (demo_keygen 1 (snd demo_keygen_mail))) = true.
Proof. vm_compute. reflexivity. Qed.

Definition demo_share (i : N) : KeyShare :=
  shard_encode (MkToyParty (wmod 8 i) (wmod 8 2, wmod 8 2) (array_repeat 32 (wmod 8 11)) : Party).
Definition demo_digest : B256 := array_repeat 32 (wmod 8 231).
Abbreviation demo_sign i mail :=
  (sign_party (D := ToyDkls) push demo_seal (demo_ctx i) (demo_share i) demo_digest [wmod 8 0; wmod 8 1] (wmod 8 0)
    (demo_net i mail)).
Definition demo_sign_mail : list SignedEnvelope * list SignedEnvelope :=
  settle_mail 4 (fun i mail => out (snd (demo_sign i mail))) [] [].
Example demo_signs : is_ok (fst (demo_sign 0 (fst demo_sign_mail))) = true.
Proof. vm_compute. reflexivity. Qed.

Definition demo_anchor : PubkeySec1 := MkPubkey (array_of 33 (wmod 8 2 :: replicate 32 (wmod 8 11))) eq_refl.
Abbreviation demo_refresh i mail :=
  (refresh_party (D := ToyDkls) push demo_seal (demo_ctx i) (demo_share i) demo_anchor (wmod 8 0) (demo_net i mail)).
Definition demo_refresh_mail : list SignedEnvelope * list SignedEnvelope :=
  settle_mail 4 (fun i mail => out (snd (demo_refresh i mail))) [] [].
Example demo_refresh_ok : is_ok (fst (demo_refresh 0 (fst demo_refresh_mail))) = true.
Proof. vm_compute. reflexivity. Qed.

Lemma run_ok {A} (x : result stop A * net (R := list SignedEnvelope)) :
  is_ok (fst x) = true -> exists a st, x = (Ok a, st).
Proof. destruct x as [[a|e] st]; [eauto|done]. Qed.

Lemma sign_party_sound_witness :
  exists parts st' party,
    demo_sign 0 (fst demo_sign_mail) = (Ok parts, st') /\ recovers_to party demo_digest parts.
Proof.
  destruct (run_ok _ demo_signs) as (parts & st' & E).
  assert (length (party_vks (demo_ctx 0)) <= 255)%nat as Hn by (simpl; lia).
  destruct (sign_party_sound (D := ToyDkls) push demo_seal (demo_ctx 0) (demo_share 0) demo_digest [wmod 8 0; wmod 8 1]
              (wmod 8 0) (demo_net 0 (fst demo_sign_mail)) (Ok parts) st' Hn E) as (_ & _ & H).
  destruct (H parts eq_refl) as (party & _ & _ & _ & _ & _ & _ & Hrec).
  exists parts, st', party. split; [exact E|exact Hrec].
Defined.

Lemma ceremonies_keep_key_witness :
  exists share st', demo_refresh 0 (fst demo_refresh_mail) = (Ok (share, demo_anchor), st') /\
    shard_public_key share = Ok demo_anchor.
Proof.
  destruct (run_ok _ demo_refresh_ok) as ([share pk] & st' & E).
  destruct (ceremonies_keep_key (D := ToyDkls) push demo_seal (demo_ctx 0) (wmod 8 0) (demo_net 0 (fst demo_refresh_mail)))
    as (_ & _ & H).
  destruct (H (demo_share 0) demo_anchor) as (_ & Hk & _).
  destruct (Hk share pk st' E) as (Hpk & _ & Hs).
  exists share, st'. split; [|exact Hs]. rewrite Hpk in E. exact E.
Defined.
