(* ===== verification/Lockstep.v ===== *)
(** * Ceremonies as synchronous protocols

    A party's ceremony, seen from outside, is a tree: a result, or a round (an
    outbox to send, what to wait for, and what to do with the inbox).  [play]
    gives a tree its meaning over a party's exchange, relay and traffic, as the
    ceremonies of [Carbon] run; [sync] runs the trees of all parties in
    lockstep, handing each outbox over directly, with no network at all.

    [async_refines_sync] is the refinement: over authenticated channels,
    whatever the interleaving, reordering, duplication and foreign traffic,
    every party's run returns what the synchronous run says, or its timeout
    when mail is lost.  [never_stuck] looks at every point of a ceremony in
    progress ([scheduled]: what each party was handed so far was put out by
    then): unless all have returned, there is mail still to hand over.

    The fuel of [sync] bounds the rounds of the reference run only; the
    hypothesis that it finishes is that the fuel was enough. *)

From S2P Require Import Prelude Types Mpc Envelope Exchange Carbon.
From Stdlib Require Import String NArith Lia.
From stdpp Require Import base decidable list strings.
Open Scope string_scope. Open Scope list_scope.

(** ** Trees *)
Inductive proto (A : Type) : Type :=
  | Done (x : result stop A)
  | Round (rnd : u8) (ob : RoundOutbox) (expect : Expect) (k : RoundInbox -> proto A).
Arguments Done {A} _.
Arguments Round {A} _ _ _ _.

Fixpoint pbind {A B} (t : proto A) (f : A -> proto B) : proto B :=
  match t with
  | Done (Ok a) => f a
  | Done (Err e) => Done (Err e)
  | Round rnd ob expect k => Round rnd ob expect (fun inbox => pbind (k inbox) f)
  end.

Notation "'round!' x ':=' e 'in' k" := (pbind e (fun x => k))
  (at level 10, x pattern, e at level 100, k at level 200) : result_scope.

(** Rounds are numbered upwards on every path. *)
Fixpoint ordered {A} (last : N) (t : proto A) : Prop :=
  match t with
  | Done _ => True
  | Round rnd _ _ k => (last < wval rnd)%N /\ forall inbox, ordered (wval rnd) (k inbox)
  end.

Section Play.
Context {C : Crypto} {R A : Type}.
Variable relay_send : SignedEnvelope -> M R MpcError unit.
Variable rng : u8 -> u8 -> array 32 * array 24.

Fixpoint play (t : proto A) : Run (R := R) A :=
  match t with
  | Done x => mlift x
  | Round rnd ob expect k =>
      let! _ := send_round_ relay_send rng rnd ob in
      let! inbox := recv_round_ rnd expect in
      play (k inbox)
  end.
End Play.

(** ** The synchronous run *)
(** What every other party's outbox has for a recipient. *)
Definition picked (f : RoundOutbox -> option bytes) (me : u8) (obs : BTree.t RoundOutbox) : BTree.t bytes :=
  omap (fun x => if decide (fst x = me) then None else pair (fst x) <$> f (snd x)) obs.

Definition handed (obs : BTree.t RoundOutbox) (expect : Expect) (me : u8) : RoundInbox :=
  MkInbox (if expect_broadcasts expect then picked (fun ob => meant ob false me) me obs else [])
          (if expect_p2p expect then picked (fun ob => meant ob true me) me obs else []).

Definition others (me : u8) (ps : list u8) : list u8 := filter (fun p => p <> me) ps.

Definition finished {A} (x : u8 * proto A) : option (u8 * result stop A) :=
  match snd x with Done r => Some (fst x, r) | Round _ _ _ _ => None end.

Definition asks {A} (x : u8 * proto A)
  : option (u8 * (u8 * Expect * RoundOutbox * (RoundInbox -> proto A))) :=
  match snd x with
  | Done _ => None
  | Round rnd ob expect k => Some (fst x, (rnd, expect, ob, k))
  end.

Section Sync.
Context {A : Type}.
(** Which plaintexts are small enough to be sealed. *)
Variable fits : bytes -> bool.

(** Everyone else is addressed as the round expects, and no one else is. *)
Definition deliverable (ps : list u8) (expect : Expect) (x : u8 * RoundOutbox) : bool :=
  let ob := snd x in let peers := others (fst x) ps in
  BTree.wf (out_p2p ob) &&
  forallb (fun m => contains (fst m) peers && fits (snd m)) (out_p2p ob) &&
  (negb (expect_broadcasts expect) || bool_decide (is_Some (out_broadcast ob))) &&
  (negb (expect_p2p expect) || forallb (fun p => BTree.contains_key p (out_p2p ob)) peers).

Definition same_round (rnd : u8) (expect : Expect)
    (x : u8 * (u8 * Expect * RoundOutbox * (RoundInbox -> proto A))) : bool :=
  let '(_, (rnd', expect', _, _)) := x in bool_decide (rnd' = rnd) && bool_decide (expect' = expect).

(** All parties finish, or all are in the same round; [fuel] bounds the
    rounds. *)
Fixpoint sync (fuel : nat) (ts : BTree.t (proto A)) : option (BTree.t (result stop A)) :=
  match mapM finished ts with
  | Some rs => Some rs
  | None =>
      match fuel, mapM asks ts with
      | S fuel, Some (((_, (rnd, expect, _, _)) :: _) as rounds) =>
          let obs := (fun x => (fst x, snd (fst (snd x)))) <$> rounds in
          if forallb (same_round rnd expect) rounds && forallb (deliverable (BTree.keys ts) expect) obs
          then sync fuel ((fun x => (fst x, snd (snd x) (handed obs expect (fst x)))) <$> rounds)
          else None
      | _, _ => None
      end
  end.
End Sync.

(** ** Playing a tree *)
Section Lemmas.
Context {C : Crypto}.

Lemma play_bind {R A B} relay_send rng (t : proto A) (f : A -> proto B) (s : net (R := R)) :
  play relay_send rng (pbind t f) s = mbnd (play relay_send rng t) (fun a => play relay_send rng (f a)) s.
Proof.
  revert s; induction t as [[a|e]|rnd ob expect k IH]; intros s; cbn [pbind play]; [done..|].
  unfold mbnd. destruct (send_round_ _ _ _ _ s) as [[u|e] s1]; [|done].
  destruct (recv_round_ _ _ s1) as [[inbox|e] s2]; [|done]. apply IH.
Qed.

(** *** The synchronous hand-over *)
Lemma picked_keys f me obs p : p ∈ BTree.keys (picked f me obs) -> p ∈ BTree.keys obs.
Proof.
  unfold BTree.keys. intros (x & -> & (y & Hy & Hx)%list_elem_of_omap)%list_elem_of_fmap.
  apply list_elem_of_fmap. exists y. split; [|done]. case_decide; [done|].
  destruct (f (snd y)); [|done]. by injection Hx as <-.
Qed.

Lemma picked_wf f me obs : BTree.wf obs = true -> BTree.wf (picked f me obs) = true.
Proof.
  induction obs as [|[q ob] obs IH]; [done|]. intros [Hlt Hwf]%BTree.wf_cons. specialize (IH Hwf).
  unfold picked. cbn [omap list_omap fst snd]. case_decide; [done|].
  destruct (f ob) as [b|]; [|done]. apply BTree.wf_cons. split; [|done].
  rewrite Forall_forall in *. intros p Hp%picked_keys. by apply Hlt.
Qed.

Lemma picked_get f me obs p :
  BTree.wf obs = true -> BTree.get p (picked f me obs) = if decide (p = me) then None else BTree.get p obs ≫= f.
Proof.
  induction obs as [|[q ob] obs IH]; [intros _; by case_decide|]. intros [Hlt Hwf]%BTree.wf_cons.
  specialize (IH Hwf). unfold picked in *. cbn [omap list_omap fst snd BTree.get].
  destruct (decide (q = me)) as [->|Hq].
  - rewrite IH. by destruct (decide (p = me)).
  - destruct (f ob) as [b|] eqn:Hb; cbn [fmap option_fmap option_map BTree.get].
    + destruct (decide (p = q)) as [->|Hp]; [|exact IH].
      rewrite decide_False by done. simpl. by rewrite Hb.
    + rewrite IH. destruct (decide (p = me)); [done|]. destruct (decide (p = q)) as [->|Hp]; [|done].
      simpl. rewrite Hb. rewrite BTree.get_keys_None; [done|].
      rewrite Forall_forall in Hlt. intros Hin%Hlt. lia.
Qed.

Lemma handed_wf obs expect me k : BTree.wf obs = true -> BTree.wf (slot k (handed obs expect me)) = true.
Proof.
  intros Hwf. unfold handed. destruct k; cbn [slot p2p broadcasts];
    [destruct (expect_p2p expect)|destruct (expect_broadcasts expect)]; try done; by apply picked_wf.
Qed.

Lemma handed_get obs expect me k p :
  BTree.wf obs = true ->
  BTree.get p (slot k (handed obs expect me)) =
    if wanted expect k && negb (bool_decide (p = me)) then BTree.get p obs ≫= fun ob => meant ob k me else None.
Proof.
  intros Hwf. unfold handed. destruct k; cbn [slot p2p broadcasts wanted];
    [destruct (expect_p2p expect)|destruct (expect_broadcasts expect)]; try done;
    rewrite picked_get by done; cbn [andb];
    (destruct (decide (p = me)); [by rewrite bool_decide_eq_true_2|by rewrite bool_decide_eq_false_2]).
Qed.

Lemma inbox_ext (i j : RoundInbox) : (forall k, slot k i = slot k j) -> i = j.
Proof. intros H. destruct i, j. pose proof (H true) as H1. pose proof (H false) as H2. simpl in *. congruence. Qed.

Lemma keys_pair {V} p (m : BTree.t V) : p ∈ BTree.keys m <-> exists v, (p, v) ∈ m.
Proof.
  unfold BTree.keys. rewrite list_elem_of_fmap. split; [by intros ([? v] & -> & ?); exists v|].
  intros [v Hv]. by exists (p, v).
Qed.

Lemma elem_of_others me ps p : p ∈ others me ps <-> p ∈ ps /\ p <> me.
Proof. unfold others. rewrite list_elem_of_filter. tauto. Qed.

Lemma deliverable_true fits ps expect p ob :
  deliverable fits ps expect (p, ob) = true ->
  BTree.wf (out_p2p ob) = true /\
  (forall q m, (q, m) ∈ out_p2p ob -> q ∈ others p ps /\ fits m = true) /\
  (forall k q, wanted expect k = true -> q ∈ others p ps -> is_Some (meant ob k q)).
Proof.
  unfold deliverable. cbn [fst snd]. rewrite !andb_true_iff, !orb_true_iff, !negb_true_iff, !forallb_forall.
  rewrite bool_decide_eq_true. setoid_rewrite <- list_elem_of_In. setoid_rewrite andb_true_iff.
  setoid_rewrite contains_true. setoid_rewrite BTree.contains_key_true.
  intros (((Hwf & Hm) & Hb) & Hp). split_and!; [done|intros q m; exact (Hm (q, m))|].
  intros [] q Hw Hq; simpl in *.
  - destruct Hp as [Hp|Hp]; [congruence|auto].
  - destruct Hb as [Hb|Hb]; [congruence|auto].
Qed.

Lemma finished_all {A} (ts : BTree.t (proto A)) rs :
  mapM finished ts = Some rs -> forall p t, (p, t) ∈ ts -> exists r, t = Done r /\ (p, r) ∈ rs.
Proof.
  intros Hm%mapM_Some_1 p t Hin. destruct (Forall2_elem_l _ _ _ _ Hm Hin) as ([q r] & Hr & H).
  unfold finished in H. cbn [fst snd] in H. destruct t as [r'|]; [|done]. injection H as <- <-. eauto.
Qed.

Lemma finished_keys {A} (ts : BTree.t (proto A)) rs : mapM finished ts = Some rs -> BTree.keys rs = BTree.keys ts.
Proof.
  intros Hm%mapM_Some_1. induction Hm as [|[p [r|]] y ts rs Hxy _ IH]; [done| |done].
  injection Hxy as <-. cbn [fmap list_fmap BTree.keys fst]. f_equal. exact IH.
Qed.

Lemma asks_Some {A} (x : u8 * proto A) y :
  asks x = Some y -> exists rnd expect ob k, x = (fst y, Round rnd ob expect k) /\ y = (fst y, (rnd, expect, ob, k)).
Proof.
  unfold asks. destruct x as [p [r|rnd ob expect k]]; cbn [fst snd]; [done|]. intros [= <-]. cbn [fst]. eauto 10.
Qed.

Lemma asks_keys {A} (ts : BTree.t (proto A)) rounds : mapM asks ts = Some rounds -> rounds.*1 = BTree.keys ts.
Proof.
  intros Hm%mapM_Some_1. induction Hm as [|x y ts rounds Hxy _ IH]; [done|].
  apply asks_Some in Hxy as (? & ? & ? & ? & -> & _). cbn [fmap list_fmap BTree.keys fst].
  f_equal. exact IH.
Qed.

(** What one step of the synchronous run says. *)
Lemma sync_step {A} fits fuel (ts : BTree.t (proto A)) rs :
  sync fits fuel ts = Some rs ->
  (BTree.keys rs = BTree.keys ts /\ forall p t, (p, t) ∈ ts -> exists r, t = Done r /\ (p, r) ∈ rs) \/
  exists fuel' rnd expect (obs : BTree.t RoundOutbox) ts',
    fuel = S fuel' /\ BTree.keys obs = BTree.keys ts /\ BTree.keys ts' = BTree.keys ts /\
    sync fits fuel' ts' = Some rs /\
    forall p t, (p, t) ∈ ts -> exists ob k, t = Round rnd ob expect k /\ (p, ob) ∈ obs /\
      deliverable fits (BTree.keys ts) expect (p, ob) = true /\ (p, k (handed obs expect p)) ∈ ts'.
Proof.
  destruct fuel as [|fuel]; cbn [sync];
    (destruct (mapM finished ts) as [rs'|] eqn:Hf; [intros [= ->]; left; split; [by apply finished_keys|by apply finished_all]|]); [done|].
  destruct (mapM asks ts) as [[|[p0 [[[rnd expect] ob0] k0]] rounds]|] eqn:Ha; [done| |done].
  set (all := _ :: rounds) in *. set (obs := (fun x => (fst x, snd (fst (snd x)))) <$> all) in *.
  destruct (forallb _ all && forallb _ obs) eqn:Hok; [|done]. intros Hs. right.
  apply andb_true_iff in Hok as [Hsame Hdel]. rewrite forallb_forall in Hsame, Hdel.
  pose proof (asks_keys _ _ Ha) as Hkeys.
  eexists fuel, rnd, expect, obs, _. split; [done|]. split; [|split; [|split; [exact Hs|]]].
  - unfold obs, BTree.keys. by rewrite <- list_fmap_compose.
  - unfold BTree.keys. by rewrite <- list_fmap_compose.
  - intros p t Hin. destruct (Forall2_elem_l _ _ _ _ (mapM_Some_1 _ _ _ Ha) Hin) as (y & Hy & Hask).
    apply asks_Some in Hask as (rnd' & expect' & ob & k & [= -> ->] & Ey). exists ob, k.
    specialize (Hsame y (proj1 (list_elem_of_In _ _) Hy)). rewrite Ey in Hsame. simpl in Hsame.
    apply andb_true_iff in Hsame as [->%bool_decide_eq_true ->%bool_decide_eq_true].
    assert ((fst y, ob) ∈ obs) as Hob.
    { apply list_elem_of_fmap. exists y. split; [by rewrite Ey|done]. }
    split_and!; [done|done|by apply Hdel, list_elem_of_In|].
    apply list_elem_of_fmap. exists y. split; [by rewrite Ey|done].
Qed.
End Lemmas.

(** ** The asynchronous run *)
Section Async.
Context {C : Crypto} {CL : CryptoLaws C} {A : Type}.
(** One operation among [ps]: everyone's context and sealing randomness. *)
Variables (ps : list u8) (op : u8) (c : u8 -> PartyContext) (rng : u8 -> u8 -> u8 -> array 32 * array 24).
Variable fits : bytes -> bool.

(** A party's exchange at the start of the ceremony. *)
Definition at_home (p : u8) : Exchange := exchange_new (c p) op ps.
Abbreviation net := (net (R := list SignedEnvelope)).
Abbreviation run p t st := (play push (rng p) (A := A) t st).

(** The parties are contexts of one instance that pinned each other's keys,
    and can seal what fits to each other. *)
Definition acquainted : Prop :=
  forall p q, p ∈ ps -> q ∈ ps ->
    party_id (c p) = p /\ Mpc.instance (c p) = Mpc.instance (c q) /\
    party_vks (c p) !! N.to_nat (wval q) = Some (verifying_key (signing_key (c q))) /\
    forall rnd m, p <> q -> fits m = true -> exists e,
      Envelope.seal (fst (rng p rnd q)) (snd (rng p rnd q)) (Mpc.instance (c p)) op rnd p q
        (verifying_key (signing_key (c q))) m = Ok e.

(** Mail is authentic, given what the others put out: every envelope is
    foreign to the ceremony or some other party's. *)
Definition authentic (sent : u8 -> list SignedEnvelope) (p : u8) (mail : list SignedEnvelope) : Prop :=
  forall s, s ∈ mail -> foreign (at_home p) (env s) = true \/ exists q, q ∈ ps /\ q <> p /\ s ∈ sent q.

(** It is complete: nothing addressed to the party is missing. *)
Definition complete_mail (sent : u8 -> list SignedEnvelope) (p : u8) (mail : list SignedEnvelope) : Prop :=
  forall q s, q ∈ ps -> q <> p -> s ∈ sent q -> to (env s) = p -> s ∈ mail.

Hypothesis Hacq : acquainted.

Lemma home_id p : p ∈ ps -> party_id (c p) = p.
Proof. intros Hp. by destruct (Hacq p p Hp Hp) as (? & _). Qed.

Lemma home_peers p : p ∈ ps -> peers (at_home p) = others p ps.
Proof. intros Hp. unfold at_home, exchange_new. cbn [peers]. by rewrite home_id. Qed.

Lemma home_agree p q : p ∈ ps -> q ∈ ps -> p <> q -> agree (at_home p) (at_home q).
Proof.
  intros Hp Hq Hne. unfold agree. rewrite !home_peers by done. cbn [at_home exchange_new ctx ex_op].
  rewrite (home_id p), (home_id q) by done.
  destruct (Hacq p q Hp Hq) as (_ & Hi & Hpq & _), (Hacq q p Hq Hp) as (_ & _ & Hqp & _).
  split_and!; try done; apply elem_of_others; done.
Qed.

(** What a party sent in rounds up to, or beyond, a given one. *)
Definition up_to (p : u8) (last : N) (s : SignedEnvelope) : Prop :=
  authored (at_home p) (round (env s)) s /\ (wval (round (env s)) <= last)%N.
Definition beyond (p : u8) (last : N) (s : SignedEnvelope) : Prop :=
  authored (at_home p) (round (env s)) s /\ (last < wval (round (env s)))%N.

(** Running an ordered tree only adds envelopes of later rounds. *)
Lemma run_emits p t (st : net) last :
  same_ceremony (ex st) (at_home p) -> ordered last t ->
  exists o, out (snd (run p t st)) = out st ++ o /\ Forall (beyond p last) o.
Proof.
  revert last st; induction t as [x|rnd ob expect k IH]; intros last st Hs Hord; cbn [play].
  { exists []. by rewrite app_nil_r. }
  destruct Hord as [Hlt Hk]. unfold mbnd. destruct (send_round_ push (rng p) rnd ob st) as [u s1] eqn:Es.
  unfold send_round_ in Es. destruct (send_round push _ _ _ _ _) as [x o1] eqn:Er. injection Es as <- <-.
  apply send_round_authored in Er as (o & -> & Ho).
  assert (Forall (beyond p last) o) as Hb.
  { eapply Forall_impl; [exact Ho|]. intros s Ha. rewrite (authored_proper _ _ Hs rnd _ eq_refl s _ eq_refl) in Ha.
    pose proof (authored_round _ _ _ Ha) as Hr. unfold beyond. rewrite Hr. by split. }
  destruct x as [[]|e]; [|exists o; done]. unfold recv_round_. cbn [ex out incoming].
  destruct (recv_round _ _ _ _) as [[[inbox ex'] rest]|e] eqn:Ev; [|exists o; done].
  apply recv_round_spec in Ev as (_ & _ & Hs' & _).
  destruct (IH inbox (wval rnd) (MkNet ex' (out st ++ o) rest)) as (o' & -> & Ho').
  { by transitivity (ex st). }
  { apply Hk. }
  cbn [out]. exists (o ++ o'). rewrite <- app_assoc. split; [done|]. apply Forall_app. split; [done|].
  eapply Forall_impl; [exact Ho'|]. intros s [Ha Hr]. split; [done|lia].
Qed.

Lemma sends_all p rnd ob :
  p ∈ ps -> (forall q m, (q, m) ∈ out_p2p ob -> q ∈ others p ps /\ fits m = true) ->
  exists o, send_round push (rng p rnd) (at_home p) rnd ob [] = (Ok tt, o).
Proof.
  intros Hp Hm. assert (exists o, Forall2 (seals_to (rng p rnd) (at_home p) rnd) (out_p2p ob) o) as [o Ho].
  { induction (out_p2p ob) as [|[q m] l IH]; [by exists []|].
    destruct IH as [o Ho]; [intros; apply Hm; by right|].
    destruct (Hm q m) as [[Hq Hne]%elem_of_others Hfit]; [left|].
    destruct (Hacq p q Hp Hq) as (Hid & _ & Hvk & Hseal). destruct (Hseal rnd m) as [e He]; [done..|].
    exists (sign e (signing_key (c p)) :: o). constructor; [|done].
    exists (verifying_key (signing_key (c q))), e. cbn [fst snd at_home exchange_new ctx ex_op].
    rewrite Hid. split; [|done]. change (q ∈ peers (at_home p)). rewrite home_peers by done.
    by apply elem_of_others. }
  exists (bcasts (at_home p) rnd ob ++ o). apply send_round_push. by exists o.
Qed.

(** The wire after a party's round: what it had sent, the round, and later
    rounds. *)
Lemma run_round_out p rnd ob expect k (st : net) last sent :
  same_ceremony (ex st) (at_home p) -> ordered last (Round rnd ob expect k) ->
  send_round push (rng p rnd) (at_home p) rnd ob [] = (Ok tt, sent) ->
  exists o, out (snd (run p (Round rnd ob expect k) st)) = out st ++ sent ++ o /\
            Forall (beyond p (wval rnd)) o.
Proof.
  intros Hs [Hlt Hk] Hsend. cbn [play]. unfold mbnd, send_round_.
  apply (send_round_same _ _ (ex st)) in Hsend; [|by symmetry].
  rewrite (proj2 (send_round_from _ _ _ _ (out st) _)) by eauto. unfold recv_round_. cbn [ex out incoming].
  destruct (recv_round _ _ _ _) as [[[inbox ex'] rest]|e] eqn:Ev.
  2:{ exists []. by rewrite app_nil_r. }
  apply recv_round_spec in Ev as (_ & _ & Hs' & _).
  destruct (run_emits p (k inbox) (MkNet ex' (out st ++ sent) rest) (wval rnd)) as (o & -> & Ho).
  { by transitivity (ex st). }
  { apply Hk. }
  exists o. cbn [out]. by rewrite <- app_assoc.
Qed.

(** Where a party's run stands, with its rounds up to [last] behind it: the
    rest of it is the tree's, its mail is still authentic with respect to what
    everyone puts out in the end, and complete if nothing is lost. *)
Variable lossless : bool.
Variable final : u8 -> result stop A * net.
Abbreviation fin q := (out (snd (final q))).

Definition on_track (last : N) (p : u8) (t : proto A) : Prop :=
  exists st mail events,
    run p t st = final p /\ same_ceremony (ex st) (at_home p) /\
    Forall (up_to p last) (out st) /\ incoming st = (Arrived <$> mail) ++ events /\
    (forall s, s ∈ ahead (ex st) ++ mail ->
       foreign (at_home p) (env s) = true \/ exists q, q ∈ ps /\ q <> p /\ s ∈ fin q) /\
    (if lossless then
       forall q s, q ∈ ps -> q <> p -> s ∈ fin q -> to (env s) = p -> (last < wval (round (env s)))%N ->
         s ∈ ahead (ex st) ++ mail
     else events = []).

(** Or it timed out by then, which takes a lost message. *)
Definition timed_out_by (last : N) (p : u8) : Prop :=
  lossless = false /\ (exists m, fst (final p) = Err (Fail (Transport m))) /\ Forall (up_to p last) (fin p).

Definition stage (last : N) (p : u8) (t : proto A) : Prop :=
  ordered last t /\ (on_track last p t \/ timed_out_by last p).

(** What is on the wire from a party in a round is what it sent then; the
    rest of its envelopes are of other rounds. *)
Lemma stage_wire last p rnd ob expect k :
  p ∈ ps -> stage last p (Round rnd ob expect k) ->
  (forall q m, (q, m) ∈ out_p2p ob -> q ∈ others p ps /\ fits m = true) ->
  exists sent, send_round push (rng p rnd) (at_home p) rnd ob [] = (Ok tt, sent) /\
    (forall s, s ∈ sent -> (lossless = true -> s ∈ fin p) /\ authored (at_home p) rnd s) /\
    (forall s, s ∈ fin p -> s ∈ sent \/ (authored (at_home p) (round (env s)) s /\ round (env s) <> rnd)).
Proof.
  intros Hp [Hord Hst] Hm. destruct (sends_all p rnd ob Hp Hm) as [sent Hsend]. exists sent. split; [done|].
  pose proof (send_round_authored _ _ _ _ _ _ _ Hsend) as (sent' & E & Ha). simpl in E. subst sent'.
  rewrite Forall_forall in Ha. pose proof Hord as [Hlt _].
  assert (forall s, up_to p last s -> authored (at_home p) (round (env s)) s /\ round (env s) <> rnd) as Hpast.
  { intros s [? ?]. split; [done|]. intros E. rewrite E in *. lia. }
  destruct Hst as [(st & mail & ev & Hrun & Hs & Hup & _)|(Hl & _ & Hup)]; rewrite Forall_forall in Hup.
  2:{ split; [|intros s Hin; right; auto]. intros s Hin. split; [congruence|auto]. }
  destruct (run_round_out p rnd ob expect k st last sent Hs Hord Hsend) as (o & Ho & Hb).
  rewrite Hrun in Ho. rewrite Ho, Forall_forall in *. split.
  - intros s Hin. split; [|by apply Ha]. intros _. apply elem_of_app; right. apply elem_of_app; by left.
  - intros s [Hin|[Hin|Hin]%elem_of_app]%elem_of_app; [right; auto|by left|right].
    apply Hb in Hin as [? ?]. split; [done|]. intros E. rewrite E in *. lia.
Qed.

(** At another party of the ceremony, or at a third. *)
Lemma authored_elsewhere p q rnd s ex' :
  p ∈ ps -> q ∈ ps -> q <> p -> same_ceremony ex' (at_home p) -> authored (at_home q) rnd s ->
  if decide (to (env s) = p) then genuine ex' s = true else foreign ex' (env s) = true.
Proof.
  intros Hp Hq Hne Hs Ha. pose proof (authored_at _ _ _ _ (home_agree q p Hq Hp Hne) Ha) as H.
  cbn [at_home exchange_new ctx] in H. rewrite home_id in H by done.
  case_decide; [by rewrite (genuine_proper _ _ Hs _ _ eq_refl)|by rewrite (foreign_proper _ _ Hs _ _ eq_refl)].
Qed.

(** An inbox with every other party's message is the one handed over. *)
Lemma inbox_handed obs expect p inbox :
  BTree.wf obs = true -> BTree.keys obs = ps -> (forall k, BTree.wf (slot k inbox) = true) ->
  (forall k q, BTree.get q (slot k inbox) =
     if wanted expect k && contains q (others p ps)
     then BTree.get q obs ≫= fun ob => meant ob k p else None) ->
  inbox = handed obs expect p.
Proof.
  intros Hwf Hkeys Hwfi Hslots. apply inbox_ext. intros k.
  apply BTree.wf_ext; [done|by apply handed_wf|]. intros q. rewrite Hslots, handed_get by done.
  destruct (wanted expect k); [|done]. cbn [andb]. destruct (contains q (others p ps)) eqn:Hc.
  - apply contains_true, elem_of_others in Hc as [_ Hne]. by rewrite bool_decide_eq_false_2.
  - apply contains_false in Hc. case_bool_decide as Hqp; [done|]. cbn [negb].
    rewrite BTree.get_keys_None; [done|]. rewrite Hkeys. intros Hq. apply Hc, elem_of_others. done.
Qed.

Section Step.
Variables (last : N) (rnd : u8) (expect : Expect) (obs : BTree.t RoundOutbox).
Hypothesis Hwf : BTree.wf obs = true.
Hypothesis Hkeys : BTree.keys obs = ps.
Hypothesis Hall : forall q obq, (q, obq) ∈ obs ->
  deliverable fits ps expect (q, obq) = true /\ exists kq, stage last q (Round rnd obq expect kq).

Definition outbox_of (q : u8) : RoundOutbox := default (MkOutbox None []) (BTree.get q obs).
Definition sent_by (q : u8) : list SignedEnvelope :=
  snd (send_round push (rng q rnd) (at_home q) rnd (outbox_of q) []).

Lemma outbox_of_get q : q ∈ ps -> BTree.get q obs = Some (outbox_of q).
Proof.
  intros Hq. rewrite <- Hkeys in Hq. apply BTree.elem_of_keys in Hq as [obq Hobq].
  unfold outbox_of. by rewrite Hobq.
Qed.

(** Everyone's envelopes of this round, and of others. *)
Lemma everyones_wire q :
  q ∈ ps ->
  deliverable fits ps expect (q, outbox_of q) = true /\
  send_round push (rng q rnd) (at_home q) rnd (outbox_of q) [] = (Ok tt, sent_by q) /\
  (forall s, s ∈ sent_by q -> (lossless = true -> s ∈ fin q) /\ authored (at_home q) rnd s) /\
  (forall s, s ∈ fin q -> s ∈ sent_by q \/ (authored (at_home q) (round (env s)) s /\ round (env s) <> rnd)).
Proof.
  intros Hq. pose proof (BTree.get_elem_of _ _ _ (outbox_of_get q Hq)) as Hin.
  destruct (Hall q _ Hin) as (Hd & kq & Hkq). split; [done|].
  pose proof (deliverable_true _ _ _ _ _ Hd) as (_ & Hm & _).
  destruct (stage_wire _ _ _ _ _ _ Hq Hkq Hm) as (o & Ho & H). unfold sent_by. by rewrite Ho.
Qed.

(** The round a party receives, or times out in. *)
Lemma round_received p (st : net) mail events :
  p ∈ ps -> same_ceremony (ex st) (at_home p) ->
  (forall s, s ∈ ahead (ex st) ++ mail ->
     foreign (at_home p) (env s) = true \/ exists q, q ∈ ps /\ q <> p /\ s ∈ fin q) ->
  (if lossless then
     forall q s, q ∈ ps -> q <> p -> s ∈ fin q -> to (env s) = p -> round (env s) = rnd ->
       s ∈ ahead (ex st) ++ mail
   else events = []) ->
  (exists p1 p2 b',
    mail = p1 ++ p2 /\
    recv_round (ex st) rnd expect ((Arrived <$> mail) ++ events) =
      Ok (handed obs expect p, b', (Arrived <$> p2) ++ events) /\
    same_ceremony b' (ex st) /\
    ahead b' = filter (fun s => later (ex st) rnd s = true) (ahead (ex st) ++ p1)) \/
  (lossless = false /\ exists m, recv_round (ex st) rnd expect ((Arrived <$> mail) ++ events) = Err (Transport m)).
Proof.
  intros Hp Hs Hauth Hcomp.
  assert (peers (ex st) = others p ps) as Hpeers by (destruct Hs as (_ & _ & ->); by apply home_peers).
  assert (party_id (ctx (ex st)) = p) as Hid by (destruct Hs as (-> & _); by apply home_id).
  assert (forall q, q ∈ peers (ex st) -> agree (at_home q) (ex st) /\ party_id (ctx (at_home q)) = q /\
    BTree.wf (out_p2p (outbox_of q)) = true /\
    send_round push (rng q rnd) (at_home q) rnd (outbox_of q) [] = (Ok tt, sent_by q)) as Hsenders.
  { rewrite Hpeers. intros q [Hq Hne]%elem_of_others. destruct (everyones_wire q Hq) as (Hd & Hsend & _).
    apply deliverable_true in Hd as (Hwfq & _ & Hmq). split_and!; try done.
    - rewrite Hs. by apply home_agree.
    - by apply home_id. }
  assert (forall s, s ∈ ahead (ex st) ++ mail -> foreign (ex st) (env s) = true \/
    (genuine (ex st) s = true /\ round (env s) <> rnd) \/ exists q, q ∈ peers (ex st) /\ s ∈ sent_by q) as Hmail.
  { rewrite Hpeers. intros s Hsin. destruct (Hauth s Hsin) as [Hf|(q & Hq & Hne & Hfin)].
    { left. by rewrite (foreign_proper _ _ Hs _ _ eq_refl). }
    destruct (everyones_wire q Hq) as (_ & _ & _ & Hw). destruct (Hw s Hfin) as [Hsent|[Ha Hr]].
    { right; right. exists q. split; [|done]. by apply elem_of_others. }
    pose proof (authored_elsewhere p q _ s _ Hp Hq Hne Hs Ha) as Hat. case_decide; auto. }
  destruct (round_outcome (ex st) rnd expect at_home outbox_of (fun q => rng q rnd) sent_by mail events Hsenders Hmail)
    as [(p1 & p2 & inbox & b' & Hpp & Hrecv & Hs' & Hah & Hwfi & Hslots)|(Hn & ex1 & ib1 & Hc & Hl)].
  - left. exists p1, p2, b'. split_and!; try done. rewrite Hrecv. do 3 f_equal.
    apply inbox_handed; [done..|]. intros k q. rewrite Hslots, Hpeers, Hid.
    destruct (wanted expect k); [|done]. cbn [andb]. destruct (contains q (others p ps)) eqn:Hc; [|done].
    apply contains_true, elem_of_others in Hc as [Hq _]. by rewrite outbox_of_get.
  - destruct lossless eqn:El; [exfalso; apply Hn|right].
    + apply (round_delivers (ex st) rnd expect at_home outbox_of (fun q => rng q rnd) sent_by mail Hsenders Hmail);
        rewrite Hpeers, Hid.
      * intros q k [Hq Hne]%elem_of_others Hw. destruct (everyones_wire q Hq) as (Hd & _).
        apply deliverable_true in Hd as (_ & _ & Hmq). apply Hmq; [done|]. apply elem_of_others. done.
      * intros q s [Hq Hne]%elem_of_others Hsent Hto. destruct (everyones_wire q Hq) as (_ & _ & Hw & _).
        destruct (Hw s Hsent) as [Hfin Ha]. eapply Hcomp; [exact Hq|done|by apply Hfin|done|by eapply authored_round].
    + split; [done|]. rewrite Hl, Hcomp. cbn [collect_loop]. rewrite Hc. by eexists.
Qed.

(** A round everyone is in takes everyone to the next one, with the inbox the
    synchronous run hands over. *)
Lemma stage_step p ob k :
  (p, ob) ∈ obs -> stage last p (Round rnd ob expect k) ->
  stage (wval rnd) p (k (handed obs expect p)).
Proof.
  intros Hin [[Hlt Hk] Hst]. split; [apply Hk|].
  assert (forall o, Forall (up_to p last) o -> Forall (up_to p (wval rnd)) o) as Hmono.
  { intros o Ho. eapply Forall_impl; [exact Ho|]. intros s [Ha Hr]. split; [done|lia]. }
  destruct Hst as [(st & mail & ev & Hrun & Hs & Hup & Hinc & Hauth & Hcomp)|(Hl & He & Hup)];
    [|right; split_and!; auto].
  assert (p ∈ ps) as Hp by (rewrite <- Hkeys; apply list_elem_of_fmap; by exists (p, ob)).
  assert (outbox_of p = ob) as Hob.
  { apply (BTree.elem_of_get _ _ _ Hwf) in Hin. unfold outbox_of. by rewrite Hin. }
  destruct (everyones_wire p Hp) as (_ & Hsend & Hsa & _). rewrite Hob in Hsend.
  assert (Forall (up_to p (wval rnd)) (out st ++ sent_by p)) as Hup'.
  { apply Forall_app. split; [by apply Hmono|]. apply Forall_forall. intros s Hs'. destruct (Hsa s Hs') as [_ Ha].
    pose proof (authored_round _ _ _ Ha) as Hr. unfold up_to. rewrite Hr. by split. }
  assert (send_round push (rng p rnd) (ex st) rnd ob (out st) = (Ok tt, out st ++ sent_by p)) as Hsent.
  { apply send_round_from. eexists. split; [done|]. eapply send_round_same; [by symmetry|exact Hsend]. }
  cbn [play] in Hrun. unfold mbnd, send_round_ in Hrun. rewrite Hsent in Hrun. unfold recv_round_ in Hrun.
  cbn [ex out incoming] in Hrun. rewrite Hinc in Hrun.
  destruct (round_received p st mail ev Hp Hs Hauth) as [(p1 & p2 & b' & -> & Hrecv & Hs' & Hah)|(Hl & m & Hrecv)].
  { destruct lossless; [|done]. intros q s Hq Hne Hfin Hto Hr. eapply Hcomp; [done..|]. by rewrite Hr. }
  2:{ right. rewrite Hrecv in Hrun. unfold timed_out_by. rewrite <- Hrun. split_and!; [done|by exists m|done]. }
  left. rewrite Hrecv in Hrun.
  exists (MkNet b' (out st ++ sent_by p) ((Arrived <$> p2) ++ ev)), p2, ev. cbn [ex out incoming].
  split_and!; [done|by transitivity (ex st)|done|done| |].
  - intros s Hsin. apply Hauth. rewrite app_assoc. rewrite Hah in Hsin.
    apply elem_of_app in Hsin as [[_ Hsin]%list_elem_of_filter|Hsin]; apply elem_of_app; auto.
  - destruct lossless; [|done]. intros q s Hq Hne Hfin Hto Hr.
    assert (s ∈ (ahead (ex st) ++ p1) ++ p2) as [Hsin|Hsin]%elem_of_app.
    { rewrite <- app_assoc. eapply Hcomp; [done..|lia]. }
    2:{ apply elem_of_app. by right. }
    apply elem_of_app. left. rewrite Hah. apply list_elem_of_filter. split; [|done].
    destruct (everyones_wire q Hq) as (_ & _ & Hw' & Hw). destruct (Hw s Hfin) as [Hsq|[Ha _]].
    { destruct (Hw' s Hsq) as [_ E%authored_round]. rewrite E in Hr. lia. }
    pose proof (authored_elsewhere p q _ s _ Hp Hq Hne Hs Ha) as Hat. rewrite decide_True in Hat by done.
    unfold later. rewrite Hat. by apply N.ltb_lt.
Qed.
End Step.

(** What a party's run comes to. *)
Definition settles_as (p : u8) (r : result stop A) : Prop :=
  fst (final p) = r \/ (lossless = false /\ exists m, fst (final p) = Err (Fail (Transport m))).

Lemma sync_staged fuel last ts rs :
  ascending (wval <$> ps) = true -> BTree.keys ts = ps -> sync fits fuel ts = Some rs ->
  (forall p t, (p, t) ∈ ts -> stage last p t) ->
  forall p, p ∈ ps -> exists r, BTree.get p rs = Some r /\ settles_as p r.
Proof.
  intros Hps. revert last ts; induction fuel as [fuel IH] using (well_founded_induction lt_wf).
  intros last ts Hkeys Hsync Htrack p Hp.
  assert (forall V (m : BTree.t V), BTree.keys m = ps -> BTree.wf m = true) as Hwf.
  { intros V m Hm. unfold BTree.wf. by rewrite Hm. }
  assert (forall V (m : BTree.t V) q, BTree.keys m = ps -> q ∈ ps -> exists t, (q, t) ∈ ts) as Hts.
  { intros V m q Hm Hq. rewrite <- Hkeys in Hq. by apply keys_pair. }
  apply sync_step in Hsync as [[Hk Hdone]|(fuel' & rnd & expect & obs & ts' & -> & Hko & Hkt & Hsync & Hround)];
    rewrite Hkeys in *.
  - destruct (Hts _ ts p Hkeys Hp) as [t Ht]. destruct (Hdone p t Ht) as (r & -> & Hr). exists r.
    split; [apply BTree.elem_of_get; auto|]. unfold settles_as.
    destruct (Htrack p _ Ht) as [_ [(st & m & ev & Hrun & _)|(Hl & He & _)]]; [left; by rewrite <- Hrun|by right].
  - apply (IH fuel' ltac:(lia) (wval rnd) ts'); try done. intros q t' Hq'.
    destruct (Hts _ ts' q Hkt) as [tq Htq]; [rewrite <- Hkt; apply keys_pair; eauto|].
    destruct (Hround q tq Htq) as (ob & k & -> & Hob & _ & Hk').
    apply (BTree.elem_of_get _ _ _ (Hwf _ _ Hkt)) in Hq', Hk'. rewrite Hk' in Hq'. injection Hq' as <-.
    apply (stage_step last rnd expect obs (Hwf _ _ Hko) Hko) with (ob := ob); [|done|by apply Htrack].
    intros q' ob' Hin'. destruct (Hts _ obs q' Hko) as [tq' Htq']; [rewrite <- Hko; apply keys_pair; eauto|].
    destruct (Hround q' tq' Htq') as (ob'' & k'' & -> & Hob'' & Hdel & _).
    apply (BTree.elem_of_get _ _ _ (Hwf _ _ Hko)) in Hin', Hob''. rewrite Hob'' in Hin'. injection Hin' as <-.
    split; [done|]. exists k''. by apply Htrack.
Qed.
End Async.

(** *** The refinement *)
Section Refinement.
Context {C : Crypto} {CL : CryptoLaws C} {A : Type}.

(** Runs that come to everyone's trees, played from the start of the
    ceremony on authentic mail, return what the synchronous run says or time
    out; and they return it when nothing is lost. *)
Lemma trees_compute (lossless : bool) (ps : list u8) (op : u8) (c : u8 -> PartyContext)
    (rng : u8 -> u8 -> u8 -> array 32 * array 24) (fits : bytes -> bool) (fuel : nat)
    (t : u8 -> proto A) (mail : u8 -> list SignedEnvelope) (events : u8 -> list event) rs
    (final : u8 -> result stop A * net) :
  ascending (wval <$> ps) = true ->
  acquainted ps op c rng fits ->
  (forall p, p ∈ ps -> ordered 0 (t p)) ->
  sync fits fuel ((fun p => (p, t p)) <$> ps) = Some rs ->
  (forall p, p ∈ ps -> final p =
     play push (rng p) (t p) (MkNet (at_home ps op c p) [] ((Arrived <$> mail p) ++ events p))) ->
  (forall p, p ∈ ps -> authentic ps op c (fun q => out (snd (final q))) p (mail p)) ->
  (if lossless then forall p, p ∈ ps -> complete_mail ps (fun q => out (snd (final q))) p (mail p)
   else forall p, p ∈ ps -> events p = []) ->
  forall p, p ∈ ps -> exists r, BTree.get p rs = Some r /\ settles_as lossless final p r.
Proof.
  intros Hps Hacq Hord Hsync Hfinal Hauth Hcomp.
  apply (sync_staged ps op c rng fits Hacq lossless final fuel 0 ((fun p => (p, t p)) <$> ps)); try done.
  { unfold BTree.keys. rewrite <- list_fmap_compose. apply list_fmap_id. }
  intros p tp (q & [= -> ->] & Hq)%list_elem_of_fmap. split; [by apply Hord|left].
  exists (MkNet (at_home ps op c q) [] ((Arrived <$> mail q) ++ events q)), (mail q), (events q).
  cbn [ex out incoming ahead at_home exchange_new].
  split_and!; try done; [by rewrite Hfinal|by apply Hauth|].
  destruct lossless; [|by apply Hcomp]. intros q' s Hq' Hne Hs Hto _. by eapply Hcomp.
Qed.

(** C8: over authenticated channels, an asynchronous ceremony refines the
    synchronous one.  Take parties of one instance that pinned each other's
    keys, each with a tree whose rounds are numbered upwards, and suppose the
    synchronous run, which hands every outbox over directly, finishes.  Then
    in every asynchronous execution, whatever the interleaving, reordering,
    duplication and loss of what the parties put out and whatever foreign
    traffic is mixed in, every party returns exactly what the synchronous run
    says it returns, or times out; and when nothing addressed to anyone is
    lost, no one times out, whatever follows that mail. *)
Theorem async_refines_sync (ps : list u8) (op : u8) (c : u8 -> PartyContext)
    (rng : u8 -> u8 -> u8 -> array 32 * array 24) (fits : bytes -> bool) (fuel : nat)
    (t : u8 -> proto A) (mail : u8 -> list SignedEnvelope) (events : u8 -> list event) rs :
  let start p := MkNet (at_home ps op c p) [] ((Arrived <$> mail p) ++ events p) in
  let final p := play push (rng p) (t p) (start p) in
  let sent p := out (snd (final p)) in
  ascending (wval <$> ps) = true ->
  acquainted ps op c rng fits ->
  (forall p, p ∈ ps -> ordered 0 (t p)) ->
  sync fits fuel ((fun p => (p, t p)) <$> ps) = Some rs ->
  (forall p, p ∈ ps -> authentic ps op c sent p (mail p)) ->
  ((forall p, p ∈ ps -> complete_mail ps sent p (mail p)) ->
   forall p, p ∈ ps -> BTree.get p rs = Some (fst (final p))) /\
  ((forall p, p ∈ ps -> events p = []) ->
   forall p, p ∈ ps -> exists r, BTree.get p rs = Some r /\
     (fst (final p) = r \/ exists m, fst (final p) = Err (Fail (Transport m)))).
Proof.
  intros start final sent Hps Hacq Hord Hsync Hauth. split; intros Hmail p Hp.
  - destruct (trees_compute true ps op c rng fits fuel t mail events rs final) with (p := p)
      as (r & -> & [<-|[? _]]); done.
  - destruct (trees_compute false ps op c rng fits fuel t mail events rs final) with (p := p)
      as (r & Hr & [H|[_ H]]); try done; exists r; auto.
Qed.
End Refinement.

(** A run that ends like this is waiting for mail: what it was handed did not
    complete the round it is in. *)
Definition waits {A} (x : result stop A) : Prop := exists m, x = Err (Fail (Transport m)).

#[export] Instance waits_dec {A} (x : result stop A) : Decision (waits x).
Proof. destruct x as [a|[[]|]]; try (right; by intros [? ?]). left. by eexists. Defined.

(** ** Schedules *)
(** The ceremony as it unfolds: the network hands a party, one at a time and
    as often as it likes, envelopes that others have put out on the mail they
    were handed so far, or foreign ones. *)
Section Schedule.
Context {C : Crypto} {CL : CryptoLaws C} {A : Type}.
Variables (ps : list u8) (op : u8) (c : u8 -> PartyContext) (rng : u8 -> u8 -> u8 -> array 32 * array 24).
Variable t : u8 -> proto A.

(** A party's run on the mail it was handed, at the end of which it waits. *)
Definition so_far (p : u8) (mail : list SignedEnvelope) : result stop A * net (R := list SignedEnvelope) :=
  play push (rng p) (t p) (MkNet (at_home ps op c p) [] (Arrived <$> mail)).

Definition hand (mail : u8 -> list SignedEnvelope) (p : u8) (s : SignedEnvelope) : u8 -> list SignedEnvelope :=
  fun q => if decide (q = p) then mail q ++ [s] else mail q.

Inductive scheduled : (u8 -> list SignedEnvelope) -> Prop :=
  | sched_start : scheduled (fun _ => [])
  | sched_deliver mail p q s :
      scheduled mail -> p ∈ ps -> q ∈ ps -> q <> p -> s ∈ out (snd (so_far q (mail q))) ->
      scheduled (hand mail p s)
  | sched_foreign mail p s :
      scheduled mail -> p ∈ ps -> foreign (at_home ps op c p) (env s) = true -> scheduled (hand mail p s).

(** A run only adds to the wire, and more mail only makes it add more. *)
Lemma play_extends rngp (u : proto A) (st : net) :
  exists o, out (snd (play push rngp u st)) = out st ++ o.
Proof.
  revert st; induction u as [x|rnd ob expect k IH]; intros st; cbn [play]; [exists []; by rewrite app_nil_r|].
  unfold mbnd. destruct (send_round_ push rngp rnd ob st) as [y s1] eqn:Es.
  unfold send_round_ in Es. destruct (send_round push _ _ _ _ _) as [x o1] eqn:Er. injection Es as <- <-.
  apply send_round_authored in Er as (o & -> & _). destruct x as [u|e]; [|by exists o].
  unfold recv_round_. cbn [ex out incoming].
  destruct (recv_round _ _ _ _) as [[[inbox ex'] rest]|e]; [|by exists o].
  destruct (IH inbox (MkNet ex' (out st ++ o) rest)) as (o' & ->). exists (o ++ o'). cbn [out]. by rewrite app_assoc.
Qed.

Lemma play_more rngp (u : proto A) exch o events events' :
  exists o', out (snd (play push rngp u (MkNet exch o (events ++ events')))) =
             out (snd (play push rngp u (MkNet exch o events))) ++ o'.
Proof.
  revert exch o events; induction u as [x|rnd ob expect k IH]; intros exch o events; cbn [play].
  { exists []. by rewrite app_nil_r. }
  unfold mbnd, send_round_. cbn [ex out incoming].
  destruct (send_round push _ _ _ _ _) as [[u|e] o1]; [|exists []; by rewrite app_nil_r].
  unfold recv_round_. cbn [ex out incoming].
  destruct (recv_round exch rnd expect events) as [[[inbox ex'] rest]|e] eqn:Er.
  { rewrite (recv_round_more _ _ _ _ _ _ _ _ Er). apply IH. }
  cbn [snd out]. destruct (recv_round exch rnd expect (events ++ events')) as [[[inbox ex'] rest]|e'].
  - destruct (play_extends rngp (k inbox) (MkNet ex' o1 rest)) as (o' & ->). by exists o'.
  - exists []. by rewrite app_nil_r.
Qed.

Lemma handed_sent mail p s q x :
  x ∈ out (snd (so_far q (mail q))) -> x ∈ out (snd (so_far q (hand mail p s q))).
Proof.
  unfold hand. case_decide; [|done]. unfold so_far. rewrite fmap_app. intros Hx.
  destruct (play_more (rng q) (t q) (at_home ps op c q) [] (Arrived <$> mail q) (Arrived <$> [s])) as (o & ->).
  apply elem_of_app. by left.
Qed.

Lemma scheduled_authentic mail :
  scheduled mail -> forall p, p ∈ ps -> authentic ps op c (fun q => out (snd (so_far q (mail q)))) p (mail p).
Proof.
  assert (forall mail p s p', authentic ps op c (fun q => out (snd (so_far q (mail q)))) p' (mail p') ->
    (p' = p -> foreign (at_home ps op c p) (env s) = true \/
       exists q, q ∈ ps /\ q <> p /\ s ∈ out (snd (so_far q (mail q)))) ->
    authentic ps op c (fun q => out (snd (so_far q (hand mail p s q)))) p' (hand mail p s p')) as Hhand.
  { intros m p s p' Hauth Hs x Hx. unfold hand in Hx.
    assert (x ∈ m p' \/ (p' = p /\ x = s)) as [Hin|[-> ->]].
    { case_decide; [|by left]. apply elem_of_app in Hx as [?|?%list_elem_of_singleton]; auto. }
    - destruct (Hauth x Hin) as [?|(q & Hq & Hne & Hsent)]; [by left|right; exists q].
      split_and!; [done..|by apply handed_sent].
    - destruct (Hs eq_refl) as [?|(q & Hq & Hne & Hsent)]; [by left|right; exists q].
      split_and!; [done..|by apply handed_sent]. }
  induction 1 as [|mail p q s _ IH Hp Hq Hne Hs|mail p s _ IH Hp Hf]; intros p' Hp'.
  - by intros s Hs%not_elem_of_nil.
  - apply Hhand; [by apply IH|]. intros ->. right. by exists q.
  - apply Hhand; [by apply IH|]. intros ->. by left.
Qed.

(** A run that returned, returned for good. *)
Lemma play_final rngp (u : proto A) exch o events events' :
  ~ waits (fst (play push rngp u (MkNet exch o events))) ->
  fst (play push rngp u (MkNet exch o (events ++ events'))) = fst (play push rngp u (MkNet exch o events)) /\
  out (snd (play push rngp u (MkNet exch o (events ++ events')))) =
  out (snd (play push rngp u (MkNet exch o events))).
Proof.
  revert exch o events; induction u as [x|rnd ob expect k IH]; intros exch o events; cbn [play]; [done|].
  unfold mbnd, send_round_. cbn [ex out incoming].
  destruct (send_round push _ _ _ _ _) as [[u|e] o1]; [|done].
  unfold recv_round_. cbn [ex out incoming].
  destruct (recv_round exch rnd expect events) as [[[inbox ex'] rest]|e] eqn:Er.
  { rewrite (recv_round_more _ _ _ _ _ _ _ _ Er). apply IH. }
  cbn [fst snd out]. intros Hn. rewrite (recv_round_fails _ _ _ _ events' _ Er); [done|].
  intros m ->. apply Hn. by exists m.
Qed.

(** At any point of a ceremony on authentic mail: everyone has returned what
    the synchronous run says or waits; and if not all have returned, someone
    who waits has not been handed all there is for it. *)
Lemma always_progress (fits : bytes -> bool) (fuel : nat) rs mail :
  ascending (wval <$> ps) = true ->
  acquainted ps op c rng fits ->
  (forall p, p ∈ ps -> ordered 0 (t p)) ->
  sync fits fuel ((fun p => (p, t p)) <$> ps) = Some rs ->
  (forall p, p ∈ ps -> authentic ps op c (fun q => out (snd (so_far q (mail q)))) p (mail p)) ->
  (forall p, p ∈ ps -> exists r, BTree.get p rs = Some r /\
     (fst (so_far p (mail p)) = r \/ waits (fst (so_far p (mail p))))) /\
  ((forall p, p ∈ ps -> BTree.get p rs = Some (fst (so_far p (mail p)))) \/
   exists p q s, p ∈ ps /\ q ∈ ps /\ q <> p /\ waits (fst (so_far p (mail p))) /\
     s ∈ out (snd (so_far q (mail q))) /\ to (env s) = p /\ s ∉ mail p).
Proof.
  intros Hps Hacq Hord Hsync Hauth.
  set (sent q := out (snd (so_far q (mail q)))).
  split.
  { intros p Hp. destruct (trees_compute false ps op c rng fits fuel t mail (fun _ => []) rs
      (fun p => so_far p (mail p))) with (p := p) as (r & Hr & [H|[_ H]]); try done; [|exists r; auto..].
    intros q _. by rewrite app_nil_r. }
  destruct (decide (Exists (fun p => waits (fst (so_far p (mail p))) /\ Exists (fun q => q <> p /\
    Exists (fun s => to (env s) = p /\ s ∉ mail p) (sent q)) ps) ps)) as [He|Hn].
  { right. apply Exists_exists in He as (p & Hp & Hw & (q & Hq & Hne & He)%Exists_exists).
    apply Exists_exists in He as (s & Hs & Hto & Hm). by exists p, q, s. }
  left. set (rest p := ps ≫= fun q => if decide (q = p) then [] else sent q).
  assert (forall p q s, q ∈ ps -> q <> p -> s ∈ sent q -> s ∈ rest p) as Hrest.
  { intros p q s Hq Hne Hs. apply list_elem_of_bind. exists q. by rewrite decide_False. }
  set (mail' p := if decide (waits (fst (so_far p (mail p)))) then mail p else mail p ++ rest p).
  assert (forall p, fst (so_far p (mail' p)) = fst (so_far p (mail p)) /\
                    out (snd (so_far p (mail' p))) = sent p) as Hsame.
  { intros p. unfold mail', sent. case_decide as Hw; [done|]. unfold so_far. rewrite fmap_app. by apply play_final. }
  intros p Hp. rewrite <- (proj1 (Hsame p)).
  destruct (trees_compute true ps op c rng fits fuel t mail' (fun _ => []) rs (fun p => so_far p (mail' p)))
    with (p := p) as (r & -> & [<-|[? _]]); try done.
  - intros q _. by rewrite app_nil_r.
  - intros q Hq s Hs. setoid_rewrite (fun x => proj2 (Hsame x)). unfold mail' in Hs. case_decide; [by apply Hauth|].
    apply elem_of_app in Hs as [Hs|(q' & Hs & Hq')%list_elem_of_bind]; [by apply Hauth|]. right.
    case_decide; [by apply not_elem_of_nil in Hs|]. by exists q'.
  - intros q Hq q' s Hq' Hne Hs Hto. rewrite (proj2 (Hsame q')) in Hs. unfold mail'. case_decide as Hw.
    + destruct (decide (s ∈ mail q)) as [|Hnin]; [done|]. destruct Hn.
      apply Exists_exists. exists q. split; [done|]. split; [done|]. apply Exists_exists. exists q'. split; [done|].
      split; [done|]. apply Exists_exists. by exists s.
    + apply elem_of_app. right. by eapply Hrest.
Qed.

(** A ceremony never goes wrong and never gets stuck.  At every point of
    every schedule of a ceremony whose synchronous run finishes, a party has
    returned what that run says or is still waiting, and unless all have
    returned, some party that waits has mail to come: an envelope that another
    put out for it and that was not yet handed to it. *)
Theorem never_stuck (fits : bytes -> bool) (fuel : nat) rs mail :
  ascending (wval <$> ps) = true ->
  acquainted ps op c rng fits ->
  (forall p, p ∈ ps -> ordered 0 (t p)) ->
  sync fits fuel ((fun p => (p, t p)) <$> ps) = Some rs ->
  scheduled mail ->
  (forall p, p ∈ ps -> exists r, BTree.get p rs = Some r /\
     (fst (so_far p (mail p)) = r \/ waits (fst (so_far p (mail p))))) /\
  ((forall p, p ∈ ps -> BTree.get p rs = Some (fst (so_far p (mail p)))) \/
   exists p q s, p ∈ ps /\ q ∈ ps /\ q <> p /\ waits (fst (so_far p (mail p))) /\
     s ∈ out (snd (so_far q (mail q))) /\ to (env s) = p /\ s ∉ mail p).
Proof. intros Hps Hacq Hord Hsync Hsched. eapply always_progress; [done..|]. by apply scheduled_authentic. Qed.
End Schedule.

(** ** Tables: one entry per party *)
Definition tab {V} (f : u8 -> V) (ps : list u8) : BTree.t V := (fun p => (p, f p)) <$> ps.

Section Tables.
Implicit Types ps : list u8.

Lemma tab_keys {V} (f : u8 -> V) ps : BTree.keys (tab f ps) = ps.
Proof. unfold BTree.keys, tab. rewrite <- list_fmap_compose. apply list_fmap_id. Qed.

Lemma tab_wf {V} (f : u8 -> V) ps : ascending (wval <$> ps) = true -> BTree.wf (tab f ps) = true.
Proof. intros H. unfold BTree.wf. by rewrite tab_keys. Qed.

Lemma tab_elem {V} (f : u8 -> V) ps p : p ∈ ps -> (p, f p) ∈ tab f ps.
Proof. intros H. apply list_elem_of_fmap. by exists p. Qed.

Lemma tab_get {V} (f : u8 -> V) ps p : p ∈ ps -> BTree.get p (tab f ps) = Some (f p).
Proof.
  induction ps as [|q ps IH]; [by intros ?%not_elem_of_nil|]. cbn [tab fmap list_fmap BTree.get].
  case_decide as Hq; [by subst|]. intros [?|Hin]%elem_of_cons; [done|]. by apply IH.
Qed.

Lemma tab_get_None {V} (f : u8 -> V) ps p : p ∉ ps -> BTree.get p (tab f ps) = None.
Proof. intros H. apply BTree.get_keys_None. by rewrite tab_keys. Qed.

(** A table computed entry by entry. *)
Definition tabulate {V} (f : u8 -> option V) (ps : list u8) : option (BTree.t V) :=
  mapM (fun p => pair p <$> f p) ps.

Lemma tabulate_Some {V} (f : u8 -> option V) ps tbl :
  ps <> [] -> ascending (wval <$> ps) = true -> tabulate f ps = Some tbl ->
  exists v, tbl = tab v ps /\ forall p, p ∈ ps -> f p = Some (v p).
Proof.
  intros Hne Hps Ht%mapM_Some_1.
  assert (BTree.keys tbl = ps) as Hk.
  { clear Hne Hps. induction Ht as [|p [q w] l tbl Hp _ IH]; [done|]. destruct (f p); [|done].
    injection Hp as <- <-. cbn [BTree.keys fmap list_fmap fst]. f_equal. exact IH. }
  assert (BTree.wf tbl = true) as Hwf by (unfold BTree.wf; by rewrite Hk).
  assert (exists w : V, True) as [w0 _].
  { destruct ps as [|p0 ps0]; [done|]. destruct tbl as [|[p1 v1] tbl]; [done|by exists v1]. }
  exists (fun p => default w0 (BTree.get p tbl)).
  assert (forall p, p ∈ ps -> exists w, BTree.get p tbl = Some w /\ f p = Some w) as Hall.
  { intros p Hp. destruct (Forall2_elem_l _ _ _ _ Ht Hp) as ([q w] & Hin & Hf).
    destruct (f p) as [w'|]; [|done]. injection Hf as <- <-. exists w'. by rewrite (BTree.elem_of_get _ _ _ Hwf Hin). }
  split; [|intros p Hp; by destruct (Hall p Hp) as (? & -> & ->)].
  apply BTree.wf_ext; [done|by apply tab_wf|]. intros q. destruct (decide (q ∈ ps)) as [Hq|Hq].
  - rewrite tab_get by done. by destruct (Hall q Hq) as (w & -> & _).
  - rewrite tab_get_None by done. apply BTree.get_keys_None. by rewrite Hk.
Qed.

(** Everyone else's entry. *)
Lemma picked_tab f me (ob : u8 -> RoundOutbox) (b : u8 -> bytes) ps :
  (forall q, q ∈ ps -> q <> me -> f (ob q) = Some (b q)) ->
  picked f me (tab ob ps) = tab b (others me ps).
Proof.
  induction ps as [|p ps IH]; [done|]. intros H. unfold picked, tab, others in *.
  cbn [fmap list_fmap omap list_omap fst snd]. rewrite filter_cons.
  destruct (decide (p = me)) as [E|E].
  - rewrite decide_False by auto. apply IH. intros q Hq. apply H. by right.
  - rewrite decide_True by done. rewrite (H p) by (by try left). cbn [fmap option_fmap option_map list_fmap].
    f_equal. apply IH. intros q Hq. apply H. by right.
Qed.

Lemma handed_broadcasts me ob expect b ps :
  expect_broadcasts expect = true -> (forall q, q ∈ ps -> q <> me -> out_broadcast (ob q) = Some (b q)) ->
  broadcasts (handed (tab ob ps) expect me) = tab b (others me ps).
Proof. intros He Hb. unfold handed. rewrite He. cbn [broadcasts]. by apply picked_tab. Qed.

Lemma handed_p2p me ob expect b ps :
  expect_p2p expect = true -> (forall q, q ∈ ps -> q <> me -> BTree.get me (out_p2p (ob q)) = Some (b q)) ->
  p2p (handed (tab ob ps) expect me) = tab b (others me ps).
Proof. intros He Hb. unfold handed. rewrite He. cbn [p2p]. by apply picked_tab. Qed.

(** ** The synchronous run, step by step *)
Lemma sync_done {A} fits fuel (t : u8 -> proto A) r ps :
  (forall p, p ∈ ps -> t p = Done (r p)) -> sync fits fuel (tab t ps) = Some (tab r ps).
Proof.
  intros Ht. assert (mapM finished (tab t ps) = Some (tab r ps)) as Hm.
  { apply mapM_Some_2. unfold tab. apply Forall2_fmap, Forall_Forall2_diag, Forall_forall.
    intros p Hp. unfold finished. cbn [fst snd]. by rewrite Ht. }
  by destruct fuel; cbn [sync]; rewrite Hm.
Qed.

(** A round everyone is in. *)
Lemma sync_round {A} fits fuel (t t' : u8 -> proto A) rnd expect ob ps :
  ps <> [] -> ascending (wval <$> ps) = true ->
  (forall p, p ∈ ps -> exists k, t p = Round rnd (ob p) expect k /\ k (handed (tab ob ps) expect p) = t' p) ->
  (forall p, p ∈ ps -> deliverable fits ps expect (p, ob p) = true) ->
  sync fits (S fuel) (tab t ps) = sync fits fuel (tab t' ps).
Proof.
  intros Hne Hps Ht Hd. destruct ps as [|p0 ps0] eqn:Eps; [done|]. rewrite <- Eps in *.
  assert (p0 ∈ ps) as Hp0 by (rewrite Eps; left).
  set (k p := match t p with Done x => fun _ => Done x | Round _ _ _ k => k end).
  assert (forall p, p ∈ ps -> t p = Round rnd (ob p) expect (k p) /\ k p (handed (tab ob ps) expect p) = t' p) as Hk.
  { intros p Hp. destruct (Ht p Hp) as (kp & E & Hkp). unfold k. by rewrite E. }
  assert (mapM finished (tab t ps) = None) as Hf.
  { apply mapM_None_2, Exists_exists. exists (p0, t p0). split; [by apply tab_elem|].
    unfold finished. cbn [snd]. by rewrite (proj1 (Hk p0 Hp0)). }
  assert (mapM asks (tab t ps) = Some (tab (fun p => (rnd, expect, ob p, k p)) ps)) as Ha.
  { apply mapM_Some_2. unfold tab. apply Forall2_fmap, Forall_Forall2_diag, Forall_forall.
    intros p Hp. unfold asks. cbn [fst snd]. by rewrite (proj1 (Hk p Hp)). }
  cbn [sync]. rewrite Hf, Ha. set (rounds := tab (fun p => (rnd, expect, ob p, k p)) ps) in *.
  assert ((fun x : u8 * (u8 * Expect * RoundOutbox * (RoundInbox -> proto A)) =>
            (fst x, snd (fst (snd x)))) <$> rounds = tab ob ps) as Hobs.
  { unfold rounds, tab. by rewrite <- list_fmap_compose. }
  destruct rounds as [|[q [[[rnd' expect'] ob'] k']] rs] eqn:Er; [unfold rounds in Er; by rewrite Eps in Er|].
  assert (rnd' = rnd /\ expect' = expect) as [-> ->] by (unfold rounds in Er; rewrite Eps in Er; by injection Er as _ <- <- _ _ _).
  rewrite <- Er in *. rewrite Hobs, tab_keys.
  rewrite (proj2 (forallb_forall _ _)).
  2:{ intros x (p & -> & Hp)%list_elem_of_In%list_elem_of_fmap. simpl. by rewrite !bool_decide_eq_true_2. }
  rewrite (proj2 (forallb_forall _ _)).
  2:{ intros x (p & -> & Hp)%list_elem_of_In%list_elem_of_fmap. by apply Hd. }
  cbn [andb]. f_equal. unfold rounds, tab. rewrite <- list_fmap_compose. apply list_fmap_ext.
  intros i p Hp%list_elem_of_lookup_2. cbn [compose fst snd]. f_equal. by apply Hk.
Qed.
End Tables.

(** ** Witness: two parties greet each other. *)
Definition demo_two : list u8 := ids 2.
Definition demo_party (p : u8) : PartyContext := demo_ctx (wval p).
Definition demo_rngs (_ _ _ : u8) : array 32 * array 24 := (toy_key 9, array_repeat 24 (wmod 8 4)).

Lemma demo_two_elem (P : u8 -> Prop) : P (wmod 8 0) -> P (wmod 8 1) -> forall p, p ∈ demo_two -> P p.
Proof.
  intros H0 H1 p Hp. change (p ∈ [wmod 8 0; wmod 8 1]) in Hp.
  apply elem_of_cons in Hp as [->|Hp]; [done|]. by apply list_elem_of_singleton in Hp as ->.
Qed.

Lemma demo_acquainted op : acquainted demo_two op demo_party demo_rngs (fun _ => true).
Proof.
  intros p q Hp Hq. revert p Hp. refine (demo_two_elem _ _ _); revert q Hq; refine (demo_two_elem _ _ _); (split; [reflexivity|]; split; [reflexivity|]; split; [vm_compute; reflexivity|]);
    intros rnd m _ _; eexists; reflexivity.
Qed.

(** Each gets exactly what the other put out. *)
Lemma demo_delivered op (sent : u8 -> list SignedEnvelope) (mail : u8 -> list SignedEnvelope) :
  mail (wmod 8 0) = sent (wmod 8 1) -> mail (wmod 8 1) = sent (wmod 8 0) ->
  forall p, p ∈ demo_two ->
    authentic demo_two op demo_party sent p (mail p) /\ complete_mail demo_two sent p (mail p).
Proof.
  intros H0 H1. refine (demo_two_elem _ _ _); [rewrite H0|rewrite H1]; (split;
    [intros s Hs; right; eexists; (split; [|split; [|exact Hs]]);
       [apply contains_true; vm_compute; reflexivity|intros E; vm_compute in E; discriminate E]|]);
    intros q s Hq; revert q Hq s; refine (demo_two_elem _ _ _); intros s Hne Hs _; done.
Qed.

(** What two runs exchange once their mail has settled. *)
Definition settled (k : nat) (run : u8 -> list SignedEnvelope -> list SignedEnvelope)
  : list SignedEnvelope * list SignedEnvelope := settle_mail k (fun i mail => run (wmod 8 i) mail) [] [].
Definition settled_mail (k : nat) (run : u8 -> list SignedEnvelope -> list SignedEnvelope) (p : u8)
  : list SignedEnvelope := if bool_decide (p = wmod 8 0) then fst (settled k run) else snd (settled k run).
Definition settles (k : nat) (run : u8 -> list SignedEnvelope -> list SignedEnvelope) : bool :=
  let ms := settled k run in
  bool_decide (fst ms = run (wmod 8 1) (snd ms)) && bool_decide (snd ms = run (wmod 8 0) (fst ms)).

Lemma settled_delivered op k run :
  settles k run = true -> forall p, p ∈ demo_two ->
  authentic demo_two op demo_party (fun q => run q (settled_mail k run q)) p (settled_mail k run p) /\
  complete_mail demo_two (fun q => run q (settled_mail k run q)) p (settled_mail k run p).
Proof.
  intros [H0%bool_decide_eq_true H1%bool_decide_eq_true]%andb_true_iff. apply demo_delivered; assumption.
Qed.

Definition greeting (p : u8) : proto (BTree.t bytes) :=
  Round (wmod 8 1) (MkOutbox (Some [p]) []) Broadcasts (fun inbox => Done (Ok (broadcasts inbox))).
Definition demo_greet (p : u8) (mail : list SignedEnvelope) :=
  play push (demo_rngs p) (greeting p)
    (MkNet (at_home demo_two op_DKG demo_party p) [] ((Arrived <$> mail) ++ [RelayFailed Deserialize])).
Definition demo_greet_mail : u8 -> list SignedEnvelope := settled_mail 2 (fun p mail => out (snd (demo_greet p mail))).

Lemma async_refines_sync_witness :
  exists rs, sync (fun _ => true) 1 ((fun p => (p, greeting p)) <$> demo_two) = Some rs /\
    forall p, p ∈ demo_two -> BTree.get p rs = Some (fst (demo_greet p (demo_greet_mail p))).
Proof.
  eexists. split; [vm_compute; reflexivity|].
  pose proof (settled_delivered op_DKG 2 (fun p mail => out (snd (demo_greet p mail)))
                ltac:(vm_compute; reflexivity)) as Hmail.
  refine (proj1 (async_refines_sync demo_two op_DKG demo_party demo_rngs (fun _ => true) 1 greeting demo_greet_mail
           (fun _ => [RelayFailed Deserialize]) _ _ _ _ _ _) _).
  - vm_compute. reflexivity.
  - apply demo_acquainted.
  - intros p _. split; [reflexivity|done].
  - vm_compute. reflexivity.
  - intros p Hp. apply (Hmail p Hp).
  - intros p Hp. apply (Hmail p Hp).
Defined.

(** Party 0 has been handed nothing yet, party 1 what it waits for. *)
Definition demo_midway : u8 -> list SignedEnvelope :=
  hand (fun _ => []) (wmod 8 1)
    (broadcast_to (at_home demo_two op_DKG demo_party (wmod 8 0)) (wmod 8 1) [wmod 8 0] (wmod 8 1)).

Lemma never_stuck_witness :
  exists rs p q s, sync (fun _ => true) 1 ((fun p => (p, greeting p)) <$> demo_two) = Some rs /\
    p ∈ demo_two /\ q ∈ demo_two /\
    s ∈ out (snd (so_far demo_two op_DKG demo_party demo_rngs greeting q (demo_midway q))) /\ s ∉ demo_midway p.
Proof.
  destruct (never_stuck demo_two op_DKG demo_party demo_rngs greeting (fun _ => true) 1
    [(wmod 8 0, Ok [(wmod 8 1, [wmod 8 1])]); (wmod 8 1, Ok [(wmod 8 0, [wmod 8 0])])] demo_midway)
    as [_ [Hall|(p & q & s & Hp & Hq & _ & _ & Hs & _ & Hn)]].
  - vm_compute. reflexivity.
  - apply demo_acquainted.
  - intros p _. split; [reflexivity|done].
  - vm_compute. reflexivity.
  - apply (sched_deliver _ _ _ _ _ _ (wmod 8 1) (wmod 8 0)); [constructor| | | |].
    + apply contains_true. vm_compute. reflexivity.
    + apply contains_true. vm_compute. reflexivity.
    + intros E. vm_compute in E. discriminate E.
    + apply contains_true. vm_compute. reflexivity.
  - exfalso. assert (wmod 8 0 ∈ demo_two) as H0 by (apply contains_true; vm_compute; reflexivity).
    specialize (Hall _ H0). vm_compute in Hall. discriminate Hall.
  - eexists _, p, q, s. split; [vm_compute; reflexivity|]. done.
Defined.
