(* ===== verification/Ceremonies.v ===== *)
(** * The ceremonies as trees

    Each party's key generation, refresh and signing run as a tree of rounds
    ([keygen_tree], [refresh_tree], [sign_tree]): [keygen_party_tree],
    [refresh_party_tree] and [sign_party_tree] say that the runs of [Carbon]
    are those trees played, over any relay.  The rest is what [Central] needs
    about the rounds of these trees: which messages an outbox carries for whom,
    and what a party gathers from an inbox. *)

From S2P Require Import Prelude Types Mpc Envelope Exchange Carbon Lockstep.
From Stdlib Require Import String NArith Lia.
From stdpp Require Import base decidable list strings.
Open Scope string_scope. Open Scope list_scope.

(** ** The runs as trees *)
Section Trees.
Context {C : Crypto} {D : Dkls}.

Definition ask (rnd : u8) (ob : RoundOutbox) (expect : Expect) : proto RoundInbox :=
  Round rnd ob expect (fun inbox => Done (Ok inbox)).
Definition ptry {A} (x : result MpcError A) : proto A := Done (map_err Fail x).
Definition plib {A} (op : u8) (x : result Abort A) : proto A := ptry (map_err (map_abort op) x).

Definition fragments_tree (me : u8) (fragments : list Scalar) (what : string) (op : u8) : proto (list Scalar) :=
  round! inbox := ask (wmod 8 1) (MkOutbox None (fragment_outbox me 0 fragments [])) P2p in
  Done (collect (fragment_of me fragments inbox what op <$>
                 ids (N.to_nat (wval (wmod 8 (N.of_nat (length fragments))))))).

(** The ceremonies, split at their rounds. *)
Definition keygen_end (my_index : PartyIndex) (my_bip3 : Bip3) (session : DkgSession)
    (proofs : list ProofCommitment) (bip2 : BTree.t Bip2) (zero2_in : list Zero2) (inbox : RoundInbox)
  : proto (KeyShare * PubkeySec1) :=
  round! bip3 := Done (round3_broadcasts (broadcasts inbox) [(index_u8 my_index, my_bip3)]) in
  round! (zero3_in, mul3_in) := ptry (gather_zero_mul (p2p inbox) "dkg round-3 transmits" op_DKG) in
  round! party := plib op_DKG (dkg_phase4 session proofs zero2_in zero3_in mul3_in bip2 bip3) in
  round! pk := Done (compress_pk (party_pk party)) in
  Done (Ok (shard_encode party, pk)).

Definition keygen_round3 (me : u8) (all : list u8) (my_index : PartyIndex) (my_proof : ProofCommitment)
    (my_bip2 : Bip2) (session : DkgSession) (inbox : RoundInbox) : proto (KeyShare * PubkeySec1) :=
  round! (proofs, bip2) := Done (round2_broadcasts me (my_proof, my_bip2) inbox all) in
  round! zero2_in := ptry (gather bin_zero2s (p2p inbox) "dkg round-2 zero-share" op_DKG) in
  round! (zero3_out, mul3_out, my_bip3, session) := plib op_DKG (dkg_phase3 session) in
  round! inbox := ask (wmod 8 3) (MkOutbox (Some (ser bin_bip3 my_bip3)) (route_zero_mul zero3_out mul3_out)) Both in
  keygen_end my_index my_bip3 session proofs bip2 zero2_in inbox.

Definition keygen_round2 (me : u8) (all : list u8) (my_index : PartyIndex) (session : DkgSession)
    (poly_fragments : list Scalar) : proto (KeyShare * PubkeySec1) :=
  round! (my_proof, zero2_out, my_bip2, session) := plib op_DKG (dkg_phase2 session poly_fragments) in
  round! inbox := ask (wmod 8 2) (MkOutbox (Some (ser bin_proof_bip2 (my_proof, my_bip2)))
                    (route bin_zero2s zero2_out (fun m => sidx (zero2_receiver m)))) Both in
  keygen_round3 me all my_index my_proof my_bip2 session inbox.

Definition keygen_tree (ctx : PartyContext) (params : Parameters) (my_index : PartyIndex) (coins : Coins)
  : proto (KeyShare * PubkeySec1) :=
  let me := party_id ctx in
  let all := ids (N.to_nat (wval (par_share_count params))) in
  let (fragments, session) := dkg_phase1 (dkg_new params my_index (arr (Mpc.instance ctx)) coins) in
  round! poly_fragments := fragments_tree me fragments "dkg round-1 fragment" op_DKG in
  keygen_round2 me all my_index session poly_fragments.

Definition refresh_end (sid : bytes) (party : Party) (public_key : PubkeySec1) (correction : Correction)
    (proofs : list ProofCommitment) (zero_keep34 : ZeroKeep3) (zero2_in : list Zero2) (mul_keep : MulKeep)
    (inbox : RoundInbox) : proto (KeyShare * PubkeySec1) :=
  round! (zero3_in, mul3_in) := ptry (gather_zero_mul (p2p inbox) "refresh round-3 transmits" op_REFRESH) in
  round! new_party := plib op_REFRESH (refresh_phase4 party sid correction proofs zero_keep34 zero2_in zero3_in
                                         mul_keep mul3_in) in
  round! pk := Done (compress_pk (party_pk new_party)) in
  if negb (bool_decide (pk = public_key)) then
    Done (Err (Fail (PartyMismatch [Lit "refresh produced a different public key"])))
  else Done (Ok (shard_encode new_party, pk)).

Definition refresh_round3 (me : u8) (all : list u8) (sid : bytes) (party : Party) (public_key : PubkeySec1)
    (coins : Coins) (correction : Correction) (my_proof : ProofCommitment) (zero_keep23 : ZeroKeep2)
    (inbox : RoundInbox) : proto (KeyShare * PubkeySec1) :=
  round! proofs := Done (collect (round2_proof me my_proof inbox <$> all)) in
  round! zero2_in := ptry (gather bin_zero2s (p2p inbox) "refresh round-2 zero-share" op_REFRESH) in
  let '(zero_keep34, zero3_out, mul_keep, mul3_out) := refresh_phase3 party coins sid zero_keep23 in
  round! inbox := ask (wmod 8 3) (MkOutbox None (route_zero_mul zero3_out mul3_out)) P2p in
  refresh_end sid party public_key correction proofs zero_keep34 zero2_in mul_keep inbox.

Definition refresh_round2 (me : u8) (all : list u8) (sid : bytes) (party : Party) (public_key : PubkeySec1)
    (coins : Coins) (poly_fragments : list Scalar) : proto (KeyShare * PubkeySec1) :=
  let '(correction, my_proof, zero_keep23, zero2_out) := refresh_phase2 party coins sid poly_fragments in
  round! inbox := ask (wmod 8 2) (MkOutbox (Some (ser bin_proof my_proof))
                    (route bin_zero2s zero2_out (fun m => sidx (zero2_receiver m)))) Both in
  refresh_round3 me all sid party public_key coins correction my_proof zero_keep23 inbox.

Definition refresh_tree (ctx : PartyContext) (params : Parameters) (party : Party) (public_key : PubkeySec1)
    (coins : Coins) : proto (KeyShare * PubkeySec1) :=
  let me := party_id ctx in
  let all := ids (N.to_nat (wval (par_share_count params))) in
  round! poly_fragments := fragments_tree me (refresh_phase1 party coins) "refresh round-1 fragment" op_REFRESH in
  refresh_round2 me all (arr (Mpc.instance ctx)) party public_key coins poly_fragments.

Definition sign_end (party : Party) (digest : B256) (session : SignSession) (my_broadcast : Broadcast3)
    (inbox : RoundInbox) : proto EcdsaParts :=
  round! others := ptry (round3_shares (broadcasts inbox)) in
  round! (r, s) := plib op_SIGN (sign_phase4 session (my_broadcast :: others) true) in
  Done (finish_signature party digest r s).

Definition sign_round3 (party : Party) (digest : B256) (session : SignSession) (inbox : RoundInbox)
  : proto EcdsaParts :=
  round! received2 := ptry (gather bin_t2s (p2p inbox) "sign round-2 transmit" op_SIGN) in
  round! (my_broadcast, session) := plib op_SIGN (sign_phase3 session received2) in
  round! inbox := ask (wmod 8 3) (MkOutbox (Some (ser bin_broadcast3 my_broadcast)) []) Broadcasts in
  sign_end party digest session my_broadcast inbox.

Definition sign_round2 (party : Party) (digest : B256) (session : SignSession) (inbox : RoundInbox)
  : proto EcdsaParts :=
  round! received1 := ptry (gather bin_t1s (p2p inbox) "sign round-1 transmit" op_SIGN) in
  round! (t2_out, session) := plib op_SIGN (sign_phase2 session received1) in
  round! inbox := ask (wmod 8 2) (MkOutbox None (route bin_t2s t2_out (fun m => sidx (t2_receiver m)))) P2p in
  sign_round3 party digest session inbox.

Definition sign_tree (party : Party) (digest : B256) (session : SignSession) (t1_out : list Transmit1)
  : proto EcdsaParts :=
  round! inbox := ask (wmod 8 1) (MkOutbox None (route bin_t1s t1_out (fun m => sidx (t1_receiver m)))) P2p in
  sign_round2 party digest session inbox.

(** *** They are the runs *)
Context {R : Type}.
Variable relay_send : SignedEnvelope -> M R MpcError unit.
Variable rng : u8 -> u8 -> array 32 * array 24.
Abbreviation play := (play relay_send rng).

Lemma same_round_step {A} rnd ob expect (F : RoundInbox -> Run (R := R) A) f s :
  (forall inbox s', F inbox s' = play (f inbox) s') ->
  (let! _ := send_round_ relay_send rng rnd ob in let! inbox := recv_round_ rnd expect in F inbox) s =
  play (pbind (ask rnd ob expect) f) s.
Proof.
  intros H. cbn [ask pbind Lockstep.play]. unfold mbnd. destruct (send_round_ _ _ _ _ s) as [[u|e] s1]; [|done].
  destruct (recv_round_ _ _ s1) as [[inbox|e] s2]; [apply H|done].
Qed.

Lemma same_local_step {A B} (x : result stop A) (F : A -> Run (R := R) B) f s :
  (forall a s', F a s' = play (f a) s') -> mbnd (mlift x) F s = play (pbind (Done x) f) s.
Proof. intros H. destruct x as [a|e]; [apply H|done]. Qed.

Lemma same_bind {A B} (m : Run (R := R) A) t (F : A -> Run (R := R) B) f s :
  (forall s', m s' = play t s') -> (forall a s', F a s' = play (f a) s') -> mbnd m F s = play (pbind t f) s.
Proof. intros Hm HF. rewrite play_bind. unfold mbnd. rewrite Hm. destruct (play t s) as [[a|e] s']; [apply HF|done]. Qed.

Lemma same_rest {A B} (m : Run (R := R) A) (F G : A -> Run (R := R) B) s :
  (forall a s', F a s' = G a s') -> mbnd m F s = mbnd m G s.
Proof. intros H. unfold mbnd. destruct (m s) as [[a|e] s']; [apply H|done]. Qed.

Ltac same_step := first [apply same_round_step; intros ? ? | apply same_local_step; intros ? ?].

Lemma share_fragments_tree me fragments what op s :
  share_fragments relay_send rng me fragments what op s = play (fragments_tree me fragments what op) s.
Proof. unfold share_fragments, fragments_tree. same_step. done. Qed.

(** A key generation run is its checks and its tree. *)
Lemma keygen_party_tree ctx coins s :
  keygen_party relay_send rng ctx coins s =
  (let! (params, my_index) := mlift (scheme ctx) in
   let! _ := open_exchange ctx op_DKG (ids (N.to_nat (wval (par_share_count params)))) in
   play (keygen_tree ctx params my_index coins)) s.
Proof.
  unfold keygen_party. apply same_rest. intros [params my_index] s1. apply same_rest. intros _ s2.
  unfold keygen_tree, keygen_round2, keygen_round3, keygen_end. destruct (dkg_phase1 _) as [fragments session].
  apply same_bind; [intros s3; apply share_fragments_tree|]. intros fs s3.
  apply same_local_step. intros [[[proof z2] bip2] session2] s4. same_step.
  apply same_local_step. intros [proofs bips] s6. same_step.
  apply same_local_step. intros [[[z3 m3] bip3] session3] s7. same_step. same_step.
  apply same_local_step. intros [zs ms] s9. same_step. by same_step.
Qed.

Lemma refresh_party_tree ctx share pk coins s :
  refresh_party relay_send rng ctx share pk coins s =
  (let! (params, party) := mlift (refresh_checks ctx share pk) in
   let! _ := open_exchange ctx op_REFRESH (ids (N.to_nat (wval (par_share_count params)))) in
   play (refresh_tree ctx params party pk coins)) s.
Proof.
  unfold refresh_party. apply same_rest. intros [params party] s1. apply same_rest. intros _ s2.
  unfold refresh_tree, refresh_round2, refresh_round3, refresh_end. apply same_bind; [intros s3; apply share_fragments_tree|]. intros fs s3.
  destruct (refresh_phase2 _ _ _ _) as [[[corr proof] zk] z2]. same_step. same_step. same_step.
  destruct (refresh_phase3 _ _ _ _) as [[[zk34 z3] mk] m3]. same_step.
  apply same_local_step. intros [zs ms] s7. same_step. same_step. by destruct (negb _).
Qed.

Lemma sign_party_tree ctx share digest subset coins s :
  sign_party relay_send rng ctx share digest subset coins s =
  (let! party := mlift (sign_checks ctx share subset) in
   let! counterparties := mlift (collect (cidx <$> filter (fun p => p <> party_id ctx) subset)) in
   let! (session, t1_out) := lib op_SIGN (sign_new party (arr (Mpc.instance ctx), counterparties, digest) coins) in
   let! _ := open_exchange ctx op_SIGN subset in
   play (sign_tree party digest session t1_out)) s.
Proof.
  unfold sign_party. apply same_rest. intros party s1. apply same_rest. intros cps s2.
  apply same_rest. intros [session t1] s3. apply same_rest. intros _ s4. unfold sign_tree, sign_round2, sign_round3, sign_end.
  same_step. same_step. apply same_local_step. intros [t2 session2] s5. same_step. same_step.
  apply same_local_step. intros [mine session3] s6. same_step. same_step.
  by apply same_local_step; intros [r0 s0] s7.
Qed.
End Trees.

(** ** Routing, without the encodings *)
(** A party's messages for one receiver. *)
Definition to_party {D : Dkls} {T} (receiver : T -> PartyIndex) (p : u8) (items : list T) : list T :=
  filter (fun m => sidx (receiver m) = p) items.

(** A table keyed by the library's indices instead of party ids. *)
Definition by_index {V} (b : u8 -> V) (ps : list u8) : BTree.t V :=
  (fun p => (wmod 8 (wval p + 1), b p)) <$> ps.

Section Routing.
Context {C : Crypto} {D : Dkls} {DL : DklsLaws D}.

Lemma get_values {V W} (f : V -> W) q m : BTree.get q (values f m) = f <$> BTree.get q m.
Proof.
  induction m as [|[k v] m IH]; [done|]. change (values f ((k, v) :: m)) with ((k, f v) :: values f m).
  cbn [BTree.get]. by case_decide.
Qed.

Lemma wf_values {V W} (f : V -> W) m : BTree.wf (values f m) = BTree.wf m.
Proof.
  unfold BTree.wf, BTree.keys, values. do 2 f_equal. rewrite <- list_fmap_compose. by apply list_fmap_ext.
Qed.

(** Messages accumulated under their receivers. *)
Lemma entries_get {T V} (d : V) (receiver : T -> u8) (g : T -> V -> V) items m q :
  BTree.get q (foldl (fun m x => entry d (receiver x) (g x) m) m items) =
    match filter (fun x => receiver x = q) items with
    | [] => BTree.get q m
    | l => Some (foldl (fun v x => g x v) (default d (BTree.get q m)) l)
    end.
Proof.
  revert m; induction items as [|x items IH]; intros m; [done|]. cbn [foldl]. rewrite IH, filter_cons.
  unfold entry. rewrite BTree.get_insert. destruct (decide (receiver x = q)) as [E|E].
  - rewrite decide_True by done. subst q. cbn [default].
    destruct (filter _ items) as [|y l]; [|by cbn [foldl]]. done.
  - rewrite decide_False by auto. done.
Qed.

Lemma entries_wf {T V} (d : V) (receiver : T -> u8) (g : T -> V -> V) items m :
  BTree.wf m = true -> BTree.wf (foldl (fun m x => entry d (receiver x) (g x) m) m items) = true.
Proof. revert m; induction items as [|x items IH]; intros m Hm; [done|]. cbn [foldl]. apply IH. unfold entry. by apply BTree.wf_insert. Qed.

Lemma foldl_snoc {T} (l acc : list T) : foldl (fun v x => v ++ [x]) acc l = acc ++ l.
Proof.
  revert acc; induction l as [|x l IH]; intros acc; cbn [foldl]; [by rewrite app_nil_r|].
  by rewrite IH, <- app_assoc.
Qed.

Lemma route_wf {T} (b : Bin (list T)) items receiver : BTree.wf (route b items receiver) = true.
Proof. unfold route, grouped. rewrite wf_values. by apply entries_wf. Qed.

(** Routing gives each receiver its own messages, in order, if it has any. *)
Lemma route_get {T} (b : Bin (list T)) items receiver q :
  BTree.get q (route b items (fun m => sidx (receiver m))) =
    match to_party receiver q items with [] => None | l => Some (ser b l) end.
Proof.
  unfold route, grouped, to_party. rewrite get_values.
  rewrite (entries_get [] (fun m => sidx (receiver m)) (fun x l => l ++ [x])).
  destruct (filter _ items) as [|x l]; [done|]. rewrite foldl_snoc. done.
Qed.

Lemma route_zero_mul_wf zero mul : BTree.wf (route_zero_mul zero mul) = true.
Proof. unfold route_zero_mul. rewrite wf_values. by apply entries_wf, entries_wf. Qed.

Lemma foldl_fst {T U} (l : list T) (v : list T * U) :
  foldl (fun v z => (fst v ++ [z], snd v)) v l = (fst v ++ l, snd v).
Proof.
  revert v; induction l as [|x l IH]; intros [a u]; cbn [foldl fst snd]; [by rewrite app_nil_r|].
  rewrite IH. cbn [fst snd]. by rewrite <- app_assoc.
Qed.

Lemma foldl_snd {T U} (l : list T) (v : U * list T) :
  foldl (fun v z => (fst v, snd v ++ [z])) v l = (fst v, snd v ++ l).
Proof.
  revert v; induction l as [|x l IH]; intros [u a]; cbn [foldl fst snd]; [by rewrite app_nil_r|].
  rewrite IH. cbn [fst snd]. by rewrite <- app_assoc.
Qed.

Lemma route_zero_mul_get zero mul q :
  BTree.get q (route_zero_mul zero mul) =
    match to_party zero3_receiver q zero, to_party mul3_receiver q mul with
    | [], [] => None
    | z, m => Some (ser bin_zero_mul (z, m))
    end.
Proof.
  unfold route_zero_mul, to_party. rewrite get_values.
  rewrite (entries_get ([], []) (fun x => sidx (mul3_receiver x)) (fun x v => (fst v, snd v ++ [x]))).
  rewrite (entries_get ([], []) (fun x => sidx (zero3_receiver x)) (fun x v => (fst v ++ [x], snd v))).
  destruct (filter _ zero) as [|z zs], (filter _ mul) as [|m ms]; rewrite ?foldl_fst, ?foldl_snd; done.
Qed.

(** The fragments a party deals. *)
Lemma fragment_outbox_get me j fragments m q :
  (j + length fragments <= 256)%nat ->
  BTree.get q (fragment_outbox me j fragments m) =
    match (if decide (q = me) then None
           else if decide (j <= N.to_nat (wval q))%nat then fragments !! (N.to_nat (wval q) - j)%nat else None) with
    | Some f => Some (ser bin_scalar f)
    | None => BTree.get q m
    end.
Proof.
  revert j m; induction fragments as [|f fragments IH]; intros j m Hj; cbn [fragment_outbox].
  { by repeat case_decide. }
  cbn [length] in Hj. rewrite IH by lia.
  assert (wval (wmod 8 (N.of_nat j)) = N.of_nat j) as Hw.
  { apply wmod_small. change (2 ^ 8)%N with 256%N. lia. }
  destruct (decide (q = me)) as [Hme|Hme].
  { case_bool_decide as Hto; [done|]. rewrite BTree.get_insert_ne by congruence. done. }
  assert (BTree.get q (if bool_decide (wmod 8 (N.of_nat j) = me) then m
                       else BTree.insert (wmod 8 (N.of_nat j)) (ser bin_scalar f) m) =
          if decide (N.to_nat (wval q) = j) then Some (ser bin_scalar f) else BTree.get q m) as ->.
  { case_bool_decide as Hto.
    - rewrite decide_False; [done|]. intros Hq. apply Hme. rewrite <- Hto. apply word_eq. rewrite Hw. lia.
    - rewrite BTree.get_insert. destruct (decide (q = wmod 8 (N.of_nat j))) as [Hq|Hq].
      + rewrite decide_True; [done|]. rewrite Hq, Hw. lia.
      + rewrite decide_False; [done|]. intros E. apply Hq, word_eq. rewrite Hw. lia. }
  destruct (decide (N.to_nat (wval q) = j)) as [E|E].
  - rewrite E. rewrite decide_False by lia. rewrite decide_True by lia. by rewrite Nat.sub_diag.
  - destruct (decide (S j <= N.to_nat (wval q))%nat).
    + rewrite (decide_True (P := (j <= _)%nat)) by lia.
      replace (N.to_nat (wval q) - j)%nat with (S (N.to_nat (wval q) - S j)) by lia. done.
    + rewrite decide_False by lia. done.
Qed.

Lemma fragment_outbox_wf me j fragments m :
  BTree.wf m = true -> BTree.wf (fragment_outbox me j fragments m) = true.
Proof.
  revert j m; induction fragments as [|f fragments IH]; intros j m Hm; [done|]. apply IH.
  case_bool_decide; [done|by apply BTree.wf_insert].
Qed.

(** ** Gathering what was routed *)
Lemma gather_tab {T} (b : Bin (list T)) (l : u8 -> list T) qs what op :
  bin_ok b -> gather b (tab (fun q => ser b (l q)) qs) what op = Ok (qs ≫= l).
Proof.
  intros Hb. induction qs as [|q qs IH]; [done|]. cbn [tab fmap list_fmap gather]. unfold de at 1.
  rewrite Hb. cbn [ok_or rbind]. unfold tab in IH. rewrite IH. done.
Qed.

Lemma gather_zero_mul_tab (z : u8 -> list Zero3) (m : u8 -> list Mul3) qs what op :
  gather_zero_mul (tab (fun q => ser bin_zero_mul (z q, m q)) qs) what op = Ok (qs ≫= z, qs ≫= m).
Proof.
  induction qs as [|q qs IH]; [done|]. cbn [tab fmap list_fmap gather_zero_mul]. unfold de at 1.
  rewrite bin_zero_mul_ok. cbn [ok_or rbind]. unfold tab in IH. rewrite IH. done.
Qed.

Lemma round3_shares_tab (b : u8 -> Broadcast3) qs :
  round3_shares (tab (fun q => ser bin_broadcast3 (b q)) qs) = Ok (b <$> qs).
Proof.
  induction qs as [|q qs IH]; [done|]. cbn [tab fmap list_fmap round3_shares]. unfold de at 1.
  rewrite bin_broadcast3_ok. cbn [ok_or rbind]. unfold tab in IH. rewrite IH. done.
Qed.

Lemma fragments_collected me fragments inbox what op n (v : u8 -> Scalar) :
  fragments !! N.to_nat (wval me) = Some (v me) ->
  (forall p, p ∈ ids n -> p <> me -> BTree.get p (p2p inbox) = Some (ser bin_scalar (v p))) ->
  collect (fragment_of me fragments inbox what op <$> ids n) = Ok (v <$> ids n).
Proof.
  intros Hme Hin. apply collect_Ok. rewrite <- list_fmap_compose. apply list_fmap_ext.
  intros i p Hp%list_elem_of_lookup_2. unfold fragment_of, compose. case_bool_decide as Hpm.
  - subst p. by rewrite Hme.
  - unfold at_key, de. rewrite (Hin p Hp Hpm). cbn [ok_or rbind]. by rewrite bin_scalar_ok.
Qed.

Lemma proofs_collected me inbox all (v : u8 -> ProofCommitment) :
  (forall p, p ∈ all -> p <> me -> BTree.get p (broadcasts inbox) = Some (ser bin_proof (v p))) ->
  collect (round2_proof me (v me) inbox <$> all) = Ok (v <$> all).
Proof.
  intros Hin. apply collect_Ok. rewrite <- list_fmap_compose. apply list_fmap_ext.
  intros i p Hp%list_elem_of_lookup_2. unfold round2_proof, compose. case_bool_decide as Hpm; [by subst|].
  unfold at_key, de. rewrite (Hin p Hp Hpm). cbn [ok_or rbind]. by rewrite bin_proof_ok.
Qed.

Lemma cidx_index p : (wval p < 255)%N -> exists i, cidx p = Ok i /\ index_u8 i = wmod 8 (wval p + 1).
Proof.
  intros Hp. destruct (cidx_Ok p Hp) as (i & Hi & Hw). exists i. split; [done|]. apply word_eq.
  rewrite Hw. symmetry. apply wmod_small. change (2 ^ 8)%N with 256%N. lia.
Qed.

Lemma index_inj (p q : u8) : (wval p < 255)%N -> (wval q < 255)%N ->
  wmod 8 (wval p + 1) = wmod 8 (wval q + 1) -> p = q.
Proof.
  intros Hp Hq H%(f_equal wval). change 255%N with 255%N in *.
  rewrite !wmod_small in H by (change (2 ^ 8)%N with 256%N; lia). apply word_eq. lia.
Qed.

Lemma insert_front {V} k (v : V) m :
  Forall (fun k' => (wval k < wval k')%N) (BTree.keys m) -> BTree.insert k v m = (k, v) :: m.
Proof. destruct m as [|[k' v'] m]; [done|]. intros [H _]%Forall_cons. simpl in *. by rewrite (proj2 (N.ltb_lt _ _) H). Qed.

Lemma by_index_above (p : u8) {V} (b : u8 -> V) ps :
  (wval p < 255)%N -> Forall (fun q => (wval p < wval q < 255)%N) ps ->
  Forall (fun k' => (wval (wmod 8 (wval p + 1)) < wval k')%N) (BTree.keys (by_index b ps)).
Proof.
  intros Hp Hps. unfold BTree.keys, by_index. rewrite <- list_fmap_compose. apply Forall_fmap.
  eapply Forall_impl; [exact Hps|]. intros q [Hpq Hq].
  change (wval (wmod 8 (wval p + 1)) < wval (wmod 8 (wval q + 1)))%N.
  rewrite !wmod_small by (change (2 ^ 8)%N with 256%N; lia). lia.
Qed.

Lemma round2_collected me inbox all (pf : u8 -> ProofCommitment) (bp : u8 -> Bip2) :
  ascending (wval <$> all) = true -> (forall p, p ∈ all -> (wval p < 255)%N) ->
  (forall p, p ∈ all -> p <> me ->
     BTree.get p (broadcasts inbox) = Some (ser bin_proof_bip2 (pf p, bp p))) ->
  round2_broadcasts me (pf me, bp me) inbox all = Ok (pf <$> all, by_index bp all).
Proof.
  induction all as [|p all IH]; intros Hasc Hlt Hin; [done|]. cbn [round2_broadcasts].
  cbn [fmap list_fmap] in Hasc. apply ascending_cons in Hasc as [Hf Hasc].
  assert ((if bool_decide (p = me) then Ok (pf me, bp me)
           else let? raw := at_key (broadcasts inbox) p in
                map_err Fail (de bin_proof_bip2 raw p "dkg round-2 broadcast" op_DKG)) = Ok (pf p, bp p)) as ->.
  { case_bool_decide as Hp; [by subst|]. unfold at_key, de. rewrite Hin by (by try left).
    cbn [ok_or rbind]. by rewrite bin_proof_bip2_ok. }
  cbn [rbind]. assert (wval p < 255)%N as Hp by (apply Hlt; left).
  destruct (cidx_index p Hp) as (i & -> & Hi). cbn [rbind].
  rewrite IH; [|done|intros; apply Hlt; by right|intros; apply Hin; by try right]. cbn [rbind]. rewrite Hi.
  rewrite insert_front; [done|]. apply by_index_above; [done|]. apply Forall_forall. intros q Hq.
  rewrite Forall_fmap, Forall_forall in Hf. split; [by apply Hf|]. apply Hlt. by right.
Qed.

Lemma by_index_wf {V} (b : u8 -> V) ps :
  ascending (wval <$> ps) = true -> (forall p, p ∈ ps -> (wval p < 255)%N) -> BTree.wf (by_index b ps) = true.
Proof.
  induction ps as [|p ps IH]; intros Hasc Hlt; [done|]. cbn [fmap list_fmap] in Hasc.
  apply ascending_cons in Hasc as [Hf Hasc]. cbn [by_index fmap list_fmap]. apply BTree.wf_cons. split.
  - apply by_index_above; [apply Hlt; left|]. apply Forall_forall. intros q Hq.
    rewrite Forall_fmap, Forall_forall in Hf. split; [by apply Hf|]. apply Hlt. by right.
  - apply IH; [done|]. intros q Hq. apply Hlt. by right.
Qed.

Lemma by_index_get {V} (b : u8 -> V) ps k v :
  ascending (wval <$> ps) = true -> (forall p, p ∈ ps -> (wval p < 255)%N) ->
  BTree.get k (by_index b ps) = Some v <-> exists q, q ∈ ps /\ wmod 8 (wval q + 1) = k /\ b q = v.
Proof.
  intros Hasc Hlt. split.
  - intros (q & [= -> ->] & Hq)%BTree.get_elem_of%list_elem_of_fmap. by exists q.
  - intros (q & Hq & <- & <-). apply BTree.elem_of_get; [by apply by_index_wf|].
    apply list_elem_of_fmap. by exists q.
Qed.

Definition insert_all {V} (b : u8 -> V) (qs : list u8) (m : BTree.t V) : BTree.t V :=
  foldl (fun m q => BTree.insert (wmod 8 (wval q + 1)) (b q) m) m qs.

Lemma insert_all_get {V} (b : u8 -> V) qs m k v :
  (forall q, q ∈ qs -> (wval q < 255)%N) ->
  BTree.get k (insert_all b qs m) = Some v <->
    (exists q, q ∈ qs /\ wmod 8 (wval q + 1) = k /\ b q = v) \/
    (BTree.get k m = Some v /\ forall q, q ∈ qs -> wmod 8 (wval q + 1) <> k).
Proof.
  revert m; induction qs as [|q qs IH]; intros m Hlt; cbn [insert_all foldl].
  - split; [intros H; right; split; [done|by intros ? ?%not_elem_of_nil]|].
    intros [(? & ?%not_elem_of_nil & _)|[? _]]; done.
  - fold (insert_all b qs (BTree.insert (wmod 8 (wval q + 1)) (b q) m)).
    rewrite IH by (intros; apply Hlt; by right). rewrite BTree.get_insert.
    assert (forall q', q' ∈ qs -> wmod 8 (wval q' + 1) = wmod 8 (wval q + 1) -> q' = q) as Hinj.
    { intros q' Hq' E. apply index_inj; [apply Hlt; by right|apply Hlt; left|done]. }
    setoid_rewrite elem_of_cons. case_decide as Hk.
    + subst k. split.
      * intros [(q' & Hq' & Hi & Hb)|[[= <-] _]]; left; [exists q'|exists q]; auto.
      * intros [(q' & [->|Hq'] & Hi & <-)|[_ Hn]].
        -- destruct (decide (q ∈ qs)) as [Hin|Hin]; [left; by exists q|right].
           split; [done|]. intros q' Hq' E. apply Hinj in E; [congruence|done].
        -- left. by exists q'.
        -- exfalso. apply (Hn q); [by left|done].
    + split.
      * intros [(q' & Hq' & Hi & Hb)|[Hg Hn]]; [left; exists q'; auto|right].
        split; [done|]. intros q' [->|Hq']; [congruence|auto].
      * intros [(q' & [->|Hq'] & Hi & Hb)|[Hg Hn]]; [congruence|left; by exists q'|right]. split; [done|auto].
Qed.

Lemma insert_all_wf {V} (b : u8 -> V) qs m : BTree.wf m = true -> BTree.wf (insert_all b qs m) = true.
Proof. revert m; induction qs as [|q qs IH]; intros m Hm; [done|]. by apply IH, BTree.wf_insert. Qed.

Lemma round3_collected me my_index all (b : u8 -> Bip3) :
  ascending (wval <$> all) = true -> (forall p, p ∈ all -> (wval p < 255)%N) -> me ∈ all ->
  index_u8 my_index = wmod 8 (wval me + 1) ->
  round3_broadcasts (tab (fun q => ser bin_bip3 (b q)) (others me all)) [(index_u8 my_index, b me)] =
    Ok (by_index b all).
Proof.
  intros Hasc Hlt Hme Hidx. rewrite Hidx.
  assert (forall qs m, (forall q, q ∈ qs -> (wval q < 255)%N) ->
    round3_broadcasts (tab (fun q => ser bin_bip3 (b q)) qs) m = Ok (insert_all b qs m)) as ->.
  { induction qs as [|q qs IH]; intros m Hq; [done|]. cbn [tab fmap list_fmap round3_broadcasts insert_all foldl].
    destruct (cidx_index q (Hq q ltac:(left))) as (i & -> & Hi). cbn [rbind]. unfold de.
    rewrite bin_bip3_ok. cbn [ok_or map_err rbind]. rewrite Hi. apply IH. intros. apply Hq. by right. }
  2:{ intros q [Hq _]%elem_of_others. auto. }
  f_equal. assert (forall q, q ∈ others me all -> (wval q < 255)%N) as Hlt'.
  { intros q [Hq _]%elem_of_others. auto. }
  apply BTree.wf_ext; [by apply insert_all_wf|by apply by_index_wf|]. intros k. apply option_eq. intros v.
  rewrite insert_all_get, by_index_get by done. setoid_rewrite elem_of_others. simpl. split.
  - intros [(q & [Hq _] & Hi & Hb)|[Hg _]]; [by exists q|]. case_decide as E; [|done]. injection Hg as <-.
    by exists me.
  - intros (q & Hq & Hi & Hb). destruct (decide (q = me)) as [->|Hne]; [right|left; by exists q].
    rewrite decide_True by done. split; [by rewrite Hb|]. intros q' [Hq' Hne'] E. apply Hne'.
    apply index_inj; [auto..|congruence].
Qed.
End Routing.
