(* ===== verification/Central.v ===== *)
(** * The ceremonies compute their central executions

    [central_keygen], [central_refresh] and [central_sign] run the library's
    phases for every party in turn, in one place: fragments by index, proofs
    and broadcasts in id order, every other message given to its receiver, no
    encoding, envelope or round in sight.  [keygen_computes],
    [refresh_computes] and [sign_computes] say that, over authenticated
    channels, the distributed ceremonies of [crates/sovra-mpc-dkls23-carbon]
    return exactly those results, or a timeout when mail is lost, whatever the
    interleaving of their traffic. *)

From S2P Require Import Prelude Types Mpc Envelope Exchange Carbon Lockstep Ceremonies.
From Stdlib Require Import String NArith Lia.
From stdpp Require Import base decidable list strings.
Open Scope string_scope. Open Scope list_scope.

Definition okay {E A} (x : result E A) : option A :=
  match x with Ok a => Some a | Err _ => None end.
Definition guarded {A} (b : bool) (x : A) : option A := if b then Some x else None.

(** What everyone but [p] has for it, in the order of their ids. *)
Definition from_others {V W} (f : V -> list W) (p : u8) (tbl : BTree.t V) : list W :=
  tbl ≫= fun x => if decide (fst x = p) then [] else f (snd x).

(** A column of a table, by the library's indices. *)
Definition keyed {V W} (f : V -> W) (tbl : BTree.t V) : BTree.t W :=
  (fun x => (wmod 8 (wval (fst x) + 1), f (snd x))) <$> tbl.

(** ** The central executions *)
Section Central.
Context {C : Crypto} {D : Dkls}.
(** Which encodings are small enough to be sealed. *)
Variable fits : bytes -> bool.

(** A party addresses everyone else, nobody else, and its messages to each fit. *)
Definition covers {T} (b : Bin (list T)) (receiver : T -> PartyIndex) (ps : list u8) (me : u8)
    (items : list T) : bool :=
  forallb (fun m => contains (sidx (receiver m)) (others me ps)) items &&
  forallb (fun q => let l := to_party receiver q items in
                    negb (Nat.eqb (length l) 0) && fits (ser b l)) (others me ps).

Definition covers_zero_mul (ps : list u8) (me : u8) (zero : list Zero3) (mul : list Mul3) : bool :=
  forallb (fun m => contains (sidx (zero3_receiver m)) (others me ps)) zero &&
  forallb (fun m => contains (sidx (mul3_receiver m)) (others me ps)) mul &&
  forallb (fun q => let z := to_party zero3_receiver q zero in let m := to_party mul3_receiver q mul in
                    negb (Nat.eqb (length z + length m) 0) && fits (ser bin_zero_mul (z, m))) (others me ps).

(** *** Key generation *)
Record Dealt : Type := MkDealt {
  d_params : Parameters; d_index : PartyIndex; d_fragments : list Scalar; d_session : DkgSession }.
Record Committed : Type := MkCommitted {
  c_proof : ProofCommitment; c_zero : list Zero2; c_bip : Bip2; c_session : DkgSession }.
Record Mixed : Type := MkMixed {
  m_zero : list Zero3; m_mul : list Mul3; m_bip : Bip3; m_session : DkgSession }.

Definition deal (ctx : PartyContext) (coins : Coins) : option Dealt :=
  okay (scheme ctx) ≫= fun '(params, i) =>
  let (fragments, session) := dkg_phase1 (dkg_new params i (arr (Mpc.instance ctx)) coins) in
  guarded (forallb (fun f => fits (ser bin_scalar f)) fragments) (MkDealt params i fragments session).

(** Everyone's fragment for [p]. *)
Definition fragments_for (dealt : BTree.t Dealt) (p : u8) : option (list Scalar) :=
  mapM (fun x => d_fragments (snd x) !! N.to_nat (wval p)) dealt.

Definition commit (ps : list u8) (dealt : BTree.t Dealt) (p : u8) : option Committed :=
  BTree.get p dealt ≫= fun d => fragments_for dealt p ≫= fun fragments =>
  okay (dkg_phase2 (d_session d) fragments) ≫= fun '(proof, zero, bip, session) =>
  guarded (covers bin_zero2s zero2_receiver ps p zero) (MkCommitted proof zero bip session).

Definition mix (ps : list u8) (committed : BTree.t Committed) (p : u8) : option Mixed :=
  BTree.get p committed ≫= fun c => okay (dkg_phase3 (c_session c)) ≫= fun '(zero, mul, bip, session) =>
  guarded (covers_zero_mul ps p zero mul) (MkMixed zero mul bip session).

Definition conclude (committed : BTree.t Committed) (mixed : BTree.t Mixed) (p : u8)
  : option (KeyShare * PubkeySec1) :=
  BTree.get p mixed ≫= fun m =>
  okay (dkg_phase4 (m_session m) ((fun x => c_proof (snd x)) <$> committed)
          (from_others (fun v => to_party zero2_receiver p (c_zero v)) p committed)
          (from_others (fun v => to_party zero3_receiver p (m_zero v)) p mixed)
          (from_others (fun v => to_party mul3_receiver p (m_mul v)) p mixed)
          (keyed c_bip committed) (keyed m_bip mixed)) ≫= fun party =>
  okay (compress_pk (party_pk party)) ≫= fun pk => Some (shard_encode party, pk).

Definition central_keygen (c : u8 -> PartyContext) (coins : u8 -> Coins) (n : nat)
  : option (BTree.t (KeyShare * PubkeySec1)) :=
  let ps := ids n in
  tabulate (fun p => deal (c p) (coins p)) ps ≫= fun dealt =>
  tabulate (commit ps dealt) ps ≫= fun committed =>
  tabulate (mix ps committed) ps ≫= fun mixed =>
  tabulate (conclude committed mixed) ps.

(** *** Refresh *)
Record Redealt : Type := MkRedealt { r_params : Parameters; r_party : Party; r_fragments : list Scalar }.
Record Recommitted : Type := MkRecommitted {
  rc_correction : Correction; rc_proof : ProofCommitment; rc_keep : ZeroKeep2; rc_zero : list Zero2 }.
Record Remixed : Type := MkRemixed {
  rm_keep : ZeroKeep3; rm_zero : list Zero3; rm_mul_keep : MulKeep; rm_mul : list Mul3 }.

Definition redeal (ctx : PartyContext) (share : KeyShare) (pk : PubkeySec1) (coins : Coins) : option Redealt :=
  okay (refresh_checks ctx share pk) ≫= fun '(params, party) =>
  let fragments := refresh_phase1 party coins in
  guarded (forallb (fun f => fits (ser bin_scalar f)) fragments) (MkRedealt params party fragments).

Definition recommit (c : u8 -> PartyContext) (coins : u8 -> Coins) (ps : list u8) (dealt : BTree.t Redealt)
    (p : u8) : option Recommitted :=
  BTree.get p dealt ≫= fun d =>
  mapM (fun x => r_fragments (snd x) !! N.to_nat (wval p)) dealt ≫= fun fragments =>
  let '(correction, proof, keep, zero) :=
    refresh_phase2 (r_party d) (coins p) (arr (Mpc.instance (c p))) fragments in
  guarded (covers bin_zero2s zero2_receiver ps p zero) (MkRecommitted correction proof keep zero).

Definition remix (c : u8 -> PartyContext) (coins : u8 -> Coins) (ps : list u8) (dealt : BTree.t Redealt)
    (committed : BTree.t Recommitted) (p : u8) : option Remixed :=
  BTree.get p dealt ≫= fun d => BTree.get p committed ≫= fun x =>
  let '(keep, zero, mul_keep, mul) :=
    refresh_phase3 (r_party d) (coins p) (arr (Mpc.instance (c p))) (rc_keep x) in
  guarded (covers_zero_mul ps p zero mul) (MkRemixed keep zero mul_keep mul).

Definition reconclude (c : u8 -> PartyContext) (pk : PubkeySec1) (dealt : BTree.t Redealt)
    (committed : BTree.t Recommitted) (mixed : BTree.t Remixed) (p : u8) : option (KeyShare * PubkeySec1) :=
  BTree.get p dealt ≫= fun d => BTree.get p committed ≫= fun x => BTree.get p mixed ≫= fun m =>
  okay (refresh_phase4 (r_party d) (arr (Mpc.instance (c p))) (rc_correction x)
          ((fun x => rc_proof (snd x)) <$> committed) (rm_keep m)
          (from_others (fun v => to_party zero2_receiver p (rc_zero v)) p committed)
          (from_others (fun v => to_party zero3_receiver p (rm_zero v)) p mixed) (rm_mul_keep m)
          (from_others (fun v => to_party mul3_receiver p (rm_mul v)) p mixed)) ≫= fun party =>
  okay (compress_pk (party_pk party)) ≫= fun pk' =>
  guarded (bool_decide (pk' = pk)) (shard_encode party, pk').

Definition central_refresh (c : u8 -> PartyContext) (shares : u8 -> KeyShare) (pk : PubkeySec1)
    (coins : u8 -> Coins) (n : nat) : option (BTree.t (KeyShare * PubkeySec1)) :=
  let ps := ids n in
  tabulate (fun p => redeal (c p) (shares p) pk (coins p)) ps ≫= fun dealt =>
  tabulate (recommit c coins ps dealt) ps ≫= fun committed =>
  tabulate (remix c coins ps dealt committed) ps ≫= fun mixed =>
  tabulate (reconclude c pk dealt committed mixed) ps.

(** *** Signing *)
Record Opened : Type := MkOpened { o_party : Party; o_session : SignSession; o_t1 : list Transmit1 }.

Definition sign_open (ctx : PartyContext) (share : KeyShare) (digest : B256) (subset : list u8)
    (coins : Coins) : option Opened :=
  okay (sign_checks ctx share subset) ≫= fun party =>
  okay (collect (cidx <$> others (party_id ctx) subset)) ≫= fun counterparties =>
  okay (sign_new party (arr (Mpc.instance ctx), counterparties, digest) coins) ≫= fun '(session, t1) =>
  guarded (covers bin_t1s t1_receiver subset (party_id ctx) t1) (MkOpened party session t1).

Definition sign_second (subset : list u8) (opened : BTree.t Opened) (p : u8)
  : option (list Transmit2 * SignSession) :=
  BTree.get p opened ≫= fun o =>
  okay (sign_phase2 (o_session o) (from_others (fun v => to_party t1_receiver p (o_t1 v)) p opened)) ≫=
  fun '(t2, session) => guarded (covers bin_t2s t2_receiver subset p t2) (t2, session).

Definition sign_third (second : BTree.t (list Transmit2 * SignSession)) (p : u8)
  : option (Broadcast3 * SignSession) :=
  BTree.get p second ≫= fun x =>
  okay (sign_phase3 (snd x) (from_others (fun v => to_party t2_receiver p (fst v)) p second)).

Definition sign_last (digest : B256) (opened : BTree.t Opened) (third : BTree.t (Broadcast3 * SignSession))
    (p : u8) : option EcdsaParts :=
  BTree.get p opened ≫= fun o => BTree.get p third ≫= fun x =>
  okay (sign_phase4 (snd x) (fst x :: from_others (fun v => [fst v]) p third) true) ≫= fun '(r, s) =>
  okay (finish_signature (o_party o) digest r s).

Definition central_sign (c : u8 -> PartyContext) (shares : u8 -> KeyShare) (digest : B256)
    (coins : u8 -> Coins) (subset : list u8) : option (BTree.t EcdsaParts) :=
  tabulate (fun p => sign_open (c p) (shares p) digest subset (coins p)) subset ≫= fun opened =>
  tabulate (sign_second subset opened) subset ≫= fun second =>
  tabulate (sign_third second) subset ≫= fun third =>
  tabulate (sign_last digest opened third) subset.
End Central.

(** ** Tables *)
Lemma okay_Some {E A} (x : result E A) a : okay x = Some a <-> x = Ok a.
Proof. destruct x; simpl; split; congruence. Qed.

Lemma guarded_Some {A} b (x a : A) : guarded b x = Some a <-> b = true /\ a = x.
Proof. destruct b; simpl; naive_solver. Qed.

Lemma from_others_tab {V W} (f : V -> list W) p v ps :
  from_others f p (tab v ps) = others p ps ≫= fun q => f (v q).
Proof.
  unfold from_others, tab, others. induction ps as [|q ps IH]; [done|].
  cbn [fmap list_fmap]. rewrite filter_cons. cbn [mbind list_bind fst snd].
  destruct (decide (q = p)) as [E|E].
  - rewrite decide_False by auto. exact IH.
  - rewrite decide_True by done. cbn [mbind list_bind]. f_equal. exact IH.
Qed.

Lemma keyed_tab {V W} (f : V -> W) v ps : keyed f (tab v ps) = by_index (fun p => f (v p)) ps.
Proof. unfold keyed, tab, by_index. by rewrite <- list_fmap_compose. Qed.

Lemma column_tab {V W} (f : V -> W) (v : u8 -> V) ps :
  (fun x : u8 * V => f (snd x)) <$> tab v ps = (fun p => f (v p)) <$> ps.
Proof. unfold tab. by rewrite <- list_fmap_compose. Qed.

Lemma mapM_fun {W} (g : u8 -> option W) ps l :
  ps <> [] -> mapM g ps = Some l -> exists w, l = w <$> ps /\ forall p, p ∈ ps -> g p = Some (w p).
Proof.
  intros Hne Hm%mapM_Some_1. assert (exists w : W, True) as [w0 _].
  { destruct Hm as [|p w ps l]; [done|by exists w]. }
  exists (fun p => default w0 (g p)). clear Hne. induction Hm as [|p w ps l Hp _ [-> IH]].
  - split; [done|]. by intros p ?%not_elem_of_nil.
  - split; [cbn [fmap list_fmap]; by rewrite Hp|]. intros q [->|Hq]%elem_of_cons; [by rewrite Hp|auto].
Qed.

Lemma mapM_tab {V W} (f : V -> option W) (v : u8 -> V) ps l :
  ps <> [] -> mapM (fun x : u8 * V => f (snd x)) (tab v ps) = Some l ->
  exists w, l = w <$> ps /\ forall p, p ∈ ps -> f (v p) = Some (w p).
Proof.
  intros Hne Hm. apply (mapM_fun (fun p => f (v p))); [done|]. rewrite <- Hm. clear Hne Hm.
  induction ps as [|p ps IH]; [done|]. cbn [tab fmap list_fmap mapM snd]. by rewrite IH.
Qed.

(** ** Sending what covers everyone is deliverable *)
Section Deliver.
Context {C : Crypto} {D : Dkls}.
Variable fits : bytes -> bool.

Lemma deliverable_intro ps expect p bc m :
  BTree.wf m = true ->
  (forall q b, BTree.get q m = Some b -> q ∈ others p ps /\ fits b = true) ->
  (expect_p2p expect = true -> forall q, q ∈ others p ps -> is_Some (BTree.get q m)) ->
  (expect_broadcasts expect = true -> is_Some bc) ->
  deliverable fits ps expect (p, MkOutbox bc m) = true.
Proof.
  intros Hwf Hm Hp Hb. unfold deliverable. cbn [fst snd out_p2p out_broadcast].
  rewrite !andb_true_iff, !orb_true_iff, !negb_true_iff, !forallb_forall, bool_decide_eq_true.
  setoid_rewrite <- list_elem_of_In. split_and!; [done| | |].
  - intros [q b] Hq%BTree.elem_of_get; [|done]. apply Hm in Hq as [? ?]. by rewrite andb_true_iff, contains_true.
  - destruct (expect_broadcasts expect); auto.
  - destruct (expect_p2p expect); [right|by left]. intros q Hq. apply BTree.contains_key_true. auto.
Qed.

Lemma covers_true {T} (b : Bin (list T)) receiver ps me items :
  covers fits b receiver ps me items = true ->
  (forall m, m ∈ items -> sidx (receiver m) ∈ others me ps) /\
  (forall q, q ∈ others me ps -> to_party receiver q items <> [] /\ fits (ser b (to_party receiver q items)) = true).
Proof.
  unfold covers. rewrite andb_true_iff, !forallb_forall. setoid_rewrite <- list_elem_of_In.
  setoid_rewrite contains_true. intros [H1 H2]. split; [done|]. intros q Hq.
  specialize (H2 q Hq). apply andb_true_iff in H2 as [Hn%negb_true_iff Hf]. split; [|done].
  intros E. by rewrite E in Hn.
Qed.

Lemma elem_of_to_party {T} (receiver : T -> PartyIndex) q items x l :
  to_party receiver q items = x :: l -> x ∈ items /\ sidx (receiver x) = q.
Proof.
  intros E. assert (x ∈ to_party receiver q items) as [? ?]%list_elem_of_filter by (rewrite E; left). done.
Qed.

Lemma covered_get {T} (b : Bin (list T)) receiver ps me items q :
  covers fits b receiver ps me items = true -> q ∈ others me ps ->
  BTree.get q (route b items (fun m => sidx (receiver m))) = Some (ser b (to_party receiver q items)).
Proof.
  intros [_ H]%covers_true Hq. destruct (H q Hq) as [Hn _]. rewrite route_get.
  by destruct (to_party receiver q items).
Qed.

Lemma covers_deliverable {T} (b : Bin (list T)) receiver ps me items expect bc :
  covers fits b receiver ps me items = true -> (expect_broadcasts expect = true -> is_Some bc) ->
  deliverable fits ps expect (me, MkOutbox bc (route b items (fun m => sidx (receiver m)))) = true.
Proof.
  intros Hc Hb. pose proof (covers_true _ _ _ _ _ Hc) as [Hm Hq].
  apply deliverable_intro; [apply route_wf| | |done].
  - intros q bs. rewrite route_get. destruct (to_party receiver q items) as [|x l] eqn:E; [done|].
    intros [= <-]. pose proof E as [Hx Hxq]%elem_of_to_party. apply Hm in Hx. rewrite Hxq in Hx.
    split; [done|]. rewrite <- E. by apply Hq.
  - intros _ q Hin. by rewrite (covered_get _ _ _ _ _ _ Hc Hin).
Qed.

Lemma covers_zero_mul_true ps me zero mul :
  covers_zero_mul fits ps me zero mul = true ->
  (forall m, m ∈ zero -> sidx (zero3_receiver m) ∈ others me ps) /\
  (forall m, m ∈ mul -> sidx (mul3_receiver m) ∈ others me ps) /\
  (forall q, q ∈ others me ps ->
     BTree.get q (route_zero_mul zero mul) =
       Some (ser bin_zero_mul (to_party zero3_receiver q zero, to_party mul3_receiver q mul)) /\
     fits (ser bin_zero_mul (to_party zero3_receiver q zero, to_party mul3_receiver q mul)) = true).
Proof.
  unfold covers_zero_mul. rewrite !andb_true_iff, !forallb_forall. setoid_rewrite <- list_elem_of_In.
  setoid_rewrite contains_true. intros [[H1 H2] H3]. split_and!; [done|done|]. intros q Hq.
  specialize (H3 q Hq). apply andb_true_iff in H3 as [Hn%negb_true_iff Hf]. split; [|done].
  rewrite route_zero_mul_get. by destruct (to_party _ q zero), (to_party _ q mul).
Qed.

Lemma covers_zero_mul_deliverable ps me zero mul expect bc :
  covers_zero_mul fits ps me zero mul = true -> (expect_broadcasts expect = true -> is_Some bc) ->
  deliverable fits ps expect (me, MkOutbox bc (route_zero_mul zero mul)) = true.
Proof.
  intros (Hz & Hm & Hq)%covers_zero_mul_true Hb. apply deliverable_intro; [apply route_zero_mul_wf| | |done].
  - intros q bs Hg. assert (q ∈ others me ps) as Hin.
    { rewrite route_zero_mul_get in Hg. destruct (to_party zero3_receiver q zero) as [|x l] eqn:Ez.
      - destruct (to_party mul3_receiver q mul) as [|x l] eqn:Em; [done|].
        apply elem_of_to_party in Em as [Hx <-]. auto.
      - apply elem_of_to_party in Ez as [Hx <-]. auto. }
    split; [done|]. destruct (Hq q Hin) as [Hg' Hf]. rewrite Hg in Hg'. by injection Hg' as ->.
  - intros _ q Hin. destruct (Hq q Hin) as [-> _]. done.
Qed.

Lemma fragments_deliverable n me fragments :
  (n <= 256)%nat -> length fragments = n ->
  forallb (fun f => fits (ser bin_scalar f)) fragments = true ->
  deliverable fits (ids n) P2p (me, MkOutbox None (fragment_outbox me 0 fragments [])) = true.
Proof.
  intros Hn Hlen Hf. rewrite forallb_forall in Hf.
  apply deliverable_intro; [by apply fragment_outbox_wf| | |done].
  - intros q b. rewrite fragment_outbox_get by lia. destruct (decide (q = me)) as [|Hne]; [done|].
    rewrite decide_True, Nat.sub_0_r by lia. destruct (fragments !! _) as [f|] eqn:E; [|done]. intros [= <-].
    split; [|by eapply Hf, list_elem_of_In, list_elem_of_lookup_2].
    apply elem_of_others. split; [|done]. apply elem_of_ids; [done|]. apply lookup_lt_Some in E. lia.
  - intros _ q [Hq%elem_of_ids Hne]%elem_of_others; [|done]. rewrite fragment_outbox_get by lia.
    rewrite decide_False, decide_True, Nat.sub_0_r by (done || lia).
    destruct (lookup_lt_is_Some_2 fragments (N.to_nat (wval q))) as [f ->]; [lia|done].
Qed.

Lemma fragment_sent n me fragments f (q : u8) :
  (n <= 256)%nat -> length fragments = n -> q <> me -> fragments !! N.to_nat (wval q) = Some f ->
  BTree.get q (fragment_outbox me 0 fragments []) = Some (ser bin_scalar f).
Proof.
  intros Hn Hlen Hne Hf. rewrite fragment_outbox_get by lia.
  rewrite decide_False, decide_True, Nat.sub_0_r, Hf by (done || lia). done.
Qed.

(** ** Rounds of trees *)
Lemma ordered_done {A B} last (x : result stop A) (f : A -> proto B) :
  (forall a, ordered last (f a)) -> ordered last (pbind (Done x) f).
Proof. destruct x; [intros H; apply H|done]. Qed.

Lemma ordered_ask {A} last rnd ob expect (f : RoundInbox -> proto A) :
  (last < wval rnd)%N -> (forall inbox, ordered (wval rnd) (f inbox)) ->
  ordered last (pbind (ask rnd ob expect) f).
Proof. done. Qed.

Ltac ordered_step :=
  first [apply ordered_ask; [reflexivity|intros ?]
        | apply ordered_done; intros ?
        | match goal with |- ordered _ (match ?x with _ => _ end) => destruct x end
        | done].

Lemma keygen_tree_ordered ctx params i coins : ordered 0 (keygen_tree ctx params i coins).
Proof.
  unfold keygen_tree, fragments_tree, keygen_round2, keygen_round3, keygen_end.
  destruct (dkg_phase1 _) as [frs s1]. cbn [pbind ask]. split; [reflexivity|]. intros ib.
  repeat ordered_step.
Qed.

Lemma refresh_tree_ordered ctx params party pk coins : ordered 0 (refresh_tree ctx params party pk coins).
Proof.
  unfold refresh_tree, fragments_tree, refresh_round2, refresh_round3, refresh_end.
  cbn [pbind ask]. split; [reflexivity|]. intros ib. repeat ordered_step.
Qed.

Lemma sign_tree_ordered party digest session t1 : ordered 0 (sign_tree party digest session t1).
Proof. unfold sign_tree, sign_round2, sign_round3, sign_end. repeat ordered_step. Qed.
End Deliver.

(** ** The synchronous runs *)
Section Synchronous.
Context {C : Crypto} {D : Dkls} {DL : DklsLaws D}.
Variable fits : bytes -> bool.

Lemma ids_ascending_from k n :
  (k + n <= 256)%nat -> ascending (wval <$> ((fun j => wmod 8 (N.of_nat j) : u8) <$> seq k n)) = true.
Proof.
  revert k; induction n as [|n IH]; intros k Hk; [done|]. cbn [seq fmap list_fmap].
  apply ascending_cons. split; [|apply IH; lia].
  rewrite !Forall_fmap. apply Forall_forall. intros j Hj%elem_of_seq.
  change (wval (wmod 8 (N.of_nat k)) < wval (wmod 8 (N.of_nat j)))%N.
  rewrite !wmod_small by (change (2 ^ 8)%N with 256%N; lia). lia.
Qed.

Lemma ids_ascending n : (n <= 256)%nat -> ascending (wval <$> ids n) = true.
Proof. intros Hn. unfold ids. by apply (ids_ascending_from 0). Qed.

Lemma ids_not_nil n : (0 < n)%nat -> ids n <> [].
Proof. destruct n; [lia|done]. Qed.

Lemma elem_of_not_nil {A} (x : A) l : x ∈ l -> l <> [].
Proof. intros H ->. by apply not_elem_of_nil in H. Qed.

(** The fragments everyone dealt to [p]. *)
Lemma fragments_handed n (fragments : u8 -> list Scalar) (w : u8 -> Scalar) p q :
  (n <= 255)%nat -> q ∈ ids n -> q <> p ->
  (forall q', q' ∈ ids n -> length (fragments q') = n /\ fragments q' !! N.to_nat (wval p) = Some (w q')) ->
  BTree.get q (p2p (handed (tab (fun q => MkOutbox None (fragment_outbox q 0 (fragments q) [])) (ids n)) P2p p)) =
    Some (ser bin_scalar (w q)).
Proof.
  intros Hn Hq Hne Hall. rewrite (handed_p2p _ _ _ (fun q => ser bin_scalar (w q))).
  - by apply (tab_get (fun q => ser bin_scalar (w q))), elem_of_others.
  - done.
  - intros q' Hq' Hne'. destruct (Hall q' Hq') as [Hl Hw].
    eapply (fragment_sent n); [lia|done|congruence|done].
Qed.

(** *** Key generation *)
Section Keygen.
Variables (c : u8 -> PartyContext) (coins : u8 -> Coins) (n : nat).
Abbreviation ps := (ids n).
Variables (d : u8 -> Dealt) (cm : u8 -> Committed) (mx : u8 -> Mixed) (r : u8 -> KeyShare * PubkeySec1).
Hypothesis Hn : (2 <= n <= 255)%nat.
Hypothesis Hid : forall p, p ∈ ps -> party_id (c p) = p.
Hypothesis Hlen : forall p, p ∈ ps -> length (party_vks (c p)) = n.
Hypothesis Hd : forall p, p ∈ ps -> deal fits (c p) (coins p) = Some (d p).
Hypothesis Hcm : forall p, p ∈ ps -> commit fits ps (tab d ps) p = Some (cm p).
Hypothesis Hmx : forall p, p ∈ ps -> mix fits ps (tab cm ps) p = Some (mx p).
Hypothesis Hr : forall p, p ∈ ps -> conclude (tab cm ps) (tab mx ps) p = Some (r p).

Lemma keygen_ids p : p ∈ ps -> (wval p < 255)%N.
Proof. intros Hp%elem_of_ids; lia. Qed.

Lemma dealt p : p ∈ ps ->
  scheme (c p) = Ok (d_params (d p), d_index (d p)) /\
  dkg_phase1 (dkg_new (d_params (d p)) (d_index (d p)) (arr (Mpc.instance (c p))) (coins p)) =
    (d_fragments (d p), d_session (d p)) /\
  N.to_nat (wval (par_share_count (d_params (d p)))) = n /\
  length (d_fragments (d p)) = n /\ index_u8 (d_index (d p)) = wmod 8 (wval p + 1) /\
  forallb (fun f => fits (ser bin_scalar f)) (d_fragments (d p)) = true.
Proof.
  intros Hp. pose proof (Hd p Hp) as H. unfold deal in H.
  apply bind_Some in H as ([params i] & Hs%okay_Some & H).
  destruct (dkg_phase1 _) as [frs s1] eqn:E1. apply guarded_Some in H as [Hf ->].
  cbn [d_params d_index d_fragments d_session]. pose proof (scheme_Ok _ _ _ Hs) as (_ & _ & Hc & _ & Hi).
  rewrite Hlen in Hc by done. rewrite Hid in Hi by done.
  pose proof (dkg_fragments params i (arr (Mpc.instance (c p))) (coins p)) as Hl. rewrite E1, Hc in Hl.
  destruct (cidx_index p (keygen_ids p Hp)) as (j & Hj & Hw). rewrite Hi in Hj. injection Hj as <-. done.
Qed.

Lemma committed p : p ∈ ps -> exists fragments,
  fragments_for (tab d ps) p = Some fragments /\
  dkg_phase2 (d_session (d p)) fragments = Ok (c_proof (cm p), c_zero (cm p), c_bip (cm p), c_session (cm p)) /\
  covers fits bin_zero2s zero2_receiver ps p (c_zero (cm p)) = true.
Proof.
  intros Hp. pose proof (Hcm p Hp) as H. unfold commit in H. rewrite tab_get in H by done. cbn [mbind option_bind] in H.
  apply bind_Some in H as (frs & Hf & H). apply bind_Some in H as ([[[pf z] b] s] & H2%okay_Some & H).
  apply guarded_Some in H as [Hc ->]. by exists frs.
Qed.

Lemma mixed p : p ∈ ps ->
  dkg_phase3 (c_session (cm p)) = Ok (m_zero (mx p), m_mul (mx p), m_bip (mx p), m_session (mx p)) /\
  covers_zero_mul fits ps p (m_zero (mx p)) (m_mul (mx p)) = true.
Proof.
  intros Hp. pose proof (Hmx p Hp) as H. unfold mix in H. rewrite tab_get in H by done. cbn [mbind option_bind] in H.
  apply bind_Some in H as ([[[z m] b] s] & H3%okay_Some & H). by apply guarded_Some in H as [Hc ->].
Qed.

Definition keygen_outbox1 (p : u8) : RoundOutbox := MkOutbox None (fragment_outbox p 0 (d_fragments (d p)) []).
Definition keygen_outbox2 (p : u8) : RoundOutbox :=
  MkOutbox (Some (ser bin_proof_bip2 (c_proof (cm p), c_bip (cm p))))
    (route bin_zero2s (c_zero (cm p)) (fun m => sidx (zero2_receiver m))).
Definition keygen_outbox3 (p : u8) : RoundOutbox :=
  MkOutbox (Some (ser bin_bip3 (m_bip (mx p)))) (route_zero_mul (m_zero (mx p)) (m_mul (mx p))).

Definition keygen_run (p : u8) : proto (KeyShare * PubkeySec1) :=
  keygen_tree (c p) (d_params (d p)) (d_index (d p)) (coins p).
Definition keygen_run2 (p : u8) : proto (KeyShare * PubkeySec1) :=
  pbind (Done (collect (fragment_of p (d_fragments (d p)) (handed (tab keygen_outbox1 ps) P2p p)
                          "dkg round-1 fragment" op_DKG <$> ps)))
    (keygen_round2 p ps (d_index (d p)) (d_session (d p))).
Definition keygen_run3 (p : u8) : proto (KeyShare * PubkeySec1) :=
  keygen_round3 p ps (d_index (d p)) (c_proof (cm p)) (c_bip (cm p)) (c_session (cm p))
    (handed (tab keygen_outbox2 ps) Both p).
Definition keygen_run4 (p : u8) : proto (KeyShare * PubkeySec1) :=
  keygen_end (d_index (d p)) (m_bip (mx p)) (m_session (mx p)) ((fun q => c_proof (cm q)) <$> ps)
    (by_index (fun q => c_bip (cm q)) ps)
    (others p ps ≫= fun q => to_party zero2_receiver p (c_zero (cm q)))
    (handed (tab keygen_outbox3 ps) Both p).

Lemma keygen_first p : p ∈ ps ->
  exists k, keygen_run p = Round (wmod 8 1) (keygen_outbox1 p) P2p k /\
            k (handed (tab keygen_outbox1 ps) P2p p) = keygen_run2 p.
Proof.
  intros Hp. destruct (dealt p Hp) as (_ & H1 & Hc & Hl & _). unfold keygen_run, keygen_tree.
  rewrite H1, Hc, (Hid p Hp). unfold fragments_tree. rewrite fragments_count, Hl by lia. by eexists.
Qed.

Lemma keygen_fragments p : p ∈ ps -> exists fragments,
  fragments_for (tab d ps) p = Some fragments /\
  collect (fragment_of p (d_fragments (d p)) (handed (tab keygen_outbox1 ps) P2p p)
             "dkg round-1 fragment" op_DKG <$> ps) = Ok fragments.
Proof.
  intros Hp. destruct (committed p Hp) as (frs & Hf & _). exists frs. split; [done|].
  destruct (mapM_tab (fun x => d_fragments x !! N.to_nat (wval p)) d ps frs) as (w & -> & Hw); [|done|].
  { by eapply elem_of_not_nil. }
  apply (fragments_collected _ _ _ _ _ _ w); [by apply Hw|]. intros q Hq Hne.
  apply (fragments_handed n (fun q => d_fragments (d q))); try done; [lia|].
  intros q' Hq'. destruct (dealt q' Hq') as (_ & _ & _ & Hl & _). by split; [|apply Hw].
Qed.

Lemma keygen_second p : p ∈ ps ->
  exists k, keygen_run2 p = Round (wmod 8 2) (keygen_outbox2 p) Both k /\
            k (handed (tab keygen_outbox2 ps) Both p) = keygen_run3 p.
Proof.
  intros Hp. destruct (committed p Hp) as (frs & Hf & H2 & _).
  destruct (keygen_fragments p Hp) as (frs' & Hf' & Hcol). rewrite Hf in Hf'. injection Hf' as <-.
  unfold keygen_run2. rewrite Hcol. cbn [pbind]. unfold keygen_round2. rewrite H2. by eexists.
Qed.

Lemma keygen_third p : p ∈ ps ->
  exists k, keygen_run3 p = Round (wmod 8 3) (keygen_outbox3 p) Both k /\
            k (handed (tab keygen_outbox3 ps) Both p) = keygen_run4 p.
Proof.
  intros Hp. destruct (mixed p Hp) as [H3 _]. unfold keygen_run3, keygen_round3.
  rewrite (round2_collected p _ ps (fun q => c_proof (cm q)) (fun q => c_bip (cm q))).
  2:{ apply ids_ascending. lia. }
  2:{ exact keygen_ids. }
  2:{ intros q Hq Hne. rewrite (handed_broadcasts _ _ _ (fun q => ser bin_proof_bip2 (c_proof (cm q), c_bip (cm q)))).
      - by apply (tab_get (fun q => ser bin_proof_bip2 (c_proof (cm q), c_bip (cm q)))), elem_of_others.
      - done.
      - done. }
  cbn [pbind]. rewrite (handed_p2p _ _ _ (fun q => ser bin_zero2s (to_party zero2_receiver p (c_zero (cm q))))).
  2:{ done. }
  2:{ intros q Hq Hne. destruct (committed q Hq) as (_ & _ & _ & Hc).
      eapply covered_get; [exact Hc|]. apply elem_of_others. by split. }
  rewrite gather_tab by apply bin_zero2s_ok. cbn [ptry map_err pbind]. rewrite H3. by eexists.
Qed.

Lemma keygen_last p : p ∈ ps -> keygen_run4 p = Done (Ok (r p)).
Proof.
  intros Hp. pose proof (Hr p Hp) as H. unfold conclude in H. rewrite tab_get in H by done.
  cbn [mbind option_bind] in H. rewrite column_tab, !from_others_tab, !keyed_tab in H.
  apply bind_Some in H as (party & H4%okay_Some & H). apply bind_Some in H as (pk & Hpk%okay_Some & [= <-]).
  destruct (dealt p Hp) as (_ & _ & _ & _ & Hi & _). unfold keygen_run4, keygen_end.
  rewrite (handed_broadcasts _ _ _ (fun q => ser bin_bip3 (m_bip (mx q)))) by done.
  rewrite (round3_collected p _ ps (fun q => m_bip (mx q)));
    [|apply ids_ascending; lia|exact keygen_ids|done|done].
  cbn [pbind]. rewrite (handed_p2p _ _ _ (fun q => ser bin_zero_mul
    (to_party zero3_receiver p (m_zero (mx q)), to_party mul3_receiver p (m_mul (mx q))))).
  2:{ done. }
  2:{ intros q Hq Hne. destruct (mixed q Hq) as [_ Hc]. apply covers_zero_mul_true in Hc as (_ & _ & Hc).
      by apply Hc, elem_of_others. }
  rewrite gather_zero_mul_tab. cbn [ptry map_err pbind]. rewrite H4. cbn [plib ptry map_err pbind].
  by rewrite Hpk.
Qed.

Lemma keygen_synchronous :
  sync fits 3 (tab keygen_run ps) = Some (tab (fun p => Ok (r p)) ps).
Proof.
  pose proof (ids_not_nil n ltac:(lia)) as Hne. pose proof (ids_ascending n ltac:(lia)) as Hasc.
  rewrite (sync_round _ _ _ keygen_run2 (wmod 8 1) P2p keygen_outbox1); [|done|done|exact keygen_first|].
  2:{ intros p Hp. destruct (dealt p Hp) as (_ & _ & _ & Hl & _ & Hf). apply fragments_deliverable; [lia|done|done]. }
  rewrite (sync_round _ _ _ keygen_run3 (wmod 8 2) Both keygen_outbox2); [|done|done|exact keygen_second|].
  2:{ intros p Hp. destruct (committed p Hp) as (_ & _ & _ & Hc). by apply covers_deliverable. }
  rewrite (sync_round _ _ _ keygen_run4 (wmod 8 3) Both keygen_outbox3); [|done|done|exact keygen_third|].
  2:{ intros p Hp. destruct (mixed p Hp) as [_ Hc]. by apply covers_zero_mul_deliverable. }
  apply sync_done. exact keygen_last.
Qed.
End Keygen.

(** *** Refresh *)
Section Refresh.
Variables (c : u8 -> PartyContext) (shares : u8 -> KeyShare) (anchor : PubkeySec1) (coins : u8 -> Coins) (n : nat).
Abbreviation ps := (ids n).
Variables (d : u8 -> Redealt) (cm : u8 -> Recommitted) (mx : u8 -> Remixed) (r : u8 -> KeyShare * PubkeySec1).
Hypothesis Hn : (2 <= n <= 255)%nat.
Hypothesis Hid : forall p, p ∈ ps -> party_id (c p) = p.
Hypothesis Hlen : forall p, p ∈ ps -> length (party_vks (c p)) = n.
Hypothesis Hd : forall p, p ∈ ps -> redeal fits (c p) (shares p) anchor (coins p) = Some (d p).
Hypothesis Hcm : forall p, p ∈ ps -> recommit fits c coins ps (tab d ps) p = Some (cm p).
Hypothesis Hmx : forall p, p ∈ ps -> remix fits c coins ps (tab d ps) (tab cm ps) p = Some (mx p).
Hypothesis Hr : forall p, p ∈ ps -> reconclude c anchor (tab d ps) (tab cm ps) (tab mx ps) p = Some (r p).
Abbreviation sid p := (arr (Mpc.instance (c p))).

Lemma redealt p : p ∈ ps ->
  refresh_checks (c p) (shares p) anchor = Ok (r_params (d p), r_party (d p)) /\
  r_fragments (d p) = refresh_phase1 (r_party (d p)) (coins p) /\
  N.to_nat (wval (par_share_count (r_params (d p)))) = n /\ length (r_fragments (d p)) = n /\
  forallb (fun f => fits (ser bin_scalar f)) (r_fragments (d p)) = true.
Proof.
  intros Hp. pose proof (Hd p Hp) as H. unfold redeal in H.
  apply bind_Some in H as ([params party] & Hs%okay_Some & H). apply guarded_Some in H as [Hf ->].
  cbn [r_params r_party r_fragments]. pose proof (refresh_checks_Ok _ _ _ _ _ Hs) as (_ & _ & (i & Hi) & Hc).
  apply scheme_Ok in Hi as (_ & _ & Hcount & _). rewrite Hlen in Hcount by done.
  pose proof (refresh_fragments party (coins p)) as Hl. rewrite Hc, Hcount in Hl. done.
Qed.

Lemma recommitted p : p ∈ ps -> exists fragments,
  mapM (fun x => r_fragments (snd x) !! N.to_nat (wval p)) (tab d ps) = Some fragments /\
  refresh_phase2 (r_party (d p)) (coins p) (sid p) fragments =
    (rc_correction (cm p), rc_proof (cm p), rc_keep (cm p), rc_zero (cm p)) /\
  covers fits bin_zero2s zero2_receiver ps p (rc_zero (cm p)) = true.
Proof.
  intros Hp. pose proof (Hcm p Hp) as H. unfold recommit in H. rewrite tab_get in H by done.
  cbn [mbind option_bind] in H. apply bind_Some in H as (frs & Hf & H).
  destruct (refresh_phase2 _ _ _ _) as [[[co pf] k] z] eqn:E2. apply guarded_Some in H as [Hc ->]. by exists frs.
Qed.

Lemma remixed p : p ∈ ps ->
  refresh_phase3 (r_party (d p)) (coins p) (sid p) (rc_keep (cm p)) =
    (rm_keep (mx p), rm_zero (mx p), rm_mul_keep (mx p), rm_mul (mx p)) /\
  covers_zero_mul fits ps p (rm_zero (mx p)) (rm_mul (mx p)) = true.
Proof.
  intros Hp. pose proof (Hmx p Hp) as H. unfold remix in H. rewrite !tab_get in H by done.
  cbn [mbind option_bind] in H. destruct (refresh_phase3 _ _ _ _) as [[[k z] mk] m] eqn:E3.
  by apply guarded_Some in H as [Hc ->].
Qed.

Definition refresh_outbox1 (p : u8) : RoundOutbox := MkOutbox None (fragment_outbox p 0 (r_fragments (d p)) []).
Definition refresh_outbox2 (p : u8) : RoundOutbox :=
  MkOutbox (Some (ser bin_proof (rc_proof (cm p))))
    (route bin_zero2s (rc_zero (cm p)) (fun m => sidx (zero2_receiver m))).
Definition refresh_outbox3 (p : u8) : RoundOutbox :=
  MkOutbox None (route_zero_mul (rm_zero (mx p)) (rm_mul (mx p))).

Definition refresh_run (p : u8) : proto (KeyShare * PubkeySec1) :=
  refresh_tree (c p) (r_params (d p)) (r_party (d p)) anchor (coins p).
Definition refresh_run2 (p : u8) : proto (KeyShare * PubkeySec1) :=
  pbind (Done (collect (fragment_of p (r_fragments (d p)) (handed (tab refresh_outbox1 ps) P2p p)
                          "refresh round-1 fragment" op_REFRESH <$> ps)))
    (refresh_round2 p ps (sid p) (r_party (d p)) anchor (coins p)).
Definition refresh_run3 (p : u8) : proto (KeyShare * PubkeySec1) :=
  refresh_round3 p ps (sid p) (r_party (d p)) anchor (coins p) (rc_correction (cm p)) (rc_proof (cm p))
    (rc_keep (cm p)) (handed (tab refresh_outbox2 ps) Both p).
Definition refresh_run4 (p : u8) : proto (KeyShare * PubkeySec1) :=
  refresh_end (sid p) (r_party (d p)) anchor (rc_correction (cm p)) ((fun q => rc_proof (cm q)) <$> ps)
    (rm_keep (mx p)) (others p ps ≫= fun q => to_party zero2_receiver p (rc_zero (cm q))) (rm_mul_keep (mx p))
    (handed (tab refresh_outbox3 ps) P2p p).

Lemma refresh_first p : p ∈ ps ->
  exists k, refresh_run p = Round (wmod 8 1) (refresh_outbox1 p) P2p k /\
            k (handed (tab refresh_outbox1 ps) P2p p) = refresh_run2 p.
Proof.
  intros Hp. destruct (redealt p Hp) as (_ & Hf & Hc & Hl & _). unfold refresh_run, refresh_tree, refresh_outbox1, refresh_run2.
  rewrite Hc, (Hid p Hp), <- Hf. unfold fragments_tree. rewrite fragments_count, Hl by lia. by eexists.
Qed.

Lemma refresh_fragments_in p : p ∈ ps -> exists fragments,
  mapM (fun x => r_fragments (snd x) !! N.to_nat (wval p)) (tab d ps) = Some fragments /\
  collect (fragment_of p (r_fragments (d p)) (handed (tab refresh_outbox1 ps) P2p p)
             "refresh round-1 fragment" op_REFRESH <$> ps) = Ok fragments.
Proof.
  intros Hp. destruct (recommitted p Hp) as (frs & Hf & _). exists frs. split; [done|].
  destruct (mapM_tab (fun x => r_fragments x !! N.to_nat (wval p)) d ps frs) as (w & -> & Hw); [|done|].
  { by eapply elem_of_not_nil. }
  apply (fragments_collected _ _ _ _ _ _ w); [by apply Hw|]. intros q Hq Hne.
  apply (fragments_handed n (fun q => r_fragments (d q))); try done; [lia|].
  intros q' Hq'. destruct (redealt q' Hq') as (_ & _ & _ & Hl & _). by split; [|apply Hw].
Qed.

Lemma refresh_second p : p ∈ ps ->
  exists k, refresh_run2 p = Round (wmod 8 2) (refresh_outbox2 p) Both k /\
            k (handed (tab refresh_outbox2 ps) Both p) = refresh_run3 p.
Proof.
  intros Hp. destruct (recommitted p Hp) as (frs & Hf & H2 & _).
  destruct (refresh_fragments_in p Hp) as (frs' & Hf' & Hcol). rewrite Hf in Hf'. injection Hf' as <-.
  unfold refresh_run2. rewrite Hcol. cbn [pbind]. unfold refresh_round2. rewrite H2. by eexists.
Qed.

Lemma refresh_third p : p ∈ ps ->
  exists k, refresh_run3 p = Round (wmod 8 3) (refresh_outbox3 p) P2p k /\
            k (handed (tab refresh_outbox3 ps) P2p p) = refresh_run4 p.
Proof.
  intros Hp. destruct (remixed p Hp) as [H3 _]. unfold refresh_run3, refresh_round3.
  rewrite (proofs_collected p _ ps (fun q => rc_proof (cm q))).
  2:{ intros q Hq Hne. rewrite (handed_broadcasts _ _ _ (fun q => ser bin_proof (rc_proof (cm q)))) by done.
      by apply (tab_get (fun q => ser bin_proof (rc_proof (cm q)))), elem_of_others. }
  cbn [pbind]. rewrite (handed_p2p _ _ _ (fun q => ser bin_zero2s (to_party zero2_receiver p (rc_zero (cm q))))).
  2:{ done. }
  2:{ intros q Hq Hne. destruct (recommitted q Hq) as (_ & _ & _ & Hc).
      eapply covered_get; [exact Hc|]. apply elem_of_others. by split. }
  rewrite gather_tab by apply bin_zero2s_ok. cbn [ptry map_err pbind]. rewrite H3. by eexists.
Qed.

Lemma refresh_last p : p ∈ ps -> refresh_run4 p = Done (Ok (r p)).
Proof.
  intros Hp. pose proof (Hr p Hp) as H. unfold reconclude in H. rewrite !tab_get in H by done.
  cbn [mbind option_bind] in H. rewrite column_tab, !from_others_tab in H.
  apply bind_Some in H as (party & H4%okay_Some & H). apply bind_Some in H as (pk & Hpk%okay_Some & H).
  apply guarded_Some in H as [->%bool_decide_eq_true Hrp]. unfold refresh_run4, refresh_end.
  rewrite (handed_p2p _ _ _ (fun q => ser bin_zero_mul
    (to_party zero3_receiver p (rm_zero (mx q)), to_party mul3_receiver p (rm_mul (mx q))))).
  2:{ done. }
  2:{ intros q Hq Hne. destruct (remixed q Hq) as [_ Hc]. apply covers_zero_mul_true in Hc as (_ & _ & Hc).
      by apply Hc, elem_of_others. }
  rewrite gather_zero_mul_tab. cbn [ptry map_err pbind]. rewrite H4. cbn [plib ptry map_err pbind].
  rewrite Hpk. cbn [pbind]. by rewrite bool_decide_eq_true_2, Hrp.
Qed.

Lemma refresh_synchronous :
  sync fits 3 (tab refresh_run ps) = Some (tab (fun p => Ok (r p)) ps).
Proof.
  pose proof (ids_not_nil n ltac:(lia)) as Hne. pose proof (ids_ascending n ltac:(lia)) as Hasc.
  rewrite (sync_round _ _ _ refresh_run2 (wmod 8 1) P2p refresh_outbox1); [|done|done|exact refresh_first|].
  2:{ intros p Hp. destruct (redealt p Hp) as (_ & _ & _ & Hl & Hf). apply fragments_deliverable; [lia|done|done]. }
  rewrite (sync_round _ _ _ refresh_run3 (wmod 8 2) Both refresh_outbox2); [|done|done|exact refresh_second|].
  2:{ intros p Hp. destruct (recommitted p Hp) as (_ & _ & _ & Hc). by apply covers_deliverable. }
  rewrite (sync_round _ _ _ refresh_run4 (wmod 8 3) P2p refresh_outbox3); [|done|done|exact refresh_third|].
  2:{ intros p Hp. destruct (remixed p Hp) as [_ Hc]. by apply covers_zero_mul_deliverable. }
  apply sync_done. exact refresh_last.
Qed.
End Refresh.

(** *** Signing *)
Section Signing.
Variables (c : u8 -> PartyContext) (shares : u8 -> KeyShare) (digest : B256) (coins : u8 -> Coins) (ps : list u8).
Variables (o : u8 -> Opened) (sd : u8 -> list Transmit2 * SignSession) (th : u8 -> Broadcast3 * SignSession)
  (r : u8 -> EcdsaParts).
Hypothesis Hasc : ascending (wval <$> ps) = true.
Hypothesis Hne : ps <> [].
Hypothesis Hid : forall p, p ∈ ps -> party_id (c p) = p.
Hypothesis Ho : forall p, p ∈ ps -> sign_open fits (c p) (shares p) digest ps (coins p) = Some (o p).
Hypothesis Hsd : forall p, p ∈ ps -> sign_second fits ps (tab o ps) p = Some (sd p).
Hypothesis Hth : forall p, p ∈ ps -> sign_third (tab sd ps) p = Some (th p).
Hypothesis Hr : forall p, p ∈ ps -> sign_last digest (tab o ps) (tab th ps) p = Some (r p).

Lemma opened p : p ∈ ps ->
  sign_checks (c p) (shares p) ps = Ok (o_party (o p)) /\
  (exists counterparties, collect (cidx <$> others p ps) = Ok counterparties /\
     sign_new (o_party (o p)) (arr (Mpc.instance (c p)), counterparties, digest) (coins p) =
       Ok (o_session (o p), o_t1 (o p))) /\
  covers fits bin_t1s t1_receiver ps p (o_t1 (o p)) = true.
Proof.
  intros Hp. pose proof (Ho p Hp) as H. unfold sign_open in H. rewrite (Hid p Hp) in H.
  apply bind_Some in H as (party & Hs%okay_Some & H). apply bind_Some in H as (cps & Hc%okay_Some & H).
  apply bind_Some in H as ([session t1] & Hn%okay_Some & H). apply guarded_Some in H as [Hcov ->].
  split; [done|]. split; [|done]. by exists cps.
Qed.

Lemma second p : p ∈ ps ->
  sign_phase2 (o_session (o p)) (others p ps ≫= fun q => to_party t1_receiver p (o_t1 (o q))) = Ok (sd p) /\
  covers fits bin_t2s t2_receiver ps p (fst (sd p)) = true.
Proof.
  intros Hp. pose proof (Hsd p Hp) as H. unfold sign_second in H. rewrite tab_get, from_others_tab in H by done.
  cbn [mbind option_bind] in H. apply bind_Some in H as ([t2 session] & H2%okay_Some & H).
  by apply guarded_Some in H as [Hc ->].
Qed.

Lemma third p : p ∈ ps ->
  sign_phase3 (snd (sd p)) (others p ps ≫= fun q => to_party t2_receiver p (fst (sd q))) = Ok (th p).
Proof.
  intros Hp. pose proof (Hth p Hp) as H. unfold sign_third in H. rewrite tab_get, from_others_tab in H by done.
  cbn [mbind option_bind] in H. by apply okay_Some in H.
Qed.

Definition sign_outbox1 (p : u8) : RoundOutbox :=
  MkOutbox None (route bin_t1s (o_t1 (o p)) (fun m => sidx (t1_receiver m))).
Definition sign_outbox2 (p : u8) : RoundOutbox :=
  MkOutbox None (route bin_t2s (fst (sd p)) (fun m => sidx (t2_receiver m))).
Definition sign_outbox3 (p : u8) : RoundOutbox := MkOutbox (Some (ser bin_broadcast3 (fst (th p)))) [].

Definition sign_run (p : u8) : proto EcdsaParts :=
  sign_tree (o_party (o p)) digest (o_session (o p)) (o_t1 (o p)).
Definition sign_run2 (p : u8) : proto EcdsaParts :=
  sign_round2 (o_party (o p)) digest (o_session (o p)) (handed (tab sign_outbox1 ps) P2p p).
Definition sign_run3 (p : u8) : proto EcdsaParts :=
  sign_round3 (o_party (o p)) digest (snd (sd p)) (handed (tab sign_outbox2 ps) P2p p).
Definition sign_run4 (p : u8) : proto EcdsaParts :=
  sign_end (o_party (o p)) digest (snd (th p)) (fst (th p)) (handed (tab sign_outbox3 ps) Broadcasts p).

Lemma sign_first p : p ∈ ps ->
  exists k, sign_run p = Round (wmod 8 1) (sign_outbox1 p) P2p k /\
            k (handed (tab sign_outbox1 ps) P2p p) = sign_run2 p.
Proof. intros Hp. by eexists. Qed.

Lemma sign_next p : p ∈ ps ->
  exists k, sign_run2 p = Round (wmod 8 2) (sign_outbox2 p) P2p k /\
            k (handed (tab sign_outbox2 ps) P2p p) = sign_run3 p.
Proof.
  intros Hp. destruct (second p Hp) as [H2 _]. unfold sign_run2, sign_round2.
  rewrite (handed_p2p _ _ _ (fun q => ser bin_t1s (to_party t1_receiver p (o_t1 (o q))))).
  2:{ done. }
  2:{ intros q Hq Hne'. destruct (opened q Hq) as (_ & _ & Hc). eapply covered_get; [exact Hc|].
      apply elem_of_others. by split. }
  rewrite gather_tab by apply bin_t1s_ok. cbn [ptry map_err pbind]. rewrite H2.
  unfold sign_outbox2, sign_run3. destruct (sd p) as [t2 session]. by eexists.
Qed.

Lemma sign_next' p : p ∈ ps ->
  exists k, sign_run3 p = Round (wmod 8 3) (sign_outbox3 p) Broadcasts k /\
            k (handed (tab sign_outbox3 ps) Broadcasts p) = sign_run4 p.
Proof.
  intros Hp. pose proof (third p Hp) as H3. unfold sign_run3, sign_round3.
  rewrite (handed_p2p _ _ _ (fun q => ser bin_t2s (to_party t2_receiver p (fst (sd q))))).
  2:{ done. }
  2:{ intros q Hq Hne'. destruct (second q Hq) as (_ & Hc). eapply covered_get; [exact Hc|].
      apply elem_of_others. by split. }
  rewrite gather_tab by apply bin_t2s_ok. cbn [ptry map_err pbind]. rewrite H3.
  unfold sign_outbox3, sign_run4. destruct (th p) as [bc session] eqn:E. cbn [fst snd].
  eexists. split; [reflexivity|]. cbn [pbind]. done.
Qed.

Lemma sign_end_run p : p ∈ ps -> sign_run4 p = Done (Ok (r p)).
Proof.
  intros Hp. pose proof (Hr p Hp) as H. unfold sign_last in H. rewrite !tab_get, from_others_tab in H by done.
  cbn [mbind option_bind] in H. apply bind_Some in H as ([r0 s0] & H4%okay_Some & Hf%okay_Some).
  unfold sign_run4, sign_end.
  rewrite (handed_broadcasts _ _ _ (fun q => ser bin_broadcast3 (fst (th q)))) by done.
  rewrite round3_shares_tab. cbn [ptry map_err pbind].
  replace ((fun q => fst (th q)) <$> others p ps) with (others p ps ≫= fun q => [fst (th q)]).
  2:{ induction (others p ps) as [|q qs IH]; [done|]. cbn [fmap list_fmap mbind list_bind app]. by f_equal. }
  rewrite H4. cbn [plib ptry map_err pbind]. by rewrite Hf.
Qed.

Lemma sign_synchronous : sync fits 3 (tab sign_run ps) = Some (tab (fun p => Ok (r p)) ps).
Proof.
  rewrite (sync_round _ _ _ sign_run2 (wmod 8 1) P2p sign_outbox1); [|done|done|exact sign_first|].
  2:{ intros p Hp. destruct (opened p Hp) as (_ & _ & Hc). by apply covers_deliverable. }
  rewrite (sync_round _ _ _ sign_run3 (wmod 8 2) P2p sign_outbox2); [|done|done|exact sign_next|].
  2:{ intros p Hp. destruct (second p Hp) as [_ Hc]. by apply covers_deliverable. }
  rewrite (sync_round _ _ _ sign_run4 (wmod 8 3) Broadcasts sign_outbox3); [|done|done|exact sign_next'|].
  2:{ intros p Hp. apply deliverable_intro; [done|done|done|by eexists]. }
  apply sync_done. exact sign_end_run.
Qed.
End Signing.
End Synchronous.

(** ** The distributed ceremonies *)
Section Distributed.
Context {C : Crypto} {CL : CryptoLaws C} {D : Dkls} {DL : DklsLaws D}.
Variables (c : u8 -> PartyContext) (rng : u8 -> u8 -> u8 -> array 32 * array 24).
Variable fits : bytes -> bool.
(** Whatever exchange a party held before, and what arrives at it. *)
Variables (ex0 : u8 -> Exchange) (mail : u8 -> list SignedEnvelope) (events : u8 -> list event).

Definition begin (p : u8) : net (R := list SignedEnvelope) :=
  MkNet (ex0 p) [] ((Arrived <$> mail p) ++ events p).

(** How a ceremony comes out, given the table of what everyone should return:
    with nothing lost every party returns its entry; and whatever was lost, no
    party returns anything else, it can only time out. *)
Definition comes_out {A} (ps : list u8) (tbl : BTree.t A)
    (final : u8 -> result stop A * net (R := list SignedEnvelope)) : Prop :=
  ((forall p, p ∈ ps -> complete_mail ps (fun q => out (snd (final q))) p (mail p)) ->
   forall p, p ∈ ps -> exists a, BTree.get p tbl = Some a /\ fst (final p) = Ok a) /\
  ((forall p, p ∈ ps -> events p = []) ->
   forall p, p ∈ ps -> exists a, BTree.get p tbl = Some a /\
     (fst (final p) = Ok a \/ exists m, fst (final p) = Err (Fail (Transport m)))).

Lemma trees_come_out {A} (ps : list u8) (op : u8) (t : u8 -> proto A) (r : u8 -> A)
    (final : u8 -> result stop A * net) :
  ascending (wval <$> ps) = true -> acquainted ps op c rng fits ->
  (forall p, ordered 0 (t p)) ->
  sync fits 3 (tab t ps) = Some (tab (fun p => Ok (r p)) ps) ->
  (forall p, p ∈ ps -> final p =
     play push (rng p) (t p) (MkNet (at_home ps op c p) [] ((Arrived <$> mail p) ++ events p))) ->
  (forall p, p ∈ ps -> authentic ps op c (fun q => out (snd (final q))) p (mail p)) ->
  comes_out ps (tab r ps) final.
Proof.
  intros Hasc Hacq Hord Hsync Hfinal Hauth. split; intros Hmail p Hp; exists (r p);
    (split; [by apply tab_get|]);
    [destruct (trees_compute true ps op c rng fits 3 t mail events (tab (fun p => Ok (r p)) ps) final)
       with (p := p) as (x & Hx & H)
    |destruct (trees_compute false ps op c rng fits 3 t mail events (tab (fun p => Ok (r p)) ps) final)
       with (p := p) as (x & Hx & H)];
    try done; rewrite (tab_get (fun p => Ok (r p))) in Hx by done; injection Hx as <-;
    destruct H as [H|[? H]]; auto; done.
Qed.

(** A ceremony, with any relay and from any state, is everyone's tree. *)
Definition as_trees {A} (ps : list u8) (op : u8) (tbl : BTree.t A)
    (run : forall R, (SignedEnvelope -> M R MpcError unit) -> u8 -> net (R := R) -> result stop A * net (R := R))
  : Prop :=
  exists (t : u8 -> proto A) (r : u8 -> A), tbl = tab r ps /\ (forall p, ordered 0 (t p)) /\
    sync fits 3 (tab t ps) = Some (tab (fun p => Ok (r p)) ps) /\
    forall R relay_send p ex1 o events1, p ∈ ps ->
      run R relay_send p (MkNet ex1 o events1) =
      play relay_send (rng p) (t p) (MkNet (at_home ps op c p) o events1).

Lemma as_trees_come_out {A} (ps : list u8) (op : u8) (tbl : BTree.t A) run :
  ascending (wval <$> ps) = true -> acquainted ps op c rng fits -> as_trees ps op tbl run ->
  let final p := run _ push p (begin p) in
  (forall p, p ∈ ps -> authentic ps op c (fun q => out (snd (final q))) p (mail p)) ->
  comes_out ps tbl final.
Proof.
  intros Hasc Hacq (t & r & -> & Hord & Hsync & Hrun) final Hmail.
  apply (trees_come_out ps op t r final); try done. intros p Hp. by apply Hrun.
Qed.

Lemma keygen_as_trees (coins : u8 -> Coins) (n : nat) tbl :
  (2 <= n <= 255)%nat ->
  acquainted (ids n) op_DKG c rng fits ->
  (forall p, p ∈ ids n -> length (party_vks (c p)) = n) ->
  central_keygen fits c coins n = Some tbl ->
  as_trees (ids n) op_DKG tbl (fun R relay_send p => keygen_party relay_send (rng p) (c p) (coins p)).
Proof.
  intros Hn Hacq Hlen Hc. pose proof (ids_ascending n ltac:(lia)) as Hasc.
  assert (forall p, p ∈ ids n -> party_id (c p) = p) as Hid by (intros p; by eapply home_id).
  pose proof (ids_not_nil n ltac:(lia)) as Hne. unfold central_keygen in Hc.
  apply bind_Some in Hc as (dl & Hdl & Hc). apply tabulate_Some in Hdl as (d & -> & Hd); [|done..].
  apply bind_Some in Hc as (cl & Hcl & Hc). apply tabulate_Some in Hcl as (cm & -> & Hcm); [|done..].
  apply bind_Some in Hc as (ml & Hml & Hc). apply tabulate_Some in Hml as (mx & -> & Hmx); [|done..].
  apply tabulate_Some in Hc as (r & -> & Hr); [|done..].
  exists (keygen_run c coins d), r. split_and!; [done|intros q; apply keygen_tree_ordered|by eapply keygen_synchronous|].
  intros R relay_send q ex1 o1 events1 Hq. rewrite keygen_party_tree.
  destruct (dealt fits c coins n d Hn Hid Hlen Hd q Hq) as (Hs & _ & Hcount & _).
  unfold mbnd at 1, mlift at 1. rewrite Hs, Hcount. done.
Qed.

Lemma refresh_as_trees (shares : u8 -> KeyShare) (anchor : PubkeySec1) (coins : u8 -> Coins) (n : nat) tbl :
  (2 <= n <= 255)%nat ->
  acquainted (ids n) op_REFRESH c rng fits ->
  (forall p, p ∈ ids n -> length (party_vks (c p)) = n) ->
  central_refresh fits c shares anchor coins n = Some tbl ->
  as_trees (ids n) op_REFRESH tbl
    (fun R relay_send p => refresh_party relay_send (rng p) (c p) (shares p) anchor (coins p)).
Proof.
  intros Hn Hacq Hlen Hc. pose proof (ids_ascending n ltac:(lia)) as Hasc.
  assert (forall p, p ∈ ids n -> party_id (c p) = p) as Hid by (intros p; by eapply home_id).
  pose proof (ids_not_nil n ltac:(lia)) as Hne. unfold central_refresh in Hc.
  apply bind_Some in Hc as (dl & Hdl & Hc). apply tabulate_Some in Hdl as (d & -> & Hd); [|done..].
  apply bind_Some in Hc as (cl & Hcl & Hc). apply tabulate_Some in Hcl as (cm & -> & Hcm); [|done..].
  apply bind_Some in Hc as (ml & Hml & Hc). apply tabulate_Some in Hml as (mx & -> & Hmx); [|done..].
  apply tabulate_Some in Hc as (r & -> & Hr); [|done..].
  exists (refresh_run c anchor coins d), r.
  split_and!; [done|intros q; apply refresh_tree_ordered|by eapply refresh_synchronous|].
  intros R relay_send q ex1 o1 events1 Hq. rewrite refresh_party_tree.
  destruct (redealt fits c shares anchor coins n d Hlen Hd q Hq) as (Hs & _ & Hcount & _).
  unfold mbnd at 1, mlift at 1. rewrite Hs, Hcount. done.
Qed.

Lemma sign_as_trees (shares : u8 -> KeyShare) (digest : B256) (coins : u8 -> Coins) (subset : list u8) tbl :
  subset <> [] -> ascending (wval <$> subset) = true ->
  acquainted subset op_SIGN c rng fits ->
  central_sign fits c shares digest coins subset = Some tbl ->
  as_trees subset op_SIGN tbl
    (fun R relay_send p => sign_party relay_send (rng p) (c p) (shares p) digest subset (coins p)).
Proof.
  intros Hne Hasc Hacq Hc.
  assert (forall p, p ∈ subset -> party_id (c p) = p) as Hid by (intros p; by eapply home_id).
  unfold central_sign in Hc.
  apply bind_Some in Hc as (ol & Hol & Hc). apply tabulate_Some in Hol as (o & -> & Ho); [|done..].
  apply bind_Some in Hc as (sl & Hsl & Hc). apply tabulate_Some in Hsl as (sd & -> & Hsd); [|done..].
  apply bind_Some in Hc as (tl & Htl & Hc). apply tabulate_Some in Htl as (th & -> & Hth); [|done..].
  apply tabulate_Some in Hc as (r & -> & Hr); [|done..].
  exists (sign_run digest o), r. split_and!; [done|intros q; apply sign_tree_ordered|by eapply sign_synchronous|].
  intros R relay_send q ex1 o1 events1 Hq. rewrite sign_party_tree.
  destruct (opened fits c shares digest coins subset o Hid Ho q Hq) as (Hs & (cps & Hcps & Hnew) & _).
  unfold mbnd at 1, mlift at 1. rewrite Hs. rewrite (Hid q Hq). unfold mbnd at 1, mlift at 1.
  unfold others in Hcps. rewrite Hcps. unfold lib, try_. unfold mbnd at 1, mlift at 1. rewrite Hnew. done.
Qed.

(** C7: distributed key generation computes the central one.  Parties of one
    instance and roster, which pinned each other's keys, exchange their mail
    over channels that forge nothing, whatever the order; then every party
    returns its entry of the central execution (the shard and key the
    library's phases give when every fragment, commitment and transmit is
    handed to the party it is for), or times out, and none times out when
    nothing is lost. *)
Theorem keygen_computes (coins : u8 -> Coins) (n : nat) tbl :
  let final p := keygen_party push (rng p) (c p) (coins p) (begin p) in
  (2 <= n <= 255)%nat ->
  acquainted (ids n) op_DKG c rng fits ->
  (forall p, p ∈ ids n -> length (party_vks (c p)) = n) ->
  central_keygen fits c coins n = Some tbl ->
  (forall p, p ∈ ids n -> authentic (ids n) op_DKG c (fun q => out (snd (final q))) p (mail p)) ->
  comes_out (ids n) tbl final.
Proof.
  intros final Hn Hacq Hlen Hc Hmail. pose proof (ids_ascending n ltac:(lia)) as Hasc.
  by apply (as_trees_come_out (ids n) op_DKG tbl _ Hasc Hacq (keygen_as_trees coins n tbl Hn Hacq Hlen Hc)).
Qed.

(** C21: distributed refresh computes the central one.  Under the same
    conditions, with everyone holding a shard of the anchor key, every party
    returns its entry of the central execution, its new shard under the same
    key, or times out, and none does when nothing is lost. *)
Theorem refresh_computes (shares : u8 -> KeyShare) (anchor : PubkeySec1) (coins : u8 -> Coins) (n : nat) tbl :
  let final p := refresh_party push (rng p) (c p) (shares p) anchor (coins p) (begin p) in
  (2 <= n <= 255)%nat ->
  acquainted (ids n) op_REFRESH c rng fits ->
  (forall p, p ∈ ids n -> length (party_vks (c p)) = n) ->
  central_refresh fits c shares anchor coins n = Some tbl ->
  (forall p, p ∈ ids n -> authentic (ids n) op_REFRESH c (fun q => out (snd (final q))) p (mail p)) ->
  comes_out (ids n) tbl final.
Proof.
  intros final Hn Hacq Hlen Hc Hmail. pose proof (ids_ascending n ltac:(lia)) as Hasc.
  by apply (as_trees_come_out (ids n) op_REFRESH tbl _ Hasc Hacq (refresh_as_trees shares anchor coins n tbl Hn Hacq Hlen Hc)).
Qed.

(** C5: distributed signing computes the central one.  A quorum of one
    instance whose members hold shards that fit it, under the same conditions,
    signs: every member returns its entry of the central execution (each
    transmit handed to the party it is for and each final share to everyone)
    or times out, and none does when nothing is lost. *)
Theorem sign_computes (shares : u8 -> KeyShare) (digest : B256) (coins : u8 -> Coins) (subset : list u8) tbl :
  let final p := sign_party push (rng p) (c p) (shares p) digest subset (coins p) (begin p) in
  subset <> [] -> ascending (wval <$> subset) = true ->
  acquainted subset op_SIGN c rng fits ->
  central_sign fits c shares digest coins subset = Some tbl ->
  (forall p, p ∈ subset -> authentic subset op_SIGN c (fun q => out (snd (final q))) p (mail p)) ->
  comes_out subset tbl final.
Proof.
  intros final Hne Hasc Hacq Hc Hmail.
  by apply (as_trees_come_out subset op_SIGN tbl _ Hasc Hacq (sign_as_trees shares digest coins subset tbl Hne Hasc Hacq Hc)).
Qed.
End Distributed.

(** ** Witnesses: two parties, whole ceremonies *)
Definition demo_coins (p : u8) : u8 := wmod 8 (5 + wval p).
Definition demo_shares (p : u8) : KeyShare := demo_share (wval p).
Definition demo_begin (p : u8) (mail : list SignedEnvelope) : net (R := list SignedEnvelope) :=
  MkNet (demo_ex (wval p)) [] ((Arrived <$> mail) ++ [RelayFailed Deserialize]).

Abbreviation keygen_of p mail := (keygen_party (D := ToyDkls) push (demo_rngs p) (demo_party p) (demo_coins p) (demo_begin p mail)).
Definition keygen_mail : u8 -> list SignedEnvelope := settled_mail 3 (fun p mail => out (snd (keygen_of p mail))).

Lemma keygen_computes_witness :
  exists tbl, central_keygen (D := ToyDkls) (fun _ => true) demo_party demo_coins 2 = Some tbl /\
    forall p, p ∈ demo_two -> exists a, BTree.get p tbl = Some a /\ fst (keygen_of p (keygen_mail p)) = Ok a.
Proof.
  eexists. split; [vm_compute; reflexivity|].
  pose proof (settled_delivered op_DKG 3 (fun p mail => out (snd (keygen_of p mail)))
                ltac:(vm_compute; reflexivity)) as Hmail.
  refine (proj1 (keygen_computes (D := ToyDkls) demo_party demo_rngs (fun _ => true) (fun p => demo_ex (wval p)) keygen_mail
           (fun _ => [RelayFailed Deserialize]) demo_coins 2 _ _ _ _ _ _ : _ /\ _) _).
  - lia.
  - apply demo_acquainted.
  - refine (demo_two_elem _ _ _); reflexivity.
  - vm_compute. reflexivity.
  - intros p Hp. apply (Hmail p Hp).
  - intros p Hp. apply (Hmail p Hp).
Defined.

Abbreviation refresh_of p mail := (refresh_party (D := ToyDkls) push (demo_rngs p) (demo_party p) (demo_shares p)
  demo_anchor (demo_coins p) (demo_begin p mail)).
Definition refresh_mail : u8 -> list SignedEnvelope := settled_mail 3 (fun p mail => out (snd (refresh_of p mail))).

Lemma refresh_computes_witness :
  exists tbl, central_refresh (D := ToyDkls) (fun _ => true) demo_party demo_shares demo_anchor demo_coins 2 = Some tbl /\
    forall p, p ∈ demo_two -> exists a, BTree.get p tbl = Some a /\ fst (refresh_of p (refresh_mail p)) = Ok a.
Proof.
  eexists. split; [vm_compute; reflexivity|].
  pose proof (settled_delivered op_REFRESH 3 (fun p mail => out (snd (refresh_of p mail)))
                ltac:(vm_compute; reflexivity)) as Hmail.
  refine (proj1 (refresh_computes (D := ToyDkls) demo_party demo_rngs (fun _ => true) (fun p => demo_ex (wval p)) refresh_mail
           (fun _ => [RelayFailed Deserialize]) demo_shares demo_anchor demo_coins 2 _ _ _ _ _ _ : _ /\ _) _).
  - lia.
  - apply demo_acquainted.
  - refine (demo_two_elem _ _ _); reflexivity.
  - vm_compute. reflexivity.
  - intros p Hp. apply (Hmail p Hp).
  - intros p Hp. apply (Hmail p Hp).
Defined.

Abbreviation sign_of p mail := (sign_party (D := ToyDkls) push (demo_rngs p) (demo_party p) (demo_shares p)
  demo_digest demo_two (demo_coins p) (demo_begin p mail)).
Definition sign_mail : u8 -> list SignedEnvelope := settled_mail 3 (fun p mail => out (snd (sign_of p mail))).

Lemma sign_computes_witness :
  exists tbl, central_sign (D := ToyDkls) (fun _ => true) demo_party demo_shares demo_digest demo_coins demo_two = Some tbl /\
    forall p, p ∈ demo_two -> exists a, BTree.get p tbl = Some a /\ fst (sign_of p (sign_mail p)) = Ok a.
Proof.
  eexists. split; [vm_compute; reflexivity|].
  pose proof (settled_delivered op_SIGN 3 (fun p mail => out (snd (sign_of p mail)))
                ltac:(vm_compute; reflexivity)) as Hmail.
  refine (proj1 (sign_computes (D := ToyDkls) demo_party demo_rngs (fun _ => true) (fun p => demo_ex (wval p)) sign_mail
           (fun _ => [RelayFailed Deserialize]) demo_shares demo_digest demo_coins demo_two _ _ _ _ _ _ : _ /\ _) _).
  - done.
  - vm_compute. reflexivity.
  - apply demo_acquainted.
  - vm_compute. reflexivity.
  - intros p Hp. apply (Hmail p Hp).
  - intros p Hp. apply (Hmail p Hp).
Defined.
