(* ===== verification/Relayed.v ===== *)
(** * Ceremonies over the relay

    The composition of [Hub] (the relay the orchestrator runs), the clients'
    [WsEnvelopeRelay] and the ceremonies of [Lockstep].  The first section is
    about the hub alone: the mail of a mailbox is what was routed to it, and
    none of it is lost while its party is there and its time to live is not
    over ([step_mail], [mailbox_keeps_mail]).  The second has a ceremony
    running through [ws_send] and [ws_recv].  [relay_never_stuck] puts them
    together: what the parties of a ceremony connected to one hub return, and
    where mail can be while one of them waits. *)

From S2P Require Import Prelude Types Mpc Envelope Channel Exchange Carbon Lockstep Hub.
From Stdlib Require Import String NArith Lia.
From stdpp Require Import base decidable countable list gmap strings.
Open Scope string_scope. Open Scope list_scope.

(** ** The mail of a mailbox *)
(** Everything ever put into the mailbox there is at a key. *)
Definition mail_of (h : Hub) (k : key) : list bytes :=
  match mailboxes h !! k with
  | Some m => from_option log [] (live (chs h) !! tx m)
  | None => []
  end.

(** The frame an event routes to a key: read from a socket that has joined. *)
Definition routes_to (k : key) (h : Hub) (ev : hub_event) : list bytes :=
  match ev with
  | Read sid (Some (Binary f)) =>
      match sockets h !! sid with
      | Some (Serving _ _, _) => if decide (peek_route f = Some k) then [f] else []
      | _ => []
      end
  | _ => []
  end.

Fixpoint routed (k : key) (h : Hub) (evs : list hub_event) : list bytes :=
  match evs with
  | [] => []
  | ev :: evs => routes_to k h ev ++ routed k (hub_step h ev) evs
  end.

Lemma routed_app k h e1 e2 : routed k h (e1 ++ e2) = routed k h e1 ++ routed k (hub_run h e1) e2.
Proof. revert h; induction e1 as [|ev e1 IH]; intros h; simpl; [done|]. by rewrite IH, app_assoc. Qed.

Lemma routed_read k h evs f :
  f ∈ routed k h evs -> peek_route f = Some k /\ exists sid, Read sid (Some (Binary f)) ∈ evs.
Proof.
  revert h; induction evs as [|ev evs IH]; intros h; simpl; [by intros ?%not_elem_of_nil|].
  intros [Hf|Hf]%elem_of_app.
  - unfold routes_to in Hf. destruct ev as [|sid [[g|]|]| |]; try by apply not_elem_of_nil in Hf.
    destruct (sockets h !! sid) as [[[] ?]|]; try by apply not_elem_of_nil in Hf.
    case_decide; [|by apply not_elem_of_nil in Hf]. apply list_elem_of_singleton in Hf as ->.
    split; [done|]. exists sid. by left.
  - destruct (IH _ Hf) as (? & sid & ?). split; [done|]. exists sid. by right.
Qed.

Lemma hub_run_app h e1 e2 : hub_run h (e1 ++ e2) = hub_run (hub_run h e1) e2.
Proof. apply foldl_app. Qed.

Lemma hub_inv_run h evs : hub_inv h -> hub_inv (hub_run h evs).
Proof. revert h; induction evs as [|ev evs IH]; intros h Hi; [done|]. apply IH. by apply hub_inv_step. Qed.

(** An unclaimed mailbox past its time to live. *)
Definition expired (h : Hub) (k : key) : Prop := exists m, mailboxes h !! k = Some m /\ keeps h m = false.
(** The socket serving a key goes. *)
Definition leaves (h h' : Hub) (k : key) : Prop :=
  exists sid i o o', sockets h !! sid = Some (Serving k i, o) /\ sockets h' !! sid = Some (Closed, o').

Lemma mail_of_ext h h' k :
  mailboxes h' !! k = mailboxes h !! k ->
  (forall m, mailboxes h !! k = Some m -> live (chs h') !! tx m = live (chs h) !! tx m) ->
  mail_of h' k = mail_of h k.
Proof. unfold mail_of. intros -> H. destruct (mailboxes h !! k) as [m|]; [|done]. by rewrite H. Qed.

Lemma sweep_mail h k : mail_of (sweep h) k = mail_of h k \/ (mail_of (sweep h) k = [] /\ expired h k).
Proof.
  unfold mail_of. destruct (mailboxes (sweep h) !! k) as [m|] eqn:Hs.
  - apply sweep_lookup in Hs as [-> _]. by left.
  - destruct (mailboxes h !! k) as [m|] eqn:Hm; [|by left]. right. split; [done|].
    exists m. split; [done|]. destruct (keeps h m) eqn:Hk; [|done].
    assert (mailboxes (sweep h) !! k = Some m) by (by apply sweep_lookup). congruence.
Qed.

Lemma entry_mail h k k' h1 m :
  hub_inv h -> Hub.entry h k' = (h1, m) -> mail_of h1 k = mail_of h k.
Proof.
  intros Hi He. destruct (entry_spec _ _ _ _ Hi He) as (_ & Hm & _ & _ & Hoth & Hlive & Hcase).
  destruct (decide (k = k')) as [->|Hk].
  - unfold mail_of. rewrite Hm. destruct (mailboxes h !! k') as [m0|]; [by destruct Hcase as [-> ->]|].
    by destruct Hcase as (_ & _ & ->).
  - apply mail_of_ext; [by apply Hoth|]. intros m' Hm'. destruct (inv_box _ Hi _ _ Hm') as (c & Hc & _).
    rewrite Hc. by apply Hlive.
Qed.

Lemma deliver_mail h k k' f :
  hub_inv h -> mail_of (deliver h k' f) k = mail_of (sweep h) k ++ if decide (k' = k) then [f] else [].
Proof.
  intros Hi. destruct (deliver_spec h k' f Hi) as (_ & _ & _ & (m & c & Hm & Hc & Hcase) & Hoth & Hlive).
  case_decide as Hk.
  - subst k'. unfold mail_of at 1. rewrite Hm, Hc. cbn [from_option log]. f_equal. unfold mail_of.
    destruct (mailboxes (sweep h) !! k) as [m0|]; [|by destruct Hcase as (_ & _ & ->)].
    destruct Hcase as [-> Hc0]. change (chs (sweep h)) with (chs h). by rewrite Hc0.
  - rewrite app_nil_r. apply mail_of_ext; [by apply Hoth|]. intros m' Hm'. by eapply Hlive.
Qed.

Lemma leave_mail h sid k k' i o :
  hub_inv h -> sockets h !! sid = Some (Serving k' i, o) ->
  mail_of (leave h sid k' i o) k = if decide (k = k') then [] else mail_of h k.
Proof.
  intros Hi Hs. destruct (inv_serving _ Hi _ _ _ _ Hs) as (m & _ & Hm & Ht & _).
  case_decide as Hk.
  - subst k'. unfold mail_of. simpl. by rewrite lookup_delete_eq.
  - apply mail_of_ext; simpl.
    + by apply lookup_delete_ne.
    + intros m' Hm'. apply lookup_delete_ne. intros Hi'. apply Hk.
      eapply (inv_inj _ Hi); [exact Hm'|exact Hm|congruence].
Qed.

(** What a step does to a mailbox that is routed [new]: its mail grows by
    that, or what it had is lost; and a mailbox that is unclaimed afterwards
    was so before and lost nothing, or was just created for [new]. *)
Record moved (h h' : Hub) (k : key) (new : list bytes) : Prop := {
  moved_mail : mail_of h' k = mail_of h k ++ new \/ (mail_of h' k = new /\ (expired h k \/ leaves h h' k));
  moved_box : forall m', mailboxes h' !! k = Some m' -> rx m' <> None ->
    (exists m, mailboxes h !! k = Some m /\ rx m <> None /\ created m = created m' /\
       mail_of h' k = mail_of h k ++ new) \/
    (created m' = clock h /\ new <> []);
}.

Lemma moved_same h h' k :
  mailboxes h' !! k = mailboxes h !! k -> mail_of h' k = mail_of h k -> moved h h' k [].
Proof.
  intros Hb Hm. split; [left; by rewrite app_nil_r|]. intros m' Hm' Hr. left. exists m'.
  by rewrite app_nil_r, <- Hb.
Qed.

Lemma moved_swept h h' k new :
  mail_of h' k = mail_of (sweep h) k ++ new ->
  (forall m', mailboxes h' !! k = Some m' -> rx m' <> None ->
     mailboxes (sweep h) !! k = Some m' \/ (created m' = clock h /\ new <> [])) ->
  moved h h' k new.
Proof.
  intros Hm Hb. split.
  - rewrite Hm. destruct (sweep_mail h k) as [->|[-> He]]; auto.
  - intros m' Hm' Hr. destruct (Hb m' Hm' Hr) as [Hs|?]; [left|by right]. exists m'.
    assert (mail_of (sweep h) k = mail_of h k) as Hk.
    { unfold mail_of. apply sweep_lookup in Hs as Hs'. by rewrite Hs, (proj1 Hs'). }
    apply sweep_lookup in Hs as [Hs _]. by rewrite Hm, Hk.
Qed.


(** A socket that leaves takes the mail of its own mailbox, and no other. *)
Lemma leave_moved h h1 h2 k sid k' i o o1 o2 : hub_inv h1 -> sockets h1 !! sid = Some (Serving k' i, o1) ->
  mailboxes h1 = mailboxes h -> mail_of h1 k = mail_of h k -> sockets h !! sid = Some (Serving k' i, o) ->
  mailboxes h2 = mailboxes h1 -> chs h2 = chs h1 -> moved h (leave h2 sid k' i o2) k [].
Proof.
  intros Hi1 Hs1 Hb Hm Hs Hb2 Hc2.
  assert (mail_of (leave h2 sid k' i o2) k = if decide (k = k') then [] else mail_of h1 k) as Hl.
  { rewrite <- (leave_mail h1 sid k k' i o1 Hi1 Hs1). unfold mail_of. simpl. by rewrite Hb2, Hc2. }
  assert (mailboxes (leave h2 sid k' i o2) = delete k' (mailboxes h)) as Hd by (simpl; congruence).
  case_decide as Hk.
  - subst k'. split; [right; split; [done|]|].
    + right. exists sid, i, o, o2. split; [done|]. apply lookup_insert_eq.
    + rewrite Hd. intros m' [? _]%lookup_delete_Some. done.
  - apply moved_same; [|congruence]. rewrite Hd. by apply lookup_delete_ne.
Qed.

Lemma join_moved h sid o msg k : hub_inv h -> moved h (serve_join h sid o msg) k [].
Proof.
  intros Hi. unfold serve_join. destruct msg as [[bs|]|]; [|by apply moved_same..].
  destruct (join_decode bs) as [j|]; [|by apply moved_same].
  destruct (claim_cases h (mailbox_of j) Hi) as [(m & h1 & -> & He & _)|(m & _ & _ & ->)];
    [|apply moved_swept; [by rewrite app_nil_r|auto]].
  pose proof (entry_mail _ k _ _ _ (hub_inv_sweep _ Hi) He) as Hmail.
  destruct (entry_spec _ _ _ _ (hub_inv_sweep _ Hi) He) as (_ & Hm & _ & _ & Hoth & _).
  apply moved_swept; rewrite ?app_nil_r, <- ?Hmail; unfold mail_of; cbn [set_socket with_boxes mailboxes chs];
    destruct (decide (k = mailbox_of j)) as [->|Hk].
  - by rewrite lookup_insert_eq, Hm.
  - by rewrite lookup_insert_ne.
  - intros m'. rewrite lookup_insert_eq. by intros [= <-].
  - intros m'. rewrite lookup_insert_ne, Hoth by done. auto.
Qed.

Lemma deliver_moved h dest bs k : hub_inv h -> moved h (deliver h dest bs) k (if decide (dest = k) then [bs] else []).
Proof.
  intros Hi. apply moved_swept; [by apply deliver_mail|]. intros m' Hm' Hr.
  destruct (deliver_spec h dest bs Hi) as (_ & _ & _ & (m & c & Hm & _ & Hcase) & Hoth & _).
  destruct (decide (dest = k)) as [->|Hk]; [|left; by rewrite <- Hoth by done].
  rewrite Hm in Hm'. injection Hm' as <-. destruct (mailboxes (sweep h) !! k) as [m0|]; [by destruct Hcase as [-> _]; left|].
  right. by destruct Hcase as (_ & ? & _).
Qed.

Lemma mail_moved h sid k' i o sent k :
  hub_inv h -> sockets h !! sid = Some (Serving k' i, o) -> moved h (serve_mail h sid k' i o sent) k [].
Proof.
  intros Hi Hs. unfold serve_mail. destruct (ch_recv (chs h) i) as [[f cs]|] eqn:Hr.
  - pose proof (hub_inv_mail _ _ _ _ _ _ _ Hi Hs Hr) as Hi'.
    set (h1 := set_socket (with_chs h cs) sid (Serving k' i) (o ++ [f])) in *.
    assert (mail_of h1 k = mail_of h k) as Hsame.
    { apply ch_recv_Some in Hr as (c & Hc & _ & ->). unfold mail_of, h1. cbn.
      destruct (mailboxes h !! k) as [m|]; [|done].
      destruct (decide (i = tx m)) as [->|Hn]; [by rewrite lookup_insert_eq, Hc|by rewrite lookup_insert_ne]. }
    destruct sent; [by apply moved_same|].
    by apply (leave_moved h h1 (with_chs h cs) k sid k' i o (o ++ [f]) o Hi' (lookup_insert_eq _ _ _) eq_refl Hsame Hs).
  - case_bool_decide; [by apply moved_same|]. by eapply (leave_moved h h).
Qed.

(** Every step of the hub adds to a mailbox exactly what it routes there; a
    mailbox loses mail only when it expires or its socket goes. *)
Lemma step_mail h ev k : hub_inv h -> moved h (hub_step h ev) k (routes_to k h ev).
Proof.
  intros Hi. destruct ev as [sid|sid msg|sid sent|d]; cbn [hub_step routes_to].
  - apply moved_same; by destruct (sockets h !! sid).
  - destruct (sockets h !! sid) as [[[|k' i|] o]|] eqn:Hs.
    + replace (match msg with Some (Binary _) => [] | _ => [] end) with (@nil bytes) by (by destruct msg as [[]|]).
      by apply join_moved.
    + unfold serve_frame. destruct msg as [[bs|]|]; [|by apply moved_same|by eapply (leave_moved h h)].
      destruct (peek_route bs) as [dest|]; [|rewrite decide_False by done; by apply moved_same].
      replace (if decide (Some dest = Some k) then [bs] else []) with (if decide (dest = k) then [bs] else [])
        by (destruct (decide (dest = k)) as [->|]; [by rewrite decide_True|by rewrite decide_False by congruence]).
      by apply deliver_moved.
    + destruct msg as [[]|]; by apply moved_same.
    + destruct msg as [[]|]; by apply moved_same.
  - destruct (sockets h !! sid) as [[[|k' i|] o]|] eqn:Hs; try by apply moved_same. by apply mail_moved.
  - by apply moved_same.
Qed.

(** So the mail of a mailbox is the latest part of what was routed to it. *)
Lemma mail_is_routed k h evs :
  hub_inv h -> mail_of (hub_run h evs) k `suffix_of` mail_of h k ++ routed k h evs.
Proof.
  revert h; induction evs as [|ev evs IH]; intros h Hi; simpl; [by rewrite app_nil_r|].
  etransitivity; [apply IH; by apply hub_inv_step|]. rewrite app_assoc.
  destruct (moved_mail _ _ _ _ (step_mail h ev k Hi)) as [->|[-> _]]; [done|].
  rewrite <- app_assoc. by apply suffix_app_r.
Qed.

(** *** Sockets *)
Lemma entry_sockets h k : sockets (Hub.entry (sweep h) k).1 = sockets h.
Proof. unfold Hub.entry. by destruct (mailboxes (sweep h) !! k). Qed.

Lemma deliver_sockets h k f : sockets (deliver h k f) = sockets h.
Proof.
  unfold deliver. pose proof (entry_sockets h k) as He. destruct (Hub.entry _ _) as [h1 m]. cbn [fst] in He.
  by destruct (ch_send _ _ _).
Qed.

(** What one event can do to a socket. *)
Inductive socket_step (h : Hub) (ev : hub_event) (sid : nat) : option (sock * list bytes) -> Prop :=
  | socket_same : socket_step h ev sid (sockets h !! sid)
  | socket_accept : sockets h !! sid = None -> socket_step h ev sid (Some (Joining, []))
  | socket_joins f j i o :
      sockets h !! sid = Some (Joining, o) -> ev = Read sid (Some (Binary f)) -> join_decode f = Some j ->
      socket_step h ev sid (Some (Serving (mailbox_of j) i, o))
  | socket_refused o : sockets h !! sid = Some (Joining, o) -> socket_step h ev sid (Some (Closed, o))
  | socket_written k i o c f :
      sockets h !! sid = Some (Serving k i, o) -> live (chs h) !! i = Some c -> log c !! taken c = Some f ->
      socket_step h ev sid (Some (Serving k i, o ++ [f]))
  | socket_leaves k i o : sockets h !! sid = Some (Serving k i, o) -> socket_step h ev sid (Some (Closed, o)).

Lemma socket_set h ev sid sid' st o :
  socket_step h ev sid' (Some (st, o)) -> socket_step h ev sid (<[sid' := (st, o)]> (sockets h) !! sid).
Proof.
  intros H. destruct (decide (sid' = sid)) as [->|Hn]; [by rewrite lookup_insert_eq|].
  rewrite lookup_insert_ne by done. constructor.
Qed.

Lemma hub_socket_step h ev sid : socket_step h ev sid (sockets (hub_step h ev) !! sid).
Proof.
  destruct ev as [sid'|sid' msg|sid' sent|d]; cbn [hub_step].
  - destruct (sockets h !! sid') eqn:Hs; [constructor|]. apply socket_set. by constructor.
  - destruct (sockets h !! sid') as [[[|k i|] o]|] eqn:Hs; try by constructor.
    + unfold serve_join. destruct msg as [[bs|]|]; [|constructor|by apply socket_set, socket_refused].
      destruct (join_decode bs) as [j|] eqn:Hj; [|by apply socket_set, socket_refused].
      unfold claim. pose proof (entry_sockets h (mailbox_of j)) as He.
      destruct (Hub.entry _ _) as [h1 m]. cbn [fst] in He.
      destruct (rx m); cbn [set_socket sockets with_boxes]; rewrite He; apply socket_set;
        [by eapply socket_joins|by apply socket_refused].
    + unfold serve_frame. destruct msg as [[bs|]|]; [|constructor|by cbn; eapply socket_set, socket_leaves].
      destruct (peek_route bs); [|constructor]. rewrite deliver_sockets. constructor.
  - destruct (sockets h !! sid') as [[[|k i|] o]|] eqn:Hs; try by constructor.
    unfold serve_mail. destruct (ch_recv _ _) as [[f cs]|] eqn:Hr.
    + apply ch_recv_Some in Hr as (c & Hc & Hf & ->).
      destruct sent; cbn; apply socket_set; [by eapply socket_written|by eapply socket_leaves].
    + case_bool_decide; [constructor|]. by cbn; eapply socket_set, socket_leaves.
  - exact (socket_same h (Tick d) sid).
Qed.

Lemma closed_stays sid o h evs :
  sockets h !! sid = Some (Closed, o) -> sockets (hub_run h evs) !! sid = Some (Closed, o).
Proof.
  revert h; induction evs as [|ev evs IH]; intros h Hs; [done|]. apply IH.
  destruct (hub_socket_step h ev sid); congruence.
Qed.

(** The socket read a join frame for the key. *)
Definition joined (sid : nat) (k : key) (evs : list hub_event) : Prop :=
  exists f j, Read sid (Some (Binary f)) ∈ evs /\ join_decode f = Some j /\ mailbox_of j = k.

(** A socket was written nothing before it joined, and then only what was
    routed to its key. *)
Lemma socket_history ttl evs sid st o :
  sockets (hub_run (hub_new ttl) evs) !! sid = Some (st, o) ->
  match st with
  | Joining => o = []
  | Serving k _ => joined sid k evs /\ o ⊆ routed k (hub_new ttl) evs
  | Closed => o = [] \/ exists k, joined sid k evs /\ o ⊆ routed k (hub_new ttl) evs
  end.
Proof.
  revert st o; induction evs as [|ev evs IH] using rev_ind; intros st o; [done|].
  assert (forall k o, joined sid k evs /\ o ⊆ routed k (hub_new ttl) evs ->
            joined sid k (evs ++ [ev]) /\ o ⊆ routed k (hub_new ttl) (evs ++ [ev])) as Hgrow.
  { intros k o' [(f & j & Hf & Hj) Ho]. rewrite routed_app. split; [|set_solver].
    exists f, j. split; [apply elem_of_app; by left|done]. }
  rewrite hub_run_app. cbn [hub_run foldl]. fold (hub_run (hub_new ttl) evs).
  set (h := hub_run (hub_new ttl) evs) in *.
  assert (hub_inv h) as Hi by apply hub_inv_run, hub_inv_new.
  intros Hs. pose proof (hub_socket_step h ev sid) as Hstep. rewrite Hs in Hstep.
  remember (Some (st, o)) as e eqn:Ee. destruct Hstep as [|Hn|f j i o1 H1 -> Hj|o1 H1|k i o1 c f H1 Hc Hf|k i o1 H1].
  - specialize (IH _ _ Ee). destruct st as [|k i|]; [done|by apply Hgrow|].
    destruct IH as [->|(k & Hk)]; [by left|right; exists k; by apply Hgrow].
  - by injection Ee as <- <-.
  - injection Ee as <- <-. specialize (IH _ _ H1). cbn in IH. subst o1. split; [|set_solver].
    exists f, j. split; [apply elem_of_app; right; by left|done].
  - injection Ee as <- <-. left. by apply (IH _ _ H1).
  - injection Ee as <- <-. specialize (IH _ _ H1). cbn in IH. apply Hgrow. destruct IH as [HJ Ho]. split; [done|].
    intros x [Hx|Hx%list_elem_of_singleton]%elem_of_app; [by apply Ho|]. subst x.
    destruct (inv_serving _ Hi _ _ _ _ H1) as (m & c' & Hm & Ht & _ & Hc' & _).
    destruct (mail_is_routed k (hub_new ttl) evs (hub_inv_new ttl)) as [z Hz]. fold h in Hz.
    change (mail_of (hub_new ttl) k) with (@nil bytes) in Hz. cbn [app] in Hz. rewrite Hz.
    apply elem_of_app. right. unfold mail_of. rewrite Hm, Ht, Hc. cbn. by eapply list_elem_of_lookup_2.
  - injection Ee as <- <-. specialize (IH _ _ H1). cbn in IH. right. exists k. by apply Hgrow.
Qed.

(** *** Time *)
Definition tick (ev : hub_event) : Duration := match ev with Tick d => d | _ => 0%N end.
Definition ticks (evs : list hub_event) : Duration := foldr (fun ev n => tick ev + n)%N 0%N evs.

Lemma entry_clock h k :
  clock (Hub.entry (sweep h) k).1 = clock h /\ unclaimed_ttl (Hub.entry (sweep h) k).1 = unclaimed_ttl h.
Proof. unfold Hub.entry. by destruct (mailboxes (sweep h) !! k). Qed.

Lemma step_clock h ev :
  clock (hub_step h ev) = (clock h + tick ev)%N /\ unclaimed_ttl (hub_step h ev) = unclaimed_ttl h.
Proof.
  destruct ev as [sid|sid msg|sid sent|d]; cbn [hub_step tick]; [rewrite N.add_0_r..|done].
  - by destruct (sockets h !! sid).
  - destruct (sockets h !! sid) as [[[|k i|] o]|]; try done.
    + unfold serve_join, claim. destruct msg as [[bs|]|]; try done. destruct (join_decode bs) as [j|]; [|done].
      pose proof (entry_clock h (mailbox_of j)) as He. destruct (Hub.entry _ _) as [h1 m]. by destruct (rx m).
    + unfold serve_frame, deliver. destruct msg as [[bs|]|]; try done. destruct (peek_route bs) as [k'|]; [|done].
      pose proof (entry_clock h k') as He. destruct (Hub.entry _ _) as [h1 m]. by destruct (ch_send _ _ _).
  - destruct (sockets h !! sid) as [[[|k i|] o]|]; try done.
    unfold serve_mail. destruct (ch_recv _ _) as [[f cs]|]; [by destruct sent|]. by case_bool_decide.
Qed.

Lemma run_clock h evs :
  clock (hub_run h evs) = (clock h + ticks evs)%N /\ unclaimed_ttl (hub_run h evs) = unclaimed_ttl h.
Proof.
  revert h; induction evs as [|ev evs IH]; intros h; cbn [ticks foldr]; [by rewrite N.add_0_r|].
  destruct (IH (hub_step h ev)) as [Hc Ht], (step_clock h ev) as [Hc1 Ht1]. fold (ticks evs).
  change (hub_run h (ev :: evs)) with (hub_run (hub_step h ev) evs). rewrite Hc, Ht, Hc1, Ht1. split; [lia|done].
Qed.

Lemma ticks_app e1 e2 : ticks (e1 ++ e2) = (ticks e1 + ticks e2)%N.
Proof. unfold ticks. induction e1 as [|ev e1 IH]; simpl; [done|]. rewrite IH. lia. Qed.

Lemma run_snoc h evs ev : hub_run h (evs ++ [ev]) = hub_step (hub_run h evs) ev.
Proof. apply hub_run_app. Qed.

Lemma routed_snoc k h evs ev : routed k h (evs ++ [ev]) = routed k h evs ++ routes_to k (hub_run h evs) ev.
Proof. rewrite routed_app. simpl. by rewrite app_nil_r. Qed.

(** An unclaimed mailbox was created for mail. *)
Lemma unclaimed_posted ttl evs k m :
  mailboxes (hub_run (hub_new ttl) evs) !! k = Some m -> rx m <> None -> mail_of (hub_run (hub_new ttl) evs) k <> [].
Proof.
  revert m; induction evs as [|ev evs IH] using rev_ind; intros m; [done|]. rewrite run_snoc.
  set (h := hub_run (hub_new ttl) evs) in *.
  destruct (step_mail h ev k (hub_inv_run _ evs (hub_inv_new ttl))) as [Hmail Hbox]. intros Hm Hr.
  destruct (Hbox m Hm Hr) as [(m0 & Hm0 & Hr0 & _ & ->)|[_ Hnew]].
  - specialize (IH m0 Hm0 Hr0). by intros [? _]%app_nil.
  - by destruct Hmail as [->|[-> _]]; [intros [_ ?]%app_nil|].
Qed.

(** A mailbox loses nothing, from the first frame routed to it on, for as
    long as a mailbox lives unclaimed and unless its socket goes. *)
Lemma mailbox_keeps_mail ttl k e1 e2 :
  routed k (hub_new ttl) e1 = [] -> (ticks e2 < ttl)%N ->
  (forall es ev es', e1 ++ e2 = es ++ ev :: es' ->
     ~ leaves (hub_run (hub_new ttl) es) (hub_step (hub_run (hub_new ttl) es) ev) k) ->
  mail_of (hub_run (hub_new ttl) (e1 ++ e2)) k = routed k (hub_new ttl) (e1 ++ e2).
Proof.
  intros H1. set (h1 := hub_run (hub_new ttl) e1).
  enough ((ticks e2 < ttl)%N -> (forall es ev es', e1 ++ e2 = es ++ ev :: es' ->
     ~ leaves (hub_run (hub_new ttl) es) (hub_step (hub_run (hub_new ttl) es) ev) k) ->
    mail_of (hub_run (hub_new ttl) (e1 ++ e2)) k = routed k (hub_new ttl) (e1 ++ e2) /\
    forall m, mailboxes (hub_run (hub_new ttl) (e1 ++ e2)) !! k = Some m -> rx m <> None ->
      (clock h1 <= created m)%N) as H by (intros; by apply H).
  induction e2 as [|ev e2 IH] using rev_ind; intros Ht Hstay.
  - rewrite app_nil_r, H1. destruct (mail_is_routed k (hub_new ttl) e1 (hub_inv_new ttl)) as [z Hz].
    rewrite H1 in Hz. change (mail_of (hub_new ttl) k ++ []) with (@nil bytes) in Hz.
    symmetry in Hz. apply app_nil in Hz as [_ Hz]. split; [done|]. intros m Hm Hr. by destruct (unclaimed_posted _ _ _ _ Hm Hr).
  - rewrite ticks_app in Ht. destruct IH as [Hmail Hold]; [lia| |].
    { intros es ev' es' E. apply (Hstay es ev' (es' ++ [ev])). by rewrite app_assoc, E, <- app_assoc. }
    rewrite app_assoc, run_snoc, routed_snoc. set (h := hub_run (hub_new ttl) (e1 ++ e2)) in *.
    destruct (run_clock (hub_new ttl) (e1 ++ e2)) as [Hc Httl]. fold h in Hc, Httl.
    assert (clock h1 = ticks e1) as Hc1 by (apply (run_clock (hub_new ttl) e1)).
    rewrite ticks_app in Hc. cbn [hub_new clock unclaimed_ttl] in Hc, Httl.
    destruct (step_mail h ev k (hub_inv_run _ _ (hub_inv_new ttl))) as [Hnew Hbox]. split.
    + rewrite <- Hmail. destruct Hnew as [Hnew|[_ [(m & Hm & Hk)|Hl]]]; [done| |].
      * exfalso. unfold keeps in Hk. destruct (rx m) eqn:Hr; [|done]. apply N.ltb_ge in Hk.
        specialize (Hold m Hm ltac:(congruence)). lia.
      * by destruct (Hstay (e1 ++ e2) ev []); [rewrite app_assoc|].
    + intros m Hm Hr. destruct (Hbox m Hm Hr) as [(m0 & Hm0 & Hr0 & <- & _)|[-> _]]; [by apply Hold|lia].
Qed.

(** A key's only socket, still open, never left. *)
Lemma open_socket_stays ttl evs sid k :
  (forall sid', joined sid' k evs -> sid' = sid) ->
  (forall o, sockets (hub_run (hub_new ttl) evs) !! sid <> Some (Closed, o)) ->
  forall es ev es', evs = es ++ ev :: es' ->
    ~ leaves (hub_run (hub_new ttl) es) (hub_step (hub_run (hub_new ttl) es) ev) k.
Proof.
  intros Honly Hopen es ev es' -> (sid' & i & o & o' & Hs & Hc).
  apply socket_history in Hs as [(f & j & Hf & Hj) _].
  assert (sid' = sid) as -> by (apply Honly; exists f, j; split; [apply elem_of_app; by left|done]).
  apply (Hopen o'). rewrite hub_run_app. exact (closed_stays _ _ _ es' Hc).
Qed.

(** ** The clients *)
(** The client's socket at the start of a ceremony, and its relay's [send]:
    frames leave in the order they are pushed. *)
Definition client : Type := WsEnvelopeRelay * list bytes.

Definition relay_send (e : SignedEnvelope) : M client MpcError unit :=
  fun '(r, wire) =>
    let (m, r) := ws_send (fun frame wire => (Ok tt, wire ++ [frame])) r e in
    let (x, wire) := m wire in (x, (r, wire)).

(** What [recv], called over and over, makes of what the socket yields. *)
Fixpoint ws_traffic (items : list ws_item) : list event :=
  match items with
  | [] => []
  | WsOther :: items => ws_traffic items
  | WsError :: items => RelayFailed (Transport [Lit "relay stream error: "; Txt ""]) :: ws_traffic items
  | WsBinary bs :: items =>
      match Envelope.decode bs with Ok s => Arrived s | Err e => RelayFailed e end :: ws_traffic items
  end.

(** [ws_traffic] is what [ws_recv] returns, call by call. *)
Lemma ws_traffic_recv r items :
  Forall (eq WsOther) items \/
  exists x r' rest, ws_recv r items = (x, r', rest) /\
    ws_traffic items = match x with Ok s => Arrived s | Err e => RelayFailed e end :: ws_traffic rest.
Proof.
  revert r; induction items as [|[bs| |] items IH]; intros r; [by left|right| |right].
  - by eexists _, _, _.
  - destruct (IH r) as [Ho|(x & r' & rest & Hr & Ht)]; [left; by constructor|right; by exists x, r', rest].
  - by eexists _, _, _.
Qed.

Definition binaries (items : list ws_item) : list bytes :=
  omap (fun i => match i with WsBinary bs => Some bs | _ => None end) items.

Section Simulation.
Context {C : Crypto} {R1 R2 A : Type}.
(** Two relays whose states stay related and that fail alike. *)
Variables (send1 : SignedEnvelope -> M R1 MpcError unit) (send2 : SignedEnvelope -> M R2 MpcError unit).
Variable alike : R1 -> R2 -> Prop.
Hypothesis Hsend : forall s r1 r2, alike r1 r2 ->
  fst (send1 s r1) = fst (send2 s r2) /\ alike (snd (send1 s r1)) (snd (send2 s r2)).
Variable rng : u8 -> u8 -> array 32 * array 24.

Definition similar {E B} (m1 : M R1 E B) (m2 : M R2 E B) : Prop :=
  forall r1 r2, alike r1 r2 -> fst (m1 r1) = fst (m2 r2) /\ alike (snd (m1 r1)) (snd (m2 r2)).

Lemma similar_bind {E B D} (m1 : M R1 E B) m2 (f1 : B -> M R1 E D) f2 :
  similar m1 m2 -> (forall b, similar (f1 b) (f2 b)) -> similar (mbnd m1 f1) (mbnd m2 f2).
Proof.
  intros Hm Hf r1 r2 Hr. destruct (Hm r1 r2 Hr) as [He Ha]. unfold mbnd.
  destruct (m1 r1) as [[b|e] r1'], (m2 r2) as [[b'|e'] r2']; simpl in *; simplify_eq; [by apply Hf|done].
Qed.

Lemma similar_pure {E B} (x : B) : similar (E := E) (mpure x) (mpure x).
Proof. by intros r1 r2 Hr. Qed.

Lemma similar_lift {E B} (x : result E B) : similar (mlift x) (mlift x).
Proof. by intros r1 r2 Hr. Qed.

Lemma similar_relay s : similar (relay send1 s) (relay send2 s).
Proof.
  intros r1 r2 Hr. destruct (Hsend s r1 r2 Hr) as [He Ha]. unfold relay, mmap_err.
  destruct (send1 s r1) as [[]], (send2 s r2) as [[]]; simpl in *; by simplify_eq.
Qed.

Lemma similar_broadcasts exch rnd b tos :
  similar (send_broadcasts send1 exch rnd b tos) (send_broadcasts send2 exch rnd b tos).
Proof.
  induction tos as [|to tos IH]; [apply similar_pure|]. apply similar_bind; [apply similar_relay|by intros _].
Qed.

Lemma similar_round rngr exch rnd ob : similar (send_round send1 rngr exch rnd ob) (send_round send2 rngr exch rnd ob).
Proof.
  apply similar_bind; [destruct (out_broadcast ob); [apply similar_broadcasts|apply similar_pure]|intros _].
  induction (out_p2p ob) as [|[to m] msgs IH]; [apply similar_pure|]. cbn [send_p2p].
  destruct (negb _); [by intros ???|]. destruct (_ !! _); [|by intros ???].
  apply similar_bind; [apply similar_lift|intros e]. apply similar_bind; [apply similar_relay|by intros _].
Qed.

(** A tree plays alike over both. *)
Lemma play_similar (t : proto A) exch r1 r2 events :
  alike r1 r2 ->
  let x1 := play send1 rng t (MkNet exch r1 events) in
  let x2 := play send2 rng t (MkNet exch r2 events) in
  fst x1 = fst x2 /\ alike (out (snd x1)) (out (snd x2)).
Proof.
  revert exch r1 r2 events; induction t as [x|rnd ob expect k IH]; intros exch r1 r2 events Hr; cbn [play]; [done|].
  unfold mbnd, send_round_. cbn [ex out incoming].
  destruct (similar_round (rng rnd) exch rnd ob r1 r2 Hr) as [He Ha].
  destruct (send_round send1 _ _ _ _ _) as [x1 o1], (send_round send2 _ _ _ _ _) as [x2 o2].
  cbn [fst snd] in *. subst x2. destruct x1 as [u|e]; [|done].
  unfold recv_round_. cbn [ex out incoming].
  destruct (recv_round _ _ _ _) as [[[inbox ex'] rest]|e]; [by apply IH|done].
Qed.
End Simulation.

(** ** Frames *)
Lemma join_encode_length j : length (join_encode j) = 46%nat.
Proof. unfold join_encode. rewrite !length_app, array_len. done. Qed.

(** A join frame routes nowhere, an envelope joins nothing. *)
Lemma join_unroutable j : peek_route (join_encode j) = None.
Proof. unfold peek_route. by rewrite join_encode_length. Qed.

Lemma envelope_no_join s : join_decode (Envelope.encode s) = None.
Proof.
  destruct (join_decode (Envelope.encode s)) as [j|] eqn:Hj; [|done].
  apply join_codec_exact, (f_equal length) in Hj. rewrite join_encode_length, encode_length in Hj.
  unfold HEADER_LEN, SIG_LEN, DOMAIN in Hj. simpl in Hj. lia.
Qed.

Definition okay_frame (f : bytes) : option SignedEnvelope :=
  match Envelope.decode f with Ok s => Some s | Err _ => None end.

Lemma ws_traffic_arrived items :
  WsError ∉ items -> (forall f, f ∈ binaries items -> is_Some (okay_frame f)) ->
  ws_traffic items = Arrived <$> omap okay_frame (binaries items).
Proof.
  induction items as [|i items IH]; intros He Hf; [done|].
  assert (WsError ∉ items) as He' by (intros ?; apply He; by right).
  destruct i as [bs| |]; cbn [ws_traffic].
  - destruct (Hf bs ltac:(by left)) as [s Hs]. rewrite IH; [|done|intros f ?; apply Hf; by right].
    unfold okay_frame in Hs. destruct (Envelope.decode bs) as [s'|] eqn:Hd; [|done].
    unfold binaries. cbn [omap list_omap]. unfold okay_frame at 2. by rewrite Hd.
  - by apply IH.
  - destruct He. by left.
Qed.

(** ** A ceremony over the hub *)
Section Ceremony.
Context {C : Crypto} {CL : CryptoLaws C} {A : Type}.
(** A ceremony, as in [Lockstep]. *)
Variables (ps : list u8) (op : u8) (c : u8 -> PartyContext) (rng : u8 -> u8 -> u8 -> array 32 * array 24).
Variable t : u8 -> proto A.
(** The hub after any events; each party's socket, and what its client has
    read from it. *)
Variables (ttl : Duration) (evs : list hub_event) (conn : u8 -> nat) (items : u8 -> list ws_item).

Definition the_hub : Hub := hub_run (hub_new ttl) evs.
Definition key_of (p : u8) : key := (Mpc.instance (c p), p).
Definition join_of (p : u8) : bytes := join_encode (MkJoin (Mpc.instance (c p)) p).

(** The client as [WsEnvelopeRelay::connect] leaves it. *)
Definition connected (p : u8) : client := (MkRelay p (wmod 64 0, wmod 64 0) (wmod 64 0, wmod 64 0), [join_of p]).

Lemma connected_ws p :
  ws_connect (E := string) (mpure tt) (fun frame wire => (Ok tt, wire ++ [frame])) (Mpc.instance (c p)) p []
  = (Ok (fst (connected p)), snd (connected p)).
Proof. done. Qed.

(** A party's run through its client. *)
Definition over_ws (p : u8) : result stop A * net (R := client) :=
  play relay_send (rng p) (t p) (MkNet (at_home ps op c p) (connected p) (ws_traffic (items p))).

(** How everyone's run came out, and the frames they pushed. *)
Variable final : u8 -> result stop A * net (R := client).
Definition pushed (p : u8) : list bytes := snd (out (snd (final p))).

(** What the hub wrote to the party's socket. *)
Definition written (p : u8) : list bytes := from_option snd [] (sockets the_hub !! conn p).

Record linked : Prop := {
  (* everyone has a socket of its own, and pushes all that is read from it *)
  linked_own : forall p q, p ∈ ps -> q ∈ ps -> conn p = conn q -> p = q;
  linked_reads : forall p f, p ∈ ps -> Read (conn p) (Some (Binary f)) ∈ evs -> f ∈ pushed p;
  (* no one else joins or mails this ceremony's mailboxes *)
  linked_others : forall sid f p, p ∈ ps -> Read sid (Some (Binary f)) ∈ evs -> (forall q, q ∈ ps -> sid <> conn q) ->
    peek_route f <> Some (key_of p) /\ forall j, join_decode f = Some j -> mailbox_of j <> key_of p;
  (* the client reads, in order, what was written to its socket *)
  linked_gets : forall p, p ∈ ps -> binaries (items p) `prefix_of` written p /\ WsError ∉ items p;
  (* payload lengths fit their field *)
  linked_small : forall p f, p ∈ ps -> f ∈ pushed p -> (N.of_nat (length f) < 2 ^ 32)%N;
  (* no one hangs up while its party waits *)
  linked_open : forall p o, p ∈ ps -> waits (fst (final p)) -> sockets the_hub !! conn p <> Some (Closed, o);
  (* the ceremony's mail all came within the time a mailbox lives unclaimed *)
  linked_timely : exists e1 e2, evs = e1 ++ e2 /\ (ticks e2 < ttl)%N /\
    forall p, p ∈ ps -> routed (key_of p) (hub_new ttl) e1 = [];
}.

(** Mail to come: a frame that another pushed for the party and its client has
    not read, which the hub has not routed yet or holds in its mailbox. *)
Definition mail_to_come (p : u8) : Prop :=
  exists q f, q ∈ ps /\ q <> p /\ f ∈ pushed q /\ peek_route f = Some (key_of p) /\ ~ f ∈ binaries (items p) /\
    (f ∉ routed (key_of p) (hub_new ttl) evs \/ f ∈ mail_of the_hub (key_of p)).

(** The envelopes a client was handed. *)
Definition mail_read (p : u8) : list SignedEnvelope := omap okay_frame (binaries (items p)).

Section Facts.
Variable fits : bytes -> bool.
Hypothesis Hlink : linked.
Hypothesis Hacq : acquainted ps op c rng fits.
Hypothesis Hord : forall p, p ∈ ps -> ordered 0 (t p).
Hypothesis Hfinal : forall p, p ∈ ps -> final p = over_ws p.

(** The same run, with a relay that keeps the envelopes. *)
Definition plainly (p : u8) : result stop A * net (R := list SignedEnvelope) :=
  play push (rng p) (t p) (MkNet (at_home ps op c p) [] (ws_traffic (items p))).

Lemma final_plainly p :
  p ∈ ps -> fst (final p) = fst (plainly p) /\ pushed p = join_of p :: (Envelope.encode <$> out (snd (plainly p))).
Proof.
  intros Hp. unfold pushed. rewrite Hfinal by done.
  apply (play_similar relay_send push (fun r1 r2 => snd r1 = join_of p :: (Envelope.encode <$> r2))); [|done].
  intros s [r wire] r2 Hr. cbn in *. split; [done|]. by rewrite Hr, fmap_app.
Qed.

Lemma plainly_authored p s :
  p ∈ ps -> s ∈ out (snd (plainly p)) -> authored (at_home ps op c p) (round (env s)) s.
Proof.
  intros Hp Hs. destruct (run_emits ps op c rng p (t p) (MkNet (at_home ps op c p) [] (ws_traffic (items p))) 0)
    as (o & Ho & Hb); [done|by apply Hord|].
  unfold plainly in Hs. rewrite Ho in Hs. cbn [out app] in Hs. rewrite Forall_forall in Hb. by apply Hb.
Qed.

(** What is routed to a party's mailbox is what others of the ceremony sent
    it, and what is written to its socket is that. *)
Lemma routed_sent p f :
  p ∈ ps -> f ∈ routed (key_of p) (hub_new ttl) evs ->
  exists q s, q ∈ ps /\ s ∈ out (snd (plainly q)) /\ f = Envelope.encode s /\ to (env s) = p /\ okay_frame f = Some s.
Proof.
  intros Hp (Hr & sid & Hread)%routed_read.
  destruct (decide (Exists (fun q => sid = conn q) ps)) as [(q & Hq & ->)%Exists_exists|Hn].
  2:{ destruct (linked_others Hlink sid f p Hp Hread) as [Ho _]; [|by destruct Ho].
      intros q Hq ->. apply Hn, Exists_exists. eauto. }
  pose proof (linked_reads Hlink q f Hq Hread) as Hf. pose proof (linked_small Hlink q f Hq Hf) as Hlen.
  rewrite (proj2 (final_plainly q Hq)) in Hf.
  apply elem_of_cons in Hf as [->|(s & -> & Hs)%list_elem_of_fmap]; [by unfold join_of in Hr; rewrite join_unroutable in Hr|].
  exists q, s. rewrite peek_route_encode in Hr. injection Hr as _ Hto. split_and!; [done..|].
  unfold okay_frame. rewrite Envelope.decode_encode; [done|]. rewrite encode_length in Hlen. lia.
Qed.

Lemma joins_own sid p : p ∈ ps -> joined sid (key_of p) evs -> sid = conn p.
Proof.
  intros Hp (f & j & Hread & Hj & Hk).
  destruct (decide (Exists (fun q => sid = conn q) ps)) as [(q & Hq & ->)%Exists_exists|Hn].
  2:{ destruct (linked_others Hlink sid f p Hp Hread) as [_ Ho]; [|by destruct (Ho j Hj)].
      intros q Hq ->. apply Hn, Exists_exists. eauto. }
  pose proof (linked_reads Hlink q f Hq Hread) as Hf. rewrite (proj2 (final_plainly q Hq)) in Hf.
  apply elem_of_cons in Hf as [->|(s & -> & Hs)%list_elem_of_fmap]; [|by rewrite envelope_no_join in Hj].
  unfold join_of in Hj. rewrite join_decode_encode in Hj. injection Hj as <-. by injection Hk as _ ->.
Qed.

Lemma written_routed p : p ∈ ps -> written p ⊆ routed (key_of p) (hub_new ttl) evs.
Proof.
  intros Hp. unfold written. destruct (sockets the_hub !! conn p) as [[st o]|] eqn:Hs; [|by intros x ?%not_elem_of_nil].
  apply socket_history in Hs. cbn [from_option snd].
  assert (forall k, joined (conn p) k evs -> k = key_of p) as Hkey.
  { intros k (f & j & Hread & Hj & <-). pose proof (linked_reads Hlink p f Hp Hread) as Hf.
    rewrite (proj2 (final_plainly p Hp)) in Hf.
    apply elem_of_cons in Hf as [->|(s & -> & Hs')%list_elem_of_fmap]; [|by rewrite envelope_no_join in Hj].
    unfold join_of in Hj. rewrite join_decode_encode in Hj. by injection Hj as <-. }
  destruct st as [|k i|].
  - subst o. by intros x ?%not_elem_of_nil.
  - destruct Hs as [->%Hkey Ho]. done.
  - destruct Hs as [->|(k & ->%Hkey & Ho)]; [by intros x ?%not_elem_of_nil|done].
Qed.

Lemma read_routed p f : p ∈ ps -> f ∈ binaries (items p) -> f ∈ routed (key_of p) (hub_new ttl) evs.
Proof.
  intros Hp Hf. apply (written_routed p Hp). destruct (linked_gets Hlink p Hp) as [[z ->] _].
  apply elem_of_app. by left.
Qed.

Lemma plainly_so_far p : p ∈ ps -> plainly p = so_far ps op c rng t p (mail_read p).
Proof.
  intros Hp. unfold plainly, so_far. rewrite ws_traffic_arrived; [done|by apply (linked_gets Hlink p Hp)|].
  intros f Hf. destruct (routed_sent p f Hp (read_routed p f Hp Hf)) as (q & s & _ & _ & _ & _ & ->). by eexists.
Qed.

(** The relay hands over authentic mail. *)
Lemma relayed_authentic p :
  p ∈ ps -> authentic ps op c (fun q => out (snd (so_far ps op c rng t q (mail_read q)))) p (mail_read p).
Proof.
  intros Hp s (f & Hf & Hs)%list_elem_of_omap.
  destruct (routed_sent p f Hp (read_routed p f Hp Hf)) as (q & s' & Hq & Hsent & _ & Hto & Hs').
  rewrite Hs in Hs'. injection Hs' as <-. destruct (decide (q = p)) as [->|Hne].
  - left. destruct (plainly_authored p s Hp Hsent) as (e & -> & _ & _ & _ & Hfrom). cbn [env sign at_home exchange_new ctx] in *.
    unfold foreign. apply orb_true_iff. right. apply negb_true_iff. cbn [at_home exchange_new peers].
    destruct (contains _ _) eqn:Hc; [|done]. apply contains_true, list_elem_of_filter in Hc as [Hc _]. by destruct Hc.
  - right. exists q. split_and!; [done..|]. by rewrite <- (plainly_so_far q).
Qed.

(** Nothing sent to a party that waits is lost: its mailbox has it from the
    moment it is routed. *)
Lemma routed_held p f :
  p ∈ ps -> waits (fst (final p)) -> f ∈ routed (key_of p) (hub_new ttl) evs -> f ∈ mail_of the_hub (key_of p).
Proof.
  intros Hp Hw Hf. destruct (linked_timely Hlink) as (e1 & e2 & E & Ht & Hnone).
  assert (forall o, sockets (hub_run (hub_new ttl) evs) !! conn p <> Some (Closed, o)) as Hopen
    by (intros o; by apply (linked_open Hlink)).
  pose proof (open_socket_stays ttl evs (conn p) (key_of p) (fun sid => joins_own sid p Hp) Hopen) as Hstay.
  unfold the_hub. rewrite E in Hstay, Hf |- *. by rewrite (mailbox_keeps_mail ttl _ e1 e2 (Hnone p Hp) Ht Hstay).
Qed.

Lemma sent_key p q s :
  p ∈ ps -> q ∈ ps -> s ∈ out (snd (plainly q)) -> to (env s) = p -> peek_route (Envelope.encode s) = Some (key_of p).
Proof.
  intros Hp Hq Hs <-. rewrite peek_route_encode. destruct (plainly_authored q s Hq Hs) as (e & -> & Hi & _).
  cbn [env sign at_home exchange_new ctx] in *. unfold key_of. rewrite Hi.
  by destruct (Hacq q (to e) Hq Hp) as (_ & -> & _).
Qed.
End Facts.

(** Ceremonies over the relay never go wrong and never get stuck.  The parties
    of a ceremony are connected to one hub through their clients, after any
    events whatsoever (other ceremonies, interleavings of the sockets, joins
    before or after the first mail).  Everyone has returned what the
    synchronous run says, or waits; and unless all have returned, some party
    that waits has mail to come. *)
Theorem relay_never_stuck (fits : bytes -> bool) (fuel : nat) rs :
  ascending (wval <$> ps) = true ->
  acquainted ps op c rng fits ->
  (forall p, p ∈ ps -> ordered 0 (t p)) ->
  sync fits fuel ((fun p => (p, t p)) <$> ps) = Some rs ->
  (forall p, p ∈ ps -> final p = over_ws p) ->
  linked ->
  (forall p, p ∈ ps -> exists r, BTree.get p rs = Some r /\ (fst (final p) = r \/ waits (fst (final p)))) /\
  ((forall p, p ∈ ps -> BTree.get p rs = Some (fst (final p))) \/
   exists p, p ∈ ps /\ waits (fst (final p)) /\ mail_to_come p).
Proof.
  intros Hps Hacq Hord Hsync Hfinal Hlink.
  assert (forall p, p ∈ ps -> fst (final p) = fst (so_far ps op c rng t p (mail_read p))) as Hrun.
  { intros p Hp. rewrite <- (plainly_so_far Hlink Hfinal p Hp). by apply final_plainly. }
  destruct (always_progress ps op c rng t fits fuel rs mail_read Hps Hacq Hord Hsync
              (relayed_authentic Hlink Hord Hfinal)) as [Hres Hprog]. split.
  - intros p Hp. rewrite Hrun by done. by apply Hres.
  - destruct Hprog as [Hall|(p & q & s & Hp & Hq & Hne & Hw & Hs & Hto & Hn)]; [left|right].
    + intros p Hp. rewrite Hrun by done. by apply Hall.
    + rewrite <- Hrun in Hw by done. rewrite <- (plainly_so_far Hlink Hfinal q Hq) in Hs.
      assert (Envelope.encode s ∈ pushed q) as Hf.
      { rewrite (proj2 (final_plainly Hfinal q Hq)). right. apply list_elem_of_fmap. by exists s. }
      exists p. split_and!; [done..|]. exists q, (Envelope.encode s). split_and!; try done; [by eapply sent_key| |].
      * intros Hb. apply Hn, list_elem_of_omap. exists (Envelope.encode s). split; [done|].
        destruct (routed_sent Hlink Hfinal p _ Hp (read_routed Hlink Hfinal p _ Hp Hb)) as (q' & s' & _ & _ & He & _ & Hs').
        pose proof (linked_small Hlink q _ Hq Hf) as Hlen. rewrite encode_length in Hlen.
        unfold okay_frame. rewrite Envelope.decode_encode by lia. done.
      * destruct (decide (Envelope.encode s ∈ routed (key_of p) (hub_new ttl) evs)) as [Hr|]; [right|by left].
        by eapply routed_held.
Qed.
End Ceremony.
