(* ===== verification/OverRelay.v ===== *)
(** * The ceremonies over the relay

    [crates/sovra-mpc-dkls23-carbon]'s ceremonies, run by clients of one hub
    ([crates/sovra-ipc]): [Central] says what everyone should return, [Relayed]
    what the hub and its clients do with their envelopes.  [sign_over_relay],
    [keygen_over_relay] and [refresh_over_relay] put them together: whatever
    the hub has done so far, every party has returned its entry of the central
    execution or waits, and one that waits has mail to come. *)

From S2P Require Import Prelude Types Mpc Envelope Exchange Carbon Lockstep Ceremonies Central Hub Relayed.
From Stdlib Require Import String NArith Lia.
From stdpp Require Import base decidable list strings.
Open Scope string_scope. Open Scope list_scope.

Section OverRelay.
Context {C : Crypto} {CL : CryptoLaws C} {D : Dkls} {DL : DklsLaws D}.
Variables (c : u8 -> PartyContext) (rng : u8 -> u8 -> u8 -> array 32 * array 24).
Variable fits : bytes -> bool.
Variable ex0 : u8 -> Exchange.
(** The hub's time to live and events, everyone's socket and what its client
    has read from it. *)
Variables (ttl : Duration) (evs : list hub_event) (conn : u8 -> nat) (items : u8 -> list ws_item).

(** A party once its client is connected. *)
Definition dialed (p : u8) : net (R := client) := MkNet (ex0 p) (connected c p) (ws_traffic (items p)).

(** How a ceremony comes out over the relay, given what everyone should
    return. *)
Definition carried {A} (ps : list u8) (tbl : BTree.t A) (final : u8 -> result stop A * net (R := client)) : Prop :=
  (forall p, p ∈ ps -> exists a, BTree.get p tbl = Some a /\ (fst (final p) = Ok a \/ waits (fst (final p)))) /\
  ((forall p, p ∈ ps -> exists a, BTree.get p tbl = Some a /\ fst (final p) = Ok a) \/
   exists p, p ∈ ps /\ waits (fst (final p)) /\ mail_to_come ps c ttl evs items final p).

Lemma as_trees_carried {A} (ps : list u8) (op : u8) (tbl : BTree.t A) run :
  ascending (wval <$> ps) = true -> acquainted ps op c rng fits -> as_trees c rng fits ps op tbl run ->
  let final p := run _ relay_send p (dialed p) in
  linked ps c ttl evs conn items final -> carried ps tbl final.
Proof.
  intros Hasc Hacq (t & r & -> & Hord & Hsync & Hrun) final Hlink.
  assert (forall p, p ∈ ps -> BTree.get p (tab r ps) = Some (r p)) as Hr by (intros p; apply tab_get).
  destruct (relay_never_stuck ps op c rng t ttl evs conn items final fits 3 (tab (fun p => Ok (r p)) ps)) as [Hres Hprog];
    try done; [by intros p Hp; apply Hrun|]. split.
  - intros p Hp. exists (r p). split; [by apply Hr|]. destruct (Hres p Hp) as (x & Hx & H).
    rewrite (tab_get (fun p => Ok (r p))) in Hx by done. injection Hx as <-. exact H.
  - destruct Hprog as [Hall|H]; [left|by right]. intros p Hp. exists (r p). split; [by apply Hr|].
    specialize (Hall p Hp). rewrite (tab_get (fun p => Ok (r p))) in Hall by done. congruence.
Qed.

(** Key generation over the relay. *)
Theorem keygen_over_relay (coins : u8 -> Coins) (n : nat) tbl :
  let final p := keygen_party relay_send (rng p) (c p) (coins p) (dialed p) in
  (2 <= n <= 255)%nat ->
  acquainted (ids n) op_DKG c rng fits ->
  (forall p, p ∈ ids n -> length (party_vks (c p)) = n) ->
  central_keygen fits c coins n = Some tbl ->
  linked (ids n) c ttl evs conn items final ->
  carried (ids n) tbl final.
Proof.
  intros final Hn Hacq Hlen Hc. pose proof (ids_ascending n ltac:(lia)) as Hasc.
  exact (as_trees_carried (ids n) op_DKG tbl _ Hasc Hacq (keygen_as_trees c rng fits coins n tbl Hn Hacq Hlen Hc)).
Qed.

(** Refresh over the relay. *)
Theorem refresh_over_relay (shares : u8 -> KeyShare) (anchor : PubkeySec1) (coins : u8 -> Coins) (n : nat) tbl :
  let final p := refresh_party relay_send (rng p) (c p) (shares p) anchor (coins p) (dialed p) in
  (2 <= n <= 255)%nat ->
  acquainted (ids n) op_REFRESH c rng fits ->
  (forall p, p ∈ ids n -> length (party_vks (c p)) = n) ->
  central_refresh fits c shares anchor coins n = Some tbl ->
  linked (ids n) c ttl evs conn items final ->
  carried (ids n) tbl final.
Proof.
  intros final Hn Hacq Hlen Hc. pose proof (ids_ascending n ltac:(lia)) as Hasc.
  exact (as_trees_carried (ids n) op_REFRESH tbl _ Hasc Hacq
           (refresh_as_trees c rng fits shares anchor coins n tbl Hn Hacq Hlen Hc)).
Qed.

(** C6: signing over the relay never goes wrong and never gets stuck.  The
    members of a quorum run the ceremony through their clients, connected to
    one hub, after any events on it that leave them linked ([linked]): other
    ceremonies, any interleaving of the sockets, joins before or after the
    first mail, as long as it all took less than a mailbox lives unclaimed, no
    outsider joined or mailed these mailboxes, no socket of a waiting member
    was closed and no client read an error.  Every member has returned
    its entry of the central execution, or waits; and unless all have, some
    member that waits has mail to come: a frame another pushed for it that its
    client has not read, which the hub has not routed yet or holds in that
    member's mailbox. *)
Theorem sign_over_relay (shares : u8 -> KeyShare) (digest : B256) (coins : u8 -> Coins) (subset : list u8) tbl :
  let final p := sign_party relay_send (rng p) (c p) (shares p) digest subset (coins p) (dialed p) in
  subset <> [] -> ascending (wval <$> subset) = true ->
  acquainted subset op_SIGN c rng fits ->
  central_sign fits c shares digest coins subset = Some tbl ->
  linked subset c ttl evs conn items final ->
  carried subset tbl final.
Proof.
  intros final Hne Hasc Hacq Hc.
  exact (as_trees_carried subset op_SIGN tbl _ Hasc Hacq
           (sign_as_trees c rng fits shares digest coins subset tbl Hne Hasc Hacq Hc)).
Qed.
End OverRelay.

(** ** Witness: two parties sign over a hub. *)
(** Party 0's first frame comes before party 1 has joined. *)
Definition demo_conn (p : u8) : nat := N.to_nat (wval p).
Definition frames_for (p : u8) : list bytes := Envelope.encode <$> sign_mail p.
Definition demo_items (p : u8) : list ws_item := WsOther :: (WsBinary <$> frames_for p).
Definition demo_join (p : u8) : hub_event := Read (demo_conn p) (Some (Binary (join_of demo_party p))).
Definition demo_evs : list hub_event :=
  [Accept 0; Accept 1; demo_join (wmod 8 0)]
  ++ (Read 0 ∘ Some ∘ Binary <$> take 1 (frames_for (wmod 8 1)))
  ++ [Tick 5%N; demo_join (wmod 8 1); Mail 1 true]
  ++ (Read 1 ∘ Some ∘ Binary <$> take 2 (frames_for (wmod 8 0))) ++ [Mail 0 true; Mail 0 true]
  ++ (Read 0 ∘ Some ∘ Binary <$> drop 1 (frames_for (wmod 8 1))) ++ [Mail 1 true; Mail 1 true]
  ++ (Read 1 ∘ Some ∘ Binary <$> drop 2 (frames_for (wmod 8 0))) ++ [Mail 0 true].
Definition demo_final (p : u8) : result stop EcdsaParts * net (R := client) :=
  sign_party (D := ToyDkls) relay_send (demo_rngs p) (demo_party p) (demo_shares p) demo_digest demo_two (demo_coins p)
    (dialed demo_party (fun p => demo_ex (wval p)) demo_items p).

Definition reads_pushed (pushed0 pushed1 : list bytes) (ev : hub_event) : bool :=
  match ev with
  | Read 0 (Some (Binary f)) => contains f pushed0
  | Read 1 (Some (Binary f)) => contains f pushed1
  | Read _ _ => false
  | _ => true
  end.

Lemma demo_reads sid f :
  Read sid (Some (Binary f)) ∈ demo_evs ->
  sid = 0 /\ f ∈ pushed demo_final (wmod 8 0) \/ sid = 1 /\ f ∈ pushed demo_final (wmod 8 1).
Proof.
  intros Hin.
  assert (forallb (reads_pushed (pushed demo_final (wmod 8 0)) (pushed demo_final (wmod 8 1))) demo_evs = true) as H
    by (vm_cast_no_check (eq_refl true)).
  rewrite forallb_forall in H. apply list_elem_of_In, H in Hin. cbn [reads_pushed] in Hin.
  destruct sid as [|[|]]; [left|right|done]; (split; [done|by apply contains_true]).
Qed.

(** Everything written to an open socket was read, and frames are short. *)
Definition all_read (items : list ws_item) (st : option (sock * list bytes)) (sent : list bytes) : bool :=
  bool_decide (binaries items = from_option snd [] st) &&
  forallb (fun i => match i with WsError => false | _ => true end) items &&
  match st with Some (Closed, _) => false | _ => true end &&
  forallb (fun f => N.ltb (N.of_nat (length f)) (2 ^ 32)) sent.

Lemma all_read_true items st sent :
  all_read items st sent = true ->
  (binaries items `prefix_of` from_option snd [] st) /\ ~ (WsError ∈ items) /\ (forall o, st <> Some (Closed, o)) /\
  forall f, f ∈ sent -> (N.of_nat (length f) < 2 ^ 32)%N.
Proof.
  unfold all_read. rewrite !andb_true_iff, bool_decide_eq_true, !forallb_forall. intros (((Hb & He) & Ho) & Hl).
  split_and!; [by rewrite Hb| | |].
  - intros Hin%list_elem_of_In%He. done.
  - by intros o ->.
  - intros f Hf%list_elem_of_In%Hl. by apply N.ltb_lt.
Qed.

Lemma demo_read p :
  p ∈ demo_two ->
  all_read (demo_items p) (sockets (the_hub DEFAULT_UNCLAIMED_TTL demo_evs) !! demo_conn p) (pushed demo_final p) = true.
Proof. revert p. refine (demo_two_elem _ _ _); vm_cast_no_check (eq_refl true). Qed.

Lemma demo_linked : linked demo_two demo_party DEFAULT_UNCLAIMED_TTL demo_evs demo_conn demo_items demo_final.
Proof.
  pose proof (fun p Hp => all_read_true _ _ _ (demo_read p Hp)) as Hall. split.
  - intros p q _ _ H. apply word_eq. unfold demo_conn in H. lia.
  - intros p f Hp. revert p Hp f. refine (demo_two_elem _ _ _); intros f [[E Hf]|[E Hf]]%demo_reads; (discriminate E || exact Hf).
  - intros sid f p _ [[-> _]|[-> _]]%demo_reads Hn; exfalso.
    + apply (Hn (wmod 8 0)); [apply contains_true; vm_compute; reflexivity|reflexivity].
    + apply (Hn (wmod 8 1)); [apply contains_true; vm_compute; reflexivity|reflexivity].
  - intros p Hp. destruct (Hall p Hp) as (Hb & He & _). split; [exact Hb|exact He].
  - intros p f Hp. exact (proj2 (proj2 (proj2 (Hall p Hp))) f).
  - intros p o Hp _. exact (proj1 (proj2 (proj2 (Hall p Hp))) o).
  - exists [], demo_evs. split; [exact eq_refl|]. split; [vm_cast_no_check (eq_refl Lt)|intros p _; exact eq_refl].
Qed.

Lemma sign_over_relay_witness :
  exists tbl, central_sign (D := ToyDkls) (fun _ => true) demo_party demo_shares demo_digest demo_coins demo_two = Some tbl /\
    forall p, p ∈ demo_two -> exists a, BTree.get p tbl = Some a /\ fst (demo_final p) = Ok a.
Proof.
  eexists. split; [vm_compute; reflexivity|].
  destruct (sign_over_relay (D := ToyDkls) demo_party demo_rngs (fun _ => true) (fun p => demo_ex (wval p))
    DEFAULT_UNCLAIMED_TTL demo_evs demo_conn demo_items demo_shares demo_digest demo_coins demo_two
    _ ltac:(done) ltac:(vm_compute; reflexivity) (demo_acquainted _) ltac:(vm_compute; reflexivity) demo_linked)
    as [_ [H|(p & Hp & Hw & _)]]; [exact H|exfalso].
  revert p Hp Hw. refine (demo_two_elem _ _ _); intros [m Hm]; vm_compute in Hm; discriminate Hm.
Defined.
