(* ===== verification/Cli.v ===== *)
(** * The operator's command line ([crates/sovra-cli])

    The local provisioning verbs ([certs], [identity]) over the file system of
    [State], with what they print, and the mapping of the other verbs to the
    orchestrator's endpoints.  Parsing the arguments (clap) and printing are
    the libraries'. *)

From S2P Require Import Prelude Text Types Mpc State Control Remote Cosigner Startup Certs.
From Stdlib Require Import String Ascii NArith ZArith Lia.
From stdpp Require Import base decidable list gmap strings.
Open Scope string_scope. Open Scope list_scope.

(** ** The terminal: the disk and what was printed. *)
Record term : Type := MkTerm { disk : world; out : list msg }.
Definition T (A : Type) : Type := M term msg A.
Definition println (m : msg) : T unit := fun s => (Ok tt, MkTerm (disk s) (out s ++ [m])).
(** A disk operation whose error is displayed. *)
Definition shown {E A} (show : E -> msg) (x : M world E A) : T A :=
  fun s => let (r, w) := x (disk s) in (map_err show r, MkTerm w (out s)).

Inductive ExitCode : Type := SUCCESS | FAILURE.

(* src cli/types.rs:67-104 CertsCommand *)
Inductive CertsCommand : Type :=
  | CertsCa (dir : path)
  | CertsCsr (dir : path) (stem : string) (cn : option string) (san : list string)
  | CertsSign (csr dir : path) (out : option path).

(** ** Paths *)
(** [Path::file_name]. *)
Definition path_file_name (p : path) : option string :=
  match last p with
  | Some n => if bool_decide (n = "..") then None else Some n
  | None => None
  end.
(** [Path::with_file_name]. *)
Definition with_file_name (p : path) (n : string) : path :=
  State.join (match path_file_name p with Some _ => parent p | None => p end) n.

Section Verbs.
Context {X : HexCodec} {R : Rcgen}.

(** cosigner1.csr.pem -> cosigner1.cert.pem, next to the CSR. *)
(* src cli/certs.rs:52-60 execute *)
Definition signed_path (csr : path) : path :=
  let name := match path_file_name csr with
              | Some n => if utf8_valid (bstr n) then n else "leaf"
              | None => "leaf"
              end in
  with_file_name csr (String.append (trim_end_matches ".csr.pem" name) ".cert.pem").

(* src cli/certs.rs:21-69 execute *)
Definition execute (listing : Listing) (now : Z) (drawn : result rc_error KeyPair) (cmd : CertsCommand) : T unit :=
  match cmd with
  | CertsCa dir =>
      let! _ := shown certs_error_text (ensure_ca listing now drawn dir) in
      println [Lit "CA ready under "; show_path dir; Lit " — "; Lit CA_KEY_FILE; Lit " stays on THIS machine"]
  | CertsCsr dir stem cn san =>
      let cn := default (String.append "sovra-" stem) cn in
      let sans := default_sans ++ san in
      let! paths := shown certs_error_text (generate_csr drawn dir stem cn sans) in
      println [Lit "key born at "; show_path (req_key paths); Lit " (never leaves this host)
send ";
               show_path (req_csr paths); Lit " to the CA machine"]
  | CertsSign csr dir out =>
      let! csr_pem := shown (fun _ => [show_path csr; Lit ": "; Txt "io error"]) (fs_read_to_string csr) in
      let! summary := mlift (map_err certs_error_text (describe_csr csr_pem)) in
      let! _ := println [Lit "signing request: "; Lit summary] in
      let! ca := shown certs_error_text (ensure_ca listing now drawn dir) in
      let! cert := mlift (map_err certs_error_text (sign_csr now ca csr_pem)) in
      let out := default (signed_path csr) out in
      let! _ := shown (fun _ => [show_path out; Lit ": "; Txt "io error"]) (fs_write out cert) in
      println [Lit "signed → "; show_path out; Lit " (public — send it back to the node)"]
  end.

(** The exit code, and what went to standard error. *)
(* src cli/certs.rs:11-19 run *)
Definition run_certs (listing : Listing) (now : Z) (drawn : result rc_error KeyPair) (cmd : CertsCommand) (s : term)
  : ExitCode * list msg * term :=
  match execute listing now drawn cmd s with
  | (Ok _, s) => (SUCCESS, [], s)
  | (Err m, s) => (FAILURE, [m], s)
  end.
End Verbs.

(** ** The [identity] verb *)
Section IdentityVerb.
Context {C : Crypto} {K : KeyBytes C} {X : HexCodec}.

(* src cli/identity.rs:31-49 load_or_generate *)
Definition cli_load_or_generate (data_dir : path) (fresh : SigningKey) : M world msg SigningKey :=
  fun w =>
    let p := data_dir ++ ["identity.key"] in
    let (found, w) := path_exists p w in
    if found then
      (let! b := mmap_err (fun _ => [show_path p; Lit ": "; Txt "io error"]) (fs_read p) in
       match to_array 32 b with
       | Some a => mpure (sk_from_bytes a)
       | None => mabort [show_path p; Lit " is "; Num (N.of_nat (length b));
                         Lit " bytes, expected 32 — refusing to regenerate a pinned identity"]
       end) w
    else
      (let! _ := mmap_err (fun _ => [show_path data_dir; Lit ": "; Txt "io error"]) (fs_create_dir_all data_dir) in
       let! _ := mmap_err state_error_text (write_atomic p (arr (sk_to_bytes fresh))) in
       mpure fresh) w.

(** The verifying key in hexadecimal, or the error. *)
(* src cli/identity.rs:14-29 run *)
Definition run_identity (data_dir : path) (fresh : SigningKey) (s : term) : ExitCode * list msg * term :=
  match cli_load_or_generate data_dir fresh (disk s) with
  | (Ok key, w) => (SUCCESS, [], MkTerm w (out s ++ [[Lit (hex_encode (arr (vk_bytes (verifying_key key))))]]))
  | (Err m, w) => (FAILURE, [m], MkTerm w (out s))
  end.
End IdentityVerb.

(** ** The orchestrator's verbs *)
(* src cli/types.rs:30-65 Command *)
Inductive Command : Type :=
  | CmdDkg
  | CmdPrepare (to : Address) (value : U256) (data : bytes)
  | CmdSign (tx : bytes)
  | CmdBroadcast (tx : bytes)
  | CmdCerts (cmd : CertsCommand)
  | CmdIdentity (data_dir : path).

(** The JSON object posted. *)
Inductive json_body : Type :=
  | JPrepare (to : Address) (value : U256) (data : bytes)
  | JUnsigned (unsigned_transaction : bytes)
  | JSigned (signed_transaction : bytes).

(* src cli/main.rs:33-44 main *)
Definition endpoint (c : Command) : option (string * option json_body) :=
  match c with
  | CmdCerts _ | CmdIdentity _ => None
  | CmdDkg => Some ("/v1/dkg", None)
  | CmdPrepare to value data => Some ("/v1/prepare", Some (JPrepare to value data))
  | CmdSign tx => Some ("/v1/sign", Some (JUnsigned tx))
  | CmdBroadcast tx => Some ("/v1/broadcast", Some (JSigned tx))
  end.

(** [post] is the HTTP client, [pretty] the JSON printer: [None] when the text
    is not JSON.  The result: exit code, standard output, standard error. *)
(* src cli/main.rs:47-80 main *)
Definition call (api_url : string) (post : string -> option json_body -> reply) (pretty : string -> option string)
    (path : string) (body : option json_body) : ExitCode * list msg * list msg :=
  match post (String.append (trim_end_matches "/" api_url) path) body with
  | BadUrl err | SendFailed err => (FAILURE, [], [[Lit "request failed: "; Txt err]])
  | Reply status text =>
      let text := default EmptyString text in
      let pretty := default text (pretty text) in
      if is_success status then (SUCCESS, [[Txt pretty]], [])
      else (FAILURE, [], [[HttpStatus status; Lit "
"; Txt pretty]])
  end.

(* src cli/main.rs:30-81 main *)
Definition main {C : Crypto} {K : KeyBytes C} {X : HexCodec} {R : Rcgen}
    (api_url : string) (post : string -> option json_body -> reply) (pretty : string -> option string)
    (listing : Listing) (now : Z) (drawn : result rc_error KeyPair) (fresh : SigningKey)
    (c : Command) (s : term) : ExitCode * list msg * term :=
  match c with
  | CmdCerts cmd => run_certs listing now drawn cmd s
  | CmdIdentity data_dir => run_identity data_dir fresh s
  | _ =>
      match endpoint c with
      | Some (path, body) =>
          let '(code, o, e) := call api_url post pretty path body in (code, e, MkTerm (disk s) (out s ++ o))
      | None => (FAILURE, [], s)
      end
  end.

(** ** The identity a host shows is the one its cosigner signs with *)
Section IdentityProperties.
Context {C : Crypto} {K : KeyBytes C} {X : HexCodec}.

(** The two routines agree on the disk and on the key, whatever fails. *)
Lemma cli_identity_agrees data_dir fresh w :
  (cli_load_or_generate data_dir fresh w).2 = (load_or_generate data_dir fresh w).2 /\
  forall k, (cli_load_or_generate data_dir fresh w).1 = Ok k <-> (load_or_generate data_dir fresh w).1 = Ok k.
Proof.
  unfold cli_load_or_generate, load_or_generate, IDENTITY_FILE. destruct (path_exists _ w) as [[] w1].
  - unfold mbnd, at_c, at_, mmap_err. destruct (fs_read _ w1) as [[b|e] w2]; cbn.
    + destruct (to_array 32 b); cbn; (split; [done|]; intros k; split; by intros [= ?]; subst).
    + split; [done|]; intros k; split; by intros [= ?].
  - unfold mbnd, at_c, at_, mmap_err. destruct (fs_create_dir_all _ w1) as [[u|e] w2]; cbn;
      [destruct (write_atomic _ _ w2) as [[] w3]; cbn|];
      (split; [done|]; intros k; split; by intros [= ?]; subst).
Qed.

(** [sovra-cli identity] is the cosigner's own routine.  On every disk and
    under every schedule of I/O failures the two leave the same disk, succeed
    in the same cases and give the same key; only the error texts differ. *)
Theorem cli_identity_is_cosigners data_dir fresh w :
  (cli_load_or_generate data_dir fresh w).2 = (load_or_generate data_dir fresh w).2 /\
  forall k, (cli_load_or_generate data_dir fresh w).1 = Ok k <-> (load_or_generate data_dir fresh w).1 = Ok k.
Proof. apply cli_identity_agrees. Qed.

(** What [identity] prints for a key; a cosigner's roster is made of these. *)
Definition show_identity_key (k : SigningKey) : string := hex_encode (arr (vk_bytes (verifying_key k))).

Context {HL : HexLaws X} {KL : KeyLaws K}.

Lemma parse_shown k : parse_vk (show_identity_key k) = Ok (verifying_key k).
Proof.
  unfold parse_vk, show_identity_key. rewrite hex_decode_plain. cbn [ok_or rbind]. rewrite to_array_arr. cbn [ok_or rbind].
  by rewrite vk_bytes_roundtrip.
Qed.

(** A roster of shown identities is accepted by each of its members. *)
Lemma load_roster_shown cfg keys k :
  cfg_participants cfg = Some (show_identity_key <$> keys) ->
  keys !! N.to_nat (wval (party_id cfg)) = Some k ->
  load_roster cfg k = Ok (Some (verifying_key <$> keys)).
Proof.
  intros Hp Hk. unfold load_roster. rewrite Hp.
  assert (collect (parse_vk <$> (show_identity_key <$> keys)) = Ok (verifying_key <$> keys)) as ->.
  { apply collect_Ok. rewrite <- !list_fmap_compose. apply list_fmap_ext. intros i x _. cbn. apply parse_shown. }
  cbn [rbind]. rewrite list_lookup_fmap, Hk. cbn. by destruct (vk_eq_dec _ _).
Qed.

(** C40: a roster collected with [identity] starts every cosigner.  Run on each
    host, whatever fails elsewhere, [identity] prints one line per host; with
    these lines as the participants in party order, every host's cosigner,
    whatever key it would draw, loads the key its line stands for, finds it in
    its own slot and accepts the roster, and all of them hold the same one. *)
Theorem collected_roster_accepted (hosts : list (path * SigningKey * term)) keys threshold :
  Forall2 (fun h k => exists s',
      run_identity h.1.1 h.1.2 h.2 = (SUCCESS, [], s') /\ out s' = out h.2 ++ [[Lit (show_identity_key k)]])
    hosts keys ->
  (2 <= wval threshold <= N.of_nat (length hosts))%N ->
  forall i dir fresh s, hosts !! i = Some (dir, fresh, s) ->
  forall cfg fresh', cfg_participants cfg = Some (show_identity_key <$> keys) ->
    N.to_nat (wval (party_id cfg)) = i -> Startup.threshold cfg = threshold ->
    validate_config cfg = Ok tt /\
    exists k w', load_or_generate dir fresh' (no_faults (disk (run_identity dir fresh s).2)) = (Ok k, w') /\
      load_roster cfg k = Ok (Some (verifying_key <$> keys)).
Proof.
  intros Hall Ht i dir fresh s Hi cfg fresh' Hp Hid Hth. pose proof (Forall2_length _ _ _ Hall) as Hlen.
  destruct (Forall2_lookup_l _ _ _ _ _ Hall Hi) as (k0 & Hk0 & s' & Hrun & Hout). cbn [fst snd] in Hrun, Hout.
  split.
  - unfold validate_config. rewrite Hp, length_fmap, <- Hlen, Hth.
    apply lookup_lt_Some in Hi. rewrite !(proj2 (N.ltb_ge _ _)), (proj2 (N.leb_gt _ _)) by lia.
    by rewrite !(proj2 (N.leb_le _ _)) by lia.
  - rewrite Hrun. unfold run_identity in Hrun.
    destruct (cli_load_or_generate dir fresh (disk s)) as [[k|m] w] eqn:E; [|done]. injection Hrun as <-.
    cbn [out disk snd] in *. apply app_inv_head in Hout. injection Hout as Hline.
    destruct (cli_identity_agrees dir fresh (disk s)) as [Hw Hk]. rewrite E in Hw, Hk. cbn in Hw, Hk.
    pose proof (proj1 (Hk k) eq_refl) as Hk1.
    assert (load_or_generate dir fresh (disk s) = (Ok k, w)) as E' by (rewrite (surjective_pairing (load_or_generate _ _ _)); by rewrite <- Hw, Hk1).
    exists k, (no_faults w). split; [by apply (identity_reloads _ _ _ _ _ _ E')|].
    apply (f_equal parse_vk) in Hline. fold (show_identity_key k) in Hline. rewrite !parse_shown in Hline.
    rewrite <- Hid in Hk0. pose proof (load_roster_shown cfg keys k0 Hp Hk0) as Hr.
    unfold load_roster in *. rewrite Hp in *. injection Hline as Hvk. by rewrite Hvk.
Qed.
End IdentityProperties.

(** ** Enrolment from the command line *)
Section CertsProperties.
Context {X : HexCodec} {R : Rcgen} {RL : RcgenLaws R}.

Lemma last_snoc_name (d : path) n : path_file_name (d ++ [n]) = if bool_decide (n = "..") then None else Some n.
Proof. unfold path_file_name. by rewrite last_snoc. Qed.

Lemma parent_snoc (d : path) n : parent (d ++ [n]) = d.
Proof. unfold parent. rewrite reverse_snoc. cbn. apply reverse_involutive. Qed.

Lemma append_cancel_r c a b : String.append a c = String.append b c -> a = b.
Proof.
  intros E. apply (f_equal list_ascii_of_string) in E. rewrite !list_ascii_app in E.
  apply app_inv_tail in E. by rewrite <- (string_of_list_ascii_of_string a), E, string_of_list_ascii_of_string.
Qed.

(** The certificate goes next to the CSR, under its stem. *)
Lemma signed_path_next dir stem :
  has_char slash stem = false -> ends_with ".csr.pem" stem = false ->
  utf8_valid (bstr (String.append stem ".csr.pem")) = true ->
  signed_path (dir ++ [String.append stem ".csr.pem"]) = dir ++ [String.append stem ".cert.pem"].
Proof.
  intros Hs He Hu. unfold signed_path, with_file_name. rewrite last_snoc_name.
  assert (String.append stem ".csr.pem" <> "..") as Hd.
  { intros E. apply (f_equal String.length) in E. rewrite append_length in E. cbn in E. lia. }
  rewrite bool_decide_eq_false_2, Hu, parent_snoc by done.
  rewrite trim_end_matches_once by done. by apply join_suffix.
Qed.

Lemma shown_inv {E A} (show : E -> msg) (x : M world E A) s a s' :
  shown show x s = (Ok a, s') -> x (disk s) = (Ok a, disk s') /\ out s' = out s.
Proof. unfold shown. destruct (x (disk s)) as [[v|e] w]; cbn; [intros [= -> <-]; done|done]. Qed.

(** What a successful [certs sign] did: the disk changes where the CA was
    looked up and at the output file. *)
Lemma cli_sign_Ok listing now drawn csr dir o s s' :
  execute listing now drawn (CertsSign csr dir o) s = (Ok tt, s') ->
  exists pem w1 ca cert,
    content (fs (disk s)) csr = Some (Some pem) /\
    is_ok (describe_csr pem) = true /\
    (exists w0, pop_fault (disk s) = (None, w0) /\ ensure_ca listing now drawn dir w0 = (Ok ca, w1)) /\
    sign_csr now ca pem = Ok cert /\
    fs_write (default (signed_path csr) o) cert w1 = (Ok tt, disk s').
Proof.
  cbn [execute]. intros (pem & s1 & [H1 O1]%shown_inv & H)%mbnd_Ok.
  apply mbnd_Ok in H as (summary & s2 & [Hd%map_err_Ok <-]%pair_eq & H).
  apply mbnd_Ok in H as ([] & s3 & [= <-] & H). apply mbnd_Ok in H as (ca & s4 & [H4 O4]%shown_inv & H).
  apply mbnd_Ok in H as (cert & s5 & [Hc%map_err_Ok <-]%pair_eq & H).
  apply mbnd_Ok in H as ([] & s6 & [H6 O6]%shown_inv & [= <-]).
  unfold fs_read_to_string, fs_read in H1. destruct (pop_fault (disk s)) as [fault wa] eqn:Ep.
  pose proof (pop_fault_fs _ _ _ Ep) as Ef. destruct fault; [done|].
  destruct (fs wa !! csr) as [[c m|]|] eqn:Hf; [|done..]. destruct (utf8_valid c); [|done]. injection H1 as -> Hwa.
  exists pem, (disk s4), ca, cert. split_and!; [unfold content; by rewrite <- Ef, Hf|by rewrite Hd| |done|exact H6].
  exists wa. split; [done|]. cbn [disk] in H4. by rewrite Hwa.
Qed.

(** What a write leaves. *)
Lemma fs_write_Ok p b w w' :
  fs_write p b w = (Ok tt, w') ->
  content (fs w') p = Some (Some b) /\ forall q, q <> p -> content (fs w') q = content (fs w) q.
Proof. intros H. destruct (fs_write_spec _ _ _ _ _ H) as [H1 H2]. split; [by apply H2|done]. Qed.

(** C39: enrolment from the command line.  A host with neither file runs
    [certs csr]; the CA's host, where the CA is in place, runs [certs sign] on
    the file that came back.  If both succeed, next to the CSR there is a
    certificate for the key that stayed on the first host, under the asked
    name (by default [sovra-<stem>]) and names, issued by that CA with the
    policy of a leaf; the key file and the CA are what they were.  (The host's
    first calls, creating the directory and looking for the two files, do not
    fail ([steady]), the CA's host meets no failure, and the stem is not the
    CA's own, on which see [signing_can_replace_the_root].) *)
Theorem cli_enrolment listing now drawn drawn' nd cad stem cn san ca s s1 s2 :
  let kp := req_key (csr_paths nd stem) in
  has_char slash stem = false -> ends_with ".csr.pem" stem = false ->
  utf8_valid (bstr (String.append stem ".csr.pem")) = true -> (nd, stem) <> (cad, "ca") ->
  steady 3 (disk s) ->
  content (fs (disk s)) (req_csr (csr_paths nd stem)) = None -> content (fs (disk s)) kp = None ->
  execute listing now drawn (CertsCsr nd stem cn san) s = (Ok tt, s1) ->
  holds_ca (fs (disk s1)) cad ca -> dir_chain (fs (disk s1)) cad ->
  execute listing now drawn' (CertsSign (req_csr (csr_paths nd stem)) cad None)
    (MkTerm (no_faults (disk s1)) (out s1)) = (Ok tt, s2) ->
  exists key p0 cert, drawn = Ok key /\ params_new (default_sans ++ san) = Ok p0 /\
    content (fs (disk s2)) (nd ++ [String.append stem ".cert.pem"]) = Some (Some (cert_pem cert)) /\
    issued_leaf now ca (pub_of key) (Some (Utf8String (default (String.append "sovra-" stem) cn)))
      (subject_alt_names p0) NoCa cert /\
    content (fs (disk s2)) kp = Some (Some (serialize_pem key)) /\ holds_ca (fs (disk s2)) cad ca.
Proof.
  intros kp Hs He Hu Hne Hst Hc0 Hk0 H1 Hca Hdir H2.
  cbn [execute] in H1. apply mbnd_Ok in H1 as (paths & sa & [Hg Oa]%shown_inv & [= <-]). cbn [disk] in *.
  apply cli_sign_Ok in H2 as (pem & w1 & ca' & cert & Cp & _ & (w0 & [= <-] & Hen) & Hsg & Hw). cbn [disk out fs] in *.
  destruct (ensure_ca_loads listing now drawn' cad _ ca Hca Hdir) as (ca2 & Hen2 & Hid).
  rewrite Hen in Hen2. injection Hen2 as -> ->.
  destruct (csr_enrolment (RL := RL) now drawn nd stem _ _ ca2 _ _ _ pem cert Hs Hst Hc0 Hk0 Hg Cp Hsg)
    as (_ & key & p0 & c & Hd & Hp0 & Hkey & -> & Hi).
  change (req_csr (csr_paths nd stem)) with (nd ++ [String.append stem ".csr.pem"]) in Hw.
  cbn [default] in Hw. rewrite signed_path_next in Hw by done. apply fs_write_Ok in Hw as [Hnew Hold].
  cbn [fs] in Hold. exists key, p0, c. split_and!; try done.
  - unfold issued_leaf in *. by rewrite <- Hid.
  - rewrite Hold; [unfold content, kp; cbn [fs no_faults]; by rewrite Hkey|]. unfold kp, csr_paths; cbn [req_key].
    intros E%app_inv_head. injection E as E%append_cancel. discriminate E.
  - assert (forall n, n <> String.append stem ".cert.pem" \/ cad <> nd ->
              content (fs (disk s2)) (cad ++ [n]) = content (fs (disk sa)) (cad ++ [n])) as Hkeep.
    { intros n Hn. apply Hold. intros [-> [= ->]]%app_inj_tail. naive_solver. }
    unfold holds_ca, ca_cert_path, ca_key_path in *. rewrite !Hkeep; [done|..].
    + destruct (decide (cad = nd)) as [->|]; [left|by right]. intros E.
      apply Hne. f_equal. by apply (append_cancel_r ".cert.pem").
    + left. intros E. apply (f_equal (ends_with ".cert.pem")) in E. rewrite ends_with_app in E.
      discriminate E.
Qed.
(** Signing a request whose file is named [ca.csr.pem], in the CA's own
    directory, writes the leaf over the CA's certificate. *)
Lemma signing_can_replace_the_root listing now drawn dir s s' :
  execute listing now drawn (CertsSign (dir ++ ["ca.csr.pem"]) dir None) s = (Ok tt, s') ->
  exists cert, content (fs (disk s')) (ca_cert_path dir) = Some (Some (cert_pem cert)) /\
    is_ca (cert_params cert) = NoCa.
Proof.
  intros (pem & w1 & ca & out & _ & _ & _ & Hsg & Hw)%cli_sign_Ok.
  change "ca.csr.pem" with (String.append "ca" ".csr.pem") in Hw. cbn [default] in Hw.
  rewrite signed_path_next in Hw by reflexivity. apply fs_write_Ok in Hw as [Hw _].
  apply sign_csr_issues in Hsg as (p & k & cert & _ & -> & Hi). exists cert.
  split; [exact Hw|]. by destruct Hi as (_ & _ & _ & _ & Hca & _).
Qed.
End CertsProperties.

(** ** Witnesses: a CA in [certs], a host's CSR in [node]. *)
Definition cli_s0 : term := MkTerm (no_faults (snd demo_ca_run)) [].
Definition cli_csr_run :=
  execute (X := ToyHex) (R := ToyRcgen) table_listing 9 (Ok true) (CertsCsr ["node"] "cosigner1" None []) cli_s0.
Definition cli_s1 : term := snd cli_csr_run.
Definition cli_sign_run :=
  execute (X := ToyHex) (R := ToyRcgen) table_listing 9 (Ok true)
    (CertsSign (req_csr (csr_paths ["node"] "cosigner1")) ["certs"] None) (MkTerm (no_faults (disk cli_s1)) (out cli_s1)).

Lemma cli_csr_ok : cli_csr_run = (Ok tt, cli_s1).
Proof. vm_cast_no_check (eq_refl cli_csr_run). Qed.
Lemma cli_sign_ok : cli_sign_run = (Ok tt, snd cli_sign_run).
Proof. vm_cast_no_check (eq_refl cli_sign_run). Qed.

Definition cli_root_cert : toy_cert :=
  match toy_self_signed (ca_params (R := ToyRcgen) 0) true with Ok c => c | Err _ => (toy_params "none" [], true, ("none", true)) end.

Lemma cli_holds_ca : holds_ca (R := ToyRcgen) (fs (disk cli_s1)) ["certs"] demo_root_ca.
Proof.
  exists (toy_key_pem true), true, (toy_cert_pem cli_root_cert), ("sovra-ca", true).
  split_and!; (exact eq_refl || (vm_compute; reflexivity)).
Qed.

Lemma cli_dir_chain : dir_chain (fs (disk cli_s1)) ["certs"].
Proof.
  intros k Hk Hp. exists 493%N. destruct k as [|c [|d k]]; [done| |].
  - apply prefix_cons_inv_1 in Hp as ->. vm_compute. reflexivity.
  - apply prefix_cons_inv_2 in Hp. by apply prefix_nil_not in Hp.
Qed.

Lemma cli_enrolment_witness :
  exists cert, content (fs (disk (snd cli_sign_run))) ["node"; "cosigner1.cert.pem"]
                 = Some (Some (cert_pem (Rcgen := ToyRcgen) cert)) /\
    common_name (cert_params (Rcgen := ToyRcgen) cert) = Some (Utf8String "sovra-cosigner1").
Proof.
  destruct (cli_enrolment (X := ToyHex) (R := ToyRcgen) table_listing 9 (Ok true) (Ok true) ["node"] ["certs"] "cosigner1"
              None [] demo_root_ca cli_s0 cli_s1 (snd cli_sign_run))
    as (key & p0 & cert & _ & _ & Hc & Hi & _).
  - reflexivity.
  - reflexivity.
  - reflexivity.
  - discriminate.
  - constructor.
  - vm_compute. reflexivity.
  - vm_compute. reflexivity.
  - exact cli_csr_ok.
  - exact cli_holds_ca.
  - exact cli_dir_chain.
  - exact cli_sign_ok.
  - exists cert. split; [exact Hc|]. exact (proj1 (proj2 (proj2 Hi))).
Defined.

Definition cli_hosts : list (path * @SigningKey ToyCrypto * term) :=
  [(["a"], toy_key 1, MkTerm (World ∅ []) []); (["b"], toy_key 2, MkTerm (World ∅ []) [])].
Definition cli_cfg : Config :=
  MkConfig (wmod 8 1) (wmod 8 2)
    (Some (show_identity_key (X := ToyHex) <$> [toy_key 1 : @SigningKey ToyCrypto; toy_key 2])) default_bind_addr
    ["b"] ["policy"] ["ca"] ["crt"] ["key"] None default_relay_url default_ttl_secs.

Lemma collected_roster_accepted_witness : validate_config cli_cfg = Ok tt.
Proof.
  refine (proj1 (collected_roster_accepted (K := ToyKeys) (X := ToyHex) cli_hosts [toy_key 1 : @SigningKey ToyCrypto; toy_key 2]
    (wmod 8 2) _ _ 1 ["b"] (toy_key 2) (MkTerm (World ∅ []) []) eq_refl cli_cfg (toy_key 3) eq_refl eq_refl eq_refl)).
  - repeat constructor; (eexists; split; [vm_compute; reflexivity|vm_compute; reflexivity]).
  - split; vm_compute; discriminate.
Defined.
