(* ===== verification/Provision.v ===== *)
(** * What provisioning leaves alone

    On a disk where nothing fails, the routines that create key material (the
    identity, the CA, the leaves) never change a file that is there.  The
    lemmas compose: [quiet] says that no fault appears, [kept] that the files
    of a disk survive in another. *)

From S2P Require Import Prelude Text Types Mpc State Cosigner Startup Certs.
From Stdlib Require Import String NArith ZArith Lia.
From stdpp Require Import base decidable list gmap strings.
Open Scope string_scope. Open Scope list_scope.

Lemma all_show_no_slash : forallb (fun n => negb (has_char slash (show_u8 (wmod 8 (N.of_nat n))))) (seq 0 256) = true.
Proof. vm_compute. reflexivity. Qed.

Lemma show_u8_no_slash x : has_char slash (show_u8 x) = false.
Proof.
  pose proof all_show_no_slash as H. rewrite forallb_forall in H.
  pose proof (word_lt x) as Hx. change (2 ^ 8)%N with 256%N in Hx.
  specialize (H (N.to_nat (wval x))). rewrite N2Nat.id, wmod_wval in H. apply negb_true_iff, H.
  apply in_seq. lia.
Qed.

(** ** Runs without a fault *)
Definition quiet {E A} (x : M world E A) : Prop := forall w, faults w = [] -> faults (x w).2 = [].

Create HintDb quiet_db.

Lemma quiet_pure {E A} (a : A) : quiet (E := E) (mpure a).
Proof. by intros w. Qed.

Lemma quiet_abort {E A} (e : E) : quiet (A := A) (mabort e).
Proof. by intros w. Qed.

Lemma quiet_lift {E A} (r : result E A) : quiet (mlift r).
Proof. by intros w. Qed.

Lemma quiet_bnd {E A B} (x : M world E A) (f : A -> M world E B) :
  quiet x -> (forall a, quiet (f a)) -> quiet (mbnd x f).
Proof.
  intros Hx Hf w Hw. unfold mbnd. specialize (Hx w Hw). destruct (x w) as [[a|e] w1]; [|done]. by apply Hf.
Qed.

Lemma quiet_map_err {E F A} (g : E -> F) (x : M world E A) : quiet x -> quiet (mmap_err g x).
Proof. intros Hx w Hw. unfold mmap_err. specialize (Hx w Hw). by destruct (x w) as [[]]. Qed.

Ltac primitive :=
  intros w Hw; destruct w as [f l]; simpl in Hw; subst l; simpl; repeat (case_match; simplify_eq/=); done.

Lemma quiet_write p b : quiet (fs_write p b).
Proof. unfold fs_write, pop_fault. primitive. Qed.

Lemma quiet_set_mode p m : quiet (fs_set_mode p m).
Proof. unfold fs_set_mode, pop_fault. primitive. Qed.

Lemma quiet_rename p q : quiet (fs_rename p q).
Proof. unfold fs_rename, pop_fault. primitive. Qed.

Lemma quiet_read p : quiet (fs_read p).
Proof. unfold fs_read, pop_fault. primitive. Qed.

Lemma quiet_read_to_string p : quiet (fs_read_to_string p).
Proof.
  intros w Hw. unfold fs_read_to_string. pose proof (quiet_read p w Hw) as H. by destruct (fs_read p w) as [[] ?].
Qed.

Lemma quiet_read_dir listing p : quiet (fs_read_dir listing p).
Proof. unfold fs_read_dir, pop_fault. primitive. Qed.

Lemma quiet_entry : quiet fs_entry.
Proof. unfold fs_entry, pop_fault. primitive. Qed.

Lemma quiet_mkdirs p : quiet (fs_create_dir_all p).
Proof. unfold fs_create_dir_all, pop_fault. primitive. Qed.

Lemma quiet_exists {R : Rcgen} p : quiet (exists_at p).
Proof. unfold exists_at, path_exists, pop_fault. primitive. Qed.

#[export] Hint Resolve quiet_pure quiet_abort quiet_lift quiet_bnd quiet_map_err quiet_write quiet_set_mode
  quiet_rename quiet_read quiet_read_to_string quiet_read_dir quiet_entry quiet_mkdirs quiet_exists : quiet_db.

Lemma quiet_write_atomic_mode p b m : quiet (write_atomic_mode p b m).
Proof. unfold write_atomic_mode, set_mode, at_. auto 10 with quiet_db. Qed.

#[export] Hint Resolve quiet_write_atomic_mode : quiet_db.

(** ** Files that survive *)
Definition tmp_name (q : path) : bool := has_prefix ".tmp-" (file_name q).

Definition kept (f f' : gmap path node) : Prop :=
  forall q, content f q <> None -> tmp_name q = false -> content f' q = content f q.

#[export] Instance kept_refl : Reflexive kept.
Proof. intros f q _ _. done. Qed.

#[export] Instance kept_trans : Transitive kept.
Proof. intros f g h H1 H2 q Hq Ht. rewrite H2; [by apply H1| |done]. by rewrite H1. Qed.

Lemma tmp_name_tmp d n : tmp_name (tmp_path (d ++ [n])) = true.
Proof.
  rewrite tmp_path_snoc. unfold tmp_name, file_name. by rewrite reverse_snoc.
Qed.

Lemma tmp_name_snoc d n : tmp_name (d ++ [n]) = has_prefix ".tmp-" n.
Proof. unfold tmp_name, file_name. by rewrite reverse_snoc. Qed.

(** Changing only an absent pair and its temporaries keeps everything. *)
Lemma kept_pair d a b f f' :
  (forall q, q <> d ++ [a] -> q <> d ++ [b] -> q <> tmp_path (d ++ [a]) -> q <> tmp_path (d ++ [b]) ->
     f' !! q = f !! q) ->
  content f (d ++ [a]) = None -> content f (d ++ [b]) = None -> kept f f'.
Proof.
  intros H Ha Hb q Hq Ht. unfold content. rewrite H; [done|intros ->; congruence..| |];
    intros ->; by rewrite tmp_name_tmp in Ht.
Qed.

Lemma mkdirs_kept f dn todo f' : mkdirs f dn todo = Some f' -> kept f f'.
Proof.
  revert f dn. induction todo as [|c todo IH]; simpl; intros f dn Hm; [by injection Hm as ->|].
  destruct (f !! (dn ++ [c])) as [[]|] eqn:E; [done|by eapply IH|].
  intros q Hq Ht. destruct (decide (q = dn ++ [c])) as [->|Hne].
  - unfold content in Hq. by rewrite E in Hq.
  - rewrite (IH _ _ Hm q); [by apply content_insert_ne| |done]. by rewrite content_insert_ne.
Qed.

Lemma create_dir_kept p w r w' : fs_create_dir_all p w = (r, w') -> kept (fs w) (fs w').
Proof.
  unfold fs_create_dir_all. destruct (pop_fault w) as [fault w1] eqn:E. apply pop_fault_fs in E.
  destruct fault; [intros [= _ <-]; by rewrite E|]. destruct (mkdirs _ [] p) as [f|] eqn:Hm.
  - intros [= _ <-]. rewrite E in Hm. by apply mkdirs_kept in Hm.
  - intros [= _ <-]. by rewrite E.
Qed.

(** A run that keeps every file of a quiet disk. *)
Definition keeps {E A} (x : M world E A) : Prop :=
  forall w r w', faults w = [] -> x w = (r, w') -> faults w' = [] /\ kept (fs w) (fs w').

Lemma keeps_pure {E A} (a : A) : keeps (E := E) (mpure a).
Proof. by intros w r w' Hw [= _ <-]. Qed.

Lemma keeps_bnd {E A B} (x : M world E A) (f : A -> M world E B) :
  keeps x -> (forall a, keeps (f a)) -> keeps (mbnd x f).
Proof.
  intros Hx Hf w r w' Hw. unfold mbnd. destruct (x w) as [[a|e] w1] eqn:Ex.
  - intros H. destruct (Hx _ _ _ Hw Ex) as [Hw1 K1]. destruct (Hf _ _ _ _ Hw1 H) as [Hw' K2].
    split; [done|]. by transitivity (fs w1).
  - intros [= _ <-]. by apply (Hx w (Err e)).
Qed.

Lemma quiet_keeps {E A} (x : M world E A) :
  quiet x -> (forall w r w', faults w = [] -> x w = (r, w') -> kept (fs w) (fs w')) -> keeps x.
Proof. intros Hq Hk w r w' Hw H. split; [|by eapply Hk]. specialize (Hq w Hw). by rewrite H in Hq. Qed.

(** ** Certificates *)
Section CertsKept.
Context {R : Rcgen}.

Lemma quiet_ensure_leaf now drawn dir stem cn sans ca : quiet (ensure_leaf now drawn dir stem cn sans ca).
Proof.
  unfold ensure_leaf, rc, store, write_atomic, write_atomic_public.
  apply quiet_bnd; [auto with quiet_db|]. intros c. apply quiet_bnd; [auto with quiet_db|]. intros k.
  destruct c, k; auto 20 with quiet_db.
Qed.

Lemma quiet_leaf_in dir es : quiet (leaf_in dir es).
Proof.
  induction es as [|e es IH]; simpl; [auto with quiet_db|]. unfold io. apply quiet_bnd; [auto with quiet_db|].
  intros []. case_match; auto with quiet_db.
Qed.
#[local] Hint Resolve quiet_leaf_in : quiet_db.

Lemma quiet_ensure_ca listing now drawn dir : quiet (ensure_ca listing now drawn dir).
Proof.
  unfold ensure_ca, any_leaf, Certs.read, rc, store, io, write_atomic, write_atomic_public.
  apply quiet_bnd; [auto with quiet_db|]. intros u. apply quiet_bnd; [auto with quiet_db|]. intros c.
  apply quiet_bnd; [auto with quiet_db|]. intros k. destruct c, k; [auto 20 with quiet_db..|].
  apply quiet_bnd; [auto with quiet_db|]. intros []; auto 20 with quiet_db.
Qed.

Context {RL : RcgenLaws R}.

Lemma quiet_steady w n : faults w = [] -> steady n w.
Proof. intros H. unfold steady. rewrite H, take_nil. constructor. Qed.

Lemma ensure_leaf_keeps now drawn dir stem cn sans ca :
  has_char slash stem = false -> keeps (ensure_leaf now drawn dir stem cn sans ca).
Proof.
  intros Hstem. apply quiet_keeps; [apply quiet_ensure_leaf|]. intros w r w' Hw H.
  apply ensure_leaf_cases in H; [|done|by apply quiet_steady].
  destruct (content (fs w) _) eqn:E1 in H; destruct (content (fs w) _) eqn:E2 in H.
  - by destruct H as [_ ->].
  - by destruct H as [_ ->].
  - by destruct H as [_ ->].
  - destruct H as [H _]. by apply (kept_pair _ _ _ _ _ H).
Qed.

Lemma ensure_ca_keeps listing now drawn dir : keeps (ensure_ca listing now drawn dir).
Proof.
  apply quiet_keeps; [apply quiet_ensure_ca|]. intros w r w' Hw (r0 & w0 & H0 & H)%ensure_ca_inv.
  apply io_inv in H0 as (r1 & H0 & Hr). pose proof (create_dir_kept _ _ _ _ H0) as K0.
  pose proof (quiet_mkdirs dir w Hw) as Q0. rewrite H0 in Q0. simpl in Q0.
  destruct r0 as [u|e]; [|by destruct H as [_ ->]]. destruct H as (c & k & w1 & w2 & E1 & E2 & F2 & H).
  destruct (exists_at_steady 0 (ca_cert_path dir) w0) as (wa & Ea & Fa & _); [by apply quiet_steady|].
  rewrite Ea in E1. injection E1 as <- <-. pose proof (quiet_exists (ca_cert_path dir) w0 Q0) as Q1.
  rewrite Ea in Q1. destruct (exists_at_steady 0 (ca_key_path dir) wa) as (wb & Eb & Fb & _); [by apply quiet_steady|].
  rewrite Eb in E2. injection E2 as <- <-. rewrite Fa in H.
  destruct (bool_decide (content (fs w0) (ca_cert_path dir) <> None)) eqn:B1,
    (bool_decide (content (fs w0) (ca_key_path dir) <> None)) eqn:B2.
  - apply load_ca_spec in H as [-> _]. by rewrite F2.
  - destruct H as [_ ->]. by rewrite F2.
  - destruct H as [_ ->]. by rewrite F2.
  - destruct H as (l & w3 & (F3 & _ & _)%any_leaf_spec & H).
    destruct l as [[q|]|e]; [destruct H as [_ ->]; by rewrite F3, F2| |destruct H as [_ ->]; by rewrite F3, F2].
    apply mint_ca_spec in H as [H _]. rewrite F3, F2 in H. transitivity (fs w0); [done|].
    apply bool_decide_eq_false in B1, B2.
    apply (kept_pair dir CA_KEY_FILE CA_CERT_FILE); [done|..].
    + destruct (content (fs w0) (ca_key_path dir)) eqn:E; [|exact E]. by destruct B2.
    + destruct (content (fs w0) (ca_cert_path dir)) eqn:E; [|exact E]. by destruct B1.
Qed.

End CertsKept.

(** ** Identities *)
Section IdentityKept.
Context {C : Crypto} {K : KeyBytes C}.

(** The identity [k] is on disk under [dir]. *)
Definition holds_identity (f : gmap path node) (dir : path) (k : SigningKey) : Prop :=
  exists b a, content f (identity_path dir) = Some (Some b) /\ to_array 32 b = Some a /\ sk_from_bytes a = k.

Lemma holds_identity_kept f f' dir k : kept f f' -> holds_identity f dir k -> holds_identity f' dir k.
Proof.
  intros Hk (b & a & Hc & H). exists b, a. rewrite Hk; [done|congruence|]. unfold identity_path. by rewrite tmp_name_snoc.
Qed.

Lemma holds_identity_loads f dir k fresh :
  holds_identity f dir k -> load_or_generate dir fresh (World f []) = (Ok k, World f []).
Proof.
  intros (b & a & Hc & Ha & Hk). pose proof (load_existing dir fresh (World f []) b Hc) as H.
  unfold no_faults in H. cbn [fs] in H. by rewrite H, Ha, Hk.
Qed.

Lemma quiet_load_or_generate dir fresh : quiet (load_or_generate dir fresh).
Proof.
  intros w Hw. unfold load_or_generate. pose proof (quiet_exists (R := ToyRcgen) (dir ++ [IDENTITY_FILE]) w Hw) as H.
  unfold exists_at in H. destruct (path_exists _ w) as [[] w1]; simpl in H.
  - revert w1 H. change (quiet (let! b := at_c (at_ (fs_read (dir ++ [IDENTITY_FILE])) (dir ++ [IDENTITY_FILE])) in
       match to_array 32 b with
       | Some a => mpure (sk_from_bytes a)
       | None => mabort (Identity [show_path (dir ++ [IDENTITY_FILE]); Lit " is "; Num (N.of_nat (length b));
                           Lit " bytes, expected 32 — refusing to regenerate a pinned identity"])
       end)).
    unfold at_c, at_. apply quiet_bnd; [auto with quiet_db|]. intros b. destruct (to_array 32 b); auto with quiet_db.
  - revert w1 H. unfold write_atomic, at_c, at_.
    match goal with |- forall w1, _ -> faults ((?x w1).2) = [] => change (quiet x) end.
    auto 10 with quiet_db.
Qed.

Lemma load_or_generate_keeps dir fresh : keeps (load_or_generate dir fresh).
Proof.
  apply quiet_keeps; [apply quiet_load_or_generate|]. intros w r w' Hw. unfold load_or_generate.
  destruct (exists_at_steady (R := ToyRcgen) 0 (dir ++ [IDENTITY_FILE]) w) as (w1 & E & F & _); [by apply quiet_steady|].
  unfold exists_at in E. destruct (path_exists _ w) as [found w1']. injection E as -> ->.
  destruct (bool_decide _) eqn:B.
  - unfold mbnd, at_c, at_, mmap_err. destruct (fs_read _ w1) as [r1 w2] eqn:Hr.
    assert (fs w2 = fs w1) as Hf.
    { unfold fs_read in Hr. destruct (pop_fault w1) as [fault w3] eqn:Hp. apply pop_fault_fs in Hp.
      repeat case_match; by injection Hr as _ <-. }
    rewrite <- F, <- Hf. destruct r1 as [b|e]; [|by intros [= _ <-]].
    cbn. destruct (to_array 32 b); by intros [= _ <-].
  - apply bool_decide_eq_false in B. assert (content (fs w) (dir ++ [IDENTITY_FILE]) = None) as Hnone.
    { destruct (content (fs w) _) eqn:E; [|done]. by destruct B. }
    unfold mbnd, at_c, at_, mmap_err. destruct (fs_create_dir_all dir w1) as [r1 w2] eqn:Hd.
    pose proof Hd as K1%create_dir_kept. rewrite F in K1.
    destruct r1 as [u|e]; cbn; [|by intros [= _ <-]].
    destruct (write_atomic _ _ w2) as [r2 w3] eqn:Hwr. intros Hfin.
    assert (w' = w3) as ->. { destruct r2; cbn in Hfin; by injection Hfin as _ <-. }
    apply write_atomic_mode_spec in Hwr as (O & _ & _);
      [|rewrite tmp_path_snoc; intros Heq%app_inv_head; discriminate Heq].
    intros q Hq Ht. rewrite O; [by apply K1|intros ->; congruence|]. intros ->. by rewrite tmp_name_tmp in Ht.
Qed.

Context {KL : KeyLaws K}.

Lemma load_or_generate_holds dir fresh w k w' :
  load_or_generate dir fresh w = (Ok k, w') -> holds_identity (fs w') dir k.
Proof.
  intros H. pose proof (identity_reloads dir fresh fresh w k w' H) as H2. revert H2. unfold load_or_generate.
  rewrite path_exists_quiet. destruct (bool_decide _) eqn:B.
  - unfold mbnd, at_c, at_, mmap_err. rewrite fs_read_quiet. destruct (content (fs w') _) as [[b|]|] eqn:Hc; cbn; [|done..].
    destruct (to_array 32 b) as [a|] eqn:Ha; [|done]. intros [= <-]. by exists b, a.
  - intros (u & w1 & _ & H1)%mbnd_Ok. apply mbnd_Ok in H1 as ([] & w2 & Hw & H2). injection H2 as -> ->.
    apply at_c_Ok, write_identity in Hw. exists (arr (sk_to_bytes k)), (sk_to_bytes k).
    by rewrite to_array_arr, sk_bytes_roundtrip.
Qed.
End IdentityKept.
