(* ===== verification/Xtask.v ===== *)
(** * The local launcher ([crates/xtask])

    [cargo xtask up | down | ci | certs]: seeding identities and certificates,
    starting the processes in tmux panes, waiting for them and provisioning the
    first key generation.  Everything the launcher does outside the disk is an
    entry of a log; what comes back (a command's outcome, an HTTP reply, the
    clock) is an arbitrary function of the log so far. *)

From S2P Require Import Prelude Text Types Mpc State Control Remote Cosigner Startup Certs Tls Cli Provision.
From Stdlib Require Import String Ascii NArith ZArith Lia.
From stdpp Require Import base decidable list gmap strings.
Open Scope string_scope. Open Scope list_scope.

(** ** Actions *)
Inductive act : Type :=
  | Said (m : msg)
  | Ran (argv : list string)
  | Got (mtls : bool) (url : string)
  | Posted (url : string)
  | Slept (ms : N).

(** What a finished command leaves: its bytes on standard output and its text on
    standard error. *)
Record Output : Type := MkOutput { success : bool; stdout : bytes; stderr : string }.

#[export] Instance act_eq_dec : EqDecision act.
Proof. solve_decision. Defined.

Inductive xerr : Type :=
  | XErr (m : msg)
  | XState (e : StateError)
  | XPanic (what : string)
  | XStuck.                   (* the polling loop's fuel ran out *)

Record xst : Type := MkX { xdisk : world; xlog : list act }.
Definition X_ (A : Type) : Type := M xst xerr A.

(* src xtask/main.rs:26-28 SESSION *)
Definition SESSION : string := "sovra".
(* src xtask/main.rs:29-36 CONFIGS *)
Definition CONFIGS : list string := ["config/cosigner0.toml"; "config/cosigner1.toml"; "config/cosigner2.toml"].
(** In milliseconds. *)
(* src xtask/main.rs:37-40 READY_TIMEOUT *)
Definition READY_TIMEOUT : N := 600000.

(* src xtask/main.rs:49-67 Cmd *)
Inductive Cmd : Type := Up | Down | Ci | CmdXCerts (san : list string).

(* src xtask/main.rs:380-383 exact *)
Definition exact : string := String.append "=" SESSION.

Definition do_ (a : act) : X_ unit := fun s => (Ok tt, MkX (xdisk s) (xlog s ++ [a])).
Definition say (m : msg) : X_ unit := do_ (Said m).
Definition xfail {A} (m : msg) : X_ A := mabort (XErr m).
Definition on_xdisk {E A} (f : E -> xerr) (x : M world E A) : X_ A :=
  fun s => let (r, w) := x (xdisk s) in (map_err f r, MkX w (xlog s)).

Section Xtask.
Context {C : Crypto} {K : KeyBytes C} {X : HexCodec} {R : Rcgen} {T : Rustls} {TX : TlsTexts}.
(** A command's outcome: why it could not be started, or what it left. *)
Variable run_cmd : list act -> list string -> result io_error Output.
Variable http : list act -> act -> reply.
Variable clock : list act -> N.
(** The config crate's reading of a file and the environment. *)
Variable config_file : list string -> result msg Startup.Config.
(** [reqwest]'s client without a certificate. *)
Variable bare_client : result string unit.
(** The [address] of a JSON body. *)
Variable json_address : string -> option string.
Variable bind_env : option string.
Variable root : path.
(** Whether a configured path was written with a leading slash, which the list
    of its components does not tell. *)
Variable absolute : path -> bool.
(** [root.join(p)] of a configured path: an absolute one replaces the root. *)
Definition under_root (p : path) : path := if absolute p then p else root ++ p.
Variable listing : Listing.
Variable now : Z.
Variable drawn : nat -> result rc_error KeyPair.
Variable fresh : nat -> SigningKey.

Definition cmd (argv : list string) : X_ (result io_error Output) :=
  fun s => (Ok (run_cmd (xlog s) argv), MkX (xdisk s) (xlog s ++ [Ran argv])).
Definition request (a : act) : X_ reply :=
  fun s => (Ok (http (xlog s) a), MkX (xdisk s) (xlog s ++ [a])).

Definition line_of (argv : list string) : frag := Txt (String.concat " " argv).
Definition io_failed {A} : X_ A := xfail [Txt "io error"].
(** The workspace root as text; it is absolute. *)
(* src xtask/main.rs:85-86 up *)
Definition root_str : string := String.append "/" (String.concat "/" root).

(** ** tmux *)
(* src xtask/main.rs:406-412 tmux_ok *)
Definition tmux_ok (args : list string) : X_ unit :=
  let! r := cmd ("tmux" :: args) in
  match r with
  | Err _ => io_failed
  | Ok o => if negb (success o) then xfail [Lit "`"; line_of ("tmux" :: args); Lit "` failed"] else mpure tt
  end.
(* src xtask/main.rs:402-404 send *)
Definition send (target line : string) : X_ unit := tmux_ok ["send-keys"; "-t"; target; line; "C-m"].

(* src xtask/main.rs:414-424 require_tmux *)
Definition require_tmux : X_ unit :=
  let! r := cmd ["tmux"; "-V"] in
  match r with
  | Ok _ => mpure tt
  | Err NotFoundKind => xfail [Lit "tmux not found on PATH — install it (e.g. `brew install tmux`) and retry"]
  | Err _ => io_failed
  end.

(* src xtask/main.rs:426-432 session_exists *)
Definition session_exists : X_ bool :=
  let! r := cmd ["tmux"; "has-session"; "-t"; exact] in
  mpure match r with Ok o => success o | Err _ => false end.

(* src xtask/main.rs:385-400 new_pane *)
Definition new_pane (args : list string) : X_ string :=
  let full := args ++ ["-P"; "-F"; "#{pane_id}"] in
  let! r := cmd ("tmux" :: full) in
  match r with
  | Err _ => io_failed
  | Ok o =>
      if negb (success o) then xfail [Lit "`"; line_of ("tmux" :: full); Lit "` failed: "; Lit (trim (stderr o))]
      else if negb (utf8_valid (stdout o)) then xfail [Txt "invalid utf-8"]
      else mpure (trim (str_of (stdout o)))
  end.

(* src xtask/main.rs:180-189 down *)
Definition down : X_ unit :=
  let! _ := require_tmux in
  let! running := session_exists in
  if negb running then say [Lit "no tmux session '"; Lit SESSION; Lit "' to kill"]
  else
    let! _ := tmux_ok ["kill-session"; "-t"; exact] in
    say [Lit "killed tmux session '"; Lit SESSION; Lit "'"].

(** ** The pre-commit gate *)
(* src xtask/main.rs:198-223 ci *)
Definition STEPS : list (list string * string) :=
  [(["cargo"; "fmt"; "--all"; "--check"], EmptyString);
   (["taplo"; "fmt"; "--check"], "cargo install taplo-cli --locked");
   (["cargo"; "clippy"; "--workspace"; "--all-targets"; "--"; "-D"; "warnings"], EmptyString);
   (["cargo"; "test"; "--workspace"], EmptyString);
   (["cargo"; "deny"; "check"], "cargo install cargo-deny --locked")].

(* src xtask/main.rs:226-238 ci *)
Fixpoint ci_steps (steps : list (list string * string)) : X_ unit :=
  match steps with
  | [] => mpure tt
  | (argv, hint) :: steps =>
      let! _ := say [Lit "
=== "; line_of argv; Lit " ==="] in
      let! r := cmd argv in
      match r with
      | Err NotFoundKind =>
          if bool_decide (hint = EmptyString) then io_failed
          else xfail [Lit "`"; line_of (take 1 argv); Lit "` not found — install it with `"; Lit hint; Lit "`"]
      | Err _ => io_failed
      | Ok o => if negb (success o) then xfail [Lit "`"; line_of argv; Lit "` failed"] else ci_steps steps
      end
  end.

(* src xtask/main.rs:191-241 ci *)
Definition ci : X_ unit :=
  let! _ := ci_steps STEPS in
  say [Lit "
all CI checks passed — safe to commit"].

(** ** Configuration and certificates *)
(* src xtask/main.rs:257-270 load_cosigner_configs *)
Fixpoint load_configs (files : list string) : result xerr (list Startup.Config) :=
  match files with
  | [] => Ok []
  | f :: files =>
      let? _ := if utf8_valid (bstr root_str) then Ok tt else Err (XErr [Lit "config path is not UTF-8"]) in
      let? c := map_err XErr (config_file (State.join root f)) in
      let? _ := map_err XErr (validate_config c) in
      let? rest := load_configs files in
      Ok (c :: rest)
  end.

(** The leaves of the parties; the [i]-th key drawn is for the [i]-th of them. *)
(* src xtask/main.rs:287-295 seed_certs *)
Fixpoint seed_leaves (dir : path) (i : nat) (ids : list u8) (sans : list string) (ca : Ca) : C_ unit :=
  match ids with
  | [] => mpure tt
  | id :: ids =>
      let! _ := ensure_leaf now (drawn i) dir (String.append "cosigner" (show_u8 id))
                  (String.append "sovra-cosigner-" (show_u8 id)) sans ca in
      seed_leaves dir (S i) ids sans ca
  end.

(* src xtask/main.rs:272-299 seed_certs *)
Definition seed_certs (party_ids : list u8) (extra_sans : list string) : C_ LeafPaths :=
  let dir := State.join root "certs" in
  let! ca := ensure_ca listing now (drawn 0) dir in
  let sans := default_sans ++ extra_sans in
  let! orchestrator := ensure_leaf now (drawn 1) dir "orchestrator" "sovra-orchestrator" sans ca in
  let! _ := seed_leaves dir 2 party_ids sans ca in
  mpure orchestrator.

(* src xtask/main.rs:103-103 up *)
Definition party_ids (cfgs : list Startup.Config) : list u8 := Startup.party_id <$> cfgs.

Definition on_certs {A} (x : C_ A) : X_ A := on_xdisk (fun e => XErr (certs_error_text e)) x.

(* src xtask/main.rs:243-255 certs *)
Definition certs (extra_sans : list string) : X_ unit :=
  let! cfgs := mlift (load_configs CONFIGS) in
  let! _ := on_certs (seed_certs (party_ids cfgs) extra_sans) in
  say [Lit "certs ready under "; show_path (State.join root "certs")].

(** ** Waiting and provisioning *)
(** One more poll than the timeout has half-seconds. *)
Definition READY_FUEL : nat := 1201.

(* src xtask/main.rs:339-348 wait_for *)
Fixpoint poll (fuel : nat) (mtls : bool) (url what : string) (start : N) : X_ (N * option string) :=
  match fuel with
  | O => mabort XStuck
  | S fuel =>
      let! r := request (Got mtls url) in
      match r with
      | Reply status body => mpure (status, body)
      | BadUrl e | SendFailed e => fun s =>
          if N.ltb (clock (xlog s) - start) READY_TIMEOUT
          then (let! _ := do_ (Slept 500) in poll fuel mtls url what start) s
          else xfail [Lit what; Lit " never came up at "; Lit url; Lit ": "; Txt e] s
      end
  end.

(* src xtask/main.rs:330-349 wait_for *)
Definition wait_for (mtls : bool) (url what : string) : X_ (N * option string) :=
  let! _ := say [Lit "waiting for "; Lit what; Lit " at "; Lit url; Lit " (a cold build can take minutes)..."] in
  fun s => poll READY_FUEL mtls url what (clock (xlog s)) s.

(* src xtask/main.rs:351-360 address_of *)
Definition address_of (body : option string) : result xerr string :=
  let? body := ok_or (XErr [Txt "body error"]) body in
  Ok (default body (json_address body)).

(* src xtask/main.rs:301-328 provision_dkg *)
Definition provision_dkg (api_url : string) : X_ unit :=
  let dkg_url := String.append api_url "/v1/dkg" in
  let! (status, body) := wait_for false dkg_url "orchestrator" in
  if is_success status then
    let! a := mlift (address_of body) in
    say [Lit "DKG already provisioned: "; Txt a]
  else
    let! _ := say [Lit "running one-time DKG..."] in
    let! r := request (Posted dkg_url) in
    match r with
    | BadUrl e | SendFailed e => xfail [Txt e]
    | Reply status body =>
        if is_success status then
          let! a := mlift (address_of body) in say [Lit "DKG complete: "; Txt a]
        else if N.eqb status 409 then say [Lit "DKG already provisioned (409)"]
        else xfail [Lit "POST /v1/dkg failed: "; HttpStatus status; Lit " "; Txt (default EmptyString body)]
    end.

(* src xtask/main.rs:362-367 api_url *)
Definition api_url : string := String.append "http://" (default "127.0.0.1:3000" bind_env).

(** ** [up] *)
(* src xtask/main.rs:94-98 up *)
Fixpoint seed_identities (i : nat) (cfgs : list Startup.Config) : X_ (list SigningKey) :=
  match cfgs with
  | [] => mpure []
  | c :: cfgs =>
      let! key := on_xdisk (fun e => XErr (cosigner_error_text e))
                    (load_or_generate (under_root (data_dir c)) (fresh i)) in
      let! keys := seed_identities (S i) cfgs in
      mpure (key :: keys)
  end.

(* src xtask/main.rs:129-133 up *)
Definition roster_line (keys : list SigningKey) : string := String.concat "," (show_identity_key <$> keys).
(* src xtask/main.rs:136-139 up *)
Definition cosigner_line (roster config : string) : string :=
  String.append "env SOVRA_COSIGNER_PARTICIPANTS="
    (String.append roster (String.append " cargo run -p sovra-cosigner -- " config)).
(* src xtask/main.rs:134-141 up *)
Fixpoint launch (roster : string) (panes configs : list string) : X_ unit :=
  match panes, configs with
  | pane :: panes, config :: configs =>
      let! _ := send pane (cosigner_line roster config) in launch roster panes configs
  | [], _ => mpure tt
  | _ :: _, [] => mabort (XPanic "CONFIGS[i]")
  end.

(* src xtask/main.rs:159-159 up *)
Definition health_url (bind_addr : string) : string :=
  String.append "https://" (String.append bind_addr "/health").
(* src xtask/main.rs:156-162 up *)
Fixpoint wait_all (cfgs : list Startup.Config) : X_ unit :=
  match cfgs with
  | [] => mpure tt
  | c :: cfgs => let! _ := wait_for true (health_url (Startup.bind_addr c)) "cosigner" in wait_all cfgs
  end.

(** The panes, with the parties started in the top three; the result is the
    bottom one. *)
(* src xtask/main.rs:106-141 up *)
Definition lay_out (roster : string) : X_ string :=
  let! top_left := new_pane ["new-session"; "-d"; "-s"; SESSION; "-n"; "system"; "-c"; root_str] in
  let! bottom := new_pane ["split-window"; "-v"; "-t"; top_left; "-c"; root_str] in
  let! top_mid := new_pane ["split-window"; "-h"; "-t"; top_left; "-c"; root_str] in
  let! top_right := new_pane ["split-window"; "-h"; "-t"; top_mid; "-c"; root_str] in
  let! _ := launch roster [top_left; top_mid; top_right] CONFIGS in
  mpure bottom.

(* src xtask/main.rs:150-162 up *)
Definition gate (cfgs : list Startup.Config) (orch_leaf : LeafPaths) : X_ unit :=
  let! tls := on_xdisk (fun e => XErr (tls_error_text e))
                (load (State.join (State.join root "certs") CA_CERT_FILE) (leaf_cert orch_leaf) (leaf_key orch_leaf)) in
  let! _ := mlift (map_err (fun e => XErr (tls_error_text e)) (blocking_http_client tls 120000)) in
  wait_all cfgs.

(** Steps 1 to 4: everything before the orchestrator starts, in the pane
    returned. *)
(* src xtask/main.rs:78-162 up *)
Definition prepare_panes : X_ string :=
  let! _ := require_tmux in
  let! running := session_exists in
  if running then xfail [Lit "tmux session '"; Lit SESSION; Lit "' already running — `cargo xtask down` first"]
  else
    if negb (utf8_valid (bstr root_str)) then xfail [Lit "workspace path is not UTF-8"] else
    let! cfgs := mlift (load_configs CONFIGS) in
    let! keys := seed_identities 0 cfgs in
    let! orch_leaf := on_certs (seed_certs (party_ids cfgs) []) in
    let! bottom := lay_out (roster_line keys) in
    let! _ := gate cfgs orch_leaf in
    mpure bottom.

(* src xtask/main.rs:163-163 up *)
Definition API_LINE : string := "cargo run -p sovra-api".

(* src xtask/main.rs:78-178 up *)
Definition up : X_ unit :=
  let! bottom := prepare_panes in
  let! _ := send bottom API_LINE in
  let! _ := mlift (map_err (fun e => XErr [Txt e]) bare_client) in
  let! _ := provision_dkg api_url in
  let! r := cmd ["tmux"; "attach"; "-t"; exact] in
  match r with Err _ => io_failed | Ok _ => mpure tt end.

(* src xtask/main.rs:69-76 main *)
Definition main (c : Cmd) : X_ unit :=
  match c with Up => up | Down => down | Ci => ci | CmdXCerts san => certs san end.
(** ** Runs of the launcher *)
(** The actions a run adds satisfy [P], and it changes no file of a quiet disk. *)
Definition runs {A} (P : act -> Prop) (x : X_ A) : Prop := forall s r s', x s = (r, s') ->
  (exists l, xlog s' = xlog s ++ l /\ Forall P l) /\
  (faults (xdisk s) = [] -> faults (xdisk s') = [] /\ kept (fs (xdisk s)) (fs (xdisk s'))).

Lemma runs_nil {A} P (x : X_ A) : (forall s, (x s).2 = s) -> runs P x.
Proof.
  intros H s r s' E. specialize (H s). rewrite E in H. simpl in H. subst s'. split; [|done].
  exists []. by rewrite app_nil_r.
Qed.

Lemma runs_pure {A} P (a : A) : runs P (mpure a).
Proof. by apply runs_nil. Qed.

Lemma runs_abort {A} P e : runs P (mabort e : X_ A).
Proof. by apply runs_nil. Qed.

Lemma runs_lift {A} P (x : result xerr A) : runs P (mlift x).
Proof. by apply runs_nil. Qed.

Lemma runs_bnd {A B} P (x : X_ A) (f : A -> X_ B) : runs P x -> (forall a, runs P (f a)) -> runs P (mbnd x f).
Proof.
  intros Hx Hf s r s'. unfold mbnd. destruct (x s) as [[a|e] s1] eqn:Ex.
  - intros H. destruct (Hx _ _ _ Ex) as [(l1 & L1 & F1) D1]. destruct (Hf _ _ _ _ H) as [(l2 & L2 & F2) D2].
    split.
    + exists (l1 ++ l2). rewrite L2, L1, app_assoc. split; [done|]. by apply Forall_app.
    + intros Hs. destruct (D1 Hs) as [Q1 K1]. destruct (D2 Q1) as [Q2 K2]. split; [done|].
      by transitivity (fs (xdisk s1)).
  - intros [= _ <-]. by apply (Hx s (Err e)).
Qed.

Lemma runs_act {A} P (a : act) (g : list act -> result xerr A) :
  P a -> runs P (fun s => (g (xlog s), MkX (xdisk s) (xlog s ++ [a]))).
Proof. intros Ha s r s' [= _ <-]. split; [exists [a]; auto|done]. Qed.

Lemma runs_on_disk {E A} P (f : E -> xerr) (x : M world E A) : keeps x -> runs P (on_xdisk f x).
Proof.
  intros Hx s r s'. unfold on_xdisk. destruct (x (xdisk s)) as [r0 w] eqn:Ex. intros [= _ <-]. simpl.
  split; [exists []; by rewrite app_nil_r|]. intros Hs. by apply (Hx _ _ _ Hs Ex).
Qed.

Create HintDb runs_db.
#[local] Hint Resolve runs_pure runs_abort runs_lift runs_bnd runs_act runs_on_disk : runs_db.

Lemma runs_say P m : P (Said m) -> runs P (say m).
Proof. exact (runs_act P (Said m) (fun _ => Ok tt)). Qed.

Lemma runs_cmd (P : act -> Prop) argv : P (Ran argv) -> runs P (cmd argv).
Proof. exact (runs_act P (Ran argv) (fun l => Ok (run_cmd l argv))). Qed.

Lemma runs_request (P : act -> Prop) a : P a -> runs P (request a).
Proof. exact (runs_act P a (fun l => Ok (http l a))). Qed.

Lemma runs_tmux_ok (P : act -> Prop) args : P (Ran ("tmux" :: args)) -> runs P (tmux_ok args).
Proof.
  intros H. apply runs_bnd; [by apply runs_cmd|]. intros [o|e]; [destruct (success o)|]; apply runs_pure || apply runs_abort.
Qed.

Lemma runs_require_tmux (P : act -> Prop) : P (Ran ["tmux"; "-V"]) -> runs P require_tmux.
Proof. intros H. apply runs_bnd; [by apply runs_cmd|]. intros [o|[]]; apply runs_pure || apply runs_abort. Qed.

Lemma runs_session_exists (P : act -> Prop) : P (Ran ["tmux"; "has-session"; "-t"; exact]) -> runs P session_exists.
Proof. intros H. apply runs_bnd; [by apply runs_cmd|]. intros o. apply runs_pure. Qed.

Lemma runs_new_pane (P : act -> Prop) args :
  P (Ran ("tmux" :: args ++ ["-P"; "-F"; "#{pane_id}"])) -> runs P (new_pane args).
Proof.
  intros H. apply runs_bnd; [by apply runs_cmd|].
  intros [o|e]; [destruct (success o); simpl; [destruct (utf8_valid _)|]|]; apply runs_pure || apply runs_abort.
Qed.

Lemma runs_launch (P : act -> Prop) roster panes configs :
  (forall pane config, P (Ran ["tmux"; "send-keys"; "-t"; pane; cosigner_line roster config; "C-m"])) ->
  runs P (launch roster panes configs).
Proof.
  intros H. revert configs. induction panes as [|pane panes IH]; intros [|config configs]; simpl; auto with runs_db.
  apply runs_bnd; [by apply runs_tmux_ok|]. intros _. apply IH.
Qed.

Lemma runs_poll (P : act -> Prop) fuel mtls url what start :
  P (Got mtls url) -> P (Slept 500) -> runs P (poll fuel mtls url what start).
Proof.
  intros Hg Hs. induction fuel as [|fuel IH]; simpl; [auto with runs_db|].
  apply runs_bnd; [by apply runs_request|].
  assert (forall e, runs P (fun s => if N.ltb (clock (xlog s) - start) READY_TIMEOUT
      then (let! _ := do_ (Slept 500) in poll fuel mtls url what start) s
      else xfail [Lit what; Lit " never came up at "; Lit url; Lit ": "; Txt e] s)) as Hw.
  { intros e s r s'. destruct (N.ltb _ _).
    - apply runs_bnd; [|done]. by apply (runs_act P (Slept 500) (fun _ => Ok tt)).
    - apply runs_abort. }
  intros [e|e|st b]; [apply Hw..|apply runs_pure].
Qed.

Lemma runs_wait_for (P : act -> Prop) mtls url what :
  (forall m, P (Said m)) -> P (Got mtls url) -> P (Slept 500) -> runs P (wait_for mtls url what).
Proof.
  intros Hm Hg Hs. apply runs_bnd; [by apply runs_say|]. intros _ s. by apply runs_poll.
Qed.

Lemma runs_wait_all (P : act -> Prop) cfgs :
  (forall m, P (Said m)) -> (forall b u, P (Got b u)) -> P (Slept 500) -> runs P (wait_all cfgs).
Proof.
  intros Hm Hg Hs. induction cfgs as [|c cfgs IH]; simpl; [apply runs_pure|].
  apply runs_bnd; [by apply runs_wait_for|done].
Qed.

Lemma runs_seed_identities P i cfgs : runs P (seed_identities i cfgs).
Proof.
  revert i. induction cfgs as [|c cfgs IH]; intros i; simpl; [apply runs_pure|].
  apply runs_bnd; [apply runs_on_disk, load_or_generate_keeps|]. intros k. apply runs_bnd; [apply IH|].
  intros ks. apply runs_pure.
Qed.

(** *** Seeding certificates *)
Lemma cosigner_stem id : has_char slash (String.append "cosigner" (show_u8 id)) = false.
Proof. by rewrite has_char_app, show_u8_no_slash. Qed.

Context {RL : RcgenLaws R} {KL : KeyLaws K}.

Lemma seed_leaves_keeps dir i ids sans ca : keeps (seed_leaves dir i ids sans ca).
Proof.
  revert i. induction ids as [|id ids IH]; intros i; simpl; [apply keeps_pure|].
  apply keeps_bnd; [apply ensure_leaf_keeps, cosigner_stem|]. intros _. apply IH.
Qed.

Lemma seed_certs_keeps ids sans : keeps (seed_certs ids sans).
Proof.
  apply keeps_bnd; [apply ensure_ca_keeps|]. intros ca. apply keeps_bnd; [by apply ensure_leaf_keeps|].
  intros o. apply keeps_bnd; [apply seed_leaves_keeps|]. intros _. apply keeps_pure.
Qed.

(** Both files of a leaf are there. *)
Definition has_leaf (f : gmap path node) (dir : path) (stem : string) : Prop :=
  content f (leaf_key (leaf_paths dir stem)) <> None /\ content f (leaf_cert (leaf_paths dir stem)) <> None.

(** A successful [ensure_leaf] leaves its own leaf, and every file that was
    there, whatever failed on the way. *)
Lemma ensure_leaf_adds t d dir stem cn sans ca w paths w' :
  has_char slash stem = false -> ensure_leaf t d dir stem cn sans ca w = (Ok paths, w') ->
  has_leaf (fs w') dir stem /\
  forall q, content (fs w) q <> None -> tmp_name q = false -> content (fs w') q <> None.
Proof.
  intros Hs (-> & Hk & Hc & Ho)%ensure_leaf_leaves; [|done]. split; [done|]. intros q Hq Ht.
  destruct (decide (q = leaf_key (leaf_paths dir stem))) as [->|N1]; [done|].
  destruct (decide (q = leaf_cert (leaf_paths dir stem))) as [->|N2]; [done|].
  unfold content in *. rewrite Ho; [done..| |]; intros ->; unfold leaf_paths in Ht; cbn [leaf_key leaf_cert] in Ht;
    by rewrite tmp_name_tmp in Ht.
Qed.

Definition named (stem : string) : Prop :=
  has_char slash stem = false /\ forall suffix, has_prefix ".tmp-" (String.append stem suffix) = false /\
    String.append stem suffix <> CA_CERT_FILE /\ String.append stem suffix <> CA_KEY_FILE.

Lemma orchestrator_named : named "orchestrator".
Proof. split; [done|]. intros suffix. by split_and!. Qed.

Lemma cosigner_named id : named (String.append "cosigner" (show_u8 id)).
Proof. split; [apply cosigner_stem|]. intros suffix. by split_and!. Qed.

(** The CA and the leaves of [stems] are provisioned. *)
Definition provisioned (f : gmap path node) (dir : path) (ca : Ca) (stems : list string) : Prop :=
  holds_ca f dir ca /\ dir_chain f dir /\ Forall (has_leaf f dir) stems.

Lemma has_leaf_names dir stem : named stem ->
  tmp_name (leaf_key (leaf_paths dir stem)) = false /\ tmp_name (leaf_cert (leaf_paths dir stem)) = false.
Proof. intros [_ H]. unfold leaf_paths. cbn [leaf_key leaf_cert]. rewrite !tmp_name_snoc. split; apply H. Qed.

(** Names that a leaf's files never have. *)
Lemma leaf_apart dir stem n : named stem ->
  (n = CA_KEY_FILE \/ n = CA_CERT_FILE) ->
  let lp := leaf_paths dir stem in
  dir ++ [n] <> leaf_key lp /\ dir ++ [n] <> leaf_cert lp /\
  dir ++ [n] <> tmp_path (leaf_key lp) /\ dir ++ [n] <> tmp_path (leaf_cert lp).
Proof.
  intros [_ Hn] H. cbv zeta. unfold leaf_paths. cbn [leaf_key leaf_cert]. rewrite !tmp_path_snoc.
  destruct (Hn ".key.pem") as (_ & K1 & K2), (Hn ".cert.pem") as (_ & K3 & K4).
  split_and!; intros Eq%app_inv_head; injection Eq as Eq; destruct H; subst n; try congruence; discriminate Eq.
Qed.

Lemma ensure_leaf_provisions t d dir stem cn sans ca stems w paths w' :
  named stem -> Forall named stems -> provisioned (fs w) dir ca stems ->
  ensure_leaf t d dir stem cn sans ca w = (Ok paths, w') ->
  paths = leaf_paths dir stem /\ provisioned (fs w') dir ca (stem :: stems).
Proof.
  intros Hn Hns (Hca & Hd & Hl) E. pose proof E as (-> & _ & _ & Ho)%ensure_leaf_leaves; [|apply Hn].
  apply ensure_leaf_adds in E as [Hown Hpres]; [|apply Hn]. split; [done|]. split_and!.
  - destruct Hca as (kb & key & cb & i & Ck & Uk & Hk & Cc & Hi). exists kb, key, cb, i.
    destruct (leaf_apart dir stem CA_KEY_FILE Hn (or_introl eq_refl)) as (A1 & A2 & A3 & A4).
    destruct (leaf_apart dir stem CA_CERT_FILE Hn (or_intror eq_refl)) as (B1 & B2 & B3 & B4).
    unfold content in *. by rewrite !Ho.
  - intros k Hne Hp. destruct (Hd k Hne Hp) as [m Hm]. exists m. rewrite Ho; [done|..]; intros ->;
      unfold leaf_paths in Hp; cbn [leaf_key leaf_cert] in Hp; rewrite ?tmp_path_snoc in Hp;
      by apply snoc_not_prefix in Hp.
  - constructor; [done|]. clear -Hns Hl Hpres. induction Hl as [|x l [H1 H2] _ IH]; [done|].
    inversion Hns as [|? ? Hx Hxs]; subst. destruct (has_leaf_names dir x Hx) as [T1 T2].
    constructor; [split; by apply Hpres|by apply IH].
Qed.

Definition cosigner_stems (ids : list u8) : list string := (fun id => String.append "cosigner" (show_u8 id)) <$> ids.

Lemma cosigner_stems_named ids : Forall named (cosigner_stems ids).
Proof. apply Forall_fmap, Forall_true. intros id. apply cosigner_named. Qed.

Lemma seed_leaves_provisions dir i ids sans ca stems w u w' :
  Forall named stems -> provisioned (fs w) dir ca stems ->
  seed_leaves dir i ids sans ca w = (Ok u, w') ->
  provisioned (fs w') dir ca (reverse (cosigner_stems ids) ++ stems).
Proof.
  revert i stems w. induction ids as [|id ids IH]; intros i stems w Hns Hp; simpl; [by intros [= _ <-]|].
  intros (p & w1 & H1 & H2)%mbnd_Ok.
  apply (ensure_leaf_provisions _ _ _ _ _ _ _ stems) in H1 as [_ H1]; [|apply cosigner_named|done..].
  change (cosigner_stems (id :: ids)) with (String.append "cosigner" (show_u8 id) :: cosigner_stems ids).
  rewrite reverse_cons, <- app_assoc. eapply IH; [|exact H1|exact H2]. constructor; [apply cosigner_named|done].
Qed.

Lemma seed_certs_provisions ids sans w p w' :
  seed_certs ids sans w = (Ok p, w') -> let dir := State.join root "certs" in
  p = leaf_paths dir "orchestrator" /\
  exists ca, provisioned (fs w') dir ca (reverse (cosigner_stems ids) ++ ["orchestrator"]).
Proof.
  unfold seed_certs. intros (ca & w1 & [H1 D1]%ensure_ca_holds & H)%mbnd_Ok.
  apply mbnd_Ok in H as (o & w2 & H2 & H). apply mbnd_Ok in H as (u & w3 & H3 & H). injection H as -> ->.
  apply (ensure_leaf_provisions _ _ _ _ _ _ _ []) in H2 as [-> H2];
    [|apply orchestrator_named|done|by split_and!]. split; [done|]. exists ca.
  eapply seed_leaves_provisions; [|exact H2|exact H3]. constructor; [apply orchestrator_named|done].
Qed.

Lemma seed_leaves_reruns dir i ids sans ca w :
  Forall (has_leaf (fs w) dir) (cosigner_stems ids) ->
  seed_leaves dir i ids sans ca (no_faults w) = (Ok tt, no_faults w).
Proof.
  revert i. induction ids as [|id ids IH]; intros i Hl; [done|]. inversion Hl as [|? ? [H1 H2] Hrest]; subst.
  simpl. unfold mbnd at 1. rewrite ensure_leaf_present by (done || apply cosigner_stem). by apply IH.
Qed.

Lemma seed_certs_reruns ids sans w ca : let dir := State.join root "certs" in
  provisioned (fs w) dir ca (reverse (cosigner_stems ids) ++ ["orchestrator"]) ->
  seed_certs ids sans (no_faults w) = (Ok (leaf_paths dir "orchestrator"), no_faults w).
Proof.
  intros dir (Hca & Hd & [Hl [Ho _]%Forall_cons]%Forall_app).
  destruct (ensure_ca_loads listing now (drawn 0) dir w ca Hca Hd) as (ca' & E1 & _).
  unfold seed_certs. fold dir. unfold mbnd at 1. rewrite E1. destruct Ho as [Hk Hc].
  unfold mbnd at 1. rewrite ensure_leaf_present by done. unfold mbnd at 1.
  rewrite seed_leaves_reruns; [done|]. by rewrite <- (Forall_reverse _ (cosigner_stems ids)).
Qed.

(** *** What a bring-up establishes *)
Definition later (s s' : xst) : Prop :=
  xlog s `prefix_of` xlog s' /\
  (faults (xdisk s) = [] -> faults (xdisk s') = [] /\ kept (fs (xdisk s)) (fs (xdisk s'))).

Lemma runs_later {A} P (x : X_ A) s r s' : runs P x -> x s = (r, s') -> later s s'.
Proof. intros Hx H. destruct (Hx _ _ _ H) as [(l & Hl & _) D]. split; [by exists l|done]. Qed.

#[local] Instance later_refl : Reflexive later.
Proof. by intros s. Qed.

#[local] Instance later_trans : Transitive later.
Proof.
  intros s1 s2 s3 [P1 D1] [P2 D2]. split; [by transitivity (xlog s2)|]. intros Hs.
  destruct (D1 Hs) as [Q1 K1]. destruct (D2 Q1) as [Q2 K2]. split; [done|]. by transitivity (fs (xdisk s2)).
Qed.

(** A party's process was started with the roster [keys]. *)
Definition launched (keys : list SigningKey) (log : list act) (config : string) : Prop :=
  exists pane, Ran ["tmux"; "send-keys"; "-t"; pane; cosigner_line (roster_line keys) config; "C-m"] ∈ log.
(** A party's health endpoint answered, over mutual TLS. *)
Definition answered (log : list act) (c : Startup.Config) : Prop :=
  exists l status body, (l ++ [Got true (health_url (Startup.bind_addr c))]) `prefix_of` log /\
    http l (Got true (health_url (Startup.bind_addr c))) = Reply status body.
Definition identified (f : gmap path node) (c : Startup.Config) (k : SigningKey) : Prop :=
  holds_identity f (under_root (data_dir c)) k.

Lemma launched_later keys l l' config : l `prefix_of` l' -> launched keys l config -> launched keys l' config.
Proof. intros [k ->] [pane H]. exists pane. apply elem_of_app. by left. Qed.

Lemma answered_later l l' c : l `prefix_of` l' -> answered l c -> answered l' c.
Proof. intros H (l0 & st & b & Hp & He). exists l0, st, b. split; [by transitivity l|done]. Qed.

Lemma launch_launches keys panes configs s u s' :
  launch (roster_line keys) panes configs s = (Ok u, s') -> (length configs <= length panes)%nat ->
  Forall (launched keys (xlog s')) configs.
Proof.
  revert configs s. induction panes as [|pane panes IH]; intros [|config configs] s Hrun Hlen; simpl in Hlen;
    [done|lia|done|].
  simpl in Hrun. apply mbnd_Ok in Hrun as (u1 & s1 & H1 & H2). constructor; [|apply (IH _ _ H2); lia].
  apply (launched_later _ (xlog s1)).
  - apply (runs_later (fun _ => True) _ _ _ _ (runs_launch _ _ _ _ (fun _ _ => I)) H2).
  - exists pane. apply mbnd_Ok in H1 as (r & s2 & H1 & H3). injection H1 as <- <-. simpl in H3.
    destruct (run_cmd _ _) as [o|e]; [destruct (success o)|]; try done. injection H3 as _ <-. simpl. set_solver.
Qed.

Lemma seed_identities_holds i cfgs s keys s' :
  faults (xdisk s) = [] -> seed_identities i cfgs s = (Ok keys, s') ->
  Forall2 (identified (fs (xdisk s'))) cfgs keys.
Proof.
  revert i s keys. induction cfgs as [|c cfgs IH]; intros i s keys Hs; simpl; [by intros [= <- _]|].
  intros (k & s1 & H1 & H2)%mbnd_Ok. apply mbnd_Ok in H2 as (ks & s2 & H2 & H3). injection H3 as <- ->.
  assert (runs (fun _ => True) (on_xdisk (fun e => XErr (cosigner_error_text e))
            (load_or_generate (under_root (data_dir c)) (fresh i)))) as Hr
    by apply runs_on_disk, load_or_generate_keeps.
  destruct (runs_later _ _ _ _ _ Hr H1) as [_ [Q1 _]%(fun H => H Hs)].
  constructor; [|by apply (IH (S i) s1)].
  destruct (runs_later _ _ _ _ _ (runs_seed_identities (fun _ => True) (S i) cfgs) H2) as [_ [_ K2]%(fun H => H Q1)].
  apply (holds_identity_kept _ _ _ _ K2). unfold on_xdisk in H1.
  destruct (load_or_generate _ _ _) as [[k0|e] w0] eqn:El; [|done]. injection H1 as <- <-.
  by apply load_or_generate_holds in El.
Qed.

Lemma poll_answers fuel mtls url what start s st b s' :
  poll fuel mtls url what start s = (Ok (st, b), s') ->
  exists l, xlog s' = l ++ [Got mtls url] /\ http l (Got mtls url) = Reply st b.
Proof.
  revert s. induction fuel as [|fuel IH]; intros s; simpl; [done|].
  intros (r & s1 & H1 & H2)%mbnd_Ok. injection H1 as <- <-. simpl in H2.
  destruct (http (xlog s) _) as [e|e|st0 b0] eqn:Hr; [..|injection H2 as <- <- <-; by exists (xlog s)];
    (destruct (N.ltb _ _); [|done]; apply mbnd_Ok in H2 as (u & s2 & _ & H2); by eapply IH).
Qed.

Lemma wait_for_answers mtls url what s st b s' :
  wait_for mtls url what s = (Ok (st, b), s') ->
  exists l, xlog s' = l ++ [Got mtls url] /\ http l (Got mtls url) = Reply st b.
Proof. unfold wait_for. generalize READY_FUEL. intros fuel (u & s1 & _ & H)%mbnd_Ok. by eapply poll_answers. Qed.

Lemma wait_all_answered cfgs s u s' : wait_all cfgs s = (Ok u, s') -> Forall (answered (xlog s')) cfgs.
Proof.
  revert s. induction cfgs as [|c cfgs IH]; intros s; simpl; [done|].
  intros ([st b] & s1 & H1 & H2)%mbnd_Ok. constructor; [|by eapply IH].
  pose proof (runs_wait_all (fun _ => True) cfgs (fun _ => I) (fun _ _ => I) I) as Hr.
  apply (answered_later (xlog s1)); [apply (runs_later _ _ _ _ _ Hr H2)|].
  apply wait_for_answers in H1 as (l & Hl & Hh). exists l, st, b. by rewrite Hl.
Qed.

Lemma quiet_load ca cert key : quiet (load ca cert key).
Proof.
  unfold load, read_pem, parsed. apply quiet_bnd; [auto with quiet_db|]. intros b. apply quiet_bnd; [auto with quiet_db|].
  intros d. apply quiet_bnd; [auto with quiet_db|]. intros b2. apply quiet_bnd; [auto with quiet_db|].
  intros [|c l]; auto 10 with quiet_db.
Qed.

Lemma load_keeps ca cert key : keeps (load ca cert key).
Proof.
  apply quiet_keeps; [apply quiet_load|]. intros w r w' _ H. apply load_frame in H. by rewrite H.
Qed.

Lemma runs_lay_out (P : act -> Prop) roster :
  (forall args, hd_error args <> Some "send-keys" -> P (Ran ("tmux" :: args))) ->
  (forall pane config, P (Ran ["tmux"; "send-keys"; "-t"; pane; cosigner_line roster config; "C-m"])) ->
  runs P (lay_out roster).
Proof.
  intros Hr Hl. unfold lay_out. do 4 (apply runs_bnd; [by apply runs_new_pane, Hr|]; intros ?).
  apply runs_bnd; [by apply runs_launch|]. intros _. apply runs_pure.
Qed.

Lemma runs_gate (P : act -> Prop) cfgs leaf :
  (forall m, P (Said m)) -> (forall b u, P (Got b u)) -> P (Slept 500) -> runs P (gate cfgs leaf).
Proof.
  intros Hm Hg Hs. apply runs_bnd; [apply runs_on_disk, load_keeps|]. intros tls.
  apply runs_bnd; [apply runs_lift|]. intros _. by apply runs_wait_all.
Qed.

(** The steps before the orchestrator's start type nothing but the parties' lines. *)
Lemma runs_prepare (P : act -> Prop) :
  (forall m, P (Said m)) -> (forall b u, P (Got b u)) -> P (Slept 500) ->
  (forall argv, (forall t, argv <> ["tmux"; "send-keys"; "-t"; t; API_LINE; "C-m"]) -> P (Ran argv)) ->
  runs P prepare_panes.
Proof.
  intros Hm Hg Hs Hr.
  assert (forall args, hd_error args <> Some "send-keys" -> P (Ran ("tmux" :: args))) as Hr'.
  { intros args Ha. apply Hr. intros t [= ->]. by apply Ha. }
  unfold prepare_panes. apply runs_bnd; [by apply runs_require_tmux, Hr'|].
  intros _. apply runs_bnd; [by apply runs_session_exists, Hr'|].
  intros []; [apply runs_abort|]. destruct (negb _); [apply runs_abort|].
  apply runs_bnd; [apply runs_lift|]. intros cfgs. apply runs_bnd; [apply runs_seed_identities|]. intros keys.
  apply runs_bnd; [apply runs_on_disk, seed_certs_keeps|]. intros leaf.
  apply runs_bnd; [apply runs_lay_out; [done|intros pane config; apply Hr; intros t; by intros [=]]|]. intros bottom.
  apply runs_bnd; [by apply runs_gate|]. intros _. apply runs_pure.
Qed.

Lemma lay_out_launches keys s bottom s' :
  lay_out (roster_line keys) s = (Ok bottom, s') -> Forall (launched keys (xlog s')) CONFIGS.
Proof.
  unfold lay_out. intros (p1 & s1 & _ & H)%mbnd_Ok. do 3 (apply mbnd_Ok in H as (? & ? & _ & H)).
  apply mbnd_Ok in H as (u & s2 & H & [_ <-]%pair_eq). by apply launch_launches in H.
Qed.

Definition brought_up (s : xst) (before : list act) (cfgs : list Startup.Config) (keys : list SigningKey) : Prop :=
  load_configs CONFIGS = Ok cfgs /\ Forall2 (identified (fs (xdisk s))) cfgs keys /\
  Forall (launched keys before) CONFIGS /\ Forall (answered before) cfgs.

Lemma prepare_brings_up s bottom s' :
  faults (xdisk s) = [] -> prepare_panes s = (Ok bottom, s') ->
  exists cfgs keys, brought_up s' (xlog s') cfgs keys.
Proof.
  intros Hs. unfold prepare_panes.
  intros (u1 & s1 & H1 & H)%mbnd_Ok. apply mbnd_Ok in H as (b & s2 & H2 & H). destruct b; [done|].
  destruct (negb _); [done|]. apply mbnd_Ok in H as (cfgs & s3 & [Hc <-]%pair_eq & H).
  apply mbnd_Ok in H as (keys & s4 & H4 & H). apply mbnd_Ok in H as (leaf & s5 & H5 & H).
  apply mbnd_Ok in H as (p & s6 & H6 & H). apply mbnd_Ok in H as (u2 & s7 & H7 & [_ <-]%pair_eq).
  set (Tr := fun _ : act => True).
  pose proof (runs_later Tr _ _ _ _ (runs_require_tmux Tr I) H1) as L1.
  pose proof (runs_later Tr _ _ _ _ (runs_session_exists Tr I) H2) as L2.
  pose proof (runs_later Tr _ _ _ _ (runs_seed_identities Tr 0 cfgs) H4) as L4.
  pose proof (runs_later Tr _ _ _ _ (runs_on_disk Tr _ _ (seed_certs_keeps _ _)) H5) as L5.
  pose proof (runs_later Tr _ _ _ _ (runs_lay_out Tr _ (fun _ _ => I) (fun _ _ => I)) H6) as L6.
  pose proof (runs_later Tr _ _ _ _ (runs_gate Tr cfgs leaf (fun _ => I) (fun _ _ => I) I) H7) as L7.
  assert (faults (xdisk s2) = []) as Q2 by by apply L2, L1.
  assert (later s4 s7) as [_ La] by (transitivity s5; [done|]; by transitivity s6).
  exists cfgs, keys. split_and!; [done|..].
  - apply (seed_identities_holds 0 cfgs s2 keys s4 Q2) in H4 as Hid. destruct L4 as [_ L4].
    destruct (L4 Q2) as [Q4 _], (La Q4) as [_ Kc].
    eapply Forall2_impl; [exact Hid|]. intros c k. by apply holds_identity_kept.
  - apply lay_out_launches in H6. eapply Forall_impl; [exact H6|]. intros c. apply launched_later, L7.
  - apply mbnd_Ok in H7 as (tls & s8 & _ & H7). apply mbnd_Ok in H7 as (cl & s9 & _ & H7).
    by apply wait_all_answered in H7.
Qed.

Lemma runs_provision_dkg url : runs (fun _ => True) (provision_dkg url).
Proof.
  unfold provision_dkg. apply runs_bnd; [by apply (runs_wait_for (fun _ => True))|]. intros [st b].
  destruct (is_success st).
  - apply runs_bnd; [apply runs_lift|]. intros a. by apply runs_say.
  - apply runs_bnd; [by apply runs_say|]. intros _. apply runs_bnd; [by apply runs_request|].
    intros [e|e|st' b']; [apply runs_abort..|]. destruct (is_success st').
    + apply runs_bnd; [apply runs_lift|]. intros a. by apply runs_say.
    + destruct (N.eqb st' 409); [by apply runs_say|apply runs_abort].
Qed.

Definition api_line (a : act) : Prop := exists t, a = Ran ["tmux"; "send-keys"; "-t"; t; API_LINE; "C-m"].

Lemma prepare_types_no_api : runs (fun a => ~ api_line a) prepare_panes.
Proof.
  apply runs_prepare; [by intros m [t [=]]|by intros b u [t [=]]|by intros [t [=]]|].
  intros argv Hn [t [= ->]]. by apply (Hn t).
Qed.

Lemma tmux_ok_log args s : (tmux_ok args s).2 = MkX (xdisk s) (xlog s ++ [Ran ("tmux" :: args)]).
Proof. unfold tmux_ok, mbnd, cmd. cbn. destruct (run_cmd _ _) as [o|e]; [destruct (success o)|]; done. Qed.

(** The rest of [up] once the orchestrator's line was typed. *)
Definition finish_up : X_ unit :=
  let! _ := mlift (map_err (fun e => XErr [Txt e]) bare_client) in
  let! _ := provision_dkg api_url in
  let! r := cmd ["tmux"; "attach"; "-t"; exact] in
  match r with Err _ => io_failed | Ok _ => mpure tt end.

Lemma runs_finish_up : runs (fun _ => True) finish_up.
Proof.
  apply runs_bnd; [apply runs_lift|]. intros _. apply runs_bnd; [apply runs_provision_dkg|].
  intros _. apply runs_bnd; [by apply runs_cmd|]. intros [o|e]; apply runs_pure || apply runs_abort.
Qed.

Lemma up_order s r s' :
  up s = (r, s') -> xlog s = [] -> (exists a, a ∈ xlog s' /\ api_line a) ->
  exists bottom s1 after, prepare_panes s = (Ok bottom, s1) /\ later s1 s' /\
    Forall (fun a => ~ api_line a) (xlog s1) /\
    xlog s' = xlog s1 ++ Ran ["tmux"; "send-keys"; "-t"; bottom; API_LINE; "C-m"] :: after.
Proof.
  intros Hup Hlog (a & Ha & Hline).
  change (up s) with ((let! bottom := prepare_panes in let! _ := send bottom API_LINE in finish_up) s) in Hup.
  unfold mbnd at 1 in Hup. destruct (prepare_panes s) as [pr s1] eqn:Hp.
  destruct (prepare_types_no_api _ _ _ Hp) as [(l & Hl & HP) _]. rewrite Hlog in Hl. cbn in Hl. rewrite <- Hl in HP.
  destruct pr as [bottom|e]; [|injection Hup as _ <-; rewrite Forall_forall in HP; by destruct (HP a Ha)].
  unfold mbnd in Hup. pose proof (tmux_ok_log ["send-keys"; "-t"; bottom; API_LINE; "C-m"] s1) as Hs.
  fold (send bottom API_LINE) in Hs. destruct (send bottom API_LINE s1) as [sr s2]. cbn [snd] in Hs.
  assert (later s2 s') as L2.
  { destruct sr; [by apply (runs_later _ _ _ _ _ runs_finish_up Hup)|]. injection Hup as _ <-. done. }
  exists bottom, s1. destruct L2 as [[after Hafter] L2]. subst s2. cbn in Hafter, L2.
  exists after. split_and!; [done| |done|by rewrite Hafter, <- app_assoc].
  split; [|done]. rewrite Hafter, <- app_assoc. by apply prefix_app_r.
Qed.

(** ** The launcher ends, without a panic *)
Definition tame (e : xerr) : Prop := match e with XStuck | XPanic _ => False | _ => True end.
Definition orderly {A} (x : X_ A) : Prop := forall s e s', x s = (Err e, s') -> tame e.

Lemma orderly_bnd {A B} (x : X_ A) (f : A -> X_ B) : orderly x -> (forall a, orderly (f a)) -> orderly (mbnd x f).
Proof. intros Hx Hf s e s' [H|(a & s1 & _ & H)]%mbnd_Err; [by apply (Hx s e s')|by apply (Hf a s1 e s')]. Qed.

Lemma orderly_pure {A} (a : A) : orderly (mpure a).
Proof. by intros s e s'. Qed.

Lemma orderly_abort {A} e : tame e -> orderly (mabort e : X_ A).
Proof. by intros H s e' s' [= <- _]. Qed.

Lemma orderly_lift {A} (x : result xerr A) : (forall e, x = Err e -> tame e) -> orderly (mlift x).
Proof. intros H s e s' [= He _]. by apply H. Qed.

Lemma orderly_on_disk {E A} (f : E -> xerr) (x : M world E A) : (forall e, tame (f e)) -> orderly (on_xdisk f x).
Proof.
  intros H s e s'. unfold on_xdisk. destruct (x (xdisk s)) as [[a|e0] w]; cbn; [done|]. by intros [= <- _].
Qed.

Lemma orderly_ok {A} (x : X_ A) : (forall s, is_ok (x s).1 = true) -> orderly x.
Proof. intros H s e s' E. specialize (H s). by rewrite E in H. Qed.

Lemma orderly_fail {A} m : orderly (xfail m : X_ A).
Proof. by apply orderly_abort. Qed.

Lemma orderly_say m : orderly (say m).
Proof. by apply orderly_ok. Qed.

Lemma orderly_cmd argv : orderly (cmd argv).
Proof. by apply orderly_ok. Qed.

Lemma orderly_request a : orderly (request a).
Proof. by apply orderly_ok. Qed.

Lemma orderly_io {A} : orderly (io_failed : X_ A).
Proof. apply orderly_fail. Qed.

Create HintDb orderly_db.
#[local] Hint Resolve orderly_bnd orderly_pure orderly_io orderly_fail orderly_say orderly_cmd orderly_request : orderly_db.

Ltac orderly_cases := repeat (apply orderly_bnd; [auto with orderly_db|intros ?]); repeat case_match; auto with orderly_db.

Lemma orderly_tmux_ok args : orderly (tmux_ok args).
Proof. unfold tmux_ok. orderly_cases. Qed.

Lemma orderly_require_tmux : orderly require_tmux.
Proof. unfold require_tmux. orderly_cases. Qed.

Lemma orderly_session_exists : orderly session_exists.
Proof. unfold session_exists. orderly_cases. Qed.

Lemma orderly_new_pane args : orderly (new_pane args).
Proof. unfold new_pane. orderly_cases. Qed.

Lemma orderly_ci_steps steps : orderly (ci_steps steps).
Proof. induction steps as [|[argv hint] steps IH]; simpl; orderly_cases. Qed.

Lemma orderly_launch roster panes configs : (length panes <= length configs)%nat -> orderly (launch roster panes configs).
Proof.
  revert configs. induction panes as [|p panes IH]; intros [|c configs]; simpl; intros Hl; auto with orderly_db; [lia|].
  apply orderly_bnd; [apply orderly_tmux_ok|]. intros _. apply IH. lia.
Qed.

Lemma load_configs_tame files e : load_configs files = Err e -> tame e.
Proof.
  revert e. induction files as [|f files IH]; simpl; intros e; [done|]. destruct (utf8_valid _); cbn; [|by intros [= <-]].
  destruct (config_file _) as [c|m]; cbn; [|by intros [= <-]]. destruct (validate_config _); cbn; [|by intros [= <-]].
  destruct (load_configs files); cbn; [done|]. intros [= <-]. by apply IH.
Qed.

Lemma orderly_address b : orderly (mlift (address_of b)).
Proof. apply orderly_lift. unfold address_of. destruct b; cbn; [done|]. by intros e [= <-]. Qed.

Lemma orderly_seed_identities i cfgs : orderly (seed_identities i cfgs).
Proof.
  revert i. induction cfgs as [|c cfgs IH]; intros i; simpl; [apply orderly_pure|].
  apply orderly_bnd; [by apply orderly_on_disk|]. intros k. apply orderly_bnd; [apply IH|]. auto with orderly_db.
Qed.

(** *** The pre-commit gate *)
Definition passed (log : list act) (step : list string * string) : Prop :=
  exists l o, l ++ [Ran step.1] `prefix_of` log /\ run_cmd l step.1 = Ok o /\ success o = true.

Lemma ci_steps_pass steps s u s' : ci_steps steps s = (Ok u, s') ->
  xlog s `prefix_of` xlog s' /\ Forall (passed (xlog s')) steps.
Proof.
  revert s. induction steps as [|[argv hint] steps IH]; intros s; simpl; [by intros [= _ <-]|].
  intros (u1 & s1 & H1 & H)%mbnd_Ok. injection H1 as _ <-. apply mbnd_Ok in H as (r & s2 & H2 & H).
  injection H2 as <- <-. cbn [xlog xdisk] in H. destruct (run_cmd _ argv) as [o|e] eqn:Ho;
    [|by destruct e; [destruct (bool_decide _)|]]. destruct (success o) eqn:Hs; [|done]. cbn [negb] in H.
  apply IH in H as [Hp Hall]. cbn [xlog] in Hp. split.
  - etransitivity; [|exact Hp]. rewrite <- !app_assoc. by apply prefix_app_r.
  - constructor; [|done]. by exists (xlog s ++ [Said [Lit "
=== "; line_of argv; Lit " ==="]]), o.
Qed.

(** [ci] succeeds only when every one of its steps ran and succeeded. *)
Theorem ci_all_passed s u s' : ci s = (Ok u, s') -> Forall (passed (xlog s')) STEPS.
Proof.
  intros (u1 & s1 & H & H2)%mbnd_Ok. injection H2 as _ <-. apply ci_steps_pass in H as [_ H].
  eapply Forall_impl; [exact H|]. intros step (l & o & Hp & Hr). exists l, o. split; [|done]. cbn [xlog].
  by apply prefix_app_r.
Qed.

(** Time: no action turns the clock back, and sleeping takes its time. *)
Definition clock_advances : Prop := forall l a,
  (clock l + (match a with Slept ms => ms | _ => 0 end) <= clock (l ++ [a]))%N.

Lemma orderly_poll (Hclock : clock_advances) fuel mtls url what start s e s' :
  (1 <= fuel <= 1201)%nat -> (start + 500 * (1201 - N.of_nat fuel) <= clock (xlog s))%N ->
  poll fuel mtls url what start s = (Err e, s') -> tame e.
Proof.
  revert s. induction fuel as [|fuel IH]; intros s Hf Hc; [lia|]. simpl.
  intros [H|(r & s1 & H1 & H)]%mbnd_Err; [done|]. injection H1 as <- <-. cbn [xlog] in H.
  pose proof (Hclock (xlog s) (Got mtls url)) as C1. cbn in C1.
  pose proof (Hclock (xlog s ++ [Got mtls url]) (Slept 500)) as C2. cbn in C2.
  assert (forall m, (if N.ltb (clock (xlog s ++ [Got mtls url]) - start) READY_TIMEOUT
      then (let! _ := do_ (Slept 500) in poll fuel mtls url what start) (MkX (xdisk s) (xlog s ++ [Got mtls url]))
      else xfail m (MkX (xdisk s) (xlog s ++ [Got mtls url]))) = (Err e, s') -> tame e) as Hw.
  { intros m. destruct (N.ltb _ _) eqn:Ht; [|by intros [= <- _]]. apply N.ltb_lt in Ht. unfold READY_TIMEOUT in Ht.
    intros [H2|(u & s2 & H2 & H3)]%mbnd_Err; [done|]. injection H2 as <- <-. cbn [xlog xdisk] in H3.
    apply (IH _ ltac:(lia)) in H3; [done|]. cbn [xlog]. lia. }
  destruct (http _ _) as [e0|e0|st b]; [by eapply Hw..|done].
Qed.

Lemma orderly_wait_for (Hclock : clock_advances) mtls url what : orderly (wait_for mtls url what).
Proof.
  apply orderly_bnd; [apply orderly_say|]. intros _ s e s'.
  apply (orderly_poll Hclock); [unfold READY_FUEL; lia|]. unfold READY_FUEL. lia.
Qed.

Lemma orderly_up (Hclock : clock_advances) : orderly up.
Proof.
  apply orderly_bnd; [|intros bottom; apply orderly_bnd; [apply orderly_tmux_ok|]; intros _;
    apply orderly_bnd; [apply orderly_lift; destruct bare_client; [done|by intros ? [= <-]]|]; intros _;
    apply orderly_bnd; [|intros _; orderly_cases]].
  - unfold prepare_panes. apply orderly_bnd; [apply orderly_require_tmux|]. intros _.
    apply orderly_bnd; [apply orderly_session_exists|]. intros []; [apply orderly_fail|].
    destruct (negb _); [apply orderly_fail|]. apply orderly_bnd; [apply orderly_lift, load_configs_tame|]. intros cfgs.
    apply orderly_bnd; [apply orderly_seed_identities|]. intros keys. apply orderly_bnd; [by apply orderly_on_disk|].
    intros leaf. apply orderly_bnd.
    { unfold lay_out. do 4 (apply orderly_bnd; [apply orderly_new_pane|]; intros ?).
      apply orderly_bnd; [by apply orderly_launch|]. auto with orderly_db. }
    intros bottom. apply orderly_bnd; [|auto with orderly_db]. unfold gate.
    apply orderly_bnd; [by apply orderly_on_disk|]. intros tls.
    apply orderly_bnd; [apply orderly_lift; destruct (blocking_http_client _ _); [done|by intros ? [= <-]]|]. intros _.
    induction cfgs as [|c cfgs IH]; simpl; [apply orderly_pure|].
    apply orderly_bnd; [by apply orderly_wait_for|]. intros _. apply IH.
  - unfold provision_dkg. apply orderly_bnd; [by apply orderly_wait_for|]. intros [st b].
    destruct (is_success st); (apply orderly_bnd; [apply orderly_address || apply orderly_say|]; intros ?);
      [apply orderly_say|]. apply orderly_bnd; [apply orderly_request|]. intros [e|e|st' b']; [apply orderly_fail..|].
    destruct (is_success st'); [apply orderly_bnd; [apply orderly_address|]; intros addr; apply orderly_say|].
    destruct (N.eqb st' 409); [apply orderly_say|apply orderly_fail].
Qed.

(** The launcher ends.  Whatever commands, HTTP servers and the disk answer,
    every subcommand ends without a panic and without exhausting the polls of
    its waiting loop, as soon as time passes while it sleeps: the 1201 polls of
    the model cover the code's ten minutes of half-second waits. *)
Theorem launcher_ends (Hclock : clock_advances) c s :
  match (main c s).1 with Err XStuck | Err (XPanic _) => False | _ => True end.
Proof.
  assert (orderly (main c)) as Ho.
  { destruct c as [| | |san].
    - by apply orderly_up.
    - unfold main, down. apply orderly_bnd; [apply orderly_require_tmux|]. intros _.
      apply orderly_bnd; [apply orderly_session_exists|]. intros []; [|apply orderly_say].
      apply orderly_bnd; [apply orderly_tmux_ok|]. intros _. apply orderly_say.
    - apply orderly_bnd; [apply orderly_ci_steps|]. intros _. apply orderly_say.
    - apply orderly_bnd; [apply orderly_lift, load_configs_tame|]. intros cfgs.
      apply orderly_bnd; [by apply orderly_on_disk|]. intros leaf. apply orderly_say. }
  destruct (main c s) as [[u|e] s'] eqn:E; [done|]. apply (Ho _ _ _ E).
Qed.

(** C37: [up] pairs the parties before the orchestrator exists.  From a disk
    where nothing fails: if the orchestrator's command was typed at all, then
    before it every party was started with one and the same roster and every
    party's health endpoint answered; and every party that starts with this
    roster loads the key its own slot of the roster stands for (the seeded
    identity, never a new one) and accepts the roster.  (The configurations
    are what the config crate reads, [config_file].) *)
Theorem up_pairs_the_parties {HL : HexLaws X} s r s' :
  up s = (r, s') -> xlog s = [] -> faults (xdisk s) = [] -> (exists a, a ∈ xlog s' /\ api_line a) ->
  exists bottom before after cfgs keys,
    xlog s' = before ++ Ran ["tmux"; "send-keys"; "-t"; bottom; API_LINE; "C-m"] :: after /\
    Forall (fun a => ~ api_line a) before /\
    load_configs CONFIGS = Ok cfgs /\ length keys = length cfgs /\
    Forall (launched keys before) CONFIGS /\ Forall (answered before) cfgs /\
    forall i c k, cfgs !! i = Some c -> keys !! i = Some k ->
    forall cfg fresh', cfg_participants cfg = Some (show_identity_key <$> keys) ->
      N.to_nat (wval (Startup.party_id cfg)) = i ->
      load_or_generate (under_root (data_dir c)) fresh' (xdisk s') = (Ok k, xdisk s') /\
      load_roster cfg k = Ok (Some (verifying_key <$> keys)).
Proof.
  intros Hup Hlog Hs Hapi. destruct (up_order _ _ _ Hup Hlog Hapi) as (bottom & s1 & after & Hp & [_ L] & Hno & Hl).
  assert (faults (xdisk s1) = []) as Q1.
  { destruct (prepare_types_no_api _ _ _ Hp) as [_ D]. by apply D. }
  destruct (L Q1) as [Q2 K2]. apply prepare_brings_up in Hp as (cfgs & keys & Hc & Hid & Hla & Han); [|done].
  exists bottom, (xlog s1), after, cfgs, keys. split_and!; try done; [by apply Forall2_length in Hid|].
  intros i c k Hci Hki cfg fresh' Hpart Hparty. split.
  - assert (holds_identity (fs (xdisk s')) (under_root (data_dir c)) k) as Hh.
    { apply (holds_identity_kept _ _ _ _ K2). by apply (Forall2_lookup_lr _ _ _ _ _ _ Hid Hci Hki). }
    apply (holds_identity_loads _ _ _ fresh') in Hh. clear -Hh Q2. destruct (xdisk s') as [f l]. cbn in Hh, Q2. by rewrite Q2.
  - apply load_roster_shown; [done|]. by rewrite Hparty.
Qed.

End Xtask.

(** ** Re-running the provisioning *)
Section Reruns.
Context {R : Rcgen} {RL : RcgenLaws R}.

(** Provisioning is additive.  [seed_certs] never changes a file that is
    there (on a disk where nothing fails), whether it succeeds or not.  Once it
    succeeded, whatever failed before, every party and the orchestrator has
    its leaf pair, and a re-run, with any clock, any SANs and any keys it
    would draw, gives the same paths and changes nothing. *)
Theorem seed_certs_additive root listing now drawn ids sans w r w' :
  seed_certs root listing now drawn ids sans w = (r, w') ->
  (faults w = [] -> kept (fs w) (fs w')) /\
  forall p, r = Ok p ->
    let dir := State.join root "certs" in
    p = leaf_paths dir "orchestrator" /\
    Forall (has_leaf (fs w') dir) ("orchestrator" :: cosigner_stems ids) /\
    forall listing' now' drawn' sans',
      seed_certs root listing' now' drawn' ids sans' (no_faults w') = (Ok p, no_faults w').
Proof.
  intros H. split; [intros Hw; by apply (seed_certs_keeps root listing now drawn ids sans w r w')|].
  intros p -> dir. destruct (seed_certs_provisions root listing now drawn ids sans w p w' H) as (-> & ca & Hp).
  split_and!; [done| |intros; by apply (seed_certs_reruns _ _ _ _ _ _ _ ca)].
  destruct Hp as (_ & _ & [Hl [Ho _]%Forall_cons]%Forall_app). constructor; [done|].
  by rewrite <- (Forall_reverse _ (cosigner_stems ids)).
Qed.
End Reruns.

(** ** A concrete machine and witnesses *)
(** The clock counts the sleeps; the processes answer once the launcher slept. *)
Definition demo_clock (l : list act) : N :=
  foldr (fun a n => (match a with Slept ms => ms | _ => 0 end + n)%N) 0%N l.
Definition has_slept (l : list act) : bool := existsb (fun a => match a with Slept _ => true | _ => false end) l.
Definition demo_http (l : list act) (a : act) : reply :=
  if has_slept l then Reply 200 (Some "{}") else SendFailed "refused".
Definition demo_run (l : list act) (argv : list string) : result io_error Output :=
  Ok (MkOutput (negb (bool_decide (argv !! 1%nat = Some "has-session"))) (bstr "%1") "").
Definition demo_party (i : N) : Startup.Config :=
  Startup.MkConfig (wmod 8 i) (wmod 8 2) None "127.0.0.1:4000" [show_u8 (wmod 8 i)] ["policy"]
    (State.join ["w"; "certs"] CA_CERT_FILE)
    (leaf_cert (leaf_paths ["w"; "certs"] (String.append "cosigner" (show_u8 (wmod 8 i)))))
    (leaf_key (leaf_paths ["w"; "certs"] (String.append "cosigner" (show_u8 (wmod 8 i))))) None default_relay_url
    default_ttl_secs.
Definition demo_config (p : path) : result msg Startup.Config :=
  Ok (demo_party (if bool_decide (last p = Some "cosigner0.toml") then 0
                  else if bool_decide (last p = Some "cosigner1.toml") then 1 else 2)).
Definition demo_up (s : xst) :=
  up (K := ToyKeys) (X := ToyHex) (R := ToyRcgen) (T := ToyRustls) (TX := ToyTexts) demo_run demo_http demo_clock demo_config (Ok tt)
    (fun _ => None) None ["w"] (fun _ => false) table_listing 0 (fun _ => Ok true) (fun i => toy_key (N.of_nat i)) s.
Definition demo_x : xst := MkX (World ∅ []) [].

Lemma demo_clock_advances : clock_advances demo_clock.
Proof.
  intros l a. unfold demo_clock. induction l as [|b l IH]; cbn [foldr app]; [destruct a; cbn; lia|].
  destruct b; lia.
Qed.

Lemma launcher_ends_witness :
  match (main (K := ToyKeys) (X := ToyHex) (R := ToyRcgen) (T := ToyRustls) (TX := ToyTexts) demo_run (fun _ _ => SendFailed "refused")
           demo_clock demo_config (Ok tt) (fun _ => None) None ["w"] (fun _ => false) table_listing 0 (fun _ => Ok true)
           (fun i => toy_key (N.of_nat i)) Up demo_x).1
  with Err XStuck | Err (XPanic _) => False | _ => True end.
Proof.
  exact (launcher_ends (K := ToyKeys) (X := ToyHex) (R := ToyRcgen) (T := ToyRustls) (TX := ToyTexts) demo_run (fun _ _ => SendFailed "refused")
           demo_clock demo_config (Ok tt) (fun _ => None) None ["w"] (fun _ => false) table_listing 0 (fun _ => Ok true)
           (fun i => toy_key (N.of_nat i)) demo_clock_advances Up demo_x).
Defined.

Lemma demo_up_ok : demo_up demo_x = (Ok tt, snd (demo_up demo_x)).
Proof. vm_cast_no_check (eq_refl (demo_up demo_x)). Qed.

Lemma demo_up_api : Ran ["tmux"; "send-keys"; "-t"; "%1"; API_LINE; "C-m"] ∈ xlog (snd (demo_up demo_x)).
Proof.
  apply (bool_decide_eq_true_1 (Ran ["tmux"; "send-keys"; "-t"; "%1"; API_LINE; "C-m"] ∈ xlog (snd (demo_up demo_x)))).
  vm_compute. reflexivity.
Qed.

Lemma up_pairs_the_parties_witness :
  exists before after : list act, exists bottom,
    xlog (snd (demo_up demo_x)) = before ++ Ran ["tmux"; "send-keys"; "-t"; bottom; API_LINE; "C-m"] :: after /\
    Forall (fun a => ~ api_line a) before.
Proof.
  destruct (up_pairs_the_parties (K := ToyKeys) (X := ToyHex) (R := ToyRcgen) (T := ToyRustls) (TX := ToyTexts) demo_run demo_http
              demo_clock demo_config (Ok tt) (fun _ => None) None ["w"] (fun _ => false) table_listing 0 (fun _ => Ok true)
              (fun i => toy_key (N.of_nat i)) demo_x (Ok tt) (snd (demo_up demo_x)))
    as (bottom & before & after & _ & _ & Hl & Hno & _).
  - exact demo_up_ok.
  - reflexivity.
  - reflexivity.
  - exists (Ran ["tmux"; "send-keys"; "-t"; "%1"; API_LINE; "C-m"]). split; [exact demo_up_api|by exists "%1"].
  - exists before, after, bottom. split; [exact Hl|exact Hno].
Defined.

Definition demo_seed (fault : option nat) := seed_certs (R := ToyRcgen) ["w"] table_listing 0 (fun _ => Ok true)
  [wmod 8 0; wmod 8 1] [] (World ∅ [None; None; fault]).

Lemma demo_seed_ok : demo_seed None = (Ok (leaf_paths ["w"; "certs"] "orchestrator"), snd (demo_seed None)).
Proof. vm_cast_no_check (eq_refl (demo_seed None)). Qed.

Lemma seed_certs_additive_witness :
  seed_certs (R := ToyRcgen) ["w"] table_listing 5 (fun _ => Ok false) [wmod 8 0; wmod 8 1] ["host"]
    (no_faults (snd (demo_seed None)))
  = (Ok (leaf_paths ["w"; "certs"] "orchestrator"), no_faults (snd (demo_seed None))).
Proof.
  destruct (seed_certs_additive (R := ToyRcgen) ["w"] table_listing 0 (fun _ => Ok true) [wmod 8 0; wmod 8 1] []
              (World ∅ [None; None; None]) _ _ demo_seed_ok) as [_ Hre].
  destruct (Hre _ eq_refl) as (_ & _ & H). exact (H table_listing 5%Z (fun _ => Ok false) ["host"]).
Defined.
