(* ===== verification/Bringup.v ===== *)
(** * From provisioning to serving

    The composition of [Certs], [Xtask], [Tls] and [Startup]: the certificates
    the launcher seeds are the material every party starts with, and a started
    party serves mutual TLS under the one root all of them trust. *)

From S2P Require Import Prelude Text Types Mpc State Policy Network Cosigner Startup Certs Tls Cli Provision Xtask.
From Stdlib Require Import String Ascii NArith ZArith Lia.
From stdpp Require Import base decidable list gmap strings.
Open Scope string_scope. Open Scope list_scope.

(** ** The processes that hold a leaf *)
(** A file stem and the common name of its certificate. *)
Definition orchestrator_leaf : string * string := ("orchestrator", "sovra-orchestrator").
Definition party_leaf (id : u8) : string * string :=
  (String.append "cosigner" (show_u8 id), String.append "sovra-cosigner-" (show_u8 id)).
Definition process_leaf (p : string * string) : Prop := p = orchestrator_leaf \/ exists id, p = party_leaf id.

Lemma process_named p : process_leaf p -> named p.1.
Proof. intros [->|[id ->]]; [apply orchestrator_named|apply cosigner_named]. Qed.

Lemma process_same p p' : process_leaf p -> process_leaf p' -> p.1 = p'.1 -> p = p'.
Proof.
  intros [->|[i ->]] [->|[j ->]] E; [done|discriminate E|discriminate E|].
  apply (append_cancel "cosigner") in E. unfold party_leaf. by rewrite E.
Qed.

Lemma append_inj_suffix a b c d :
  String.length c = String.length d -> String.append a c = String.append b d -> a = b /\ c = d.
Proof.
  intros Hl E. apply (f_equal list_ascii_of_string) in E. rewrite !list_ascii_app in E.
  assert (forall s, length (list_ascii_of_string s) = String.length s) as Hlen by (induction s; cbn; auto).
  apply app_inj_2 in E as [E1 E2]; [|by rewrite !Hlen].
  apply (f_equal string_of_list_ascii) in E1, E2. by rewrite !string_of_list_ascii_of_string in E1, E2.
Qed.

Lemma append_shift a b c : String.append a (String.append b c) = String.append (String.append a b) c.
Proof. induction a as [|x a IH]; [done|]. exact (f_equal (String x) IH). Qed.

Lemma key_not_cert a b : String.append a ".key.pem" <> String.append b ".cert.pem".
Proof.
  change ".cert.pem" with (String.append "." "cert.pem"). intros E.
  rewrite append_shift in E. by apply append_inj_suffix in E as [_ E].
Qed.

(** Distinct processes have distinct files. *)
Lemma leaf_files_apart dir s s' : s <> s' ->
  let lp := leaf_paths dir s in let lp' := leaf_paths dir s' in
  leaf_key lp' <> leaf_key lp /\ leaf_key lp' <> leaf_cert lp /\
  leaf_cert lp' <> leaf_key lp /\ leaf_cert lp' <> leaf_cert lp.
Proof.
  intros Hne. cbv zeta. unfold leaf_paths. cbn [leaf_key leaf_cert].
  split_and!; intros Eq%app_inv_head; injection Eq as Eq.
  - apply append_inj_suffix in Eq as [-> _]; done.
  - by apply key_not_cert in Eq.
  - symmetry in Eq. by apply key_not_cert in Eq.
  - apply append_inj_suffix in Eq as [-> _]; done.
Qed.

Section Bringup.
Context {R : Rcgen} {RL : RcgenLaws R}.

(** *** What a directory of certificates holds *)
Definition absent_leaf (f : gmap path node) (dir : path) (stem : string) : Prop :=
  content f (leaf_key (leaf_paths dir stem)) = None /\ content f (leaf_cert (leaf_paths dir stem)) = None.

(** The certificate [leaf] of [key], both on disk, issued under [ca] to [p]. *)
Definition chained (f : gmap path node) (dir : path) (ca : Ca) (p : string * string) (key : KeyPair)
    (leaf : Certificate) : Prop :=
  content f (leaf_key (leaf_paths dir p.1)) = Some (Some (serialize_pem key)) /\
  content f (leaf_cert (leaf_paths dir p.1)) = Some (Some (cert_pem leaf)) /\
  cert_issuer leaf = issuer_id (issuer ca) /\ cert_subject_key leaf = pub_of key /\
  common_name (cert_params leaf) = Some (Utf8String p.2) /\
  extended_key_usages (cert_params leaf) = [ServerAuth; ClientAuth].

(** Every leaf there is chains to the CA there is. *)
Definition one_root (f : gmap path node) (dir : path) (ca : Ca) : Prop :=
  minted_ca f dir ca /\
  forall p, process_leaf p -> absent_leaf f dir p.1 \/ exists key leaf, chained f dir ca p key leaf.

Lemma chained_kept f f' dir ca p key leaf :
  named p.1 -> kept f f' -> chained f dir ca p key leaf -> chained f' dir ca p key leaf.
Proof.
  intros Hn Hk (Ck & Cc & H). destruct (has_leaf_names dir p.1 Hn) as [T1 T2].
  split; [by rewrite Hk, Ck by (done || by rewrite Ck)|]. split; [|done].
  by rewrite Hk, Cc by (done || by rewrite Cc).
Qed.

Lemma minted_kept f f' dir ca : kept f f' -> minted_ca f dir ca -> minted_ca f' dir ca.
Proof.
  intros Hk (key & cert & i & Ck & Cc & H). exists key, cert, i.
  rewrite (Hk (ca_key_path dir)), (Hk (ca_cert_path dir)); unfold ca_key_path, ca_cert_path in *;
    rewrite ?tmp_name_snoc; congruence || done.
Qed.

(** One more leaf keeps the directory under one root. *)
Lemma ensure_leaf_one_root now drawn dir p sans ca w paths w' :
  process_leaf p -> faults w = [] -> one_root (fs w) dir ca ->
  ensure_leaf now drawn dir p.1 p.2 sans ca w = (Ok paths, w') ->
  faults w' = [] /\ kept (fs w) (fs w') /\ one_root (fs w') dir ca /\
  exists key leaf, chained (fs w') dir ca p key leaf.
Proof.
  intros Hp Hw [Hca Hall] H. pose proof (process_named p Hp) as [Hslash _].
  destruct (ensure_leaf_keeps _ _ _ _ _ _ _ Hslash _ _ _ Hw H) as [Hw' Hk].
  pose proof H as Hc. apply ensure_leaf_cases in Hc; [|done|by apply quiet_steady].
  assert (exists key leaf, chained (fs w') dir ca p key leaf) as Hown.
  { destruct (Hall p Hp) as [[A1 A2]|(key & leaf & Ch)].
    - rewrite A2, A1 in Hc. destruct Hc as (_ & _ & _ & Hm).
      destruct (Hm (or_intror eq_refl)) as (key & p0 & leaf & _ & _ & Fk & Fc & I1 & I2 & I3 & _ & _ & _ & I4 & _).
      exists key, leaf. unfold chained, content. by rewrite Fk, Fc.
    - exists key, leaf. by apply (chained_kept (fs w) _ _ _ _ _ _ (process_named p Hp) Hk). }
  split_and!; try done. split; [by apply (minted_kept (fs w))|]. intros p' Hp'.
  destruct (Hall p' Hp') as [[A1 A2]|(key & leaf & Ch)].
  - destruct (decide (p.1 = p'.1)) as [E|Hne]; [right; by rewrite <- (process_same p p' Hp Hp' E)|].
    left. destruct (leaf_files_apart dir p.1 p'.1 Hne) as (N1 & N2 & N3 & N4).
    destruct (content (fs w) (leaf_cert (leaf_paths dir p.1))), (content (fs w) (leaf_key (leaf_paths dir p.1)));
      [destruct Hc as [_ ->]; done..|]. destruct Hc as [Ho _]. destruct (has_leaf_names dir p'.1 (process_named p' Hp')).
    unfold absent_leaf, content in *. rewrite !Ho; try done; intros E; rewrite E in *;
      unfold leaf_paths in *; cbn [leaf_key leaf_cert] in *; by rewrite tmp_name_tmp in *.
  - right. exists key, leaf. by apply (chained_kept (fs w) _ _ _ _ _ _ (process_named p' Hp') Hk).
Qed.

(** The CA of an empty place starts a directory under one root: the stale-leaf
    check saw that no leaf was there. *)
Lemma ensure_ca_one_root listing now drawn dir w ca w' :
  lists_children listing -> faults w = [] ->
  content (fs w) (ca_cert_path dir) = None -> content (fs w) (ca_key_path dir) = None ->
  ensure_ca listing now drawn dir w = (Ok ca, w') -> faults w' = [] /\ one_root (fs w') dir ca.
Proof.
  intros Hl Hw Hc Hk H. destruct (ensure_ca_keeps _ _ _ _ _ _ _ Hw H) as [Hw' _].
  apply ensure_ca_mints in H as [Hm Hno]; [|by apply quiet_steady|done..]. specialize (Hno Hl).
  split; [done|]. split; [done|]. intros p Hp. left.
  assert (forall n, pem_leaf n = true -> tmp_name (dir ++ [n]) = false -> content (fs w') (dir ++ [n]) = None) as Hn.
  { intros n Hpem Ht. apply Hno; [done|..]; intros E; rewrite E in Ht; unfold ca_cert_path, ca_key_path in Ht;
      by rewrite tmp_name_tmp in Ht. }
  destruct (process_named p Hp) as [_ Hnm], (has_leaf_names dir p.1 (process_named p Hp)) as [T1 T2].
  assert (forall s suffix, ends_with ".pem" (String.append s suffix) = true -> s = p.1 ->
            pem_leaf (String.append s suffix) = true) as Hpl.
  { intros s suffix He ->. unfold pem_leaf. rewrite He. destruct (Hnm suffix) as (_ & N1 & N2).
    by rewrite !bool_decide_eq_false_2. }
  split; apply Hn; try done; apply Hpl; try done.
  - change ".key.pem" with (String.append ".key" ".pem"). rewrite append_shift. apply ends_with_app.
  - change ".cert.pem" with (String.append ".cert" ".pem"). rewrite append_shift. apply ends_with_app.
Qed.

Lemma seed_leaves_one_root now drawn dir i ids sans ca w u w' :
  faults w = [] -> one_root (fs w) dir ca -> seed_leaves now drawn dir i ids sans ca w = (Ok u, w') ->
  faults w' = [] /\ kept (fs w) (fs w') /\ one_root (fs w') dir ca /\
  forall id, id ∈ ids -> exists key leaf, chained (fs w') dir ca (party_leaf id) key leaf.
Proof.
  revert i w. induction ids as [|id ids IH]; intros i w Hw Hr; simpl.
  - intros [= _ <-]. split_and!; [done|done|done|]. intros id Hid. by apply not_elem_of_nil in Hid.
  - intros (p & w1 & H1 & H2)%mbnd_Ok.
    apply (ensure_leaf_one_root _ _ _ (party_leaf id)) in H1 as (Q1 & K1 & R1 & key & leaf & Ch); [|by right; exists id|done..].
    apply IH in H2 as (Q2 & K2 & R2 & Hall); [|done..]. split_and!; [done|by transitivity (fs w1)|done|].
    intros id' [->|Hin]%elem_of_cons; [|by apply Hall]. exists key, leaf.
    apply (chained_kept (fs w1)); [apply cosigner_named|done|done].
Qed.

(** The processes certificates are seeded for. *)
Definition seeded (ids : list u8) (p : string * string) : Prop :=
  p = orchestrator_leaf \/ exists id, id ∈ ids /\ p = party_leaf id.

Lemma seed_certs_one_root root listing now drawn ids sans w paths w' :
  let dir := State.join root "certs" in
  lists_children listing -> faults w = [] ->
  content (fs w) (ca_cert_path dir) = None -> content (fs w) (ca_key_path dir) = None ->
  seed_certs root listing now drawn ids sans w = (Ok paths, w') ->
  faults w' = [] /\ exists ca, minted_ca (fs w') dir ca /\
    forall p, seeded ids p -> exists key leaf, chained (fs w') dir ca p key leaf.
Proof.
  intros dir Hl Hw Hc Hk (ca & w1 & H1 & H)%mbnd_Ok.
  apply ensure_ca_one_root in H1 as [Q1 R1]; [|done..].
  apply mbnd_Ok in H as (o & w2 & H2 & H).
  apply (ensure_leaf_one_root _ _ _ orchestrator_leaf) in H2 as (Q2 & K2 & R2 & key & leaf & Ch); [|by left|done..].
  apply mbnd_Ok in H as (u & w3 & H3 & [_ <-]%pair_eq).
  apply seed_leaves_one_root in H3 as (Q3 & K3 & [Hm _] & Hall); [|done..].
  split; [done|]. exists ca. split; [done|]. intros p [->|(id & Hid & ->)]; [|by apply Hall].
  exists key, leaf. apply (chained_kept (fs w2)); [apply orchestrator_named|done|done].
Qed.

(** *** What is loaded from it *)
Context {TL : Rustls} {B : PemBridge R TL}.

Definition peer_material (root leaf : Certificate) (key : KeyPair) : TlsMaterials :=
  MkMaterials (der root) [der leaf] (key_der key) (cert_pem root) (cert_pem leaf ++ serialize_pem key).

Lemma chained_material f dir ca p key leaf root :
  content f (ca_cert_path dir) = Some (Some (cert_pem root)) -> chained f dir ca p key leaf ->
  material_of f (ca_cert_path dir) (leaf_cert (leaf_paths dir p.1)) (leaf_key (leaf_paths dir p.1))
    (peer_material root leaf key).
Proof.
  intros Cr (Ck & Cc & _). exists (cert_pem leaf), (serialize_pem key). cbn.
  rewrite cert_pem_first, cert_pem_all, key_pem_first. by split_and!.
Qed.

Context {RA : RustlsAccepts B}.

Lemma peer_configs root leaf key :
  cert_subject_key leaf = pub_of key ->
  exists cc sc, ws_client_config (peer_material root leaf key) = Ok cc /\
    server_config (peer_material root leaf key) = Ok sc.
Proof.
  intros Hk. destruct (accepts_root root) as (r & v & Hr & Hv). destruct (serves_pair v leaf key Hk) as [sc Hs].
  destruct (presents_pair r leaf key Hk) as [cc Hc]. exists cc, sc.
  unfold ws_client_config, server_config, root_store. cbn. rewrite Hr. cbn. rewrite Hc, Hv. cbn. by rewrite Hs.
Qed.

(** *** A provisioned party serves *)
Context {C : Crypto} {K : KeyBytes C} {X : HexCodec} {A : AlloyParse} {T : TomlLib} {KL : KeyLaws K}.

(** The rest of what a party's startup reads: its identity, a roster with it,
    the sealing key, the policy, the relay's address and the store. *)
Definition ready (f : gmap path node) (cfg : Startup.Config) (key : SigningKey) (s : CosignerState)
    (f' : gmap path node) : Prop :=
  identity_on f (data_dir cfg) key /\ validate_config cfg = Ok tt /\ load_roster cfg key = Ok (cs_roster s) /\
  sealer_of f cfg (sealer (cs_store s)) /\ policy_of f (policy_path cfg) (cs_policy s) /\
  has_prefix "wss://" (relay_url cfg) = true /\ mkdirs f [] (data_dir cfg ++ ["store"]) = Some f' /\
  s = MkCosigner (Startup.party_id cfg) key (cs_roster s) (Startup.threshold cfg)
        (MkStore (data_dir cfg ++ ["store"]) (sealer (cs_store s))) (wval (ttl_secs cfg) * 1000)%N (cs_policy s).

(** [cfg] names [dir]'s trust root and the leaf of [p]. *)
Definition names_leaf (cfg : Startup.Config) (dir : path) (p : string * string) : Prop :=
  tls_ca_path cfg = ca_cert_path dir /\ tls_cert_path cfg = leaf_cert (leaf_paths dir p.1) /\
  tls_key_path cfg = leaf_key (leaf_paths dir p.1).

(** [cfg]'s process comes up on [w] with the material [m], as the state [s],
    and then runs exactly as long as its listener serves it. *)
Definition serves (cfg : Startup.Config) (w : world) (m : TlsMaterials) (cc : ClientConfig) (sc : ServerConfig)
    (s : CosignerState) (w' : world) : Prop :=
  forall fresh, start cfg fresh w = (Ok (MkStarted s cc m), w') /\
    forall served, run cfg fresh (fun _ => Ok tt) (Ok tt) served w
      = (map_err (fun e => StartTls (Serve e)) (served s sc), w').

Lemma ready_serves cfg dir p w m cc sc key s f' :
  names_leaf cfg dir p ->
  material_of (fs w) (ca_cert_path dir) (leaf_cert (leaf_paths dir p.1)) (leaf_key (leaf_paths dir p.1)) m ->
  ws_client_config m = Ok cc -> server_config m = Ok sc -> ready (fs w) cfg key s f' ->
  serves cfg (no_faults w) m cc sc s (World f' []).
Proof.
  intros (N1 & N2 & N3) Hm Hcc Hsc (Hid & Hv & Hr & Hs & Hp & Hu & Hmk & Es) fresh.
  assert (start cfg fresh (no_faults w) = (Ok (MkStarted s cc m), World f' [])) as Hst.
  { apply (startable_runs w cfg fresh key); [done| |done]. unfold startable. cbn. rewrite N1, N2, N3. rewrite Es.
    cbn. by split_and!. }
  split; [done|]. intros served. unfold run, mbnd, serve_mtls. rewrite Hst. cbn. rewrite Hsc. cbn.
  by destruct (served s sc).
Qed.

(** C38: provisioning ends in a system that can talk.  Where there was no CA,
    after the launcher seeded the certificates every process it named loads its
    three files, with the one CA of the directory as its only trust root and a
    leaf of its own key, issued by that CA under its own name for both sides of
    a connection, although the CA was made in the same run: a leaf left over
    from another one would have stopped it.  Every party configured with these
    paths whose identity, roster, sealing key, policy, relay and store are in
    order comes up with exactly this state and material, and serves mutual TLS
    from it. *)
Theorem provisioned_parties_serve root listing now drawn ids sans w paths w' :
  let dir := State.join root "certs" in
  lists_children listing -> faults w = [] ->
  content (fs w) (ca_cert_path dir) = None -> content (fs w) (ca_key_path dir) = None ->
  seed_certs root listing now drawn ids sans w = (Ok paths, w') ->
  exists ca_cert ca_pair i, issuer_from_ca_cert_pem (cert_pem ca_cert) ca_pair = Ok i /\
  forall p, seeded ids p -> exists m cc sc leaf pair,
    load (ca_cert_path dir) (leaf_cert (leaf_paths dir p.1)) (leaf_key (leaf_paths dir p.1)) w' = (Ok m, w') /\
    tm_ca m = der ca_cert /\ cert_chain m = [der leaf] /\ tm_key m = key_der pair /\
    cert_issuer leaf = issuer_id i /\ cert_subject_key leaf = pub_of pair /\
    common_name (cert_params leaf) = Some (Utf8String p.2) /\
    extended_key_usages (cert_params leaf) = [ServerAuth; ClientAuth] /\
    ws_client_config m = Ok cc /\ server_config m = Ok sc /\
    forall cfg key s f', names_leaf cfg dir p -> ready (fs w') cfg key s f' ->
      serves cfg w' m cc sc s (World f' []).
Proof.
  intros dir Hl Hw Hc Hk H.
  destruct (seed_certs_one_root _ _ _ _ _ _ _ _ _ Hl Hw Hc Hk H) as (Q & ca & (rk & rc0 & i & Ck & Cc & Hi & Hid) & Hall).
  exists rc0, rk, i. split; [done|]. intros p Hp. destruct (Hall p Hp) as (pair & leaf & Ch).
  pose proof (chained_material _ _ _ _ _ _ _ Cc Ch) as Hm. destruct Ch as (_ & _ & I1 & I2 & I3 & I4).
  destruct (peer_configs rc0 leaf pair I2) as (cc & sc & Hcc & Hsc).
  assert (no_faults w' = w') as E by (destruct w'; cbn in *; by rewrite Q).
  exists (peer_material rc0 leaf pair), cc, sc, leaf, pair. rewrite <- E at 1 2.
  split; [by apply load_runs|]. split_and!; try done; [by rewrite Hid|].
  intros cfg key s f' Hn Hr. rewrite <- E. by apply (ready_serves cfg dir p w' _ _ _ key).
Qed.
End Bringup.

(** ** A provisioned two-party fleet *)
Definition bring_world : world := World (list_to_map [
  ([], Dir 493%N); (["policy.toml"], File [] 420%N); (["data"], Dir 493%N);
  (["data"; "identity.key"], File (arr (toy_key 1)) 384%N)]) [].
Definition bring_run := seed_certs (R := ToyRcgen) ["w"] table_listing 0 (fun _ => Ok true) [wmod 8 0; wmod 8 1] []
  bring_world.
Definition bring_dir : path := ["w"; "certs"].
Definition bring_cfg : Startup.Config :=
  Startup.MkConfig (wmod 8 0) (wmod 8 2) (Some [hex_encode (HexCodec := ToyHex) (arr (toy_key 1)); hex_encode (HexCodec := ToyHex) (arr (toy_key 2))])
    default_bind_addr ["data"] ["policy.toml"] (ca_cert_path bring_dir)
    (leaf_cert (leaf_paths bring_dir (party_leaf (wmod 8 0)).1)) (leaf_key (leaf_paths bring_dir (party_leaf (wmod 8 0)).1))
    None default_relay_url default_ttl_secs.

Lemma bring_seeded : bring_run = (Ok (leaf_paths bring_dir "orchestrator"), snd bring_run).
Proof. vm_cast_no_check (eq_refl bring_run). Qed.

Definition bring_state (pol : Policy) : CosignerState (C := ToyCrypto) :=
  MkCosigner (wmod 8 0) (toy_sk 1) (Some [toy_key 1; toy_key 2]) (wmod 8 2)
    (MkStore ["data"; "store"] Passthrough) (60 * 1000)%N pol.

Lemma bring_policy : exists pol, policy_of (A := ToyParse) (T := ToyToml) (fs (snd bring_run)) ["policy.toml"] pol.
Proof.
  eexists. exists [], [("allowed_chain_ids", TArr [TInt 1%Z]); ("allowed_recipients", TArr [TStr "*"]);
                           ("max_value_wei", TStr "5"); ("allow_calldata", TBool false)].
  split_and!; vm_compute; reflexivity.
Qed.

Lemma bring_store : is_Some (mkdirs (fs (snd bring_run)) [] ["data"; "store"]).
Proof.
  assert (match mkdirs (fs (snd bring_run)) [] ["data"; "store"] with Some _ => true | None => false end = true) as H
    by (vm_cast_no_check (eq_refl true)).
  destruct (mkdirs _ _ _) as [f|]; [by exists f|discriminate H].
Qed.

Lemma bring_identity : identity_on (K := ToyKeys) (fs (snd bring_run)) ["data"] (toy_sk 1).
Proof. vm_cast_no_check (eq_refl (Some (Some (arr (toy_key 1))))). Qed.

Lemma bring_roster : load_roster (K := ToyKeys) (X := ToyHex) bring_cfg (toy_sk 1) = Ok (Some [toy_key 1; toy_key 2]).
Proof. vm_compute. reflexivity. Qed.

Lemma bring_ready pol : policy_of (A := ToyParse) (T := ToyToml) (fs (snd bring_run)) ["policy.toml"] pol ->
  exists f', ready (K := ToyKeys) (X := ToyHex) (A := ToyParse) (T := ToyToml) (fs (snd bring_run)) bring_cfg (toy_sk 1)
    (bring_state pol) f'.
Proof.
  intros Hp. destruct bring_store as [f' Hm]. exists f'. split; [exact bring_identity|]. split; [reflexivity|].
  split; [exact bring_roster|]. split; [reflexivity|]. split; [exact Hp|]. split; [reflexivity|].
  split; [exact Hm|reflexivity].
Qed.

Lemma provisioned_parties_serve_witness :
  exists pol m cc sc w2,
    serves (TL := ToyRustls) (K := ToyKeys) (X := ToyHex) (A := ToyParse) (T := ToyToml) bring_cfg (snd bring_run) m cc sc
      (bring_state pol) w2.
Proof.
  destruct (provisioned_parties_serve (R := ToyRcgen) (TL := ToyRustls) (B := ToyBridge) (C := ToyCrypto) (K := ToyKeys)
              (X := ToyHex) (A := ToyParse) (T := ToyToml) ["w"] table_listing 0 (fun _ => Ok true) [wmod 8 0; wmod 8 1] []
              bring_world (leaf_paths bring_dir "orchestrator") (snd bring_run) table_listing_children eq_refl)
    as (cac & cap & i & _ & H).
  - vm_compute. reflexivity.
  - vm_compute. reflexivity.
  - exact bring_seeded.
  - destruct (H (party_leaf (wmod 8 0))) as (m & cc & sc & leaf & pair & _ & _ & _ & _ & _ & _ & _ & _ & _ & _ & Hs).
    + right. exists (wmod 8 0). split; [left|reflexivity].
    + destruct bring_policy as [pol Hp]. destruct (bring_ready pol Hp) as [f' Hr].
      exists pol, m, cc, sc, (World f' []). refine (Hs bring_cfg (toy_sk 1) (bring_state pol) f' _ Hr).
      split; [reflexivity|split; reflexivity].
Defined.
