(* ===== verification/Http.v ===== *)
(** * Around the handlers: routes, request ids, logging, the receipt window

    The HTTP surface of the orchestrator ([crates/sovra-api/src/run.rs]), the
    correlation id that threads one request through the logs of both kinds of
    process ([sovra-api] and [sovra-cosigner], [run.rs]; [sovra-ipc],
    [control.rs] and [remote.rs]), the logging set-up
    ([crates/sovra-observability]) and the default receipt window of
    [/v1/broadcast] ([crates/sovra-api/src/state.rs]). *)

From S2P Require Import Prelude Types Network State Eth.
From Stdlib Require Import String Ascii NArith Lia.
From stdpp Require Import base decidable list strings.
Open Scope string_scope. Open Scope list_scope.

(** ** The orchestrator's routes *)
Inductive method : Type := GET | HEAD | POST | OtherMethod.
Inductive endpoint : Type :=
  | Health | DkgGet | DkgCreate | Recover | Prepare | Sign | Broadcast | ApiDocs.
#[export] Instance method_eq_dec : EqDecision method.
Proof. solve_decision. Defined.
#[export] Instance endpoint_eq_dec : EqDecision endpoint.
Proof. solve_decision. Defined.

(** What a path accepts: its GET handler, which HEAD shares, and its POST
    handler. *)
Record accepts : Type := MkAccepts { on_get : option endpoint; on_post : option endpoint }.
Inductive routed : Type := Handler (e : endpoint) | Rejected (status : N).
#[export] Instance routed_eq_dec : EqDecision routed.
Proof. solve_decision. Defined.

(* src api/run.rs:89-94 build_router *)
Definition api_paths : list (string * accepts) := [
  ("/health", MkAccepts (Some Health) None);
  ("/v1/dkg", MkAccepts (Some DkgGet) (Some DkgCreate));
  ("/v1/recover", MkAccepts None (Some Recover));
  ("/v1/prepare", MkAccepts None (Some Prepare));
  ("/v1/sign", MkAccepts None (Some Sign));
  ("/v1/broadcast", MkAccepts None (Some Broadcast))].

Section Routes.
(** The documentation pages of the library merged into the router. *)
Variable swagger_ui : string -> bool.

(* src api/run.rs:87-98 build_router *)
Definition build_router (m : method) (path : string) : routed :=
  match list_find (fun x => fst x = path) api_paths with
  | Some (_, (_, a)) =>
      match m with
      | GET | HEAD => from_option Handler (Rejected 405) (on_get a)
      | POST => from_option Handler (Rejected 405) (on_post a)
      | OtherMethod => Rejected 405
      end
  | None =>
      if swagger_ui path then
        match m with GET | HEAD => Handler ApiDocs | _ => Rejected 405 end
      else Rejected 404
  end.
End Routes.

(* src api/api.rs:75-77 health *)
Definition health : string := "ok".

(** ** Request ids *)
(** [{:032x}] of a [u128]: two lowercase digits per byte. *)
Definition mint (coin : u128) : string := toy_hex_encode (be_bytes 16 (wval coin)).

(* src ipc/control.rs:113-113 CORRELATION_HEADER *)
Definition CORRELATION_HEADER : string := "x-correlation-id".

(** The span every log line of a request carries. *)
Record Span : Type := MkSpan { correlation_id : string; sp_method : method; sp_path : string }.

(** A header value and the text it can be read as. *)
Definition visible (b : u8) : bool := (N.leb 32 (wval b) && N.ltb (wval b) 127) || N.eqb (wval b) 9.
Definition to_str (value : bytes) : option string := if forallb visible value then Some (str_of value) else None.
Definition header (name : string) (headers : list (string * bytes)) : option bytes :=
  (fun x => snd (snd x)) <$> list_find (fun x => fst x = name) headers.

Section Correlation.
Context {A : Type}.
(** What runs inside the span, given the id in scope for its task. *)
Variable next : option string -> A.

(* src api/run.rs:100-114 correlation *)
Definition api_correlation (coin : u128) (m : method) (path : string) : Span * A :=
  let correlation_id := mint coin in
  (MkSpan correlation_id m path, next (Some correlation_id)).

(* src cosigner/run.rs:159-173 correlation *)
Definition cosigner_correlation (headers : list (string * bytes)) (coin : u128) (m : method) (path : string)
  : Span * A :=
  let correlation_id := default (mint coin) (header CORRELATION_HEADER headers ≫= to_str) in
  (MkSpan correlation_id m path, next None).
End Correlation.

(** The header [RemoteBackend::post] adds; a [get] adds none. *)
(* src ipc/remote.rs:311-318 RemoteBackend::post *)
Definition post_headers (scope : option string) (coin : u128) : list (string * bytes) :=
  let correlation_id := default (mint coin) scope in
  [(CORRELATION_HEADER, bstr correlation_id)].

(** ** Logging *)
Section Observability.
(** [tracing_subscriber]'s filters. *)
Variables (Filter : Type) (filter_try_new : string -> option Filter) (filter_new : string -> Filter).

(* src observability/lib.rs:20-24 TracingConfig *)
Record TracingConfig : Type := MkTracingConfig { json : bool; level : string }.

(** [std::env::var], where it is [Ok]. *)
(* src observability/lib.rs:26-33 <TracingConfig as Default>::default *)
Definition tracing_default (var : string -> option string) : TracingConfig :=
  MkTracingConfig (bool_decide (is_Some (var "SOVRA_LOG_JSON"))) (default "info" (var "RUST_LOG")).

Inductive format : Type := Json | Pretty.
Record Subscriber : Type := MkSubscriber { sub_filter : Filter; sub_format : format }.

(** [init] panics when the process already has a subscriber; the guard is the
    background writer's. *)
(* src observability/lib.rs:35-64 init_tracing *)
Definition init_tracing (config : TracingConfig) : M (option Subscriber) string unit := fun installed =>
  let filter := default (filter_new "info") (filter_try_new (level config)) in
  let subscriber := MkSubscriber filter (if json config then Json else Pretty) in
  match installed with
  | Some _ => (Err "failed to set global default subscriber", installed)
  | None => (Ok tt, Some subscriber)
  end.
End Observability.

(** ** The receipt window *)
(* src api/state.rs:23-27 BroadcastTiming *)
Record BroadcastTiming : Type := MkTiming { bt_timeout : N; bt_poll : N }.   (* milliseconds *)
(* src api/state.rs:29-38 <BroadcastTiming as Default>::default *)
Definition timing_default : BroadcastTiming := MkTiming 30000 2000.

(** The deadline test of the polling loop, on the instants at which it is
    made: the loop starts at [start], and [now k] is when the test after the
    [k]-th receipt request reads the clock. *)
(* src eth/broadcast.rs:58-63 broadcast_via_rpc_impl *)
Definition past_deadline (timing : BroadcastTiming) (start : N) (now : nat -> N) (k : nat) : bool :=
  N.leb (start + bt_timeout timing) (now k).

(** A clock on which sleeping takes at least its time. *)
Definition ticks (timing : BroadcastTiming) (start : N) (now : nat -> N) : Prop :=
  (start <= now 0%nat)%N /\ forall k, (now k + bt_poll timing <= now (S k))%N.

(** ** Lemmas *)
Lemma hex_digit_visible n : (n < 16)%N -> visible (u8_of_ascii (hex_digit n)) = true.
Proof. intros. destruct n as [|p]; [done|]. do 4 (try (destruct p as [p|p|]; [| |done])); lia. Qed.

Lemma hex_visible b : forallb visible (bstr (toy_hex_encode b)) = true.
Proof.
  induction b as [|x b IH]; [done|]. cbn [toy_hex_encode bstr forallb].
  pose proof (word_lt x) as Hx. change (2 ^ 8)%N with 256%N in Hx.
  rewrite !hex_digit_visible, IH; [done|apply N.mod_lt; done|apply N.Div0.div_lt_upper_bound; lia].
Qed.

Lemma mint_inj c c' : mint c = mint c' -> c = c'.
Proof.
  unfold mint. intros H. apply (f_equal toy_hex_digits) in H. rewrite !toy_hex_roundtrip in H.
  apply (inj Some) in H. apply be_bytes_inj in H; [by apply word_eq|apply word_lt..].
Qed.

Lemma mint_length c : String.length (mint c) = 32%nat.
Proof.
  unfold mint. assert (forall b, String.length (toy_hex_encode b) = (2 * length b)%nat) as ->.
  { induction b as [|x b IH]; [done|]. cbn [toy_hex_encode String.length length]. rewrite IH. lia. }
  by rewrite be_bytes_length.
Qed.

Lemma mint_readable c : to_str (bstr (mint c)) = Some (mint c).
Proof. unfold to_str, mint. by rewrite hex_visible, str_of_bstr. Qed.

Lemma ticks_elapsed timing start now k :
  ticks timing start now -> (start + N.of_nat k * bt_poll timing <= now k)%N.
Proof. intros [H0 HS]. induction k as [|k IH]; [lia|]. specialize (HS k). lia. Qed.

(** ** Properties *)
(** Only a POST reaches a handler that changes state, each at its own path. *)
Lemma routes_exact swagger m path e :
  e <> ApiDocs ->
  build_router swagger m path = Handler e <->
  (m = POST /\ (path, e) ∈ [("/v1/dkg", DkgCreate); ("/v1/recover", Recover); ("/v1/prepare", Prepare);
                            ("/v1/sign", Sign); ("/v1/broadcast", Broadcast)]) \/
  ((m = GET \/ m = HEAD) /\ (path, e) ∈ [("/health", Health); ("/v1/dkg", DkgGet)]).
Proof.
  intros Hd. unfold build_router, api_paths. cbn [list_find fst].
  repeat (case_decide;
    [subst path; destruct m, e; refine (bool_decide_unpack _ _); vm_compute; exact I|]).
  simpl. rewrite !elem_of_cons. split.
  - destruct (swagger path); [|done]. destruct m; congruence.
  - intros [[_ H']|[_ H']];
      repeat (destruct H' as [H'|H']; [injection H' as -> _; congruence|]); by apply not_elem_of_nil in H'.
Qed.

(** One request, one id: the cosigners log a request of the orchestrator
    under the id the orchestrator minted for it, whatever ids they would have
    minted themselves; and requests that drew different coins have different
    ids, of 32 characters. *)
Theorem one_request_id {A} (next : option string -> A) coin coin' c1 c2 m path m' path' :
  let (span, scope) := api_correlation id coin m path in
  correlation_id (fst (cosigner_correlation next (post_headers scope c1) c2 m' path')) = correlation_id span /\
  String.length (correlation_id span) = 32%nat /\
  (correlation_id span = correlation_id (fst (api_correlation id coin' m path)) <-> coin = coin').
Proof.
  cbn [api_correlation fst id]. split_and!.
  - change (default (mint c2) (to_str (bstr (mint coin))) = mint coin). by rewrite mint_readable.
  - apply mint_length.
  - split; [apply mint_inj|by intros ->].
Qed.

(** Both kinds of process log alike: what is installed depends on the
    environment alone, an unreadable level falls back to [info], and nothing
    but a second initialization fails. *)
Lemma logging_alike Filter try_new new var installed :
  init_tracing Filter try_new new (tracing_default var) installed =
    match installed with
    | Some _ => (Err "failed to set global default subscriber", installed)
    | None => (Ok tt, Some (MkSubscriber Filter
                 (default (new "info") (try_new (default "info" (var "RUST_LOG"))))
                 (match var "SOVRA_LOG_JSON" with Some _ => Json | None => Pretty end)))
    end.
Proof.
  unfold init_tracing, tracing_default. cbn [level json]. destruct installed; [done|]. do 4 f_equal.
  by destruct (var "SOVRA_LOG_JSON").
Qed.

(** C30: broadcasting ends within its window.  On a clock on which sleeping
    takes its time, the receipt is asked for at most once more than there are
    polls in the timeout (16 times by default), and the call returns what the
    first request that is not quietly pending says: the receipt, the transport
    error, or, only once the timeout has passed, that it is still pending. *)
Theorem broadcast_in_window {Al : Alloy} {R} (timing : BroadcastTiming) (start : N) (now : nat -> N)
    (receipt : nat -> result string (option R)) (expected : B256) :
  let polls := N.to_nat ((bt_timeout timing + (bt_poll timing - 1)) / bt_poll timing) in
  let late := past_deadline timing start now in
  (0 < bt_poll timing)%N -> ticks timing start now ->
  exists m, (m <= polls)%nat /\
    (forall j, (j < m)%nat -> receipt j = Ok None /\ (now j < start + bt_timeout timing)%N) /\
    (receipt m = Ok None -> (start + bt_timeout timing <= now m)%N) /\
    forall fuel, (polls < fuel)%nat ->
      broadcast_via_rpc_impl receipt late fuel (Submitted expected) expected =
        match receipt m with
        | Err e => Some (Err (Rpc e))
        | Ok (Some rc) => Some (Ok (Confirmed rc))
        | Ok None => Some (Ok Pending)
        end.
Proof.
  intros polls late Hp Hticks.
  assert (bt_timeout timing <= N.of_nat polls * bt_poll timing)%N as Hpolls.
  { unfold polls. rewrite N2Nat.id. set (p := bt_poll timing) in *. set (t := bt_timeout timing).
    pose proof (N.div_mod (t + (p - 1)) p ltac:(lia)) as Hdm.
    pose proof (N.mod_lt (t + (p - 1)) p ltac:(lia)) as Hlt. lia. }
  assert (late polls = true) as Hlate.
  { unfold late, past_deadline. apply N.leb_le. pose proof (ticks_elapsed _ _ _ polls Hticks). lia. }
  destruct (poll_settles receipt late expected polls Hlate) as (m & Hm & Hq & Hpend & Hr).
  exists m. split_and!; [done| | |done].
  - intros j Hj. destruct (Hq j Hj) as [H1 H2%N.leb_gt]. done.
  - intros Hn%Hpend. by apply N.leb_le.
Qed.

(** ** Witness: no receipt, a clock of two-second polls. *)
Lemma broadcast_in_window_witness :
  let now k := (N.of_nat k * 2000)%N in
  broadcast_via_rpc_impl (R := unit) (fun _ => Ok None) (past_deadline timing_default 0 now) 16
    (Submitted (array_repeat 32 (wmod 8 1))) (array_repeat 32 (wmod 8 1)) = Some (Ok Pending).
Proof.
  intros now.
  destruct (broadcast_in_window (R := unit) timing_default 0 now (fun _ => Ok None) (array_repeat 32 (wmod 8 1)))
    as (m & _ & _ & _ & H).
  - reflexivity.
  - split; [lia|]. intros k. unfold now. cbn [timing_default bt_poll]. lia.
  - apply (H 16%nat). vm_compute. lia.
Defined.
