(* ===== verification/System.v ===== *)
(** * The system: an orchestrator over its cosigners

    [Remote], [Orchestrator] and [Api] see the cosigners as an oracle of HTTP
    replies; here the oracle is a fleet of [Cosigner] processes behind the
    router of [crates/sovra-cosigner/src/run.rs] and links that can fail.
    The theorems are end to end: a signature the public API answers was
    allowed by a quorum of the cosigners' own policies, a veto reaches the
    caller with its reason, and a generation outlives a restart. *)

From S2P Require Import Prelude Types Mpc Network Policy State Control Remote Cosigner Orchestrator.
From Stdlib Require Import String Ascii NArith Lia Sorting.Sorted.
From stdpp Require Import base decidable list gmap strings pretty.
Open Scope string_scope. Open Scope list_scope.

(** ** The HTTP face of a cosigner *)
(** serde_json on the server's side, and [format!] of a message. *)
Class JsonServer : Type := {
  show_public_key : PublicKeyInfo -> string;
  show_signatures : SignaturesInfo -> string;
  show_roster : RosterInfo -> string;
  show_error : error_body -> string;
  show_identity : string -> string;
  show_status : string -> string;
  format_msg : msg -> string;
}.
(** The two sides speak one format. *)
Class JsonLaws (Jl : JsonLib) (Js : JsonServer) : Prop := {
  public_key_reads i : json_public_key (show_public_key i) = Ok i;
  signatures_reads i : json_signatures (show_signatures i) = Ok i;
  roster_reads i : json_roster (show_roster i) = Ok i;
  reason_reads e : json_reason (show_error e) = format_msg <$> eb_reason e;
}.

Section Fleet.
Context {C : Crypto} {P : PartyRunner} {J : MetaCodec} {Nw : Network} {X : HexCodec}.
Context {Jl : JsonLib} {Js : JsonServer}.

(* src cosigner/errors.rs:51-85 <CosignerError as IntoResponse>::into_response *)
Definition respond {A} (show : A -> string) (x : result CosignerError A * proc) : reply * proc :=
  match x with
  | (Ok a, s) => (Reply 200 (Some (show a)), s)
  | (Err e, s) => (Reply (status_of e) (Some (show_error (error_body_of e))), s)
  end.

(** A body that is not the endpoint's is axum's 422, an unknown path its 404. *)
(* src cosigner/run.rs:108-110 build_router *)
Definition route_post (st : CosignerState) (ev : env) (path : string) (req : request) (s : proc)
  : reply * proc :=
  match req with
  | ReqDkg q => if bool_decide (path = "dkg") then respond show_public_key (dkg st ev q s)
                else (Reply (if contains path ["sign"; "refresh"] then 422 else 404) None, s)
  | ReqSign q => if bool_decide (path = "sign") then respond show_signatures (sign st ev q s)
                 else (Reply (if contains path ["dkg"; "refresh"] then 422 else 404) None, s)
  | ReqRefresh q => if bool_decide (path = "refresh") then respond show_public_key (refresh st ev q s)
                    else (Reply (if contains path ["dkg"; "sign"] then 422 else 404) None, s)
  end.

(* src cosigner/run.rs:111-115 build_router *)
Definition route_get (st : CosignerState) (path : string) (s : proc) : reply * proc :=
  if bool_decide (path = "signer") then respond show_public_key (signer st s)
  else if bool_decide (path = "roster") then respond show_roster (roster st s)
  else if bool_decide (path = "pubkey") then respond show_public_key (pubkey st s)
  else if bool_decide (path = "identity") then (Reply 200 (Some (show_identity (Cosigner.identity st))), s)
  else if bool_decide (path = "health") then (Reply 200 (Some (show_status "ok")), s)
  else (Reply 404 None, s).

(** ** The fleet *)
Record node : Type := MkNode { nd_state : CosignerState; nd_proc : proc; nd_env : env }.
(** The process that answers at a URL, and why a link is down. *)
Definition fleet : Type := Url -> option node.
Definition links : Type := Url -> option string.

Definition fleet_post (f : fleet) (l : links) (p : u8) (u : Url) (path : string) (req : request) : reply :=
  match l u, f u with
  | Some e, _ => SendFailed e
  | None, None => SendFailed "connection refused"
  | None, Some nd => fst (route_post (nd_state nd) (nd_env nd) path req (nd_proc nd))
  end.

Definition fleet_get (f : fleet) (l : links) (p : u8) (u : Url) (path : string) : reply :=
  match l u, f u with
  | Some e, _ => SendFailed e
  | None, None => SendFailed "connection refused"
  | None, Some nd => fst (route_get (nd_state nd) path (nd_proc nd))
  end.

(** The fleet once [req] was handled wherever it arrived. *)
Definition after_post (f : fleet) (arrived : Url -> bool) (path : string) (req : request) : fleet :=
  fun u => match f u with
           | Some nd => if arrived u
                        then Some (MkNode (nd_state nd)
                                     (snd (route_post (nd_state nd) (nd_env nd) path req (nd_proc nd))) (nd_env nd))
                        else Some nd
           | None => None
           end.

(** Every process without failing I/O: what a later probe meets. *)
Definition calm (f : fleet) : fleet :=
  fun u => (fun nd => MkNode (nd_state nd)
              (MkProc (no_faults (files (nd_proc nd))) (op (nd_proc nd)) (effects (nd_proc nd))) (nd_env nd)) <$> f u.

(** The orchestrator's configuration names each process by its own party id. *)
Definition placed (f : fleet) (cs : list (u8 * Url)) : Prop :=
  forall p u nd, (p, u) ∈ cs -> f u = Some nd -> cs_party_id (nd_state nd) = p.

Lemma filter_length_mono {A} (Q R : A -> Prop) `{forall x, Decision (Q x), forall x, Decision (R x)} (l : list A) :
  (forall x, x ∈ l -> Q x -> R x) -> (length (filter Q l) <= length (filter R l))%nat.
Proof.
  induction l as [|x l IH]; intros Himp; [done|].
  assert (length (filter Q l) <= length (filter R l))%nat as Hl by (apply IH; intros; apply Himp; [by right|done]).
  rewrite !filter_cons. case_decide as Hq; [|case_decide; cbn; lia].
  rewrite decide_True by (apply Himp; [by left|done]). cbn. lia.
Qed.

(** ** What replies mean *)
Context {JLaws : JsonLaws Jl Js}.

Lemma respond_Ok {A} (show : A -> string) x st body :
  fst (respond show x) = Reply st body -> is_success st = true ->
  exists a, fst x = Ok a /\ body = Some (show a).
Proof.
  destruct x as [[a|e] s]; cbn; intros H; injection H as <- <-; [eauto|].
  intros He. exfalso. destruct e; vm_compute in He; discriminate He.
Qed.

Lemma respond_snd {A} (show : A -> string) (x : result CosignerError A * proc) : snd (respond show x) = snd x.
Proof. by destruct x as [[]]. Qed.

(** A 2xx reply to a POST comes from a live process whose handler succeeded. *)
Lemma fleet_post_success {A} (handler : CosignerState -> env -> proc -> result CosignerError A * proc)
    (show : A -> string) f l p u path req st body :
  (forall st ev s, route_post st ev path req s = respond show (handler st ev s)) ->
  fleet_post f l p u path req = Reply st body -> is_success st = true ->
  exists nd a s', l u = None /\ f u = Some nd /\
    handler (nd_state nd) (nd_env nd) (nd_proc nd) = (Ok a, s') /\ body = Some (show a).
Proof.
  intros Hr. unfold fleet_post. destruct (l u); [done|]. destruct (f u) as [nd|]; [|done].
  rewrite Hr. intros H Hs. destruct (respond_Ok _ _ _ _ H Hs) as (a & Ha & ->).
  exists nd, a, (snd (handler (nd_state nd) (nd_env nd) (nd_proc nd))). split_and!; try done.
  by rewrite <- Ha, <- surjective_pairing.
Qed.

Lemma fleet_sign_success f l p u q st body info :
  fleet_post f l p u "sign" (ReqSign q) = Reply st (Some body) -> is_success st = true ->
  json_signatures body = Ok info ->
  exists nd s', f u = Some nd /\ sign (nd_state nd) (nd_env nd) q (nd_proc nd) = (Ok info, s').
Proof.
  intros H Hs Hj.
  destruct (fleet_post_success (fun st ev => sign st ev q) show_signatures f l p u "sign" (ReqSign q)
              st (Some body) (fun _ _ _ => eq_refl) H Hs)
    as (nd & a & s' & _ & Hf & Ha & [= ->]).
  rewrite signatures_reads in Hj. injection Hj as ->. eauto.
Qed.

(** ** Signing *)
(** A quorum of [cs] allowed [tx]: [t] parties with distinct ids, each with
    its own policy, vetted [raw] as [tx], and each holds a share. *)
Definition quorum_allows (f : fleet) (cs : list (u8 * Url)) (t : N) (raw : bytes) (tx : Unsigned)
    (signers : list (u8 * Url)) : Prop :=
  signers `sublist_of` cs /\ N.of_nat (length signers) = t /\ NoDup signers.*1 /\
  Network.decode_unsigned raw = Ok tx /\ validate tx = Ok tt /\
  forall p u, (p, u) ∈ signers -> exists nd share, f u = Some nd /\ cs_party_id (nd_state nd) = p /\
    evaluate (cs_policy (nd_state nd)) (policy_view tx) = Allow /\
    fst (load_shard (cs_store (nd_state nd)) ACTIVE_SIGNER_ID (files (nd_proc nd))) = Ok share.

(** What a fleet's successful signature went through. *)
Lemma fleet_sign_runs f l cs t client b (probe : u8 -> Url -> string -> reply) instance net raw sigs :
  remote_new cs t client = Ok b -> placed f cs ->
  remote_sign (fleet_post f l) probe b instance net raw = Ok sigs ->
  exists tx signers, quorum_allows f cs t raw tx signers /\
    length sigs = length (signing_digests tx) /\
    forall p u, (p, u) ∈ signers -> exists nd share, f u = Some nd /\
      fst (load_shard (cs_store (nd_state nd)) ACTIVE_SIGNER_ID (files (nd_proc nd))) = Ok share /\
      forall k d sg, signing_digests tx !! k = Some d -> sigs !! k = Some sg ->
        run_outcome (nd_state nd) (nd_env nd) (sub_instance instance (wmod 32 (N.of_nat k))) share
          (sort_ids signers.*1) d sg.
Proof.
  intros (-> & Hv & _)%remote_new_Ok Hpl. unfold remote_sign.
  intros (signers & Hsel & Hb)%rbind_Ok. apply map_err_Ok in Hsel.
  pose proof (select_signers_Ok _ _ _ Hsel) as (Hsub & Hlen & _). cbn in Hsub, Hlen.
  pose proof (signers_NoDup _ _ _ Hv Hsel) as Hnd.
  apply rmap_Ok in Hb as (info & Hb & ->). apply broadcast_Ok in Hb as (Hne & Hall).
  set (req := sign_request _ _ _ _) in *.
  assert (forall p u, (p, u) ∈ signers -> exists nd s', f u = Some nd /\
            sign (nd_state nd) (nd_env nd) req (nd_proc nd) = (Ok info, s')) as Hsig.
  { intros p u Hin. rewrite Forall_forall in Hall. destruct (Hall _ Hin) as (st & body & Hp & Hs & Hj).
    by apply (fleet_sign_success f l p u req st body info). }
  assert (exists p u, (p, u) ∈ signers) as (p0 & u0 & Hin0)
    by (destruct signers as [|[p u] l0]; [done|]; exists p, u; by left).
  destruct (Hsig p0 u0 Hin0) as (nd0 & s0 & _ & H0).
  apply sign_Ok in H0 as (_ & tx & _ & _ & _ & Hd & Hval & _ & _ & Hl & _). cbn in Hd.
  assert (forall p u, (p, u) ∈ signers -> exists nd share, f u = Some nd /\ cs_party_id (nd_state nd) = p /\
    evaluate (cs_policy (nd_state nd)) (policy_view tx) = Allow /\
    fst (load_shard (cs_store (nd_state nd)) ACTIVE_SIGNER_ID (files (nd_proc nd))) = Ok share /\
    forall k d sg, signing_digests tx !! k = Some d -> (ecdsa_parts_of <$> signatures info) !! k = Some sg ->
        run_outcome (nd_state nd) (nd_env nd) (sub_instance instance (wmod 32 (N.of_nat k))) share
          (sort_ids signers.*1) d sg) as Hall'.
  { intros p u Hin. destruct (Hsig p u Hin) as (nd & s' & Hf & Hs).
    apply sign_Ok in Hs as (roster & tx' & share & _ & _ & Hd' & _ & Hal & Hsh & _ & Hk). cbn in Hd'.
    rewrite Hd in Hd'. injection Hd' as <-. exists nd, share. split_and!; try done.
    - apply (Hpl p u); [|done]. by eapply elem_of_sublist.
    - intros k d sg Hkd Hks. rewrite list_lookup_fmap in Hks.
      destruct (signatures info !! k) as [sp|] eqn:Hsp; [|done]. injection Hks as <-.
      destruct (Hk k d sp Hkd Hsp) as (parts & -> & Hrun). rewrite ecdsa_parts_roundtrip. exact Hrun. }
  exists tx, signers. split; [|split].
  - split; [done|]. split; [done|]. split; [done|]. split; [done|]. split; [done|].
    intros p u Hin. destruct (Hall' p u Hin) as (nd & share & ? & ? & ? & ? & _).
    by exists nd, share.
  - by rewrite length_fmap.
  - intros p u Hin. destruct (Hall' p u Hin) as (nd & share & ? & ? & ? & ? & ?).
    by exists nd, share.
Qed.

(** C17: a fleet's signature is a quorum's.  When the orchestrator's backend
    returns signatures, whatever the links did, [t] configured parties with
    distinct ids each decoded the submitted bytes to the same valid
    transaction, each party's own policy allowed it, and each returned
    signature is the output of each of these parties' own protocol run over
    that transaction's digest with its own stored share and the same subset. *)
Theorem fleet_sign_quorum f l cs t client b (probe : u8 -> Url -> string -> reply) instance net raw sigs :
  remote_new cs t client = Ok b -> placed f cs ->
  remote_sign (fleet_post f l) probe b instance net raw = Ok sigs ->
  exists tx signers, quorum_allows f cs t raw tx signers /\
    length sigs = length (signing_digests tx) /\
    forall p u, (p, u) ∈ signers -> exists nd share, f u = Some nd /\
      fst (load_shard (cs_store (nd_state nd)) ACTIVE_SIGNER_ID (files (nd_proc nd))) = Ok share /\
      forall k d sg, signing_digests tx !! k = Some d -> sigs !! k = Some sg ->
        run_outcome (nd_state nd) (nd_env nd) (sub_instance instance (wmod 32 (N.of_nat k))) share
          (sort_ids signers.*1) d sg.
Proof. apply fleet_sign_runs. Qed.

(** *** Refusals *)
Lemma sign_denied st ev req s roster tx reason :
  op s = false -> cs_roster st = Some roster -> good_subset st roster (participants req) ->
  Network.decode_unsigned (unsigned_transaction req) = Ok tx -> validate tx = Ok tt ->
  evaluate (cs_policy st) (policy_view tx) = Deny reason ->
  fst (sign st ev req s) = Err (PolicyDenied reason).
Proof.
  intros Hop Hr Hsub Hd Hv He. unfold sign, with_op. rewrite Hop. unfold mbnd, mlift. rewrite Hr. cbn [ok_or].
  rewrite (proj2 (check_subset_Ok _ _ _) Hsub). destruct (network req).
  unfold vet. rewrite Hd. cbn [map_err rbind]. rewrite Hv. cbn [map_err rbind]. by rewrite He.
Qed.

(** C24: a policy's refusal reaches the caller with its reason.  If one selected
    party is reachable, idle and provisioned, and its policy denies the
    transaction, then the operation fails as rejected and the report holds that
    party with the text of the very rule it applied. *)
Theorem fleet_veto_reason f l cs t client b (probe : u8 -> Url -> string -> reply) instance net raw
    signers p u nd roster tx reason :
  remote_new cs t client = Ok b -> placed f cs ->
  select_signers probe b = Ok signers -> (p, u) ∈ signers ->
  l u = None -> f u = Some nd -> op (nd_proc nd) = false ->
  cs_roster (nd_state nd) = Some roster -> length roster = length cs ->
  wval (cs_threshold (nd_state nd)) = t ->
  Forall (fun c => (wval (fst c) < N.of_nat (length cs))%N) cs ->
  Network.decode_unsigned raw = Ok tx -> validate tx = Ok tt ->
  evaluate (cs_policy (nd_state nd)) (policy_view tx) = Deny reason ->
  exists vs, remote_sign (fleet_post f l) probe b instance net raw = Err (Fail (Rejected vs)) /\
    MkVeto p [Txt (format_msg (deny_msg reason))] ∈ vs /\ Sorted by_party vs.
Proof.
  intros (-> & Hvb & _)%remote_new_Ok Hpl Hsel Hin Hlk Hf Hop Hr Hlen Ht Hids Hd Hv He.
  pose proof (select_signers_Ok _ _ _ Hsel) as (Hsub & _ & _). cbn in Hsub.
  unfold remote_sign. rewrite Hsel. cbn [map_err rbind]. set (req := sign_request _ _ _ _).
  assert (good_subset (nd_state nd) roster (participants req)) as Hgood.
  { apply (selected_good (nd_state nd) cs t probe signers roster u instance net raw); try done.
    by rewrite (Hpl p u nd ltac:(by eapply elem_of_sublist) Hf). }
  assert (post (fleet_post f l) json_signatures p u "sign" (ReqSign req)
          = Err (Rejected [MkVeto p [Txt (format_msg (deny_msg reason))]])) as Hpost.
  { unfold post, fleet_post. rewrite Hlk, Hf. unfold route_post. rewrite bool_decide_eq_true_2 by done.
    pose proof (sign_denied (nd_state nd) (nd_env nd) req (nd_proc nd) roster tx reason Hop Hr Hgood Hd Hv He) as Hs.
    destruct (sign _ _ _ _) as [r s']. cbn in Hs. subst r. cbn [respond fst status_of N.eqb].
    cbn. by rewrite reason_reads. }
  destruct (broadcast_veto _ dbg_sigs json_signatures signers "sign" (ReqSign req) p u _ Hin Hpost)
    as (vs & -> & Hvs & Hs). by exists vs.
Qed.

(** *** Ceremonies, and the restart after them *)
Definition probe_signer (f : fleet) (l : links) (p : u8) (u : Url) : reply := fleet_get f l p u "signer".

Lemma signer_reply st s pk :
  fst (load_active (cs_store st) ACTIVE_SIGNER_ID (files s)) = Ok (Some pk) ->
  fst (route_get st "signer" s) = Reply 200 (Some (show_public_key (MkPublicKeyInfo pk))).
Proof.
  intros H. unfold route_get. rewrite bool_decide_eq_true_2 by done. unfold signer, on_store.
  destruct (load_active _ _ _) as [r w]. cbn in H. by subst r.
Qed.

(** A fleet in which every configured party holds [pk] is recovered with [pk]
    as soon as a quorum can be reached. *)
Lemma stored_recovers f l cs t pk :
  (0 < t)%N ->
  (forall p u, (p, u) ∈ cs -> exists nd share, f u = Some nd /\ has_stored (nd_state nd) pk share (nd_proc nd)) ->
  (t <= N.of_nat (length (filter (fun c => l c.2 = None) cs)))%N ->
  recover_active (probe_signer (calm f) l) cs t = Ok (Some pk).
Proof.
  intros Ht Hst Hlen.
  assert (forall c, c ∈ cs -> l c.2 = None -> fetch_signer (probe_signer (calm f) l c.1 c.2) = Ok (Some pk)) as Hup.
  { intros [p u] Hin Hl. destruct (Hst p u Hin) as (nd & share & Hf & _ & Ha). cbn in Hl.
    unfold probe_signer, fleet_get, calm. cbn [fst snd]. rewrite Hl, Hf. cbn [fmap option_fmap option_map nd_state nd_proc].
    rewrite (signer_reply _ _ pk) by exact Ha. unfold fetch_signer. cbn. by rewrite public_key_reads. }
  apply recover_agreeing; [done| |].
  - apply Forall_forall. intros [p u] Hin. destruct (l u) as [e|] eqn:Hl; [|right; by apply Hup].
    left. unfold probe_signer, fleet_get. cbn. rewrite Hl. eexists. done.
  - etransitivity; [exact Hlen|]. enough (forall a b, (a <= b)%nat -> (N.of_nat a <= N.of_nat b)%N) as Hm by (apply Hm, filter_length_mono;
      intros c Hin Hl; unfold holds_key; rewrite (Hup c Hin Hl); by apply bool_decide_eq_true).
    lia.
Qed.

(** C11: a generation outlives the orchestrator.  If a key generation succeeds
    with key [pk], then every configured process ran its own keygen to a share
    of [pk] and its disk holds that share with [pk] as the active key; and an
    orchestrator that restarts then recovers exactly [pk], whichever cosigners
    are down, as soon as a quorum of them can be reached. *)
Theorem dkg_then_restart {ML : MetaLaws J} f l arrived cs t client b instance pk :
  remote_new cs t client = Ok b ->
  (forall u nd, f u = Some nd -> sealer_ok (sealer (cs_store (nd_state nd)))) ->
  (forall u, l u = None -> arrived u = true) ->
  remote_dkg (fleet_get f l) (fleet_post f l) b instance = Ok pk ->
  let f' := after_post f arrived "dkg"
              (ReqDkg (MkStartDkg instance (wmod 8 (n_of b)) (wmod 8 (Remote.threshold b)))) in
  (forall p u, (p, u) ∈ cs -> exists nd nd' ctx tr share,
     f u = Some nd /\ f' u = Some nd' /\ nd_state nd' = nd_state nd /\
     mk_ctx (nd_state nd) instance = Ok ctx /\ N.of_nat (length (party_vks ctx)) = wval (wmod 8 (n_of b)) /\
     keygen ctx tr = Some (Ok (share, pk)) /\ has_stored (nd_state nd) pk share (nd_proc nd')) /\
  (forall l', (t <= N.of_nat (length (filter (fun c => l' c.2 = None) cs)))%N ->
     recover_active (probe_signer (calm f') l') cs t = Ok (Some pk)).
Proof.
  intros (-> & (_ & _ & Ht & _) & _)%remote_new_Ok Hseal Harr Hdkg f'. cbn in Ht.
  apply (proj1 (remote_ceremony_Ok (fleet_get f l) (fleet_post f l) (fun _ _ _ => SendFailed "") _ _ _))
    in Hdkg as (_ & _ & Hall). cbn [cosigners Remote.threshold] in Hall. set (req := MkStartDkg _ _ _) in *.
  assert (forall p u, (p, u) ∈ cs -> exists nd nd' ctx tr share,
     f u = Some nd /\ f' u = Some nd' /\ nd_state nd' = nd_state nd /\
     mk_ctx (nd_state nd) instance = Ok ctx /\ N.of_nat (length (party_vks ctx)) = wval (dkg_n_parties req) /\
     keygen ctx tr = Some (Ok (share, pk)) /\ has_stored (nd_state nd) pk share (nd_proc nd')) as Hst.
  { intros p u Hin. rewrite Forall_forall in Hall. destruct (Hall _ Hin) as (st & body & Hp & Hs & Hj).
    destruct (fleet_post_success (fun st ev => dkg st ev req) show_public_key f l p u "dkg" (ReqDkg req)
                st (Some body) (fun _ _ _ => eq_refl) Hp Hs) as (nd & a & s' & Hl & Hf & Ha & [= ->]).
    rewrite public_key_reads in Hj. injection Hj as ->.
    pose proof (dkg_Ok _ _ _ _ _ _ (Hseal u nd Hf) Ha) as (ctx & tr & share & Hctx & Hn & _ & Hk & Hsto).
    exists nd, (MkNode (nd_state nd) s' (nd_env nd)), ctx, tr, share. split_and!; try done.
    unfold f', after_post. rewrite Hf, (Harr u Hl). unfold route_post. rewrite bool_decide_eq_true_2 by done.
    by rewrite respond_snd, Ha. }
  split; [exact Hst|]. intros l' Hlen. apply stored_recovers; [lia| |done].
  intros p u Hin. destruct (Hst p u Hin) as (nd & nd' & ctx & tr & share & _ & Hf' & Hsame & _ & _ & _ & Hs).
  exists nd', share. by rewrite Hsame.
Qed.

(** C12: a refresh keeps the wallet and rotates every share.  If a refresh
    succeeds, all parties had agreed on the wallet's key; every process ran
    the refresh on its stored share towards that very key and its disk now
    holds the new share; with runners that keep the key they are given, the
    key is unchanged, and a restart recovers it from any quorum. *)
Theorem refresh_then_restart {ML : MetaLaws J} {PL : RunnerLaws P} f l arrived cs t client b instance pk :
  remote_new cs t client = Ok b ->
  (forall u nd, f u = Some nd -> sealer_ok (sealer (cs_store (nd_state nd)))) ->
  (forall u, l u = None -> arrived u = true) ->
  remote_refresh (fleet_get f l) (fleet_post f l) b instance = Ok pk ->
  let f' := after_post f arrived "refresh"
              (ReqRefresh (MkStartRefresh instance (wmod 8 (n_of b)) (wmod 8 (Remote.threshold b)) pk)) in
  (forall p u, (p, u) ∈ cs -> exists nd nd' ctx tr old share,
     f u = Some nd /\ f' u = Some nd' /\ nd_state nd' = nd_state nd /\
     mk_ctx (nd_state nd) instance = Ok ctx /\
     fst (load_shard (cs_store (nd_state nd)) ACTIVE_SIGNER_ID (files (nd_proc nd))) = Ok old /\
     public_key_of old = Ok pk /\ run_refresh ctx old pk tr = Some (Ok (share, pk)) /\
     public_key_of share = Ok pk /\ has_stored (nd_state nd) pk share (nd_proc nd')) /\
  (forall l', (t <= N.of_nat (length (filter (fun c => l' c.2 = None) cs)))%N ->
     recover_active (probe_signer (calm f') l') cs t = Ok (Some pk)).
Proof.
  intros (-> & (_ & _ & Ht & Htn) & _)%remote_new_Ok Hseal Harr Hdkg f'. cbn in Ht, Htn.
  apply (proj2 (remote_ceremony_Ok (fleet_get f l) (fleet_post f l) (fun _ _ _ => SendFailed "") _ _ _))
    in Hdkg as (_ & anchor & _ & Hne & Hall). cbn [cosigners Remote.threshold] in Hall, Hne.
  assert (forall p u, (p, u) ∈ cs -> exists nd s' ctx tr old share, l u = None /\
     f u = Some nd /\ mk_ctx (nd_state nd) instance = Ok ctx /\
     refresh (nd_state nd) (nd_env nd) (MkStartRefresh instance (wmod 8 (N.of_nat (length cs))) (wmod 8 t) anchor)
       (nd_proc nd) = (Ok (MkPublicKeyInfo pk), s') /\
     fst (load_shard (cs_store (nd_state nd)) ACTIVE_SIGNER_ID (files (nd_proc nd))) = Ok old /\
     run_refresh ctx old anchor tr = Some (Ok (share, pk)) /\ has_stored (nd_state nd) pk share s') as Hst.
  { intros p u Hin. rewrite Forall_forall in Hall. destruct (Hall _ Hin) as (st & body & Hp & Hs & Hj).
    set (req := MkStartRefresh _ _ _ _) in *.
    destruct (fleet_post_success (fun st ev => refresh st ev req) show_public_key f l p u "refresh" (ReqRefresh req)
                st (Some body) (fun _ _ _ => eq_refl) Hp Hs) as (nd & a & s' & Hl & Hf & Ha & [= ->]).
    rewrite public_key_reads in Hj. injection Hj as ->.
    pose proof (refresh_Ok _ _ _ _ _ _ (Hseal u nd Hf) Ha) as (ctx & tr & old & share & Hctx & _ & _ & Ho & Hk & Hsto).
    by exists nd, s', ctx, tr, old, share. }
  assert (anchor = pk) as ->.
  { destruct cs as [|[p u] cs]; [done|]. destruct (Hst p u) as (nd & s' & ctx & tr & old & share & _ & _ & _ & _ & _ & Hk & _);
      [by left|]. by apply refresh_key in Hk as [-> _]. }
  split.
  - intros p u Hin. destruct (Hst p u Hin) as (nd & s' & ctx & tr & old & share & Hl & Hf & Hctx & Ha & Ho & Hk & Hs).
    pose proof (refresh_key _ _ _ _ _ _ Hk) as (_ & Hpo & Hps).
    exists nd, (MkNode (nd_state nd) s' (nd_env nd)), ctx, tr, old, share. split_and!; try done.
    unfold f', after_post. rewrite Hf, (Harr u Hl). unfold route_post. rewrite bool_decide_eq_true_2 by done.
    rewrite respond_snd. unfold n_of. cbn [cosigners Remote.threshold]. by rewrite Ha.
  - intros l' Hlen. apply stored_recovers; [lia| |done].
    intros p u Hin. destruct (Hst p u Hin) as (nd & s' & ctx & tr & old & share & Hl & Hf & Hctx & Ha & Ho & Hk & Hs).
    exists (MkNode (nd_state nd) s' (nd_env nd)), share. split; [|done].
    unfold f', after_post. rewrite Hf, (Harr u Hl). unfold route_post. rewrite bool_decide_eq_true_2 by done.
    rewrite respond_snd. unfold n_of. cbn [cosigners Remote.threshold]. by rewrite Ha.
Qed.
End Fleet.

(** ** A concrete wire format, runner and fleet *)
Lemma bstr_str_of b : bstr (str_of b) = b.
Proof.
  assert (forall x : u8, u8_of_ascii (State.ascii_of_byte x) = x) as Hx.
  { intros x. unfold u8_of_ascii, State.ascii_of_byte. rewrite N_ascii_embedding by exact (word_lt x). apply wmod_wval. }
  induction b as [|x b IH]; [done|]. cbn [str_of bstr]. by rewrite Hx, IH.
Qed.

Definition part_bytes (p : SignParts) : bytes :=
  be_bytes 32 (wval (sp_r p)) ++ be_bytes 32 (wval (sp_s p)) ++ [wmod 8 (if sp_y_parity p then 1 else 0)].
Definition read_part (b : bytes) : SignParts :=
  MkSignParts (wmod 256 (be_val (take 32 b))) (wmod 256 (be_val (take 32 (drop 32 b))))
    (bool_decide (nth 64 b (wmod 8 0) = wmod 8 1)).
Fixpoint read_parts (fuel : nat) (b : bytes) : list SignParts :=
  match fuel, b with
  | S fuel, _ :: _ => read_part b :: read_parts fuel (drop 65 b)
  | _, _ => []
  end.

Lemma word_bytes (x : U256) : wmod 256 (be_val (be_bytes 32 (wval x))) = x.
Proof.
  apply word_eq. rewrite wval_wmod, be_val_bytes. pose proof (word_lt x).
  change (8 * N.of_nat 32)%N with 256%N. rewrite N.Div0.mod_mod. by apply N.mod_small.
Qed.

Lemma read_part_bytes p b : read_part (part_bytes p ++ b) = p /\ drop 65 (part_bytes p ++ b) = b.
Proof.
  destruct p as [pr ps odd]. unfold read_part, part_bytes. cbn [sp_r sp_s sp_y_parity].
  rewrite <- !app_assoc. rewrite take_app_length' by (by rewrite be_bytes_length).
  rewrite drop_app_length' by (by rewrite be_bytes_length). rewrite take_app_length' by (by rewrite be_bytes_length).
  rewrite !word_bytes. split.
  - f_equal. rewrite app_nth2 by (rewrite be_bytes_length; lia).
    rewrite app_nth2; rewrite !be_bytes_length; [|lia]. by destruct odd.
  - rewrite app_assoc. replace 65%nat with (64 + 1)%nat by done. rewrite <- drop_drop.
    rewrite drop_app_length' by (by rewrite length_app, !be_bytes_length). done.
Qed.

Lemma read_parts_bytes l fuel :
  (length l <= fuel)%nat -> read_parts fuel (l ≫= part_bytes) = l.
Proof.
  revert fuel. induction l as [|p l IH]; intros fuel Hf; [by destruct fuel|].
  destruct fuel as [|fuel]; [simpl in Hf; lia|]. cbn [mbind list_bind].
  destruct (read_part_bytes p (l ≫= part_bytes)) as [H1 H2].
  destruct (part_bytes p ++ (l ≫= part_bytes)) as [|x b] eqn:E.
  { apply (f_equal length) in E. unfold part_bytes in E. rewrite !length_app, !be_bytes_length in E. simpl in E. lia. }
  cbn [read_parts]. rewrite H1, H2, IH; [done|]. simpl in Hf. lia.
Qed.

Definition frag_text (f : frag) : string :=
  match f with Lit s | Txt s => s | Num n | HttpStatus n => pretty n | Nums l | Hex l => pretty (length l) end.
Definition wire_format (m : msg) : string := String.concat "" (frag_text <$> m).

#[export] Instance WireJson : JsonLib := {|
  json_public_key s := match from_slice (bstr s) with Ok pk => Ok (MkPublicKeyInfo pk) | Err _ => Err "key" end;
  json_roster s := match bstr s with
                   | n :: t :: h => match to_array 32 h with
                                    | Some a => Ok (MkRosterInfo n t a) | None => Err "roster" end
                   | _ => Err "roster"
                   end;
  json_signatures s := Ok (MkSignaturesInfo (read_parts (String.length s) (bstr s)));
  json_reason s := match s with
                   | String c s => if bool_decide (c = "+"%char) then Some s else None
                   | EmptyString => None
                   end;
|}.
#[export] Instance WireServer : JsonServer := {|
  show_public_key i := str_of (arr (pk_bytes (info_public_key i)));
  show_signatures i := str_of (signatures i ≫= part_bytes);
  show_roster i := str_of (info_n i :: info_threshold i :: arr (roster_hash i));
  show_error e := match eb_reason e with Some m => String "+" (wire_format m) | None => "-" end;
  show_identity s := s;
  show_status s := s;
  format_msg := wire_format;
|}.

Lemma length_bind_parts l : (length l <= length (l ≫= part_bytes))%nat.
Proof.
  induction l as [|p l IH]; [done|]. cbn [mbind list_bind length]. rewrite length_app.
  unfold part_bytes at 1. rewrite !length_app, !be_bytes_length. cbn. lia.
Qed.

Lemma length_str_of b : String.length (str_of b) = length b.
Proof. induction b as [|x b IH]; [done|]. cbn [str_of String.length length]. by rewrite IH. Qed.

#[export] Instance WireLaws : JsonLaws WireJson WireServer.
Proof.
  constructor; cbn [json_public_key json_signatures json_roster json_reason WireJson
    show_public_key show_signatures show_roster show_error format_msg WireServer].
  - intros [pk]. rewrite bstr_str_of. cbn [info_public_key]. by rewrite from_slice_bytes.
  - intros [l]. rewrite bstr_str_of, length_str_of. cbn [signatures].
    by rewrite read_parts_bytes by apply length_bind_parts.
  - intros [n t h]. rewrite bstr_str_of. cbn [info_n info_threshold roster_hash]. by rewrite to_array_arr.
  - intros [e [m|]]; done.
Qed.

(** A runner that keeps its word: a share is its key followed by a tag. *)
Definition fleet_share (pk : PubkeySec1) (tag : u8) : KeyShare := arr (pk_bytes pk) ++ [tag].
#[export] Instance FleetRunner : PartyRunner (C := ToyCrypto) := {|
  Traffic := bool;
  keygen ctx ok := if ok then Some (Ok (fleet_share (demo_pk 34) (party_id ctx), demo_pk 34)) else None;
  run_sign ctx share d subset ok :=
    if ok then Some (Ok (MkEcdsaParts (wmod 256 (be_val (replicate 20 (wmod 8 170)))) (wmod 256 5) false)) else None;
  run_refresh ctx share pk ok :=
    if ok then match from_slice (take 33 share) with
               | Ok old => if decide (old = pk) then Some (Ok (fleet_share pk (wmod 8 1), pk))
                           else Some (Err Deserialize)
               | Err _ => Some (Err Deserialize)
               end
    else None;
  public_key_of share := match from_slice (take 33 share) with Ok pk => Ok pk | Err _ => Err Deserialize end;
|}.

Lemma take_key pk tag : take 33 (fleet_share pk tag) = arr (pk_bytes pk).
Proof. apply take_app_length'. by rewrite array_len. Qed.

#[export] Instance FleetRunnerLaws : RunnerLaws FleetRunner.
Proof.
  constructor; cbn [FleetRunner Traffic keygen run_refresh public_key_of].
  - intros ctx [] share pk; [|done]. intros [= <- <-]. by rewrite take_key, from_slice_bytes.
  - intros ctx share anchor [] share' pk; [|done].
    destruct (from_slice (take 33 share)) as [old|]; [|done]. case_decide as Hd; [|done]. subst old.
    intros [= <- <-]. by rewrite take_key, from_slice_bytes.
Qed.

Definition fleet_state (p : N) (policy : Policy) : CosignerState (C := ToyCrypto) :=
  MkCosigner (wmod 8 p) (toy_key (p + 1) : @SigningKey ToyCrypto)
    (Some [toy_key 1; toy_key 2; toy_key 3]) (wmod 8 2) demo_store 60000%N policy.
Definition fleet_world : world :=
  snd (save_shard demo_store nonce0 (MkMeta ACTIVE_SIGNER_ID (demo_pk 17)) (fleet_share (demo_pk 17) (wmod 8 0))
         (World demo_root [])).
Definition fleet_env : env (P := FleetRunner) := MkEnv (P := FleetRunner) (fun _ => Ok true) nonce0.
Definition fleet_node (p : N) (policy : Policy) (w : world) : node (P := FleetRunner) :=
  MkNode (fleet_state p policy) (MkProc w false []) fleet_env.

Definition url_a : Url := MkUrl "https" "https://a".
Definition url_b : Url := MkUrl "https" "https://b".
Definition url_c : Url := MkUrl "https" "https://c".
(** Party 1 has a policy of its own. *)
Definition fleet_of (w : world) (policy1 : Policy) : fleet (P := FleetRunner) := fun u =>
  if bool_decide (url_text u = "https://a") then Some (fleet_node 0 demo_policy w)
  else if bool_decide (url_text u = "https://b") then Some (fleet_node 1 policy1 w)
  else if bool_decide (url_text u = "https://c") then Some (fleet_node 2 demo_policy w)
  else None.
Definition fleet_cosigners : list (u8 * Url) := [(wmod 8 2, url_c); (wmod 8 0, url_a); (wmod 8 1, url_b)].
Definition fleet_backend : RemoteBackend := MkRemote fleet_cosigners 2.
Definition fleet_probe (p : u8) (u : Url) (path : string) : reply :=
  if N.eqb (wval p) 0 then SendFailed "timed out" else Reply 200 (Some "").
Definition all_up : links := fun _ => None.
Definition strict_policy : Policy := MkPolicy [wmod 64 11155111] Any (wmod 256 5) false false.

Lemma fleet_new : remote_new fleet_cosigners 2 (Ok tt) = Ok fleet_backend.
Proof. vm_compute. reflexivity. Qed.

Lemma fleet_placed w policy1 : placed (fleet_of w policy1) fleet_cosigners.
Proof.
  intros p u nd Hin.
  apply elem_of_cons in Hin as [[-> ->]%pair_eq|Hin].
  { change (Some (fleet_node 2 demo_policy w) = Some nd -> cs_party_id (nd_state nd) = wmod 8 2).
    intros H. apply (inj Some) in H as <-. reflexivity. }
  apply elem_of_cons in Hin as [[-> ->]%pair_eq|Hin].
  { change (Some (fleet_node 0 demo_policy w) = Some nd -> cs_party_id (nd_state nd) = wmod 8 0).
    intros H. apply (inj Some) in H as <-. reflexivity. }
  apply list_elem_of_singleton in Hin. apply pair_eq in Hin as [-> ->].
  change (Some (fleet_node 1 policy1 w) = Some nd -> cs_party_id (nd_state nd) = wmod 8 1).
  intros H. apply (inj Some) in H as <-. reflexivity.
Qed.

Definition fleet_raw : bytes := [wmod 8 42].
Definition fleet_sigs : list EcdsaParts :=
  [MkEcdsaParts (wmod 256 (be_val (replicate 20 (wmod 8 170)))) (wmod 256 5) false].

Lemma fleet_signs :
  remote_sign (fleet_post (fleet_of fleet_world demo_policy) all_up) fleet_probe fleet_backend demo_instance
    Ethereum fleet_raw = Ok fleet_sigs.
Proof. vm_cast_no_check (eq_refl (Ok (E := stop) fleet_sigs)). Qed.

Lemma fleet_sign_quorum_witness :
  exists tx signers, quorum_allows (fleet_of fleet_world demo_policy) fleet_cosigners 2 fleet_raw tx signers /\
    length fleet_sigs = length (signing_digests tx).
Proof.
  destruct (fleet_sign_quorum (Nw := ToyNet) (fleet_of fleet_world demo_policy) all_up fleet_cosigners 2 (Ok tt) fleet_backend
              fleet_probe demo_instance Ethereum fleet_raw fleet_sigs fleet_new (fleet_placed _ _) fleet_signs)
    as (tx & signers & H1 & H2 & _).
  exists tx, signers. split; [exact H1|exact H2].
Defined.

Lemma fleet_veto_reason_witness :
  exists vs, remote_sign (fleet_post (fleet_of fleet_world strict_policy) all_up) fleet_probe fleet_backend
      demo_instance Ethereum fleet_raw = Err (Fail (Rejected vs)) /\
    MkVeto (wmod 8 1) [Txt "value 42 wei exceeds ceiling 5"] ∈ vs.
Proof.
  destruct (fleet_veto_reason (Nw := ToyNet) (fleet_of fleet_world strict_policy) all_up fleet_cosigners 2 (Ok tt) fleet_backend
              fleet_probe demo_instance Ethereum fleet_raw [(wmod 8 2, url_c); (wmod 8 1, url_b)] (wmod 8 1) url_b
              (fleet_node 1 strict_policy fleet_world) [toy_key 1; toy_key 2; toy_key 3] (wmod 8 42)
              (ValueCeiling (wmod 256 42) (wmod 256 5)) fleet_new (fleet_placed _ _))
    as (vs & H1 & H2 & _).
  - vm_compute. reflexivity.
  - right; left.
  - reflexivity.
  - reflexivity.
  - reflexivity.
  - reflexivity.
  - reflexivity.
  - reflexivity.
  - repeat constructor.
  - reflexivity.
  - reflexivity.
  - vm_compute. reflexivity.
  - exists vs. split; [exact H1|]. exact H2.
Defined.

Definition fresh_fleet : fleet (P := FleetRunner) := fleet_of (World demo_root []) demo_policy.
Lemma fleet_dkg_ok :
  remote_dkg (fleet_get fresh_fleet all_up) (fleet_post fresh_fleet all_up) fleet_backend demo_instance = Ok (demo_pk 34).
Proof. vm_cast_no_check (eq_refl (Ok (E := stop) (demo_pk 34))). Qed.

Lemma fleet_sealed w policy1 u nd :
  fleet_of w policy1 u = Some nd -> sealer_ok (sealer (cs_store (nd_state nd))).
Proof.
  unfold fleet_of. repeat (case_bool_decide; [intros H'; apply (inj Some) in H' as <-; apply xchacha_sealer_ok|]). done.
Qed.

(** After the ceremony cosigner [c] goes down, and the orchestrator restarts. *)
Definition c_down : links := fun u => if bool_decide (url_text u = "https://c") then Some "refused" else None.

Lemma dkg_then_restart_witness :
  recover_active (probe_signer (calm (after_post fresh_fleet (fun _ => true) "dkg"
      (ReqDkg (MkStartDkg demo_instance (wmod 8 3) (wmod 8 2))))) c_down) fleet_cosigners 2 = Ok (Some (demo_pk 34)).
Proof.
  apply (proj2 (dkg_then_restart fresh_fleet all_up (fun _ => true) fleet_cosigners 2 (Ok tt) fleet_backend
                  demo_instance (demo_pk 34) fleet_new (fleet_sealed _ _) (fun _ _ => eq_refl) fleet_dkg_ok) c_down).
  vm_compute. discriminate.
Defined.

Lemma fleet_refresh_ok :
  remote_refresh (fleet_get (fleet_of fleet_world demo_policy) all_up)
    (fleet_post (fleet_of fleet_world demo_policy) all_up) fleet_backend demo_instance = Ok (demo_pk 17).
Proof. vm_cast_no_check (eq_refl (Ok (E := stop) (demo_pk 17))). Qed.

Lemma refresh_then_restart_witness :
  recover_active (probe_signer (calm (after_post (fleet_of fleet_world demo_policy) (fun _ => true) "refresh"
      (ReqRefresh (MkStartRefresh demo_instance (wmod 8 3) (wmod 8 2) (demo_pk 17))))) c_down) fleet_cosigners 2
    = Ok (Some (demo_pk 17)).
Proof.
  apply (proj2 (refresh_then_restart (fleet_of fleet_world demo_policy) all_up (fun _ => true) fleet_cosigners 2
                  (Ok tt) fleet_backend demo_instance (demo_pk 17) fleet_new (fleet_sealed _ _)
                  (fun _ _ => eq_refl) fleet_refresh_ok) c_down).
  vm_compute. discriminate.
Defined.
