(* ===== verification/Lifetime.v ===== *)
(** * A cosigner's lifetime

    One party over any number of requests, failing disks and restarts: the
    process that [Startup.start] brings up, served through the router of
    [System], with every file-system fault of [State]'s model at any request.
    Seen from outside it is a machine with three phases, no generation, a torn
    one, one that is held, and a generation that is held is held for good. *)

From S2P Require Import Prelude Text Types Mpc State Policy Network Control Remote Cosigner Startup System.
From S2P Require Tls.
From Stdlib Require Import String NArith Lia.
From stdpp Require Import base decidable list gmap strings relations.
Open Scope string_scope. Open Scope list_scope.

(** ** The abstract machine *)
(** What a party holds: nothing, the metadata of a generation whose shard was
    never written, or a generation. *)
Inductive gen : Type := Nothing | Torn (pk : PubkeySec1) | Held (pk : PubkeySec1).

(** Only a party without a generation moves. *)
Definition gen_leads (g g' : gen) : Prop := g' = g \/ g = Nothing.

#[export] Instance gen_leads_preorder : PreOrder gen_leads.
Proof. split; [by left|]. intros g1 g2 g3 [->| ->]; [done|by right]. Qed.

(** What [GET /signer] says of it. *)
Definition answer (g : gen) : result CosignerError PublicKeyInfo :=
  match g with
  | Nothing => Err NoSigner
  | Torn pk => Err (Cosigner.State (PartialState pk))
  | Held pk => Ok (MkPublicKeyInfo pk)
  end.

(** ** What a handler does to the disk *)
Section Disk.
Context {C : Crypto} {P : PartyRunner} {J : MetaCodec}.
Variable st : CosignerState.

(** Steps that leave every file as it is. *)
Definition still {A} (x : H A) : Prop := forall s r s', x s = (r, s') -> fs (files s') = fs (files s).

Lemma still_bnd {A B} (x : H A) (f : A -> H B) : still x -> (forall a, still (f a)) -> still (mbnd x f).
Proof.
  intros Hx Hf s r s'. unfold mbnd. destruct (x s) as [[a|e] s1] eqn:E; apply Hx in E.
  - intros Hr%Hf. congruence.
  - by intros [= _ <-].
Qed.

Lemma still_pure {A} (a : A) : still (mpure a).
Proof. by intros s r s' [= _ <-]. Qed.
Lemma still_lift {A} (x : result CosignerError A) : still (mlift x).
Proof. by intros s r s' [= _ <-]. Qed.
Lemma still_log e : still (log e).
Proof. by intros s r s' [= _ <-]. Qed.
Lemma still_dial ev i : still (dial ev i).
Proof. intros s r s' (-> & _)%dial_state. done. Qed.
Lemma still_finish {A} (x : option (result MpcError A)) : still (finish x).
Proof. by intros s r s' ->%finish_state. Qed.
Lemma still_own missing : still (load_own_shard st missing).
Proof. by intros s r s' (-> & _)%load_own_shard_state. Qed.
Lemma still_digests ev instance share subset i ds : still (sign_digests st ev instance share subset i ds).
Proof. by intros s r s' (-> & _)%sign_digests_effects. Qed.
Lemma still_refuse id : still (refuse_existing st id).
Proof.
  intros s r s'. unfold refuse_existing, on_store. destruct (load_metadata _ id _) as [[m|e] w] eqn:E;
    apply load_metadata_fs in E; [|destruct e]; by intros [= _ <-].
Qed.
Lemma still_with_op {A} (x : H A) : still x -> still (with_op x).
Proof.
  intros Hx s r s' [(_ & _ & ->)|(_ & _ & s1 & Hb & -> & _)]%with_op_inv; [done|by apply Hx in Hb].
Qed.
End Disk.

Create HintDb still.
#[export] Hint Resolve still_bnd still_pure still_lift still_log still_dial still_finish still_own
  still_digests still_refuse still_with_op : still.

(** A step of a chain: it stays still and the chain goes on, or it ends there. *)
Lemma still_step {C : Crypto} {P : PartyRunner} {J : MetaCodec} {A B} (x : H A) (f : A -> H B) s r s' (Q : Prop) :
  still x -> mbnd x f s = (r, s') -> (fs (files s') = fs (files s) -> Q) ->
  (forall a s1, x s = (Ok a, s1) -> fs (files s1) = fs (files s) -> f a s1 = (r, s') -> Q) -> Q.
Proof.
  intros Hx. unfold mbnd. destruct (x s) as [[a|e] s1] eqn:E; pose proof (Hx _ _ _ E) as Hs.
  - intros Hf _ HQ. by apply (HQ a s1).
  - intros [= _ <-] HQ _. by apply HQ.
Qed.

Lemma no_faults_eq w w' : fs w = fs w' -> no_faults w = no_faults w'.
Proof. unfold no_faults. by intros ->. Qed.

(** Takes the first step of a handler's chain [Hb], which leaves the disk alone. *)
Ltac pass Hb a Ha :=
  let E := fresh "E" in let s1 := fresh "s" in let Hb' := fresh "Hb" in
  refine (still_step _ _ _ _ _ _ _ Hb _ _); [solve [auto with still]|intros E; left; congruence|];
  clear Hb; intros a s1 Ha E Hb'; rename Hb' into Hb.

Section Effects.
Context {C : Crypto} {P : PartyRunner} {J : MetaCodec} {N : Network} {X : HexCodec}.
Context {Jl : JsonLib} {Js : JsonServer}.
Variable st : CosignerState.

(** One call of [save_shard] took the disk from [f] to [f'], whatever failed in it. *)
Definition saves (ev : env) (pk : PubkeySec1) (share : KeyShare) (f f' : gmap path State.node) : Prop :=
  exists w r w', fs w = f /\ fs w' = f' /\
    save_shard (cs_store st) (seal_nonce ev) (MkMeta ACTIVE_SIGNER_ID pk) share w = (r, w').

Lemma save_saves ev pk share s r s' :
  save st ev pk share s = (r, s') -> saves ev pk share (fs (files s)) (fs (files s')).
Proof.
  unfold save, mmap_err, on_store. destruct (save_shard _ _ _ _ _) as [r0 w'] eqn:E. intros [= _ <-].
  by exists (files s), r0, w'.
Qed.

Lemma last_save ev pk share s r s' (g : H PublicKeyInfo) :
  still g -> mbnd (save st ev pk share) (fun _ => g) s = (r, s') ->
  saves ev pk share (fs (files s)) (fs (files s')).
Proof.
  intros Hg. unfold mbnd. destruct (save _ _ _ _ s) as [[[]|e] s1] eqn:E; apply save_saves in E.
  - intros H%Hg. by rewrite H.
  - by intros [= _ <-].
Qed.

Lemma dkg_effect ev req s r s' :
  dkg st ev req s = (r, s') ->
  fs (files s') = fs (files s) \/
  exists ctx tr share pk, keygen ctx tr = Some (Ok (share, pk)) /\ saves ev pk share (fs (files s)) (fs (files s')).
Proof.
  intros [(_ & _ & ->)|(_ & _ & s1 & Hb & -> & _)]%with_op_inv; [by left|].
  set (s0 := MkProc _ _ _) in Hb. change (files s) with (files s0).
  pass Hb u Hu. pass Hb ctx Hc. pass Hb v Hv. pass Hb tr Ht. pass Hb l Hl. pass Hb a Ha.
  apply finish_Ok in Ha as [Ha _]. destruct a as [share pk].
  apply last_save in Hb; [|auto with still]. right. exists ctx, tr, share, pk. split; [done|]. congruence.
Qed.

Lemma refresh_effect ev req s r s' :
  refresh st ev req s = (r, s') ->
  fs (files s') = fs (files s) \/
  exists ctx tr old share pk,
    fst (load_shard (cs_store st) ACTIVE_SIGNER_ID (no_faults (files s))) = Ok old /\
    run_refresh ctx old (refresh_public_key req) tr = Some (Ok (share, pk)) /\
    saves ev pk share (fs (files s)) (fs (files s')).
Proof.
  intros [(_ & _ & ->)|(_ & _ & s1 & Hb & -> & _)]%with_op_inv; [by left|].
  set (s0 := MkProc _ _ _) in Hb. change (files s) with (files s0).
  pass Hb ctx Hc. pass Hb v Hv. pass Hb old Ho. pass Hb tr Ht. pass Hb l Hl. pass Hb a Ha.
  apply finish_Ok in Ha as [Ha _]. destruct a as [share pk].
  apply last_save in Hb; [|auto with still]. right. exists ctx, tr, old, share, pk.
  split; [|split; [done|congruence]].
  apply load_own_shard_state in Ho as (_ & _ & _ & Ho). specialize (Ho _ eq_refl).
  destruct (load_shard _ _ _) as [o w] eqn:El in Ho. simpl in Ho. subst o. apply load_shard_Ok in El as [_ El].
  erewrite (no_faults_eq (files s0)); [by rewrite El|congruence].
Qed.

Lemma load_active_fs so id w r w' : load_active so id w = (r, w') -> fs w' = fs w.
Proof.
  unfold load_active. destruct (load_metadata so id w) as [[m|e] w1] eqn:E1; apply load_metadata_fs in E1.
  - destruct (load_shard so id w1) as [[b|e] w2] eqn:E2; apply load_shard_fs in E2; [|destruct e];
      intros [= _ <-]; congruence.
  - destruct e; intros [= _ <-]; congruence.
Qed.

Lemma still_sign ev req : still (sign st ev req).
Proof.
  apply still_with_op. apply still_bnd; [auto with still|]. intros roster. cbv zeta.
  apply still_bnd; [auto with still|]. intros u. apply still_bnd; [destruct (network req); auto with still|].
  intros ds. auto 6 with still.
Qed.

Lemma still_get path s r s' : route_get st path s = (r, s') -> fs (files s') = fs (files s).
Proof.
  assert (forall A (show : A -> string) (x : H A), still x ->
            respond show (x s) = (r, s') -> fs (files s') = fs (files s)) as Hr.
  { intros A show x Hx. destruct (x s) as [[a|e] s1] eqn:E; apply Hx in E; by intros [= _ <-]. }
  unfold route_get. repeat case_bool_decide; [|apply Hr|apply Hr|by intros [= _ <-]..]; [apply Hr| |].
  - intros s0 r0 s0'. unfold signer, on_store. destruct (load_active _ _ _) as [[[pk|]|e] w] eqn:E; 
      apply load_active_fs in E; by intros [= _ <-].
  - apply still_lift.
  - unfold pubkey. auto with still.
Qed.
End Effects.

(** ** The generation a disk holds *)
Section Generation.
Context {C : Crypto} {P : PartyRunner} {J : MetaCodec}.
Variable so : SignerStore.

Definition meta_is (f : gmap path State.node) (pk : PubkeySec1) : Prop :=
  content f (meta_path (shard_dir so)) = Some (Some (to_json (MkMeta ACTIVE_SIGNER_ID pk))).
Definition shard_is (f : gmap path State.node) (share : KeyShare) : Prop :=
  exists c, content f (shard_path (shard_dir so)) = Some (Some c) /\ open_op (sealer so) c = Ok share.

Definition holds (f : gmap path State.node) (g : gen) : Prop :=
  blocked f [] (meta_path (shard_dir so)) = false /\
  match g with
  | Nothing => content f (meta_path (shard_dir so)) = None /\ content f (shard_path (shard_dir so)) = None
  | Torn pk => meta_is f pk /\ content f (shard_path (shard_dir so)) = None
  | Held pk => meta_is f pk /\ exists share, shard_is f share /\ public_key_of share = Ok pk
  end.

Lemma holds_same f f' g : f' = f -> holds f g -> holds f' g.
Proof. by intros ->. Qed.

Lemma shard_is_inj f x y : shard_is f x -> shard_is f y -> x = y.
Proof. intros (c & H1 & H2) (c' & H3 & H4). congruence. Qed.

Lemma load_shard_is w x :
  fst (load_shard so ACTIVE_SIGNER_ID (no_faults w)) = Ok x <-> shard_is (fs w) x.
Proof.
  rewrite (load_shard_quiet _ _ _ _ (shard_dir_ok so)). unfold shard_is. cbn [fst].
  destruct (content _ _) as [[c|]|]; [|naive_solver..|].
  - split; [by exists c|]. by intros (c' & [= <-] & ?).
  - unfold absent_as. destruct (blocked _ _ _); naive_solver.
Qed.

Context {ML : MetaLaws J}.

Lemma holds_answer w g :
  holds (fs w) g ->
  fst (load_active so ACTIVE_SIGNER_ID (no_faults w)) =
  match g with Nothing => Ok None | Torn pk => Err (PartialState pk) | Held pk => Ok (Some pk) end.
Proof.
  intros (Hb & Hg). rewrite (load_active_quiet _ _ _ _ (shard_dir_ok so)), (load_metadata_quiet _ _ _ _ (shard_dir_ok so)).
  rewrite (load_shard_quiet _ _ _ _ (shard_dir_ok so)). cbn [fst]. unfold absent_as, meta_is, shard_is in *.
  assert (blocked (fs w) [] (shard_path (shard_dir so)) = false) as ->
    by (unfold shard_path; by rewrite (blocked_sibling _ _ SHARD_FILE METADATA_FILE)). rewrite Hb.
  destruct g as [|pk|pk].
  - destruct Hg as [-> _]. done.
  - destruct Hg as [-> ->]. by rewrite json_roundtrip.
  - destruct Hg as (-> & share & (c & -> & Ho) & _). rewrite json_roundtrip. cbn [ok_or]. by rewrite Ho.
Qed.
End Generation.

(** ** What a save makes of a generation *)
Section Saving.
Context {C : Crypto} {P : PartyRunner} {J : MetaCodec}.
Variable st : CosignerState.

(** A save keeps every file that is not one of its own four, and every
    directory. *)
Lemma saves_frame ev pk share f f' q :
  saves st ev pk share f f' -> q ∉ save_files (shard_dir (cs_store st)) -> grown (shard_dir (cs_store st)) f f' q.
Proof.
  intros (w & r & w' & <- & <- & Hs).
  destruct (save_shard_effect _ _ (MkMeta ACTIVE_SIGNER_ID pk) _ _ _ _ _ (shard_dir_ok (cs_store st)) Hs) as (Hg & _).
  apply Hg.
Qed.

Lemma saves_unblocked ev pk share f f' :
  saves st ev pk share f f' -> blocked f [] (meta_path (shard_dir (cs_store st))) = false ->
  blocked f' [] (meta_path (shard_dir (cs_store st))) = false.
Proof. intros Hs. apply grown_unblocked. intros q Hq. by apply (saves_frame _ _ _ _ _ _ Hs), save_files_dirs. Qed.

Context (Hseal : sealer_ok (sealer (cs_store st))).

(** The two files of a save, after it. *)
Lemma saves_files ev pk share f f' :
  saves st ev pk share f f' ->
  let m := content f (meta_path (shard_dir (cs_store st))) in let m' := content f' (meta_path (shard_dir (cs_store st))) in
  let s := content f (shard_path (shard_dir (cs_store st))) in let s' := content f' (shard_path (shard_dir (cs_store st))) in
  ((m' = m \/ meta_is (cs_store st) f' pk) /\ s' = s) \/ (meta_is (cs_store st) f' pk /\ shard_is (cs_store st) f' share).
Proof.
  intros (w & r & w' & <- & <- & Hs).
  destruct (save_shard_effect _ _ (MkMeta ACTIVE_SIGNER_ID pk) _ _ _ _ _ (shard_dir_ok (cs_store st)) Hs) as (_ & Hc & _). cbv zeta in Hc |- *.
  destruct Hc as [Hc|(Hm & c & Hc & Hsh)]; [by left|]. right. split; [done|]. exists c. split; [done|].
  by apply (Hseal _ _ _ Hc).
Qed.

(** A first save leaves nothing, a torn generation or the whole one. *)
Lemma saves_first ev pk share f f' :
  saves st ev pk share f f' -> public_key_of share = Ok pk -> holds (cs_store st) f Nothing ->
  exists g, holds (cs_store st) f' g.
Proof.
  intros Hs Hk (Hb & Hm0 & Hs0). pose proof (saves_unblocked _ _ _ _ _ Hs Hb) as Hb'.
  destruct (saves_files _ _ _ _ _ Hs) as [[[Hm|Hm] Hsh]|[Hm Hsh]].
  - exists Nothing. split; [done|]. by rewrite Hm, Hsh.
  - exists (Torn pk). split; [done|]. by rewrite Hsh.
  - exists (Held pk). split; [done|]. split; [done|]. by exists share.
Qed.

(** A later save of the same key keeps the generation, whatever fails in it. *)
Lemma saves_again ev pk share f f' :
  saves st ev pk share f f' -> public_key_of share = Ok pk -> holds (cs_store st) f (Held pk) -> holds (cs_store st) f' (Held pk).
Proof.
  intros Hs Hk (Hb & Hm0 & x & Hx & Hkx). pose proof (saves_unblocked _ _ _ _ _ Hs Hb) as Hb'.
  split; [done|]. destruct (saves_files _ _ _ _ _ Hs) as [[Hm Hsh]|[Hm Hsh]].
  - split; [destruct Hm as [Hm|Hm]; [unfold meta_is; by rewrite Hm|done]|].
    exists x. split; [|done]. destruct Hx as (c & Hc & Ho). exists c. by rewrite Hsh.
  - split; [done|]. by exists share.
Qed.
End Saving.

(** ** Requests *)
Section Requests.
Context {C : Crypto} {P : PartyRunner} {J : MetaCodec} {N : Network} {X : HexCodec}.
Context {Jl : JsonLib} {Js : JsonServer} {PL : RunnerLaws P}.
Variable st : CosignerState.
Context (Hseal : sealer_ok (sealer (cs_store st))).

Lemma dkg_leads ev req s r s' g :
  dkg st ev req s = (r, s') -> holds (cs_store st) (fs (files s)) g ->
  exists g', gen_leads g g' /\ holds (cs_store st) (fs (files s')) g'.
Proof.
  intros Hd Hg. destruct (decide (content (fs (files s)) (meta_path (shard_dir (cs_store st))) = None)) as [Hn|Hn].
  2:{ exists g. split; [done|]. destruct (dkg_never_overwrites _ _ _ _ _ _ _ (shard_dir_ok (cs_store st)) Hn Hd) as (_ & E & _).
      by apply (holds_same _ _ _ _ E). }
  assert (g = Nothing) as ->.
  { destruct g as [|pk|pk]; [done|destruct Hg as (_ & Hm & _)..]; unfold meta_is in Hm; by rewrite Hn in Hm. }
  destruct (dkg_effect _ _ _ _ _ _ Hd) as [E|(ctx & tr & share & pk & Hk & Hs)].
  - exists Nothing. split; [done|]. by apply (holds_same _ _ _ _ E).
  - destruct (saves_first _ Hseal _ _ _ _ _ Hs (keygen_key _ _ _ _ Hk) Hg) as [g' Hg']. exists g'. split; [by right|done].
Qed.

Lemma refresh_keeps ev req s r s' g :
  refresh st ev req s = (r, s') -> holds (cs_store st) (fs (files s)) g -> holds (cs_store st) (fs (files s')) g.
Proof.
  intros Hr Hg. destruct (refresh_effect _ _ _ _ _ _ Hr) as [E|(ctx & tr & old & share & pk & Ho & Hk & Hs)];
    [by apply (holds_same _ _ _ _ E)|].
  apply load_shard_is in Ho. apply refresh_key in Hk as (-> & Hko & Hks).
  destruct g as [|p|p].
  - destruct Hg as (_ & _ & Hn). destruct Ho as (c & Hc & _). congruence.
  - destruct Hg as (_ & _ & Hn). destruct Ho as (c & Hc & _). congruence.
  - assert (p = refresh_public_key req) as ->.
    { destruct Hg as (_ & _ & x & Hx & Hkx). rewrite (shard_is_inj _ _ _ _ Hx Ho) in Hkx. congruence. }
    by apply (saves_again _ Hseal _ _ _ _ _ Hs).
Qed.

(** A POST leaves the disk, or runs one save. *)
Lemma post_effect ev path req s r s' :
  route_post st ev path req s = (r, s') ->
  fs (files s') = fs (files s) \/ exists pk share, saves st ev pk share (fs (files s)) (fs (files s')).
Proof.
  unfold route_post. intros H. destruct req as [q|q|q]; case_bool_decide; try (left; by injection H as _ <-);
    apply (f_equal snd) in H; rewrite respond_snd in H; cbn [snd] in H.
  - destruct (dkg st ev q s) as [r0 s0] eqn:E. cbn in H. subst s0.
    destruct (dkg_effect _ _ _ _ _ _ E) as [?|(? & ? & share & pk & _ & Hs)]; [by left|right; by exists pk, share].
  - destruct (sign st ev q s) as [r0 s0] eqn:E. cbn in H. subst s0. left. by apply still_sign in E.
  - destruct (refresh st ev q s) as [r0 s0] eqn:E. cbn in H. subst s0.
    destruct (refresh_effect _ _ _ _ _ _ E) as [?|(? & ? & ? & share & pk & _ & _ & Hs)]; [by left|right; by exists pk, share].
Qed.

Lemma post_frame ev path req s r s' q :
  route_post st ev path req s = (r, s') -> q ∉ save_files (shard_dir (cs_store st)) ->
  content (fs (files s)) q <> None -> content (fs (files s')) q = content (fs (files s)) q.
Proof.
  intros H Hq Hn. destruct (post_effect _ _ _ _ _ _ H) as [->|(pk & share & Hs)]; [done|].
  by destruct (proj2 (saves_frame _ _ _ _ _ _ _ Hs Hq)) as [E|[E _]].
Qed.

Lemma post_leads ev path req s r s' g :
  route_post st ev path req s = (r, s') -> holds (cs_store st) (fs (files s)) g ->
  exists g', gen_leads g g' /\ holds (cs_store st) (fs (files s')) g'.
Proof.
  assert (s' = s -> holds (cs_store st) (fs (files s)) g -> exists g', gen_leads g g' /\ holds (cs_store st) (fs (files s')) g') as Hn
    by (intros -> Hg; by exists g).
  unfold route_post. intros H Hg. destruct req as [q|q|q]; case_bool_decide; try (by injection H as _ <-; apply Hn);
    apply (f_equal snd) in H; rewrite respond_snd in H; cbn [snd] in H.
  - destruct (dkg st ev q s) as [r0 s0] eqn:E. cbn in H. subst s0. by apply (dkg_leads _ _ _ _ _ _ E).
  - destruct (sign st ev q s) as [r0 s0] eqn:E. cbn in H. subst s0. apply still_sign in E.
    exists g. split; [done|by apply (holds_same _ _ _ _ E)].
  - destruct (refresh st ev q s) as [r0 s0] eqn:E. cbn in H. subst s0. exists g. split; [done|].
    by apply (refresh_keeps _ _ _ _ _ _ E).
Qed.
End Requests.

(** ** Reading a disk that fails *)
(** On the disk [f], whatever fails, [x] changes nothing, and what it returns is
    what it returns when nothing fails. *)
Definition settles {E A : Type} (f : gmap path State.node) (x : M world E A) : Prop :=
  forall w r w', fs w = f -> x w = (r, w') ->
    fs w' = f /\ forall a, r = Ok a -> x (no_faults w) = (Ok a, no_faults w).

Lemma settles_bnd {E A B : Type} f (x : M world E A) (g : A -> M world E B) :
  settles f x -> (forall a, settles f (g a)) -> settles f (mbnd x g).
Proof.
  intros Hx Hg w r w' Hw. unfold mbnd. destruct (x w) as [[a|e] w1] eqn:E1; destruct (Hx _ _ _ Hw E1) as [F1 X1].
  - intros H. destruct (Hg a _ _ _ F1 H) as [F2 X2]. split; [done|]. intros b Hb.
    rewrite (X1 a eq_refl). rewrite (no_faults_eq w w1) by congruence. by apply X2.
  - by intros [= <- <-].
Qed.

Lemma settles_pure {E A : Type} f (a : A) : settles (E := E) f (mpure a).
Proof. intros w r w' Hw [= <- <-]. split; [done|]. by intros a' [= ->]. Qed.
Lemma settles_abort {E A : Type} f (e : E) : settles (A := A) f (mabort e).
Proof. by intros w r w' Hw [= <- <-]. Qed.
Lemma settles_lift {E A : Type} f (x : result E A) : settles f (mlift x).
Proof. intros w r w' Hw [= <- <-]. split; [done|]. by intros a ->. Qed.
Lemma settles_map_err {E F A : Type} f (g : E -> F) (x : M world E A) : settles f x -> settles f (mmap_err g x).
Proof.
  intros Hx w r w' Hw. unfold mmap_err. destruct (x w) as [r0 w0] eqn:E0. destruct (Hx _ _ _ Hw E0) as [F0 X0].
  intros [= <- <-]. split; [done|]. intros a Ha%map_err_Ok. by rewrite (X0 a Ha).
Qed.

Lemma settles_read f p : settles f (fs_read p).
Proof.
  intros w r w' Hw H. split; [by rewrite (fs_read_fs _ _ _ _ H)|]. intros a ->. by apply fs_read_Ok in H as [_ H].
Qed.
Lemma settles_read_to_string f p : settles f (fs_read_to_string p).
Proof.
  intros w r w' Hw. unfold fs_read_to_string. destruct (fs_read p w) as [[b|e] w1] eqn:E1;
    destruct (settles_read f p _ _ _ Hw E1) as [F1 X1]; intros [= <- <-]; (split; [done|]); [|done].
  intros a Ha. rewrite (X1 b eq_refl). by rewrite Ha.
Qed.
(** Creating directories that are there. *)
Lemma settles_create_dir f p : mkdirs f [] p = Some f -> settles f (fs_create_dir_all p).
Proof.
  intros Hm w r w' <-. unfold fs_create_dir_all. destruct (pop_fault w) as [fault w1] eqn:Hp.
  apply pop_fault_fs in Hp. rewrite Hp. cbn. rewrite Hm.
  destruct fault; intros [= <- <-]; (split; [done|]); [done|]. by intros [] _.
Qed.

Create HintDb settles.
#[export] Hint Resolve settles_bnd settles_pure settles_abort settles_lift settles_map_err settles_read
  settles_read_to_string settles_create_dir : settles.

(** ** Lives *)
Section Life.
Context {C : Crypto} {K : KeyBytes C} {P : PartyRunner} {J : MetaCodec} {N : Network} {X : HexCodec}.
Context {A : AlloyParse} {T : TomlLib} {TL : Tls.Rustls} {Jl : JsonLib} {Js : JsonServer}.
Variable cfg : Config.

(** A process: what it came up with, and its disk and lock. *)
Definition life : Type := Started * proc.

(** The same process meeting the failures [fl] at its next file operations. *)
Definition failing (fl : list (option nat)) (s : proc) : proc :=
  MkProc (World (fs (files s)) fl) (op s) (effects s).

(** The call that looks for the identity file, the first of a start, does not
    fail.  (What it does when it fails is [Startup.identity_replaced_on_stat_error].) *)
Definition looks (fl : list (option nat)) : Prop := fails_at 0 (World ∅ fl) = false.

(** Starts that fail, one after the other. *)
Inductive attempts : world -> world -> Prop :=
  | no_attempt w : attempts w w
  | failed_attempt w fl fresh e w1 w2 :
      looks fl -> start cfg fresh (World (fs w) fl) = (Err e, w1) -> attempts w1 w2 -> attempts w w2.

(** A POST or a GET arrives and the disk fails however it likes meanwhile, a
    death inside the handler being the failure of its next file operation; or
    the process is started again, on the disk as it was left, until a start
    succeeds, and the disk fails meanwhile too. *)
Inductive lives : life -> life -> Prop :=
  | Posted b s fl ev path req :
      lives (b, s) (b, snd (route_post (st_state b) ev path req (failing fl s)))
  | Got b s fl path :
      lives (b, s) (b, snd (route_get (st_state b) path (failing fl s)))
  | Restarted b s w fl fresh b' w' :
      attempts (files s) w -> looks fl -> start cfg fresh (World (fs w) fl) = (Ok b', w') ->
      lives (b, s) (b', MkProc w' false []).

(** The files a start reads besides the identity, and where the store is. *)
Definition config_files : list path :=
  [policy_path cfg; tls_ca_path cfg; tls_cert_path cfg; tls_key_path cfg] ++ option_list (seal_key_path cfg).
Definition store_root : path := data_dir cfg ++ ["store"].
Definition own_files : list path := save_files (store_root ++ [ACTIVE_SIGNER_ID]).

(** The disk of a party that starts as [b]. *)
Definition ready (f : gmap path State.node) (key : SigningKey) (b : Started) : Prop :=
  identity_on f (data_dir cfg) key /\ startable f cfg key b /\
  forall k, k <> [] -> k `prefix_of` store_root -> content f k = Some None.

Context {CL : CryptoLaws C} {KL : KeyLaws K}.

Lemma ready_starts w key b fresh :
  ready (fs w) key b -> start cfg fresh (no_faults w) = (Ok b, no_faults w).
Proof.
  intros (Hi & Hs & Hd). apply (startable_runs w cfg fresh key); [done..|]. apply mkdirs_done.
  intros k Hk Hp. specialize (Hd k Hk Hp). unfold content in Hd. cbn [app].
  destruct (fs w !! k) as [[c m|m]|]; [done|by exists m|done].
Qed.

Lemma settles_load_sealer f : settles f (load_sealer cfg).
Proof. unfold load_sealer. destruct (seal_key_path cfg); auto 8 with settles. Qed.
Lemma settles_load_policy f p : settles f (load_policy p).
Proof. unfold load_policy. auto 8 with settles. Qed.
Lemma settles_open f p sl : mkdirs f [] p = Some f -> settles f (open_with_sealer p sl).
Proof. intros Hm. unfold open_with_sealer, at_. auto 8 with settles. Qed.
Lemma settles_tls f ca cert k : settles f (Tls.load ca cert k).
Proof.
  unfold Tls.load, Tls.read_pem, Tls.parsed. repeat (apply settles_bnd; [auto with settles|intros ?]).
  case_match; [auto with settles|]. repeat (apply settles_bnd; [auto with settles|intros ?]). auto with settles.
Qed.

(** What a start does once it has its identity. *)
Definition settle_in (key : SigningKey) : M world StartError Started :=
  let! roster := mlift (map_err BadSetup (load_roster cfg key)) in
  let! sl := mmap_err BadSetup (load_sealer cfg) in
  let! store := mmap_err StartState (open_with_sealer (data_dir cfg ++ ["store"]) sl) in
  let! policy := mmap_err BadSetup (load_policy (policy_path cfg)) in
  let! tls := mmap_err StartTls (Tls.load (tls_ca_path cfg) (tls_cert_path cfg) (tls_key_path cfg)) in
  if negb (has_prefix "wss://" (relay_url cfg)) then
    mabort (StartTls (Tls.PlainScheme (relay_url cfg) "wss"))
  else
    let! relay_tls := mlift (map_err StartTls (Tls.ws_client_config tls)) in
    mpure (MkStarted
      (MkCosigner (party_id cfg) key roster (threshold cfg) store (wval (ttl_secs cfg) * 1000)%N policy)
      relay_tls tls).

Lemma start_settles_in fresh :
  start cfg fresh =
  let! _ := mlift (map_err BadConfig (validate_config cfg)) in
  let! key := mmap_err StartCosigner (load_or_generate (data_dir cfg) fresh) in settle_in key.
Proof. reflexivity. Qed.

Lemma settles_settle_in f key : mkdirs f [] store_root = Some f -> settles f (settle_in key).
Proof.
  intros Hm. unfold settle_in. apply settles_bnd; [auto with settles|intros ro].
  apply settles_bnd; [apply settles_map_err, settles_load_sealer|intros sl].
  apply settles_bnd; [by apply settles_map_err, settles_open|intros so].
  apply settles_bnd; [apply settles_map_err, settles_load_policy|intros pol].
  apply settles_bnd; [apply settles_map_err, settles_tls|intros m].
  destruct (negb _); auto with settles.
Qed.

(** An identity that is there and is looked for is loaded, or the start fails. *)
Lemma load_there fresh w key r w' :
  identity_on (fs w) (data_dir cfg) key -> looks (faults w) ->
  load_or_generate (data_dir cfg) fresh w = (r, w') -> fs w' = fs w /\ forall k, r = Ok k -> k = key.
Proof.
  intros Hi Hl. unfold load_or_generate. fold (identity_path (data_dir cfg)).
  assert (exists w1, path_exists (identity_path (data_dir cfg)) w = (true, w1) /\ fs w1 = fs w) as (w1 & -> & F1).
  { unfold path_exists. destruct (pop_fault w) as [fault w1] eqn:Hp. pose proof (pop_fault_fs _ _ _ Hp) as F1.
    exists w1. split; [|done]. unfold looks, fails_at in Hl. cbn in Hl. unfold pop_fault in Hp.
    destruct (faults w) as [|[k|] l]; [|discriminate Hl|]; injection Hp as <- <-;
      (f_equal; apply bool_decide_eq_true_2); unfold identity_on, content in Hi; cbn [fs]; by destruct (_ !! _). }
  rewrite <- F1 in Hi |- *. unfold mbnd, at_c, at_, mmap_err.
  destruct (fs_read _ w1) as [[b|e] w2] eqn:E; pose proof (settles_read (fs w1) _ _ _ _ eq_refl E) as [F2 X2];
    [|by intros [= <- <-]].
  specialize (X2 b eq_refl). rewrite fs_read_quiet, Hi in X2. injection X2 as <-. cbn. rewrite to_array_arr.
  intros [= <- <-]. split; [done|]. intros k [= <-]. apply sk_bytes_roundtrip.
Qed.

(** Whatever fails once the identity is looked for, a start of a ready party
    changes nothing, and comes up with the same or not at all. *)
Lemma start_faulty w fl key b fresh r w' :
  ready (fs w) key b -> looks fl -> start cfg fresh (World (fs w) fl) = (r, w') ->
  fs w' = fs w /\ forall b', r = Ok b' -> b' = b.
Proof.
  intros Hr Hl H. pose proof (ready_starts w key b fresh Hr) as Hq. destruct Hr as (Hi & _ & Hd).
  assert (mkdirs (fs w) [] store_root = Some (fs w)) as Hm.
  { apply mkdirs_done. intros k Hk Hp. specialize (Hd k Hk Hp). unfold content in Hd. cbn [app].
    destruct (fs w !! k) as [[c m|m]|]; [done|by exists m|done]. }
  rewrite start_settles_in in H, Hq.
  apply mbnd_Ok in Hq as ([] & w1 & [Hv <-]%pair_eq & Hq). apply mbnd_Ok in Hq as (k & w1 & Hk%mmap_err_Ok & Hq).
  rewrite (load_identity _ _ _ _ Hi) in Hk. injection Hk as <- <-.
  unfold mbnd at 1, mlift at 1 in H. rewrite Hv in H. unfold mbnd at 1, mmap_err at 1 in H.
  destruct (load_or_generate _ _ _) as [[k|e] w1] eqn:E; destruct (load_there fresh (World (fs w) fl) key _ _ Hi Hl E) as [F1 K1];
    cbn [map_err fs] in *; [|by injection H as <- <-].
  specialize (K1 k eq_refl) as ->. destruct (settles_settle_in _ key Hm _ _ _ F1 H) as [F2 X2]. split; [done|].
  intros b' Hb. specialize (X2 b' Hb). rewrite (no_faults_eq w1 w F1), Hq in X2. by injection X2 as ->.
Qed.

Lemma attempts_keep w w' key b : attempts w w' -> ready (fs w) key b -> fs w' = fs w.
Proof.
  induction 1 as [w|w fl fresh e w1 w2 Hl Hs _ IH]; intros Hr; [done|].
  destruct (start_faulty _ _ _ _ _ _ _ Hr Hl Hs) as [F1 _]. rewrite IH; [done|by rewrite F1].
Qed.

Lemma start_ready w fresh key b w' :
  identity_on (fs w) (data_dir cfg) key -> start cfg fresh (no_faults w) = (Ok b, w') -> ready (fs w') key b.
Proof.
  intros Hi H. pose proof (start_startable _ _ _ _ _ _ Hi H) as (Hs & f' & Hm & ->).
  assert (forall q, keeps (fs w) f' q) as Hk by (intros q c; by apply (mkdirs_files _ _ _ _ q c Hm)).
  split; [by apply Hk|]. split.
  - destruct Hs as (Hv & Hr & Hro & Hse & Hp & Hma & Hrest). split_and!; try done; try apply Hrest.
    + by apply (sealer_of_keeps (fs w)).
    + by apply (policy_of_keeps (fs w)).
    + by apply (material_of_keeps (fs w)).
  - intros k Hne Hp. destruct (mkdirs_dir_at _ _ _ _ _ Hm Hne Hp) as [m E]. cbn [app] in E. cbn [fs]. unfold content. by rewrite E.
Qed.

Lemma store_of f key b : startable f cfg key b -> root (cs_store (st_state b)) = store_root.
Proof. by intros (_ & _ & ? & _). Qed.

Lemma sealer_works f key b : startable f cfg key b -> sealer_ok (sealer (cs_store (st_state b))).
Proof.
  intros (_ & _ & _ & Hs & _). unfold sealer_of in Hs. destruct (seal_key_path cfg).
  - destruct Hs as (raw & c & a & _ & _ & _ & _ & ->). apply xchacha_sealer_ok.
  - rewrite Hs. intros n c c' [= ->]. done.
Qed.

Lemma identity_apart : identity_path (data_dir cfg) ∉ own_files.
Proof.
  unfold identity_path, own_files, store_root, save_files, meta_path, shard_path. rewrite !tmp_path_snoc, <- !app_assoc.
  intros Hin. set_unfold. repeat destruct Hin as [E|Hin]; try done; by apply app_inv_head in E.
Qed.

(** What keeps the configured files and every directory keeps a party ready. *)
Lemma ready_frame f f' key b :
  Forall (fun q => q ∉ own_files) config_files ->
  (forall q, q ∉ own_files -> content f q <> None -> content f' q = content f q) ->
  ready f key b -> ready f' key b.
Proof.
  intros Hap Hf (Hi & Hs & Hd).
  assert (forall q, q ∈ config_files -> keeps f f' q) as Hk.
  { intros q Hin c Hc. rewrite Forall_forall in Hap. rewrite Hf; [done|by apply Hap|congruence]. }
  split; [|split].
  - unfold identity_on in *. rewrite Hf; [done|apply identity_apart|congruence].
  - destruct Hs as (Hv & Hr & Hro & Hse & Hp & Hma & Hrest). split_and!; try done; try apply Hrest.
    + apply (sealer_of_keeps f); [|done]. intros p E. apply Hk. unfold config_files. rewrite E. set_solver.
    + apply (policy_of_keeps f); [|done]. apply Hk. set_solver.
    + apply (material_of_keeps f); [| | |done]; apply Hk; set_solver.
  - intros k Hne Hp. rewrite Hf; [by apply Hd| |by rewrite Hd].
    intros Hin. apply (save_files_dirs (store_root ++ [ACTIVE_SIGNER_ID]) k); [by apply prefix_app_r|done].
Qed.

Context {ML : MetaLaws J} {PL : RunnerLaws P}.

(** The invariant of a life: the party is the one that came up, it can come up
    again, and its disk holds what it held or what it was first given. *)
Definition steady (key : SigningKey) (b0 : Started) (g : gen) (l : life) : Prop :=
  l.1 = b0 /\ ready (fs (files l.2)) key b0 /\
  exists g', gen_leads g g' /\ holds (cs_store (st_state b0)) (fs (files l.2)) g'.

Lemma lives_steady key b0 g l l' :
  Forall (fun q => q ∉ own_files) config_files -> lives l l' -> steady key b0 g l -> steady key b0 g l'.
Proof.
  intros Hap Hl (Hb & Hr & g' & Hg & Hh). pose proof Hr as (_ & Hst & _).
  pose proof (sealer_works _ _ _ Hst) as Hse. apply store_of in Hst.
  destruct Hl as [b s fl ev path req|b s fl path|b s w fl fresh b' w' Ha Hlo Hs]; cbn [fst snd] in *; subst b.
  - destruct (route_post _ _ _ _ _) as [r s'] eqn:E. cbn [snd].
    pose proof (fun q => post_frame _ _ _ _ _ _ _ q E) as Hf.
    destruct (post_leads _ Hse _ _ _ _ _ _ _ E Hh) as (g'' & Hg'' & Hh'').
    split; [done|]. split; [|exists g''; split; [by transitivity g'|done]].
    apply (ready_frame (fs (files s))); [done| |done]. intros q Hq. apply Hf. unfold shard_dir. by rewrite Hst.
  - destruct (route_get _ _ _) as [r s'] eqn:E. apply still_get in E. cbn [snd files failing] in *.
    unfold steady. cbn [fst snd]. rewrite E. split_and!; [done|done|by exists g'].
  - pose proof (attempts_keep _ _ _ _ Ha Hr) as F1. rewrite <- F1 in Hr, Hh.
    destruct (start_faulty _ _ _ _ _ _ _ Hr Hlo Hs) as [F2 Hb']. rewrite <- F2 in Hr, Hh.
    split_and!; [by apply Hb'|done|by exists g'].
Qed.

Lemma steady_reached key b0 g l l' :
  Forall (fun q => q ∉ own_files) config_files -> rtc lives l l' -> steady key b0 g l -> steady key b0 g l'.
Proof. intros Hap. induction 1 as [|l l1 l' Hs _ IH]; [done|]. intros H. by apply IH, (lives_steady _ _ _ _ _ Hap Hs). Qed.

(** What a client is told, and what is on the disk behind it. *)
Definition tells (st : CosignerState) (s : proc) (g : gen) : Prop :=
  fst (signer st (failing [] s)) = answer g /\
  forall pk, g = Held pk -> exists share,
    fst (load_shard (cs_store st) ACTIVE_SIGNER_ID (no_faults (files s))) = Ok share /\ public_key_of share = Ok pk.

Lemma holds_tells st s g : holds (cs_store st) (fs (files s)) g -> tells st s g.
Proof.
  intros Hg. split.
  - unfold signer, on_store, failing. cbn [files]. change (World (fs (files s)) []) with (no_faults (files s)).
    pose proof (holds_answer _ _ _ Hg) as Ha. destruct (load_active _ _ _) as [r w]. cbn [fst] in Ha. subst r.
    by destruct g.
  - intros pk ->. destruct Hg as (_ & _ & share & Hs & Hk). exists share. split; [|done]. by apply load_shard_is.
Qed.

Lemma stored_held st pk share s g :
  has_stored st pk share s -> holds (cs_store st) (fs (files s)) g -> g = Held pk.
Proof. intros [_ Ha] Hg. rewrite (holds_answer _ _ _ Hg) in Ha. destruct g; try done. by injection Ha as ->. Qed.

Lemma dkg_settles st ev req s info s' g :
  sealer_ok (sealer (cs_store st)) -> dkg st ev req s = (Ok info, s') -> holds (cs_store st) (fs (files s)) g ->
  g = Nothing /\ tells st s' (Held (info_public_key info)).
Proof.
  intros Hse Hd Hg. split.
  - destruct g as [|pk|pk]; [done|destruct Hg as (_ & Hm & _)..]; unfold meta_is in Hm; exfalso;
      (destruct (dkg_never_overwrites _ _ _ _ _ _ _ (shard_dir_ok (cs_store st)) ltac:(by rewrite Hm) Hd)
         as ([e [=]] & _)).
  - destruct (dkg_Ok _ _ _ _ _ _ Hse Hd) as (ctx & tr & share & _ & _ & _ & _ & Hsto).
    destruct (dkg_leads _ Hse _ _ _ _ _ _ Hd Hg) as (g' & _ & Hg'). pose proof (stored_held _ _ _ _ _ Hsto Hg') as ->.
    by apply holds_tells.
Qed.

Lemma refresh_settled st ev req s info s' g :
  sealer_ok (sealer (cs_store st)) -> refresh st ev req s = (Ok info, s') -> holds (cs_store st) (fs (files s)) g ->
  g = Held (info_public_key info).
Proof.
  intros Hse Hr Hg. destruct (refresh_Ok _ _ _ _ _ _ Hse Hr) as (ctx & tr & old & share & _ & _ & _ & _ & _ & Hsto).
  by apply (stored_held _ _ _ _ _ Hsto), (refresh_keeps _ Hse _ _ _ _ _ _ Hr).
Qed.

(** C13: a generation is for life.  From the moment a party comes up on its
    disk, through any requests, any failures and torn writes of its disk and
    any restarts, tried on a failing disk until one succeeds, the party is the
    same: every start that succeeds gives the same identity, roster, policy and
    store, and once the disk works a start does succeed.  (One failure is left
    out, that of the call by which a start looks for its identity.)  Of the generation, [GET /signer] and
    the disk tell one story that only ever advances from nothing: once a key is
    held it is the key told ever after and a shard of it can be read; a torn
    generation stays refused.  A [/dkg] succeeds only where there was nothing
    and leaves its key held, and a [/refresh] only for the key held. *)
Theorem generation_for_life key fresh w b w0 g b1 s1 b2 s2 :
  identity_on (fs w) (data_dir cfg) key ->
  Forall (fun q => q ∉ own_files) config_files ->
  start cfg fresh (no_faults w) = (Ok b, w0) ->
  holds (cs_store (st_state b)) (fs w0) g ->
  rtc lives (b, MkProc w0 false []) (b1, s1) -> rtc lives (b1, s1) (b2, s2) ->
  b2 = b /\ (forall fresh', start cfg fresh' (no_faults (files s2)) = (Ok b, no_faults (files s2))) /\
  exists g1 g2, gen_leads g g1 /\ gen_leads g1 g2 /\
    tells (st_state b) s1 g1 /\ tells (st_state b) s2 g2 /\
    (forall ev req info s', dkg (st_state b) ev req s2 = (Ok info, s') ->
       g2 = Nothing /\ tells (st_state b) s' (Held (info_public_key info))) /\
    (forall ev req info s', refresh (st_state b) ev req s2 = (Ok info, s') -> g2 = Held (info_public_key info)).
Proof.
  intros Hi Hap Hs Hg H1 H2. pose proof (start_ready _ _ _ _ _ Hi Hs) as Hr.
  assert (steady key b g (b, MkProc w0 false [])) as (E1 & Hr1 & g1 & Hg1 & Hh1)%(steady_reached _ _ _ _ _ Hap H1)
    by (split_and!; [done|done|by exists g]).
  cbn [fst snd] in *. subst b1.
  assert (steady key b g1 (b, s1)) as (E2 & Hr2 & g2 & Hg2 & Hh2)%(steady_reached _ _ _ _ _ Hap H2)
    by (split_and!; [done|done|by exists g1]).
  cbn [fst snd] in *. subst b2.
  pose proof (sealer_works _ _ _ (proj1 (proj2 Hr2))) as Hse.
  split; [done|]. split; [intros fresh'; by apply (ready_starts _ key)|].
  exists g1, g2. split_and!; [done|done|by apply holds_tells|by apply holds_tells| |].
  - intros ev req info s' Hd. by apply (dkg_settles _ _ _ _ _ _ _ Hse Hd).
  - intros ev req info s' Hd. by apply (refresh_settled _ _ _ _ _ _ _ Hse Hd).
Qed.
End Life.

(** ** A concrete life *)
#[local] Existing Instance Tls.ToyRustls.
(** The party of [Startup]'s demo: it generates a key, then dies inside a
    refresh, three bytes into its new shard. *)
Definition born : option life :=
  match demo_start with (Ok b, w) => Some (b, MkProc w false []) | _ => None end.
Definition dkg_life (l : life) : life :=
  (l.1, snd (route_post (P := FleetRunner) (Nw := ToyNet) (st_state l.1) fleet_env "dkg"
               (ReqDkg (MkStartDkg demo_instance (wmod 8 2) (wmod 8 2))) (failing [] l.2))).
Definition torn_post (l : life) : reply * proc :=
  route_post (P := FleetRunner) (Nw := ToyNet) (st_state l.1) fleet_env "refresh"
    (ReqRefresh (MkStartRefresh demo_instance (wmod 8 2) (wmod 8 2) (demo_pk 34)))
    (failing [None; None; None; None; None; None; Some 4%nat] l.2).
Definition torn_life (l : life) : life := (l.1, snd (torn_post l)).
Definition torn_file (l : life) : option nat :=
  match content (fs (files (torn_life l).2)) (tmp_path (shard_path ["data"; "store"; ACTIVE_SIGNER_ID])) with
  | Some (Some b) => Some (length b)
  | _ => None
  end.

(** The key generation succeeds, the refresh fails and leaves a torn file. *)
Definition life_runs (l : life) : bool :=
  match fst (signer (st_state l.1) (failing [] (dkg_life l).2)) with
  | Ok i => bool_decide (info_public_key i = demo_pk 34)
  | Err _ => false
  end
  && bool_decide (torn_file (dkg_life l) = Some 3%nat)
  && negb (blocked (fs (files l.2)) [] (meta_path (shard_dir (cs_store (st_state l.1)))))
  && bool_decide (content (fs (files l.2)) (meta_path (shard_dir (cs_store (st_state l.1)))) = None)
  && bool_decide (content (fs (files l.2)) (shard_path (shard_dir (cs_store (st_state l.1)))) = None).
Example born_runs : match born with Some l => life_runs l | None => false end = true.
Proof. vm_compute. reflexivity. Qed.

Lemma born_apart : Forall (fun q => q ∉ own_files demo_cfg) (config_files demo_cfg).
Proof. apply (bool_decide_unpack _). vm_compute. exact I. Qed.

(** The party, started once more, still holds the key it generated. *)
Lemma generation_for_life_witness :
  exists b w0 s, demo_start = (Ok b, w0) /\
    rtc (lives (P := FleetRunner) (N := ToyNet) demo_cfg) (b, MkProc w0 false []) (b, s) /\
    start (A := ToyParse) demo_cfg (toy_sk 9) (no_faults (files s)) = (Ok b, no_faults (files s)) /\
    fst (signer (st_state b) (failing [] s)) = Ok (MkPublicKeyInfo (demo_pk 34)).
Proof.
  pose proof born_runs as Hb. unfold born in Hb. destruct demo_start as [[b|e] w0] eqn:E; [|discriminate Hb].
  set (l0 := (b, MkProc w0 false [])) in Hb. unfold life_runs in Hb.
  apply andb_true_iff in Hb as [[[[H1 _]%andb_true_iff H2%negb_true_iff]%andb_true_iff H3]%andb_true_iff H4].
  apply bool_decide_eq_true in H3, H4.
  assert (rtc (lives (P := FleetRunner) (N := ToyNet) demo_cfg) l0 (dkg_life l0)) as R1 by (apply rtc_once; apply Posted).
  assert (rtc (lives (P := FleetRunner) (N := ToyNet) demo_cfg) (dkg_life l0) (torn_life (dkg_life l0))) as R2
    by (apply rtc_once; apply Posted).
  destruct (generation_for_life demo_cfg (toy_sk 1) (toy_sk 2) demo_seeded b w0 Nothing b (dkg_life l0).2
              b (torn_life (dkg_life l0)).2 demo_identity born_apart E (conj H2 (conj H3 H4)) R1 R2)
    as (_ & Hs & g1 & g2 & _ & Hg & [T1 _] & [T2 _] & _).
  exists b, w0, (torn_life (dkg_life l0)).2. split; [reflexivity|].
  split; [exact (transitivity R1 R2)|]. split; [apply Hs|].
  rewrite T2. change (st_state l0.1) with (st_state b) in H1. rewrite T1 in H1.
  destruct g1 as [|pk|pk]; [discriminate H1|discriminate H1|]. apply bool_decide_eq_true in H1. cbn in H1. subst pk.
  destruct Hg as [->|Hg]; [reflexivity|discriminate Hg].
Defined.
