(* ===== verification/InProcess.v ===== *)
(** * The in-process backend ([crates/sovra-mpc-dkls23-carbon/src/inprocess.rs])

    All parties of a fleet in one process: every store, every identity key,
    one in-memory hub per run.  The runs themselves are the [PartyRunner]
    port; what a party receives from its peers through the hub is a parameter
    of each run ([Traffic]), so the theorems hold for every interleaving.  A
    run that never ends makes the whole operation never end ([None]): there is
    no timeout around it here. *)

From S2P Require Import Prelude Types Mpc Channel MemHub Network State Cosigner System.
From Stdlib Require Import String NArith Lia.
From stdpp Require Import base decidable list gmap strings.
Open Scope string_scope. Open Scope list_scope.

Section InProcess.
Context {C : Crypto} {P : PartyRunner} {J : MetaCodec} {Nw : Network} {X : HexCodec}.

(** 60 seconds. *)
(* src carbon/inprocess.rs:21-22 DEFAULT_TTL *)
Definition DEFAULT_TTL : Duration := 60000%N.

(* src carbon/inprocess.rs:24-30 InProcessBackend *)
Record InProcessBackend : Type := MkInProcess {
  stores : list SignerStore;
  signing_keys : list SigningKey;
  party_vks : list VerifyingKey;
  threshold : u8;
  ttl : Duration;
}.

(** [drawn i] is the key generated for the [i]-th store. *)
(* src carbon/inprocess.rs:33-46 InProcessBackend::new *)
Definition new (drawn : nat -> SigningKey) (stores : list SignerStore) (threshold : u8) : InProcessBackend :=
  let signing_keys := drawn <$> seq 0 (length stores) in
  MkInProcess stores signing_keys (verifying_key <$> signing_keys) threshold DEFAULT_TTL.

(** Futures joined: the list of their results once all are ready. *)
Definition join_all {A} (l : list (option A)) : option (list A) := mapM (fun x => x) l.

Section Backend.
Variable b : InProcessBackend.

(** A store operation whose error becomes an MPC error of kind [k]. *)
Definition on {A} (k : msg -> MpcError) (x : S_ A) : M world stop A :=
  mmap_err (fun e => Fail (k (state_error_text e))) x.

(* src carbon/inprocess.rs:54-62 InProcessBackend::recover_active *)
Fixpoint reports (party : nat) (l : list SignerStore) : M world stop (list (nat * option PubkeySec1)) :=
  match l with
  | [] => mpure []
  | store :: l =>
      let! a := on Dkg (load_active store ACTIVE_SIGNER_ID) in
      let! rest := reports (S party) l in
      mpure ((party, a) :: rest)
  end.

(* src carbon/inprocess.rs:48-71 InProcessBackend::recover_active *)
Definition recover_active : M world stop (option PubkeySec1) :=
  let! rs := reports 0 (stores b) in
  match rs with
  | [] => mabort (Panic "reports[0]")
  | (_, first) :: _ =>
      if existsb (fun r => negb (bool_decide (r.2 = first))) rs
      then mabort (Fail (Dkg ([Lit "shard stores disagree ("]
             ++ dbg_reports ((fun r => (N.of_nat r.1, r.2)) <$> rs)
             ++ [Lit "); partial dkg state — wipe the store dirs and re-run dkg"])))
      else mpure first
  end.

(* src carbon/inprocess.rs:73-82 InProcessBackend::ctx *)
Definition ctx (party_id : u8) (instance : B256) : result stop PartyContext :=
  match signing_keys b !! N.to_nat (wval party_id) with
  | None => Err (Panic "self.signing_keys[party_id]")
  | Some key => Ok (MkContext party_id instance key (party_vks b) (threshold b) (ttl b))
  end.

(** [p] ranges over [0..k as u8]. *)
Definition below (k : u8) : list u8 := (fun i => wmod 8 (N.of_nat i)) <$> seq 0 (N.to_nat (wval k)).

(** Every party's context and relay, in the order [join_all] collects them. *)
Fixpoint enter (instance : B256) (ids : list u8) : M MemoryHub stop (list PartyContext) :=
  match ids with
  | [] => mpure []
  | p :: ids =>
      let! c := mlift (ctx p instance) in
      let! _ := mem_connect p in
      let! cs := enter instance ids in
      mpure (c :: cs)
  end.

(* src carbon/inprocess.rs:105-109 InProcessBackend::persist_generation *)
Fixpoint save_all (nonces : nat -> array 24) (i : nat) (meta : SignerMetadata)
    (l : list (SignerStore * KeyShare)) : M world stop unit :=
  match l with
  | [] => mpure tt
  | (store, share) :: l =>
      let! _ := on Dkg (save_shard store (nonces i) meta share) in
      save_all nonces (S i) meta l
  end.

(** The first pair whose key differs. *)
Fixpoint differing (public_key : PubkeySec1) (pairs : list (KeyShare * PubkeySec1)) : option PubkeySec1 :=
  match pairs with
  | [] => None
  | (_, pk) :: pairs => if bool_decide (pk = public_key) then differing public_key pairs else Some pk
  end.

(* src carbon/inprocess.rs:84-111 InProcessBackend::persist_generation *)
Definition persist_generation (results : list (result MpcError (KeyShare * PubkeySec1))) (op : string)
    (nonces : nat -> array 24) : M world stop PubkeySec1 :=
  let! pairs := mlift (map_err Fail (collect results)) in
  match pairs with
  | [] => mabort (Panic "pairs[0]")
  | (_, public_key) :: _ =>
      match differing public_key pairs with
      | Some other =>
          mabort (Fail (PartyMismatch [Lit op; Lit " public keys differ: "; Lit (pk_to_string public_key);
                          Lit " != "; Lit (pk_to_string other)]))
      | None =>
          let! _ := save_all nonces 0 (MkMeta ACTIVE_SIGNER_ID public_key) (zip (stores b) pairs.*1) in
          mpure public_key
      end
  end.

(** What the outside contributes to an operation: the random instance, what
    each party receives in each run, and the sealing nonces. *)
Record draws : Type := MkDraws {
  d_instance : B256;
  d_traffic : B256 -> u8 -> Traffic;
  d_nonces : nat -> array 24;
}.

(** An operation that may never end. *)
Definition Op (A : Type) : Type := world -> option (result stop A * world).

(* src carbon/inprocess.rs:115-125 <InProcessBackend as MpcBackend>::dkg *)
Definition dkg (d : draws) : Op PubkeySec1 := fun w =>
  let instance := d_instance d in
  match fst (enter instance (below (wmod 8 (N.of_nat (length (stores b))))) mem_new) with
  | Err e => Some (Err e, w)
  | Ok ctxs =>
      match join_all ((fun c => keygen c (d_traffic d instance (party_id c))) <$> ctxs) with
      | None => None
      | Some results => Some (persist_generation results "dkg" (d_nonces d) w)
      end
  end.

(* src carbon/inprocess.rs:132-141 <InProcessBackend as MpcBackend>::sign *)
Definition derive_digests (network : NetworkId) (unsigned_tx : bytes) : result stop (list B256) :=
  match network with
  | Ethereum =>
      let? tx := map_err (fun e => Fail (Mpc.Sign (tx_error_text e))) (decode_unsigned unsigned_tx) in
      let? _ := map_err (fun e => Fail (Mpc.Sign (tx_error_text e))) (validate tx) in
      Ok (signing_digests tx)
  end.

(* src carbon/inprocess.rs:147-154 <InProcessBackend as MpcBackend>::sign *)
Fixpoint subset_shares (subset : list u8) : M world stop (list KeyShare) :=
  match subset with
  | [] => mpure []
  | p :: subset =>
      match stores b !! N.to_nat (wval p) with
      | None => mabort (Panic "self.stores[p]")
      | Some store =>
          let! share := on Mpc.Sign (load_shard store ACTIVE_SIGNER_ID) in
          let! rest := subset_shares subset in
          mpure (share :: rest)
      end
  end.

(** The parties' signatures of one digest must be one and the same. *)
(* src carbon/inprocess.rs:177-186 <InProcessBackend as MpcBackend>::sign *)
Definition unanimous (results : list (result MpcError EcdsaParts)) : result stop EcdsaParts :=
  let? all := map_err Fail (collect results) in
  match all with
  | [] => Err (Panic "all[0]")
  | parts :: _ =>
      if existsb (fun p => negb (bool_decide (p = parts))) all
      then Err (Fail (PartyMismatch [Lit "sign parts differ between parties"]))
      else Ok parts
  end.

(* src carbon/inprocess.rs:156-188 <InProcessBackend as MpcBackend>::sign *)
Fixpoint sign_each (d : draws) (subset : list u8) (shares : list KeyShare) (index : nat) (digests : list B256)
  : option (result stop (list EcdsaParts)) :=
  match digests with
  | [] => Some (Ok [])
  | digest :: digests =>
      let run_instance := sub_instance (d_instance d) (wmod 32 (N.of_nat index)) in
      match fst (enter run_instance subset mem_new) with
      | Err e => Some (Err e)
      | Ok ctxs =>
          match join_all ((fun cs => run_sign cs.1 cs.2 digest subset (d_traffic d run_instance (party_id cs.1)))
                            <$> zip ctxs shares) with
          | None => None
          | Some results =>
              match unanimous results with
              | Err e => Some (Err e)
              | Ok parts =>
                  match sign_each d subset shares (S index) digests with
                  | Some (Ok rest) => Some (Ok (parts :: rest))
                  | other => other
                  end
              end
          end
      end
  end.

(* src carbon/inprocess.rs:127-190 <InProcessBackend as MpcBackend>::sign *)
Definition sign (d : draws) (network : NetworkId) (unsigned_tx : bytes) : Op (list EcdsaParts) := fun w =>
  match derive_digests network unsigned_tx with
  | Err e => Some (Err e, w)
  | Ok digests =>
      let subset := below (threshold b) in
      match subset_shares subset w with
      | (Err e, w) => Some (Err e, w)
      | (Ok shares, w) => (fun r => (r, w)) <$> sign_each d subset shares 0 digests
      end
  end.

(* src carbon/inprocess.rs:197-205 <InProcessBackend as MpcBackend>::refresh *)
Fixpoint all_shares (l : list SignerStore) : M world stop (list KeyShare) :=
  match l with
  | [] => mpure []
  | store :: l =>
      let! share := on Dkg (load_shard store ACTIVE_SIGNER_ID) in
      let! rest := all_shares l in
      mpure (share :: rest)
  end.

(** [enumerate()], each index cast to [u8]. *)
Definition enumerated (n : nat) : list u8 := (fun i => wmod 8 (N.of_nat i)) <$> seq 0 n.

(* src carbon/inprocess.rs:192-226 <InProcessBackend as MpcBackend>::refresh *)
Definition refresh (d : draws) : Op PubkeySec1 := fun w =>
  match all_shares (stores b) w with
  | (Err e, w) => Some (Err e, w)
  | (Ok shares, w) =>
      match shares with
      | [] => Some (Err (Panic "shares[0]"), w)
      | share0 :: _ =>
          match public_key_of share0 with
          | Err e => Some (Err (Fail e), w)
          | Ok public_key =>
              let instance := d_instance d in
              match fst (enter instance (enumerated (length shares)) mem_new) with
              | Err e => Some (Err e, w)
              | Ok ctxs =>
                  match join_all ((fun cs => run_refresh cs.1 cs.2 public_key
                                               (d_traffic d instance (party_id cs.1))) <$> zip ctxs shares) with
                  | None => None
                  | Some results => Some (persist_generation results "refresh" (d_nonces d) w)
                  end
              end
          end
      end
  end.
End Backend.

(** ** What a store holds in its shard directory *)
(** No store keeps its shard inside another's signer directory. *)
Definition separate (l : list SignerStore) : Prop :=
  forall i j st st', i <> j -> l !! i = Some st -> l !! j = Some st' -> ~ shard_dir st `prefix_of` shard_dir st'.

Definition holds (pk : PubkeySec1) (share : KeyShare) (st : SignerStore) (f : gmap path State.node) : Prop :=
  content f (meta_path (shard_dir st)) = Some (Some (to_json (MkMeta ACTIVE_SIGNER_ID pk))) /\
  exists n c, seal_op (sealer st) n share = Ok c /\ content f (shard_path (shard_dir st)) = Some (Some c).

Lemma holds_reads {JL : MetaLaws J} pk share st w :
  sealer_ok (sealer st) -> holds pk share st (fs w) ->
  load_shard st ACTIVE_SIGNER_ID (no_faults w) = (Ok share, no_faults w) /\
  load_active st ACTIVE_SIGNER_ID (no_faults w) = (Ok (Some pk), no_faults w).
Proof.
  intros Hs (Hm & n & c & Hc & Hsh).
  pose proof (load_shard_quiet st _ _ w (shard_dir_ok st)) as L1. rewrite Hsh, (Hs _ _ _ Hc) in L1.
  pose proof (load_metadata_quiet st _ _ w (shard_dir_ok st)) as L2. rewrite Hm, json_roundtrip in L2.
  split; [done|]. unfold load_active. rewrite L2. cbn [ok_or]. by rewrite L1.
Qed.

Lemma sibling_files (d d' : path) n :
  ~ d `prefix_of` d' -> ~ (d ++ [n]) `prefix_of` d' /\ (d ++ [n]) ∉ save_files d'.
Proof.
  intros Hd. split.
  - intros Hp. apply Hd. etransitivity; [|exact Hp]. by apply prefix_app_r.
  - intros Hin. apply Hd. unfold save_files, meta_path, shard_path in Hin. rewrite !tmp_path_snoc in Hin.
    assert (exists m, d ++ [n] = d' ++ [m]) as [m Hm] by set_solver.
    apply app_inj_tail in Hm as [-> _]. done.
Qed.

Lemma save_holds nonce pk share st w w' :
  save_shard st nonce (MkMeta ACTIVE_SIGNER_ID pk) share w = (Ok tt, w') -> holds pk share st (fs w').
Proof.
  intros Hsv. destruct (save_shard_effect st _ (MkMeta ACTIVE_SIGNER_ID pk) _ _ _ _ _ (shard_dir_ok st) Hsv)
    as (_ & _ & Hn).
  destruct (Hn eq_refl) as (Hm & c & Hc & Hs). split; [exact Hm|]. by exists nonce, c.
Qed.

Lemma save_frames nonce meta share st' w w' pk0 share0 st :
  signer_id meta = ACTIVE_SIGNER_ID -> ~ shard_dir st `prefix_of` shard_dir st' ->
  save_shard st' nonce meta share w = (Ok tt, w') -> holds pk0 share0 st (fs w) -> holds pk0 share0 st (fs w').
Proof.
  intros Hid Hd Hsv (Hm & n & c & Hc & Hs).
  assert (forall m, content (fs w') (shard_dir st ++ [m]) = content (fs w) (shard_dir st ++ [m])) as Hsame.
  { intros m. destruct (sibling_files _ _ m Hd) as [Hp Hin].
    assert (signer_dir st' (signer_id meta) = Ok (shard_dir st')) as Hdir by (rewrite Hid; reflexivity).
    destruct (save_shard_effect st' _ _ _ _ _ _ _ Hdir Hsv) as (Hg & _). by apply (Hg _ Hin). }
  split; [unfold meta_path; by rewrite Hsame|]. exists n, c. split; [done|]. unfold shard_path. by rewrite Hsame.
Qed.

Lemma on_Ok {A} k (x : S_ A) w a w' : on k x w = (Ok a, w') <-> x w = (Ok a, w').
Proof. unfold on, mmap_err. destruct (x w) as [[] w1]; simpl; naive_solver. Qed.

Lemma separate_cons st l : separate (st :: l) -> separate l /\
  forall st', st' ∈ l -> ~ shard_dir st `prefix_of` shard_dir st'.
Proof.
  intros H. split.
  - intros i j s s' Hij Hi Hj. by apply (H (S i) (S j)); [congruence|..].
  - intros st' [j Hj]%list_elem_of_lookup. by apply (H 0%nat (S j)).
Qed.

(** Saving a generation leaves every store holding its own share. *)
Lemma save_all_holds nonces i pk l w w' :
  separate l.*1 -> save_all nonces i (MkMeta ACTIVE_SIGNER_ID pk) l w = (Ok tt, w') ->
  forall st share, (st, share) ∈ l -> holds pk share st (fs w').
Proof.
  assert (forall l i w w' st0 pk0 share0, save_all nonces i (MkMeta ACTIVE_SIGNER_ID pk) l w = (Ok tt, w') ->
            (forall st', st' ∈ l.*1 -> ~ shard_dir st0 `prefix_of` shard_dir st') ->
            holds pk0 share0 st0 (fs w) -> holds pk0 share0 st0 (fs w')) as Hframe.
  { clear. induction l as [|[st' share'] l IH]; intros i w w' st0 pk0 share0 Hs Hd Hh; [by injection Hs as <-|].
    cbn [save_all] in Hs. apply mbnd_Ok in Hs as ([] & w1 & H1%on_Ok & H2).
    eapply IH; [exact H2|intros; apply Hd; by right|]. eapply save_frames; [..|exact H1|exact Hh]; [done|].
    apply Hd. by left. }
  revert i w. induction l as [|[st0 share0] l IH]; intros i w Hsep Hs st share Hin.
  - by apply not_elem_of_nil in Hin.
  - cbn [save_all] in Hs. apply mbnd_Ok in Hs as ([] & w1 & H1%on_Ok & H2).
    apply separate_cons in Hsep as [Hsep Hd]. apply elem_of_cons in Hin as [[= -> ->]|Hin].
    + eapply Hframe; [exact H2|exact Hd|]. by eapply save_holds.
    + by eapply IH.
Qed.

(** ** What the pieces of an operation mean *)
Lemma join_all_Some {A} (l : list (option A)) r : join_all l = Some r <-> l = Some <$> r.
Proof.
  unfold join_all. rewrite mapM_Some. split.
  - induction 1; [done|]. cbn. by f_equal.
  - intros ->. induction r; constructor; auto.
Qed.

Section BackendLemmas.
Variable b : InProcessBackend.

Lemma enter_Ok instance ids h cs h' :
  enter b instance ids h = (Ok cs, h') -> Forall2 (fun p c => ctx b p instance = Ok c) ids cs.
Proof.
  revert h cs h'. induction ids as [|p ids IH]; intros h cs h' H; [by injection H as <- _|].
  cbn [enter] in H. apply mbnd_Ok in H as (c & h1 & [Hc _]%pair_eq & H).
  apply mbnd_Ok in H as (u & h2 & _ & H). apply mbnd_Ok in H as (cs' & h3 & H3 & H).
  injection H as <- _. constructor; [done|by eapply IH].
Qed.

Lemma ctx_party p instance c : ctx b p instance = Ok c -> party_id c = p.
Proof. unfold ctx. destruct (signing_keys b !! _); [|done]. by intros [= <-]. Qed.

Lemma differing_None pk pairs : differing pk pairs = None <-> Forall (fun x => x.2 = pk) pairs.
Proof.
  induction pairs as [|[sh k] pairs IH]; cbn [differing]; [split; [constructor|done]|]. rewrite Forall_cons. cbn [snd].
  case_bool_decide as Hk; [rewrite IH; by split; [split|intros [_ ?]]|]. split; [done|]. intros [? _]. congruence.
Qed.

Lemma persist_Ok results op nonces w pk w' :
  persist_generation b results op nonces w = (Ok pk, w') ->
  exists pairs, pairs <> [] /\ results = Ok <$> pairs /\ Forall (fun x => x.2 = pk) pairs /\
    save_all nonces 0 (MkMeta ACTIVE_SIGNER_ID pk) (zip (stores b) pairs.*1) w = (Ok tt, w').
Proof.
  unfold persist_generation. intros (pairs & w1 & [Hc <-]%pair_eq & H)%mbnd_Ok.
  apply map_err_Ok, collect_Ok in Hc. destruct pairs as [|[sh k] pairs]; [done|].
  destruct (differing k _) eqn:Hd; [done|]. apply mbnd_Ok in H as ([] & w2 & Hs & H). injection H as -> ->.
  exists ((sh, pk) :: pairs). split_and!; [done|done|by apply differing_None|done].
Qed.

(** A persisted generation: every store holds the share at its own place of
    the results. *)
Lemma persist_holds results op nonces w pk w' :
  separate (stores b) -> length results = length (stores b) ->
  persist_generation b results op nonces w = (Ok pk, w') ->
  stores b <> [] /\
  forall i st, stores b !! i = Some st -> exists share,
    results !! i = Some (Ok (share, pk)) /\ holds pk share st (fs w').
Proof.
  intros Hsep Hlen (pairs & Hne & -> & Hpk & Hs)%persist_Ok. rewrite length_fmap in Hlen.
  split; [intros H0; rewrite H0 in Hlen; by destruct pairs|]. intros i st Hi.
  assert (is_Some (pairs !! i)) as [[share k] Hp] by (apply lookup_lt_is_Some; apply lookup_lt_Some in Hi; lia).
  assert (k = pk) as -> by exact (Forall_lookup_1 _ _ _ _ Hpk Hp).
  exists share. split; [by rewrite list_lookup_fmap, Hp|].
  assert ((zip (stores b) pairs.*1).*1 = stores b) as Hz by (apply fst_zip; rewrite length_fmap; lia).
  eapply save_all_holds; [by rewrite Hz|exact Hs|]. apply (list_elem_of_lookup_2 _ i).
  apply lookup_zip_with_Some. exists st, share. rewrite list_lookup_fmap, Hp. done.
Qed.

(** The recovery scan over stores that all report [pk]. *)
Lemma reports_all k l w (a : option PubkeySec1) :
  (forall st, st ∈ l -> load_active st ACTIVE_SIGNER_ID w = (Ok a, w)) ->
  exists rs, reports k l w = (Ok rs, w) /\ length rs = length l /\ Forall (fun r => r.2 = a) rs.
Proof.
  revert k. induction l as [|st l IH]; intros k H; [by exists []|].
  destruct (IH (S k)) as (rs & Hr & Hl & Hf); [intros; apply H; by right|].
  exists ((k, a) :: rs). cbn [reports]. unfold mbnd, on, mmap_err.
  rewrite (H st) by left. cbn [map_err]. rewrite Hr. split_and!; [done|cbn; lia|by constructor].
Qed.

Lemma recover_all a w :
  stores b <> [] -> (forall st, st ∈ stores b -> load_active st ACTIVE_SIGNER_ID w = (Ok a, w)) ->
  recover_active b w = (Ok a, w).
Proof.
  intros Hne H. destruct (reports_all 0 (stores b) w a H) as (rs & Hr & Hl & Hf).
  unfold recover_active, mbnd. rewrite Hr. destruct rs as [|[i x] rs]; [by destruct (stores b)|].
  assert (x = a) as -> by (apply Forall_inv in Hf; done).
  destruct (existsb _ _) eqn:E; [|done]. apply existsb_exists in E as (r & Hin & E).
  rewrite Forall_forall in Hf. apply list_elem_of_In in Hin. rewrite (Hf r Hin) in E.
  by rewrite bool_decide_eq_true_2 in E.
Qed.

Lemma all_shares_Ok l w shares w' :
  all_shares l w = (Ok shares, w') ->
  fs w' = fs w /\
  Forall2 (fun st share => load_shard st ACTIVE_SIGNER_ID (no_faults w) = (Ok share, no_faults w)) l shares.
Proof.
  revert w shares w'. induction l as [|st l IH]; intros w shares w' H; [by injection H as <- <-|].
  cbn [all_shares] in H. apply mbnd_Ok in H as (share & w1 & [Hf Hl]%on_Ok%load_shard_Ok & H).
  apply mbnd_Ok in H as (rest & w2 & [Hf2 Hl2]%IH & H). injection H as <- <-.
  split; [congruence|]. constructor; [done|]. unfold no_faults in *. by rewrite <- Hf.
Qed.

Lemma subset_shares_Ok subset w shares w' :
  subset_shares b subset w = (Ok shares, w') ->
  fs w' = fs w /\
  Forall2 (fun p share => exists st, stores b !! N.to_nat (wval p) = Some st /\
             load_shard st ACTIVE_SIGNER_ID (no_faults w) = (Ok share, no_faults w)) subset shares.
Proof.
  revert w shares w'. induction subset as [|p subset IH]; intros w shares w' H; [by injection H as <- <-|].
  cbn [subset_shares] in H. destruct (stores b !! _) as [st|] eqn:Hst; [|done].
  apply mbnd_Ok in H as (share & w1 & [Hf Hl]%on_Ok%load_shard_Ok & H).
  apply mbnd_Ok in H as (rest & w2 & [Hf2 Hl2]%IH & H). injection H as <- <-.
  split; [congruence|]. constructor; [by exists st|]. unfold no_faults in *. by rewrite <- Hf.
Qed.

Lemma unanimous_Ok results parts :
  unanimous results = Ok parts <-> results <> [] /\ Forall (eq (Ok parts)) results.
Proof.
  unfold unanimous. rewrite rbind_Ok. split.
  - intros (all & Hc%map_err_Ok%collect_Ok & H). destruct all as [|p0 all]; [done|].
    destruct (existsb _ _) eqn:E; [done|]. injection H as <-. subst results. split; [done|].
    apply Forall_fmap, Forall_forall. intros p Hin. cbn. f_equal. symmetry.
    destruct (decide (p = p0)) as [|Hne]; [done|]. exfalso.
    apply not_true_iff_false in E. apply E, existsb_exists. exists p.
    split; [by apply list_elem_of_In|]. by rewrite bool_decide_eq_false_2.
  - intros [Hne Hall]. exists (replicate (length results) parts).
    assert (results = Ok <$> replicate (length results) parts) as Hr.
    { rewrite fmap_replicate. clear Hne. induction Hall as [|x l Hx _ IH]; [done|]. cbn. by rewrite <- Hx, <- IH. }
    split; [apply map_err_Ok, collect_Ok; exact Hr|].
    destruct results as [|r0 results]; [done|]. cbn [length replicate].
    destruct (existsb _ _) eqn:E; [|done]. apply existsb_exists in E as (p & Hin & E).
    assert (p = parts) as ->.
    { apply list_elem_of_In in Hin. change (parts :: replicate (length results) parts)
        with (replicate (S (length results)) parts) in Hin. by apply elem_of_replicate in Hin as [-> _]. }
    by rewrite bool_decide_eq_true_2 in E.
Qed.

(** Joining the runs of the parties that entered. *)
Lemma entered_runs {A B} instance ids (vals : list A) (run : PartyContext -> A -> option B) rs h' :
  forall ctxs, enter b instance ids mem_new = (Ok ctxs, h') -> length vals = length ids ->
  join_all ((fun cv => run cv.1 cv.2) <$> zip ctxs vals) = Some rs ->
  length rs = length ids /\
  forall i p v r, ids !! i = Some p -> vals !! i = Some v -> rs !! i = Some r ->
    exists c, ctx b p instance = Ok c /\ run c v = Some r.
Proof.
  intros ctxs He%enter_Ok Hlen Hj%join_all_Some. pose proof (Forall2_length _ _ _ He) as Hl.
  assert (length rs = length ids) as Hrs.
  { apply (f_equal length) in Hj. rewrite !length_fmap, length_zip in Hj. lia. }
  split; [done|]. intros i p v r Hp Hv Hr.
  destruct (Forall2_lookup_l _ _ _ _ _ He Hp) as (c & Hc & Hctx). exists c. split; [done|].
  apply (f_equal (fun l => l !! i)) in Hj. rewrite !list_lookup_fmap, Hr in Hj.
  assert (zip ctxs vals !! i = Some (c, v)) as Hz by (apply lookup_zip_with_Some; by exists c, v).
  rewrite Hz in Hj. cbn in Hj. by injection Hj as ->.
Qed.

Lemma entered_alone {B} instance ids (run : PartyContext -> option B) rs h' :
  forall ctxs, enter b instance ids mem_new = (Ok ctxs, h') ->
  join_all (run <$> ctxs) = Some rs ->
  length rs = length ids /\
  forall i p r, ids !! i = Some p -> rs !! i = Some r ->
    exists c, ctx b p instance = Ok c /\ run c = Some r.
Proof.
  intros ctxs He Hj. pose proof (Forall2_length _ _ _ (enter_Ok _ _ _ _ _ He)) as Hl.
  assert (zip ctxs (replicate (length ids) tt) = (fun c => (c, tt)) <$> ctxs) as Hz.
  { rewrite Hl. clear. induction ctxs as [|c ctxs IH]; [done|]. cbn. by f_equal. }
  destruct (entered_runs instance ids (replicate (length ids) tt) (fun c _ => run c) rs h' ctxs He) as [Hrs Hrun].
  - apply length_replicate.
  - rewrite Hz, <- list_fmap_compose. exact Hj.
  - split; [done|]. intros i p r Hp Hr.
    eapply Hrun; [exact Hp|apply lookup_replicate; split; [done|by eapply lookup_lt_Some]|exact Hr].
Qed.

Lemma sign_each_Ok d subset shares k digests sigs :
  length shares = length subset ->
  sign_each b d subset shares k digests = Some (Ok sigs) ->
  length sigs = length digests /\
  forall i digest sg, digests !! i = Some digest -> sigs !! i = Some sg ->
    let run := sub_instance (d_instance d) (wmod 32 (N.of_nat (k + i))) in
    subset <> [] /\
    forall j p share, subset !! j = Some p -> shares !! j = Some share ->
      exists c, ctx b p run = Ok c /\ run_sign c share digest subset (d_traffic d run p) = Some (Ok sg).
Proof.
  intros Hlen. revert k sigs. induction digests as [|digest0 digests IH]; intros k sigs H.
  { injection H as <-. split; [done|]. intros i digest sg Hi. by rewrite lookup_nil in Hi. }
  cbn [sign_each] in H. set (run0 := sub_instance _ _) in H.
  destruct (enter b run0 subset mem_new) as [[ctxs|] h'] eqn:He; cbn [fst] in H; [|done].
  destruct (join_all _) as [results|] eqn:Hj in H; [|done].
  destruct (unanimous results) as [parts|] eqn:Hu; [|done].
  destruct (sign_each b d subset shares (S k) digests) as [[rest|]|] eqn:Hr; try done. injection H as <-.
  destruct (IH (S k) rest Hr) as [Hl Hall].
  apply (entered_runs run0 subset shares
    (fun c share => run_sign c share digest0 subset (d_traffic d run0 (party_id c))) _ _ ctxs He Hlen) in Hj as [Hrs Hj].
  apply unanimous_Ok in Hu as [Hne Hu]. split; [cbn; lia|]. intros [|i] digest sg Hi Hs.
  - injection Hi as <-. injection Hs as <-. rewrite Nat.add_0_r. fold run0. cbv zeta.
    split; [intros ->; by destruct results|]. intros j p share Hp Hsh.
    assert (results !! j = Some (Ok parts)) as Hres.
    { apply lookup_lt_Some in Hp. destruct (lookup_lt_is_Some_2 results j) as [r Hr']; [lia|].
      rewrite Hr'. f_equal. symmetry. exact (Forall_lookup_1 _ _ _ _ Hu Hr'). }
    destruct (Hj j p share (Ok parts) Hp Hsh Hres) as (c & Hc & Hrun). exists c. split; [done|].
    by rewrite (ctx_party _ _ _ Hc) in Hrun.
  - replace (k + S i)%nat with (S k + i)%nat by lia. by apply Hall.
Qed.

Lemma below_small n : (n < 256)%nat -> below (wmod 8 (N.of_nat n)) = enumerated n.
Proof.
  intros Hn. unfold below, enumerated. rewrite wmod_small, Nat2N.id; [done|].
  change (2 ^ 8)%N with 256%N. lia.
Qed.

Lemma enumerated_lookup n i p : enumerated n !! i = Some p <-> (i < n)%nat /\ p = wmod 8 (N.of_nat i).
Proof.
  unfold enumerated. rewrite list_lookup_fmap_Some. setoid_rewrite lookup_seq. naive_solver.
Qed.

(** Every party of the fleet can enter a run once. *)
Lemma mem_connect_fresh p h :
  boxes h !! p = None ->
  exists i h', mem_connect p h = (Ok i, h') /\ forall q, q <> p -> boxes h' !! q = boxes h !! q.
Proof.
  intros Hp. unfold mem_connect, mem_entry. rewrite Hp. destruct (ch_new (queues h)) as [c i].
  exists i. eexists. split; [reflexivity|]. intros q Hq. cbn [boxes]. by rewrite !lookup_insert_ne.
Qed.

Lemma enter_total instance ids h :
  NoDup ids -> (forall p, p ∈ ids -> boxes h !! p = None /\ is_Some (signing_keys b !! N.to_nat (wval p))) ->
  exists cs h', enter b instance ids h = (Ok cs, h').
Proof.
  revert h. induction ids as [|p ids IH]; intros h Hnd Hp; [by exists [], h|].
  apply NoDup_cons in Hnd as [Hnot Hnd].
  destruct (Hp p) as [Hb [key Hk]]; [by left|].
  destruct (mem_connect_fresh p h Hb) as (i & h1 & Hc & Hsame).
  destruct (IH h1 Hnd) as (cs & h2 & He).
  { intros q Hq. rewrite Hsame by (intros ->; done). apply Hp. by right. }
  exists (MkContext p instance key (party_vks b) (threshold b) (ttl b) :: cs), h2.
  cbn [enter]. unfold mbnd at 1, mlift, ctx. rewrite Hk. unfold mbnd at 1. rewrite Hc.
  unfold mbnd. by rewrite He.
Qed.

Lemma enumerated_NoDup n : (n <= 256)%nat -> NoDup (enumerated n).
Proof.
  intros Hn. unfold enumerated. apply NoDup_fmap_2_strong; [|apply NoDup_seq].
  intros i j Hi%elem_of_seq Hj%elem_of_seq H. apply (f_equal wval) in H.
  rewrite !wmod_small in H by (change (2 ^ 8)%N with 256%N; lia). lia.
Qed.

Lemma enter_enumerated instance n :
  (n <= length (signing_keys b))%nat -> (n <= 256)%nat ->
  exists cs h', enter b instance (enumerated n) mem_new = (Ok cs, h').
Proof.
  intros Hk Hn. apply enter_total; [by apply enumerated_NoDup|]. intros p (i & Hi)%list_elem_of_lookup.
  apply enumerated_lookup in Hi as [Hi ->]. split; [done|]. apply lookup_lt_is_Some.
  rewrite wmod_small by (change (2 ^ 8)%N with 256%N; lia). lia.
Qed.
End BackendLemmas.

(** ** Properties *)
Lemma keys_length drawn sts t : length (signing_keys (new drawn sts t)) = length sts.
Proof. unfold new. cbn [signing_keys]. by rewrite length_fmap, length_seq. Qed.

Lemma enumerated_length n : length (enumerated n) = n.
Proof. unfold enumerated. by rewrite length_fmap, length_seq. Qed.

Section Properties.
Context {JL : MetaLaws J}.
Variables (drawn : nat -> SigningKey) (sts : list SignerStore) (t : u8).
Let b := new drawn sts t.
Hypothesis sts_separate : separate sts.
Hypothesis sts_sealed : forall st, st ∈ sts -> sealer_ok (sealer st).
Hypothesis sts_bounded : (length sts < 256)%nat.

Lemma persisted results op nonces w pk w' :
  length results = length sts -> persist_generation b results op nonces w = (Ok pk, w') ->
  (forall i st, sts !! i = Some st -> exists share,
     results !! i = Some (Ok (share, pk)) /\
     load_shard st ACTIVE_SIGNER_ID (no_faults w') = (Ok share, no_faults w')) /\
  recover_active b (no_faults w') = (Ok (Some pk), no_faults w').
Proof.
  intros Hlen Hp. destruct (persist_holds b _ _ _ _ _ _ sts_separate Hlen Hp) as [Hne Hall].
  split.
  - intros i st Hi. destruct (Hall i st Hi) as (share & Hr & Hh). exists share. split; [done|].
    apply (holds_reads pk); [|done]. by apply sts_sealed, (list_elem_of_lookup_2 _ i).
  - apply recover_all; [done|]. intros st (i & Hi)%list_elem_of_lookup.
    destruct (Hall i st Hi) as (share & _ & Hh). apply (holds_reads pk share); [|done].
    by apply sts_sealed, (list_elem_of_lookup_2 _ i).
Qed.

Definition dkg_party (d : draws) (pk : PubkeySec1) (w' : world) (i : nat) (st : SignerStore) : Prop :=
  exists c share,
    ctx b (wmod 8 (N.of_nat i)) (d_instance d) = Ok c /\
    keygen c (d_traffic d (d_instance d) (party_id c)) = Some (Ok (share, pk)) /\
    load_shard st ACTIVE_SIGNER_ID (no_faults w') = (Ok share, no_faults w').

Definition refreshed_party (d : draws) (pk : PubkeySec1) (w w' : world) (i : nat) (st : SignerStore) : Prop :=
  exists c old share,
    ctx b (wmod 8 (N.of_nat i)) (d_instance d) = Ok c /\
    load_shard st ACTIVE_SIGNER_ID (no_faults w) = (Ok old, no_faults w) /\
    public_key_of old = Ok pk /\ public_key_of share = Ok pk /\
    run_refresh c old pk (d_traffic d (d_instance d) (party_id c)) = Some (Ok (share, pk)) /\
    load_shard st ACTIVE_SIGNER_ID (no_faults w') = (Ok share, no_faults w').

Lemma dkg_everywhere d w pk w' :
  dkg b d w = Some (Ok pk, w') ->
  (forall i st, sts !! i = Some st -> dkg_party d pk w' i st) /\
  recover_active b (no_faults w') = (Ok (Some pk), no_faults w').
Proof.
  intros H. unfold dkg in H. change (stores b) with sts in H. rewrite below_small in H by done.
  destruct (enter b _ _ _) as [[ctxs|] h'] eqn:He; cbn [fst] in H; [|done].
  destruct (join_all _) as [results|] eqn:Hj; [|done]. injection H as H.
  destruct (entered_alone b _ _ (fun c => keygen c (d_traffic d (d_instance d) (party_id c)))
              results _ ctxs He Hj) as [Hrs Hrun].
  rewrite enumerated_length in Hrs. destruct (persisted _ _ _ _ _ _ Hrs H) as [Hall Hrec]. split; [|done].
  intros i st Hi. destruct (Hall i st Hi) as (share & Hr & Hl). apply lookup_lt_Some in Hi.
  destruct (Hrun i _ _ (proj2 (enumerated_lookup _ _ _) (conj Hi eq_refl)) Hr) as (c & Hc & Hk).
  by exists c, share.
Qed.

Lemma refresh_everywhere {PL : RunnerLaws P} d w pk w' :
  refresh b d w = Some (Ok pk, w') ->
  (forall i st, sts !! i = Some st -> refreshed_party d pk w w' i st) /\
  recover_active b (no_faults w') = (Ok (Some pk), no_faults w').
Proof.
  intros H. unfold refresh in H. change (stores b) with sts in H.
  destruct (all_shares sts w) as [[shares|] w1] eqn:Hs; [|done]. apply all_shares_Ok in Hs as [Hf Hs].
  pose proof (Forall2_length _ _ _ Hs) as Hls. destruct shares as [|share0 rest]; [done|].
  set (shares := share0 :: rest) in *. destruct (public_key_of share0) as [anchor|] eqn:Hk; [|done].
  destruct (enter b _ _ _) as [[ctxs|] h'] eqn:He; cbn [fst] in H; [|done].
  destruct (join_all _) as [results|] eqn:Hj; [|done]. injection H as H.
  destruct (entered_runs b _ _ shares
              (fun c old => run_refresh c old anchor (d_traffic d (d_instance d) (party_id c))) results _ ctxs He)
    as [Hrs Hrun]; [by rewrite enumerated_length|exact Hj|].
  rewrite enumerated_length, <- Hls in Hrs. destruct (persisted _ _ _ _ _ _ Hrs H) as [Hall Hrec].
  split; [|done]. intros i st Hi. destruct (Hall i st Hi) as (share & Hr & Hl).
  destruct (Forall2_lookup_l _ _ _ _ _ Hs Hi) as (old & Ho & Hold). apply lookup_lt_Some in Hi.
  rewrite Hls in Hi.
  destruct (Hrun i (wmod 8 (N.of_nat i)) old _ (proj2 (enumerated_lookup _ _ _) (conj Hi eq_refl)) Ho Hr)
    as (c & Hc & Hrf).
  destruct (refresh_key _ _ _ _ _ _ Hrf) as (-> & Hko & Hkn). by exists c, old, share.
Qed.

(** C36: a generation is on every disk.  If the in-process backend's key
    generation succeeds, each store holds the share its own party's run
    returned and recovery reports the key; if a refresh succeeds, every store
    held a share of that same key, each party refreshed its own, and every
    store now holds the refreshed one. *)
Theorem generation_everywhere {PL : RunnerLaws P} d w pk w' :
  (dkg b d w = Some (Ok pk, w') ->
   (forall i st, sts !! i = Some st -> dkg_party d pk w' i st) /\
   recover_active b (no_faults w') = (Ok (Some pk), no_faults w')) /\
  (refresh b d w = Some (Ok pk, w') ->
   (forall i st, sts !! i = Some st -> refreshed_party d pk w w' i st) /\
   recover_active b (no_faults w') = (Ok (Some pk), no_faults w')).
Proof. split; [apply dkg_everywhere|apply refresh_everywhere]. Qed.

(** A signature is the quorum's, over the transaction's own digests.  The
    digests are derived from the decoded, valid bytes; there is one signature
    for each, and each of the first [t] parties' runs, with its own stored
    share on the instance derived for that digest, returned that very
    signature; the disk is not touched. *)
Theorem inprocess_sign_unanimous d network raw w sigs w' :
  sign b d network raw w = Some (Ok sigs, w') ->
  fs w' = fs w /\
  exists tx, decode_unsigned raw = Ok tx /\ validate tx = Ok tt /\
    length sigs = length (signing_digests tx) /\
    forall i digest sg, signing_digests tx !! i = Some digest -> sigs !! i = Some sg ->
      (0 < wval t)%N /\
      forall p, p ∈ below t -> exists st share c,
        sts !! N.to_nat (wval p) = Some st /\
        load_shard st ACTIVE_SIGNER_ID (no_faults w) = (Ok share, no_faults w) /\
        ctx b p (sub_instance (d_instance d) (wmod 32 (N.of_nat i))) = Ok c /\
        run_sign c share digest (below t)
          (d_traffic d (sub_instance (d_instance d) (wmod 32 (N.of_nat i))) p) = Some (Ok sg).
Proof.
  unfold sign. destruct network. unfold derive_digests.
  destruct (decode_unsigned raw) as [tx|]; cbn [map_err rbind]; [|done].
  destruct (validate tx) as [[]|] eqn:Hv; cbn [map_err rbind]; [|done]. change (threshold b) with t.
  destruct (subset_shares b (below t) w) as [[shares|] w1] eqn:Hs; [|done].
  apply subset_shares_Ok in Hs as [Hf Hs]. pose proof (Forall2_length _ _ _ Hs) as Hl.
  destruct (sign_each b d (below t) shares 0 (signing_digests tx)) as [r|] eqn:Hr; [|done].
  intros [= -> <-]. apply sign_each_Ok in Hr as [Hlen Hall]; [|done].
  split; [done|]. exists tx. split_and!; try done. intros i digest sg Hd Hsg.
  destruct (Hall i digest sg Hd Hsg) as [Hne Hp]. split.
  { destruct (decide (wval t = 0)%N) as [Hz|Hz]; [|by apply N.neq_0_lt_0]. exfalso. apply Hne. unfold below. by rewrite Hz. }
  intros p (j & Hj)%list_elem_of_lookup. destruct (Forall2_lookup_l _ _ _ _ _ Hs Hj) as (share & Hsh & st & Hst & Hld).
  destruct (Hp j p share Hj Hsh) as (c & Hc & Hrun). by exists st, share, c.
Qed.
End Properties.

(** *** Panics *)
Section Panics.
Variables (drawn : nat -> SigningKey) (sts : list SignerStore) (t : u8).
Let b := new drawn sts t.
Hypothesis sts_bounded : (length sts < 256)%nat.

Definition calm_run {A} (x : M world stop A) : Prop := forall w what w', x w <> (Err (Panic what), w').

Lemma calm_bind {A B} (x : M world stop A) (f : A -> M world stop B) :
  calm_run x -> (forall a w w', x w = (Ok a, w') -> calm_run (f a)) -> calm_run (mbnd x f).
Proof. intros Hx Hf w what w' [H|(a & w1 & Ha & H)]%mbnd_Err; [by eapply Hx|by eapply Hf]. Qed.

Lemma calm_on {A} k (x : S_ A) : calm_run (on k x).
Proof. intros w what w'. unfold on, mmap_err. destruct (x w) as [[] w1]; by intros [=]. Qed.

Lemma calm_reports k l : calm_run (reports k l).
Proof.
  revert k. induction l as [|st l IH]; intros k; [done|]. cbn [reports].
  apply calm_bind; [apply calm_on|]. intros a _ _ _. apply calm_bind; [apply IH|done].
Qed.

Lemma calm_save_all nonces i meta l : calm_run (save_all nonces i meta l).
Proof.
  revert i. induction l as [|[st share] l IH]; intros i; [done|]. cbn [save_all].
  apply calm_bind; [apply calm_on|done].
Qed.

Lemma calm_all_shares l : calm_run (all_shares l).
Proof.
  induction l as [|st l IH]; [done|]. cbn [all_shares]. apply calm_bind; [apply calm_on|].
  intros a _ _ _. apply calm_bind; [apply IH|done].
Qed.

Lemma collect_length {E A} (l : list (result E A)) r : collect l = Ok r -> length r = length l.
Proof. intros ->%collect_Ok. by rewrite length_fmap. Qed.

Lemma calm_persist results op nonces : results <> [] -> calm_run (persist_generation b results op nonces).
Proof.
  intros Hne. unfold persist_generation. apply calm_bind.
  { intros w what w' [H _]%pair_eq. by destruct (collect results). }
  intros pairs w w' [Hc%map_err_Ok%collect_length _]%pair_eq. destruct pairs as [|[sh k] pairs].
  { by destruct results. }
  destruct (differing _ _); [done|]. apply calm_bind; [apply calm_save_all|done].
Qed.

Lemma unanimous_calm results what : results <> [] -> unanimous results <> Err (Panic what).
Proof.
  intros Hne. unfold unanimous. intros [H|(all & Hc%map_err_Ok%collect_length & H)]%rbind_Err.
  - by destruct (collect results).
  - destruct all; [by destruct results|]. by destruct (existsb _ _).
Qed.

Lemma sign_each_calm d k shares digests what :
  (0 < wval t)%N -> (N.to_nat (wval t) <= length sts)%nat -> length shares = length (below t) ->
  sign_each b d (below t) shares k digests <> Some (Err (Panic what)).
Proof.
  intros H0 Ht Hl. assert (below t = enumerated (N.to_nat (wval t))) as Hb by reflexivity.
  revert k. induction digests as [|digest digests IH]; intros k; [done|]. cbn [sign_each].
  destruct (enter_enumerated b (sub_instance (d_instance d) (wmod 32 (N.of_nat k))) (N.to_nat (wval t)))
    as (cs & h' & He); [unfold b; rewrite keys_length; lia|lia|]. rewrite <- Hb in He. rewrite He. cbn [fst].
  destruct (join_all _) as [results|] eqn:Hj; [|done].
  apply (entered_runs b _ _ shares (fun c share => run_sign c share digest (below t)
           (d_traffic d (sub_instance (d_instance d) (wmod 32 (N.of_nat k))) (party_id c))) _ _ cs He Hl) in Hj as [Hrs _].
  rewrite Hb, enumerated_length in Hrs.
  destruct (unanimous results) as [parts|e] eqn:Hu.
  - specialize (IH (S k)). destruct (sign_each b d (below t) shares (S k) digests) as [[]|]; [done| |done]. exact IH.
  - intros [= ->]. apply unanimous_calm in Hu; [done|]. intros ->. cbn in Hrs. lia.
Qed.

Lemma subset_calm : (N.to_nat (wval t) <= length sts)%nat -> calm_run (subset_shares b (below t)).
Proof.
  intros Ht. assert (forall p, p ∈ below t -> is_Some (sts !! N.to_nat (wval p))) as Hin.
  { intros p (i & Hi)%list_elem_of_lookup. apply (enumerated_lookup (N.to_nat (wval t))) in Hi as [Hi ->].
    apply lookup_lt_is_Some. rewrite wmod_small by (change (2 ^ 8)%N with 256%N; lia). lia. }
  induction (below t) as [|p l IH]; [done|]. cbn [subset_shares].
  destruct (Hin p) as [st Hst]; [by left|]. change (stores b) with sts. rewrite Hst.
  apply calm_bind; [apply calm_on|]. intros share _ _ _.
  apply calm_bind; [apply IH; intros; apply Hin; by right|done].
Qed.

(** No operation panics.  With at least one store, fewer than 256, and a
    threshold between one and their number, none of the indexings, casts and
    relay connections of the backend can panic, whatever fails on disk or in
    the runs. *)
Theorem inprocess_never_panics d network raw w what w' :
  sts <> [] -> (0 < wval t)%N -> (N.to_nat (wval t) <= length sts)%nat ->
  dkg b d w <> Some (Err (Panic what), w') /\ sign b d network raw w <> Some (Err (Panic what), w') /\
  refresh b d w <> Some (Err (Panic what), w') /\ recover_active b w <> (Err (Panic what), w').
Proof.
  intros Hne H0 Ht.
  assert (0 < length sts)%nat as Hpos by (destruct sts; [done|cbn; lia]).
  split_and!.
  - unfold dkg. change (stores b) with sts. rewrite below_small by done.
    destruct (enter_enumerated b (d_instance d) (length sts)) as (cs & h' & He); [unfold b; rewrite keys_length; lia|lia|].
    rewrite He. cbn [fst]. destruct (join_all _) as [results|] eqn:Hj; [|done].
    apply (entered_alone b _ _ _ _ _ cs He) in Hj as [Hrs _]. rewrite enumerated_length in Hrs.
    intros [= H]. apply calm_persist in H; [done|]. intros ->. cbn in Hrs. lia.
  - unfold sign. destruct (derive_digests network raw) as [digests|e] eqn:Hd.
    2:{ intros [= -> _]. unfold derive_digests in Hd. destruct network.
        destruct (decode_unsigned raw) as [tx|]; [|done]. cbn in Hd. by destruct (validate tx). }
    destruct (subset_shares b (below (threshold b)) w) as [[shares|e] w1] eqn:Hs.
    + pose proof Hs as [_ Hf]%subset_shares_Ok. apply Forall2_length in Hf.
      destruct (sign_each _ _ _ _ _ _) as [r|] eqn:Hr; [|done]. intros [= -> _].
      by apply (sign_each_calm d 0 shares digests what H0 Ht) in Hr.
    + intros [= -> _]. by apply subset_calm in Hs.
  - unfold refresh. change (stores b) with sts.
    destruct (all_shares sts w) as [[shares|e] w1] eqn:Hs.
    2:{ intros [= -> _]. by apply calm_all_shares in Hs. }
    apply all_shares_Ok in Hs as [_ Hs]. apply Forall2_length in Hs.
    destruct shares as [|share0 rest]; [cbn in Hs; lia|]. destruct (public_key_of share0); [|done].
    destruct (enter_enumerated b (d_instance d) (length (share0 :: rest))) as (cs & h' & He);
      [unfold b; rewrite keys_length; lia|lia|]. rewrite He. cbn [fst].
    destruct (join_all _) as [results|] eqn:Hj; [|done].
    apply (entered_runs b _ _ (share0 :: rest) (fun c old => run_refresh c old a (d_traffic d (d_instance d) (party_id c)))
             _ _ cs He) in Hj as [Hrs _]; [|by rewrite enumerated_length]. rewrite enumerated_length in Hrs.
    intros [= H]. apply calm_persist in H; [done|]. intros ->. cbn in Hrs. lia.
  - unfold recover_active. intros [H|(rs & w1 & Hr & H)]%mbnd_Err; [by apply calm_reports in H|].
    destruct rs as [|[i x] rs]; [|by destruct (existsb _ _)].
    change (stores b) with sts in Hr. destruct sts; [done|]. cbn [reports] in Hr.
    apply mbnd_Ok in Hr as (? & ? & _ & Hr). by apply mbnd_Ok in Hr as (? & ? & _ & ?).
Qed.
End Panics.

(** The [u8] cast of the party count wraps: with 256 stores no party runs. *)
Lemma dkg_of_256_panics drawn sts t d w :
  length sts = 256%nat -> dkg (new drawn sts t) d w = Some (Err (Panic "pairs[0]"), w).
Proof.
  intros Hl. unfold dkg. change (stores (new drawn sts t)) with sts. rewrite Hl.
  assert (below (wmod 8 (N.of_nat 256)) = []) as -> by reflexivity. reflexivity.
Qed.
End InProcess.

(** ** Witnesses: three stores on one disk, two of three parties sign. *)
Definition ip_store (n : string) : SignerStore := MkStore [n; "store"] (XChaChaSealer (toy_key 3)).
Definition ip_stores : list SignerStore := [ip_store "p0"; ip_store "p1"; ip_store "p2"].
Definition ip_keys (i : nat) : @SigningKey ToyCrypto := toy_key (N.of_nat i).
Definition ip_backend : InProcessBackend := new ip_keys ip_stores (wmod 8 2).
Definition ip_draws : draws (P := FleetRunner) :=
  MkDraws (P := FleetRunner) (array_repeat 32 (wmod 8 5)) (fun _ _ => true) (fun _ => nonce0).
Definition world_after {A} (x : option (result stop A * world)) : world :=
  match x with Some (_, w) => w | None => World ∅ [] end.
Definition ip_dkg := dkg (P := FleetRunner) ip_backend ip_draws (World ∅ []).

Lemma ip_dkg_ok : ip_dkg = Some (Ok (demo_pk 34), world_after ip_dkg).
Proof. vm_cast_no_check (eq_refl ip_dkg). Qed.

Lemma ip_separate : separate ip_stores.
Proof.
  assert (forall n m, n <> m -> ~ shard_dir (ip_store n) `prefix_of` shard_dir (ip_store m)) as Hn
    by (intros n m Hnm [l [= ->]]; done).
  intros [|[|[|i]]] [|[|[|j]]] st st' Hij [= <-] [= <-]; try done; by apply Hn.
Qed.

Lemma ip_sealed st : st ∈ ip_stores -> sealer_ok (sealer st).
Proof.
  intros Hin. assert (sealer st = XChaChaSealer (toy_key 3)) as ->; [|exact (xchacha_sealer_ok (toy_key 3))].
  repeat (apply elem_of_cons in Hin as [->|Hin]; [reflexivity|]). by apply not_elem_of_nil in Hin.
Qed.

Lemma ip_small : (length ip_stores < 256)%nat.
Proof. apply Nat.ltb_lt. reflexivity. Qed.

Lemma generation_everywhere_witness :
  recover_active ip_backend (no_faults (world_after ip_dkg)) = (Ok (Some (demo_pk 34)), no_faults (world_after ip_dkg)).
Proof.
  refine (proj2 (proj1 (generation_everywhere (P := FleetRunner) ip_keys ip_stores (wmod 8 2) ip_separate ip_sealed ip_small
            ip_draws (World ∅ []) (demo_pk 34) (world_after ip_dkg)) ip_dkg_ok)).
Defined.

Definition ip_sig : EcdsaParts := MkEcdsaParts (wmod 256 (be_val (replicate 20 (wmod 8 170)))) (wmod 256 5) false.
Definition ip_sign := sign (P := FleetRunner) (Nw := ToyNet) ip_backend ip_draws Ethereum [wmod 8 42] (world_after ip_dkg).
Lemma ip_sign_ok : ip_sign = Some (Ok [ip_sig], world_after ip_sign).
Proof. vm_cast_no_check (eq_refl ip_sign). Qed.

Lemma inprocess_sign_unanimous_witness : fs (world_after ip_sign) = fs (world_after ip_dkg).
Proof.
  exact (proj1 (inprocess_sign_unanimous (P := FleetRunner) (Nw := ToyNet) ip_keys ip_stores (wmod 8 2) ip_draws
                  Ethereum [wmod 8 42] _ [ip_sig] _ ip_sign_ok)).
Defined.

Lemma inprocess_never_panics_witness :
  ip_sign <> Some (Err (Panic "all[0]"), World ∅ []) /\ (length ip_stores < 256)%nat.
Proof.
  split; [|exact ip_small].
  refine (proj1 (proj2 (inprocess_never_panics (P := FleetRunner) (Nw := ToyNet) ip_keys ip_stores (wmod 8 2) ip_small
            ip_draws Ethereum [wmod 8 42] (world_after ip_dkg) "all[0]" (World ∅ []) _ _ _))); [discriminate|reflexivity|].
  apply Nat.leb_le. reflexivity.
Defined.

(** A save that fails on the second store leaves the first one with the new
    generation: recovery then refuses to start. *)
Definition ip_torn := dkg (P := FleetRunner) ip_backend ip_draws (World ∅ (replicate 10 None ++ [Some 0%nat])).
Example torn_generation :
  match ip_torn with Some (Err (Fail (Dkg _)), w) => is_ok (fst (recover_active ip_backend (no_faults w))) | _ => true end = false.
Proof. vm_compute. reflexivity. Qed.
