(* ===== verification/EndToEnd.v ===== *)
(** * End to end: the public API over the fleet

    The transition system of [Api] with its backend's answers coming from the
    fleet of [System]: whenever a task waiting for signatures is handed some,
    [RemoteBackend] obtained them from cosigner processes. *)

From S2P Require Import Prelude Types Mpc Network Policy State Eth Api Control Remote Cosigner System.
From Stdlib Require Import String NArith.
From stdpp Require Import base decidable list gmap strings.
Open Scope string_scope. Open Scope list_scope.

Section EndToEnd.
Context {C : Crypto} {P : PartyRunner} {J : MetaCodec} {Al : Alloy} {Nw : Network} {X : HexCodec}.
Context {Jl : JsonLib} {Js : JsonServer} {JLaws : JsonLaws Jl Js}.
Variable cs : list (u8 * Url).
Variable t : BinNums.N.

(** The signatures an event hands to a waiting task were obtained from a
    fleet.  The fleet, its links and what each process holds may be different
    at every call. *)
Definition from_fleet (h : api) (e : Api.event) : Prop :=
  match e with
  | BackendSigs id (Ok sigs) =>
      forall net raw tx d a, tasks h !! id = Some (PostSign net raw, SignRunning tx d a) ->
        exists f l probe instance, placed f cs /\
          remote_sign (fleet_post f l) probe (MkRemote cs t) instance ID raw = Ok sigs
  | _ => True
  end.

Inductive sys_reachable (a0 : option PubkeySec1) : api -> Prop :=
  | sys_new : sys_reachable a0 (api_new a0)
  | sys_step h e : sys_reachable a0 h -> from_fleet h e -> sys_reachable a0 (api_step h e).

Lemma sys_reachable_api a0 h : sys_reachable a0 h -> Api.reachable a0 h.
Proof. induction 1; [constructor|by constructor]. Qed.

(** At some point a quorum of the fleet allowed a transaction with digest [d]. *)
Definition quorum_allowed (d : B256) : Prop :=
  exists f raw tx ds signers, placed f cs /\ quorum_allows f cs t raw tx signers /\
    signing_digests tx = d :: ds.

(** Only a finished signing run adds to the cache. *)
Lemma signed_step h e d resp :
  signed (api_step h e) !! d = Some resp ->
  signed h !! d = Some resp \/
  exists id sigs rq tx a, e = BackendSigs id (Ok sigs) /\ tasks h !! id = Some (rq, SignRunning tx d a).
Proof.
  assert (forall id rq p, signed (task_step id rq p h) = signed h) as Hstep.
  { intros id rq p. destruct p; cbn [task_step]; try done; destruct rq as [| |[] u]; cbn;
      unfold try_lock; repeat match goal with |- context [match ?x with _ => _ end] => destruct x end; done. }
  destruct e as [id rq|id|id r|id r|id]; cbn [api_step]; destruct (tasks h !! id) as [[rq1 p]|] eqn:Hid;
    try (intros H; by left).
  - rewrite Hstep. by left.
  - destruct p; try (intros H; by left); unfold dkg_finish.
    destruct (map_err Api.Mpc r); intros H; by left.
  - destruct p as [| | |tx digest a| | | | | |]; try (intros H; by left). unfold sign_finish.
    destruct (sign_response tx digest a r) as [resp'|e] eqn:Hr; [|intros H; by left]. cbn.
    intros [[<- <-]|[_ H]]%lookup_insert_Some; [right|by left].
    destruct r as [sigs|e]; [|done]. by exists id, sigs, rq1, tx, a.
  - destruct (suspended p); [|intros H; by left]. destruct (holding p); intros H; by left.
Qed.

Context {client : result IpcError unit} {b : RemoteBackend}.
Hypothesis backend_built : remote_new cs t client = Ok b.

Lemma cache_allowed a0 h d resp :
  sys_reachable a0 h -> signed h !! d = Some resp -> quorum_allowed d.
Proof.
  induction 1 as [|h e Hr IH Hfl]; [intros H; unfold api_new in H; cbn in H; by rewrite lookup_empty in H|].
  intros [H|(id & sigs & rq & tx & a & -> & Hid)]%signed_step; [by apply IH|].
  pose proof (api_reachable_inv _ _ (sys_reachable_api _ _ Hr)) as Hinv.
  destruct (inv_tasks h Hinv _ _ _ Hid) as ((net & raw & ds & -> & Hd & _ & Hds) & _ & _).
  destruct (Hfl _ _ _ _ _ Hid) as (f & l & probe & instance & Hpl & Hs).
  assert (b = MkRemote cs t) as Hb by (by apply remote_new_Ok in backend_built as [-> _]).
  rewrite <- Hb in Hs.
  destruct (fleet_sign_runs f l cs t client b probe instance ID raw sigs backend_built Hpl Hs)
    as (tx' & signers & Hq & _).
  exists f, raw, tx', ds, signers. split; [done|]. split; [done|].
  destruct Hq as (_ & _ & _ & Hd' & _). rewrite Hd in Hd'. by injection Hd' as <-.
Qed.

(** C1: no signature without a quorum's consent.  However requests, hang-ups
    and the fleet's answers interleave, a [/v1/sign] that is answered 200,
    from the cache or from a fresh run, is for bytes that decode to a
    transaction whose digest [t] configured cosigners, with distinct party
    ids, had allowed under their own policies when it was signed. *)
Theorem answered_by_quorum a0 h id net raw resp :
  sys_reachable a0 h ->
  answered h id (PostSign net raw) (Ok (SignOk resp)) ->
  (exists tx ds, Network.decode_unsigned raw = Ok tx /\ signing_digests tx = sr_digest resp :: ds) /\
  quorum_allowed (sr_digest resp).
Proof.
  intros Hr Hid. pose proof (api_reachable_inv _ _ (sys_reachable_api _ _ Hr)) as Hinv.
  destruct (inv_tasks h Hinv _ _ _ Hid) as (tx & d & (n' & u' & ds & [= <- <-] & Hd & _ & Hds) & Hs).
  pose proof (cache_allowed _ _ _ _ Hr Hs) as Hq.
  apply (inv_cache h Hinv) in Hs as (a & _ & tx' & ds' & parts & out & _ & _ & _ & _ & _ & _ & Hdig).
  rewrite Hdig. split; [by exists tx, ds|done].
Qed.
End EndToEnd.

(** ** From preparing to signing *)
Section Prepared.
Context {C : Crypto} {P : PartyRunner} {J : MetaCodec} {Al : Alloy} {AL : AlloyLaws Al}.

(** C33: prepared transactions are ready to sign.  The bytes [/v1/prepare]
    answers are decoded, validated and hashed by [/v1/sign] to the digest it
    announced, and the sender is the active key's address.  Every cosigner
    puts exactly the requested chain, recipient, value and data to its policy:
    it goes on to sign that digest if the policy allows them, and refuses with
    the policy's reason if not. *)
Theorem prepare_then_sign pk body p resp :
  prepare (Some pk) body p = Ok resp ->
  address_from_sec1 pk = Ok (pr_from resp) /\
  exists (tx : Network.Unsigned (Network := EthereumNetwork)) c,
    vet_tx (pr_unsigned resp) = Ok (tx, [pr_digest resp]) /\ get_chain_id p = Ok c /\
    let view := TxViewEthereum (MkEthTxView c (p_to body) (p_value body) (p_data body)) in
    Network.policy_view tx = view /\
    forall policy, Cosigner.vet (N := EthereumNetwork) policy (pr_unsigned resp) =
      match evaluate policy view with
      | Allow => Ok [pr_digest resp]
      | Deny reason => Err (PolicyDenied reason)
      end.
Proof.
  intros (Hf & tx & c & Hv & Hc & Hview)%prepared_signs. split; [done|]. exists tx, c. split_and!; [done..|].
  intros policy. apply vet_tx_Ok in Hv as (Hd & Hok & Hds). unfold vet. rewrite Hd. cbn [map_err rbind].
  rewrite Hok. cbn [map_err rbind]. rewrite Hview, <- Hds. done.
Qed.
End Prepared.

(** ** A witness: two racing requests over a 2-of-3 fleet. *)
Definition eth_policy : Policy := MkPolicy [wmod 64 1; wmod 64 11155111] Any (wmod 256 1000000) true true.
Definition eth_fleet : fleet (P := FleetRunner) := fun u =>
  if bool_decide (url_text u = "https://a") then Some (fleet_node 0 eth_policy fleet_world)
  else if bool_decide (url_text u = "https://b") then Some (fleet_node 1 eth_policy fleet_world)
  else if bool_decide (url_text u = "https://c") then Some (fleet_node 2 eth_policy fleet_world)
  else None.

Lemma eth_fleet_signs :
  remote_sign (fleet_post (Nw := EthereumNetwork) eth_fleet all_up) fleet_probe fleet_backend demo_instance
    (ID (Network := EthereumNetwork)) demo_raw = Ok [Api.demo_sig].
Proof. vm_cast_no_check (eq_refl (Ok (E := stop) [Api.demo_sig])). Qed.

Lemma eth_fleet_placed : placed eth_fleet fleet_cosigners.
Proof.
  intros p u nd Hin. apply elem_of_cons in Hin as [[-> ->]%pair_eq|Hin].
  { change (Some (fleet_node 2 eth_policy fleet_world) = Some nd -> cs_party_id (nd_state nd) = wmod 8 2).
    intros H. apply (inj Some) in H as <-. reflexivity. }
  apply elem_of_cons in Hin as [[-> ->]%pair_eq|Hin].
  { change (Some (fleet_node 0 eth_policy fleet_world) = Some nd -> cs_party_id (nd_state nd) = wmod 8 0).
    intros H. apply (inj Some) in H as <-. reflexivity. }
  apply list_elem_of_singleton in Hin. apply pair_eq in Hin as [-> ->].
  change (Some (fleet_node 1 eth_policy fleet_world) = Some nd -> cs_party_id (nd_state nd) = wmod 8 1).
  intros H. apply (inj Some) in H as <-. reflexivity.
Qed.

Definition waits_on (h : api (N := EthereumNetwork)) (id : nat) : bool :=
  match tasks h !! id with
  | Some (PostSign _ raw, _) => bool_decide (raw = demo_raw)
  | _ => true
  end.

(** Every event of the demonstration run is the fleet's. *)
Lemma demo_run_backed : sys_reachable (Nw := EthereumNetwork) fleet_cosigners 2 (Some Api.demo_pk) demo_run.
Proof.
  unfold demo_run, demo_events, api_run. cbn [foldl].
  do 4 (apply sys_step; [|exact I]). apply sys_step; [do 6 (apply sys_step; [|exact I]); constructor|].
  set (h := api_step _ _). intros net raw tx d a Hid.
  assert (waits_on h 0 = true) as Hw by (vm_compute; reflexivity).
  unfold waits_on in Hw. rewrite Hid in Hw. apply bool_decide_eq_true in Hw as ->.
  exists eth_fleet, all_up, fleet_probe, demo_instance. split; [exact eth_fleet_placed|exact eth_fleet_signs].
Qed.

Lemma answered_by_quorum_witness :
  exists resp, answered demo_run 1 (PostSign Ethereum demo_raw) (Ok (SignOk resp)) /\
    quorum_allowed (Nw := EthereumNetwork) (P := FleetRunner) fleet_cosigners 2 (sr_digest resp).
Proof.
  destruct (answered_sign_inv _ _ _ (proj2 (andb_prop _ _ demo_answers))) as [resp Hr].
  exists resp. split; [exact Hr|].
  exact (proj2 (answered_by_quorum (Nw := EthereumNetwork) fleet_cosigners 2 fleet_new (Some Api.demo_pk) demo_run 1
                  Ethereum demo_raw resp demo_run_backed Hr)).
Defined.

Lemma prepare_then_sign_witness :
  exists resp tx, demo_prepare = Ok resp /\
    vet_tx (N := EthereumNetwork) (pr_unsigned resp) = Ok (tx, [pr_digest resp]) /\
    Cosigner.vet (N := EthereumNetwork) eth_policy (pr_unsigned resp) = Ok [pr_digest resp] /\
    Cosigner.vet (N := EthereumNetwork) strict_policy (pr_unsigned resp)
      = Err (PolicyDenied (Policy.ChainId (wmod 64 1))).
Proof.
  pose proof demo_prepare_ok as Hs. destruct demo_prepare as [resp|e] eqn:E; [|discriminate Hs].
  destruct (prepare_then_sign _ _ _ _ E) as (_ & tx & c & H & [= <-] & _ & Hv). exists resp, tx.
  split; [reflexivity|]. split; [exact H|]. split; rewrite Hv; vm_compute; reflexivity.
Defined.
